(** * router1: negotiated-congestion router of nextpnr (common/router1.cc)

    A shallow embedding of the path finder ([Router::route]), the two
    [Router] constructors, [ripup_net], the rip-up loop [router1] and
    [Context::getActualRouteDelay], followed by the properties of the
    routing core.

    Conventions of the embedding.
    - The opaque handles [WireId], [PipId], [BelId] and [IdString] are
      integers; each has one sentinel value (the default-constructed handle).
    - [delay_t] and the [int] counters are integers of [Z]; the division of
      C++ truncates ([Z.quot]).  Signed overflow is undefined in C++ and
      lies outside the model.
    - The device, the binding proxy and the random generator are declared in
      headers that are not part of this file: they form the interface
      [Arch].  Everything below is generic in the instance.
    - Exceptions and non-termination are explicit: every operation returns a
      [result]; each loop of the source that has no syntactic bound takes a
      fuel argument and reports the loop that exhausted it.
    - Log output is not modelled. *)

From stdpp Require Import base option list sorting gmap fin_maps fin_sets.
From Stdlib Require Import ZArith Lia.

Local Open Scope Z_scope.

(** ** Handles *)

Abbreviation WireId := Z (only parsing).
Abbreviation PipId := Z (only parsing).
Abbreviation BelId := Z (only parsing).
Abbreviation IdString := Z (only parsing).
Abbreviation PortPin := Z (only parsing).
Abbreviation delay_t := Z (only parsing).

(** [WireId()], [PipId()], [BelId()] and [IdString()]. *)
Definition WireId_none : Z := -1.
Definition PipId_none : Z := -1.
Definition BelId_none : Z := -1.
Definition IdString_empty : Z := 0.

(** ** Outcomes *)

(** What the code can throw. *)
Inductive exception : Type :=
  | LogExecutionError   (* log_error: log_execution_error_exception *)
  | AssertionFailure    (* NPNR_ASSERT *)
  | OutOfRange          (* unordered_map::at on a missing key *)
  | NullPointer.        (* dereference of a null cell pointer *)

(** An operation of the proxy returns or throws. *)
Inductive thrown (A : Type) : Type :=
  | Returns (a : A)
  | Throws (x : exception).
Arguments Returns {A} a.
Arguments Throws {A} x.

#[global] Instance thrown_ret : MRet thrown := λ A a, Returns a.
#[global] Instance thrown_bind : MBind thrown := λ A B f m,
  match m with
  | Returns a => f a
  | Throws x => Throws x
  end.

(** The code of this file throws, or one of its loops does not finish. *)
Inductive error : Type :=
  | Exn (x : exception)
  | FuelSearch          (* the while loop of Router::route *)
  | FuelTrace           (* a while (1) back-trace *)
  | FuelLoop.           (* the while loop of router1 *)

Inductive result (A : Type) : Type :=
  | Ok (a : A)
  | Err (e : error).
Arguments Ok {A} a.
Arguments Err {A} e.

#[global] Instance result_ret : MRet result := λ A a, Ok a.
#[global] Instance result_bind : MBind result := λ A B f m,
  match m with
  | Ok a => f a
  | Err e => Err e
  end.

Definition throw {A : Type} (x : exception) : result A := Err (Exn x).

(** A call into the proxy. *)
Definition call {A : Type} (t : thrown A) : result A :=
  match t with
  | Returns a => Ok a
  | Throws x => throw x
  end.

Definition assert (b : bool) : result unit :=
  if b then Ok tt else throw AssertionFailure.

(** Monadic left fold: the body of a range-based [for]. *)
Fixpoint foldM {A B : Type} (f : A → B → result A) (a : A) (l : list B) : result A :=
  match l with
  | [] => Ok a
  | b :: l' => a' ← f a b; foldM f a' l'
  end.

(** ** The interface to the device, the binding proxy and the generator *)

Class Arch : Type := {
  (** the mutable binding state behind [rproxy()] / [rwproxy()], including
      the [wires] map of every net *)
  archstate : Type;
  (* read-only device queries *)
  getPipsDownhill : WireId → list PipId;
  getPipDstWire : PipId → WireId;
  getPipSrcWire : PipId → WireId;
  (** [getPipDelay(pip).avgDelay()] *)
  getPipDelay : PipId → delay_t;
  estimateDelay : WireId → WireId → delay_t;
  getDelayEpsilon : delay_t;
  getRipupDelayPenalty : delay_t;
  getWireBelPin : BelId → PortPin → WireId;
  portPinFromId : IdString → PortPin;
  (* proxy, read *)
  checkWireAvail : archstate → WireId → bool;
  checkPipAvail : archstate → PipId → bool;
  getConflictingWireNet : archstate → WireId → IdString;
  getConflictingPipNet : archstate → PipId → IdString;
  (** [net_info->wires] as the pairs (wire, [PipMap::pip]) in iteration order *)
  net_wires : archstate → IdString → list (WireId * PipId);
  (* proxy, write; the strength is always STRENGTH_WEAK *)
  bindWire : archstate → WireId → IdString → thrown archstate;
  unbindWire : archstate → WireId → thrown archstate;
  bindPip : archstate → PipId → IdString → thrown archstate;
  unbindPip : archstate → PipId → thrown archstate;
  (* deterministic generator on its 64-bit state *)
  rng : Z → Z * Z;
  shuffle : ∀ A : Type, Z → list A → list A * Z;
  sorted_shuffle : Z → list IdString → list IdString * Z;
  (** a shuffle rearranges *)
  shuffle_perm : ∀ (A : Type) (g : Z) (l : list A), (shuffle A g l).1 ≡ₚ l;
}.

(** ** Data of router1.cc *)

Record QueuedWire : Type := mkQueuedWire {
  wire : WireId;
  pip : PipId;
  delay : delay_t;
  togo : delay_t;
  randtag : Z;
}.

#[global] Instance QueuedWire_eq_dec : EqDecision QueuedWire.
Proof. solve_decision. Defined.

(** A default-constructed [QueuedWire]. *)
Definition QueuedWire_default : QueuedWire :=
  mkQueuedWire WireId_none PipId_none 0 0 0.

(** [QueuedWire::Greater]. *)
Definition Greater (lhs rhs : QueuedWire) : bool :=
  let l := delay lhs + togo lhs in
  let r := delay rhs + togo rhs in
  if l =? r then randtag lhs >? randtag rhs else l >? r.

Record RipupScoreboard : Type := mkScoreboard {
  wireScores : gmap Z Z;
  pipScores : gmap Z Z;
  netWireScores : gmap (Z * Z) Z;
  netPipScores : gmap (Z * Z) Z;
}.

Definition scores_empty : RipupScoreboard := mkScoreboard ∅ ∅ ∅ ∅.

(** [m[k]++] on an [unordered_map<K, int>]: a missing key starts at 0. *)
Definition incr `{Countable K} (k : K) (m : gmap K Z) : gmap K Z :=
  <[k := default 0 (m !! k) + 1]> m.

(** ** The priority queue

    [std::priority_queue<QueuedWire, vector, Greater>]: [top] is an element
    that no other element is smaller than.  The standard leaves the choice
    among equal elements to the heap; here the queue is the list of its
    elements, newest first, and [top] is the first least one. *)

Definition pq_push (qw : QueuedWire) (q : list QueuedWire) : list QueuedWire := qw :: q.

Fixpoint pq_pop (q : list QueuedWire) : option (QueuedWire * list QueuedWire) :=
  match q with
  | [] => None
  | x :: q' =>
      match pq_pop q' with
      | None => Some (x, [])
      | Some (y, r) => if Greater x y then Some (y, x :: r) else Some (x, q')
      end
  end.

(** ** Router::route *)

(** The members of [Router] that a search reads and never writes.  The
    member [scores] is a copy of the scoreboard, made when the [Router] is
    constructed. *)
Record RouterCfg : Type := mkCfg {
  scores : RipupScoreboard;
  net_name : IdString;
  ripup : bool;
  ripup_penalty : delay_t;
}.

(** What a search writes: its locals [queue], [thisVisitCnt] and
    [thisVisitCntLimit], the members [visited], [revisitCnt] and
    [overtimeRevisitCnt], and the state of [ctx->rng()]. *)
Record SearchState : Type := mkSearch {
  queue : list QueuedWire;
  s_visited : gmap Z QueuedWire;
  s_rng : Z;
  thisVisitCnt : Z;
  thisVisitCntLimit : Z;
  s_revisitCnt : Z;
  s_overtimeRevisitCnt : Z;
}.

Section Search.
Context {dev : Arch}.
Variable cfg : RouterCfg.
Variable a : archstate.
Variable dst_wire : WireId.

(** Lines 152-168: the wire side of a pip.  [None] is [continue]. *)
Definition check_wire (next_wire : WireId) (next_delay : delay_t)
    : option (delay_t * bool) :=
  if checkWireAvail a next_wire then Some (next_delay, false)
  else if negb (ripup cfg) then None
  else
    let ripupWireNet := getConflictingWireNet a next_wire in
    if bool_decide (ripupWireNet = net_name cfg) || bool_decide (ripupWireNet = IdString_empty)
    then None
    else
      let d1 := match wireScores (scores cfg) !! next_wire with
                | Some s => next_delay + Z.quot (s * ripup_penalty cfg) 8
                | None => next_delay
                end in
      let d2 := match netWireScores (scores cfg) !! (ripupWireNet, next_wire) with
                | Some s => d1 + s * ripup_penalty cfg
                | None => d1
                end in
      Some (d2, true).

(** Lines 170-186: the pip itself. *)
Definition check_pip (p : PipId) (next_delay : delay_t) (foundRipupNet : bool)
    : option (delay_t * bool) :=
  if checkPipAvail a p then Some (next_delay, foundRipupNet)
  else if negb (ripup cfg) then None
  else
    let ripupPipNet := getConflictingPipNet a p in
    if bool_decide (ripupPipNet = net_name cfg) || bool_decide (ripupPipNet = IdString_empty)
    then None
    else
      let d1 := match pipScores (scores cfg) !! p with
                | Some s => next_delay + Z.quot (s * ripup_penalty cfg) 8
                | None => next_delay
                end in
      let d2 := match netPipScores (scores cfg) !! (ripupPipNet, p) with
                | Some s => d1 + s * ripup_penalty cfg
                | None => d1
                end in
      Some (d2, true).

(** Lines 147-191: the cost of arriving over [p] from the popped entry, or
    [None] when the pip is passed over; the assertion of line 191 can
    fail. *)
Definition pip_cost (qw : QueuedWire) (p : PipId) : result (option delay_t) :=
  let next_delay := delay qw + getPipDelay p in
  let next_wire := getPipDstWire p in
  match check_wire next_wire next_delay with
  | None => Ok None
  | Some (d1, found1) =>
      match check_pip p d1 found1 with
      | None => Ok None
      | Some (d2, found2) =>
          let d3 := if found2 then d2 + ripup_penalty cfg else d2 in
          _ ← assert (0 <=? d3);
          Ok (Some d3)
      end
  end.

(** Lines 193-218.  The value drawn from the generator is stored in the
    popped entry [qw]; [next_qw] keeps the [randtag] of its default
    construction. *)
Definition relax (qw : QueuedWire) (st : SearchState) (p : PipId) (next_delay : delay_t)
    : QueuedWire * SearchState :=
  let next_wire := getPipDstWire p in
  let improve (revisit overtime : Z) :=
    let next_qw := mkQueuedWire next_wire p next_delay (estimateDelay next_wire dst_wire) 0 in
    let '(r, g) := rng (s_rng st) in
    (mkQueuedWire (wire qw) (pip qw) (delay qw) (togo qw) r,
     mkSearch (pq_push next_qw (queue st)) (<[next_wire := next_qw]> (s_visited st)) g
              (thisVisitCnt st) (thisVisitCntLimit st) revisit overtime) in
  match s_visited st !! next_wire with
  | Some old =>
      if delay old <=? next_delay + getDelayEpsilon then (qw, st)
      else if thisVisitCntLimit st =? 0
           then improve (s_revisitCnt st + 1) (s_overtimeRevisitCnt st)
           else improve (s_revisitCnt st) (s_overtimeRevisitCnt st + 1)
  | None => improve (s_revisitCnt st) (s_overtimeRevisitCnt st)
  end.

(** One turn of the [for] loop over the downhill pips (lines 146-219). *)
Definition examine_pip (qs : QueuedWire * SearchState) (p : PipId)
    : result (QueuedWire * SearchState) :=
  let '(qw, st) := qs in
  let st1 := mkSearch (queue st) (s_visited st) (s_rng st) (thisVisitCnt st + 1)
                      (thisVisitCntLimit st) (s_revisitCnt st) (s_overtimeRevisitCnt st) in
  c ← pip_cost qw p;
  match c with
  | None => Ok (qw, st1)
  | Some next_delay => Ok (relax qw st1 p next_delay)
  end.

(** Line 139. *)
Definition search_continues (st : SearchState) : bool :=
  negb (bool_decide (queue st = []))
  && ((thisVisitCntLimit st =? 0) || (thisVisitCnt st <? thisVisitCntLimit st)).

(** Lines 143-144, right after the pop. *)
Definition engage_limit (st : SearchState) : Z :=
  if (thisVisitCntLimit st =? 0) && bool_decide (is_Some (s_visited st !! dst_wire))
  then Z.quot (thisVisitCnt st * 3) 2
  else thisVisitCntLimit st.

(** Lines 140-144: the state once the top [qw] is popped, [q'] being the
    rest of the queue. *)
Definition after_pop (st : SearchState) (q' : list QueuedWire) : SearchState :=
  mkSearch q' (s_visited st) (s_rng st) (thisVisitCnt st)
           (engage_limit st) (s_revisitCnt st) (s_overtimeRevisitCnt st).

(** One turn of the [while] loop (lines 140-219). *)
Definition route_step (st : SearchState) : result SearchState :=
  match pq_pop (queue st) with
  | None => Ok st
  | Some (qw, q') =>
      qs ← foldM examine_pip (qw, after_pop st q') (getPipsDownhill (wire qw));
      Ok qs.2
  end.

Fixpoint route_loop (fuel : nat) (st : SearchState) : result SearchState :=
  if search_continues st then
    match fuel with
    | O => Err FuelSearch
    | S fuel' => st' ← route_step st; route_loop fuel' st'
    end
  else Ok st.

(** Lines 124-134: one source wire. *)
Definition push_source (st : SearchState) (src : WireId * delay_t) : SearchState :=
  let '(r, g) := rng (s_rng st) in
  let qw := mkQueuedWire src.1 PipId_none src.2 (estimateDelay src.1 dst_wire) r in
  mkSearch (pq_push qw (queue st)) (<[src.1 := qw]> (s_visited st)) g
           (thisVisitCnt st) (thisVisitCntLimit st) (s_revisitCnt st) (s_overtimeRevisitCnt st).

(** Lines 120-137: the state on entry to the [while] loop. *)
Definition search_init (src_wires : gmap Z Z) (g revisit overtime : Z) : SearchState :=
  fold_left push_source (map_to_list src_wires) (mkSearch [] ∅ g 0 0 revisit overtime).

End Search.

(** ** The netlist (nextpnr.h), as far as the router reads it *)

Record CellInfo : Type := mkCell {
  cell_name : IdString;
  cell_type : IdString;
  bel : BelId;
  pins : gmap Z Z;
}.

(** [cell] is a pointer and can be null. *)
Record PortRef : Type := mkPortRef {
  cell : option CellInfo;
  port : IdString;
}.

(** [NetInfo] without its [wires], which live in the binding state. *)
Record NetInfo : Type := mkNet {
  driver : PortRef;
  users : list PortRef;
}.

Record Context {dev : Arch} : Type := mkContext {
  nets : gmap Z NetInfo;
  arch : archstate;
  rngstate : Z;
  debug : bool;
}.
Arguments mkContext {dev} _ _ _ _.

(** The members of [Router] that change after its construction started. *)
Record Router : Type := mkRouter {
  rippedNets : gset Z;
  visited : gmap Z QueuedWire;
  visitCnt : Z;
  revisitCnt : Z;
  overtimeRevisitCnt : Z;
  routedOkay : bool;
  maxDelay : delay_t;
  failedDest : WireId;
}.

(** The default member initialisers (lines 111-116). *)
Definition Router_init : Router := mkRouter ∅ ∅ 0 0 0 false 0 WireId_none.

(** [visited[w]]: [operator[]] enters a default value for a missing key. *)
Definition visited_index (v : gmap Z QueuedWire) (w : WireId) : QueuedWire * gmap Z QueuedWire :=
  match v !! w with
  | Some q => (q, v)
  | None => (QueuedWire_default, <[w := QueuedWire_default]> v)
  end.

(** [map.at(k)]. *)
Definition at_ `{Countable K} {V : Type} (m : gmap K V) (k : K) : result V :=
  match m !! k with
  | Some v => Ok v
  | None => throw OutOfRange
  end.

Section RouterDefs.
Context {dev : Arch}.

(** Lines 77-100. *)
Definition ripup_net (ns : gmap Z NetInfo) (a : archstate) (name : IdString)
    : result archstate :=
  _ ← at_ ns name;
  let ws := net_wires a name in
  let pips := omap (λ wp : Z * Z, if bool_decide (wp.2 ≠ PipId_none) then Some wp.2 else None) ws in
  let wires := omap (λ wp : Z * Z, if bool_decide (wp.2 ≠ PipId_none) then None else Some wp.1) ws in
  a1 ← foldM (λ b p, call (unbindPip b p)) a pips;
  a2 ← foldM (λ b w, call (unbindWire b w)) a1 wires;
  _ ← assert (bool_decide (net_wires a2 name = []));
  Ok a2.

(** Lines 118-223, a method of [Router]: [g] is the state of [ctx->rng()]. *)
Definition route (fuel : nat) (cfg : RouterCfg) (a : archstate) (g : Z) (r : Router)
    (src_wires : gmap Z Z) (dst_wire : WireId) : result (Router * Z) :=
  let st0 := search_init dst_wire src_wires g (revisitCnt r) (overtimeRevisitCnt r) in
  st ← route_loop cfg a dst_wire fuel st0;
  Ok (mkRouter (rippedNets r) (s_visited st) (visitCnt r + thisVisitCnt st)
               (s_revisitCnt st) (s_overtimeRevisitCnt st)
               (routedOkay r) (maxDelay r) (failedDest r),
      s_rng st).

(** Lines 240-249: the walk that prints the route in debug mode. *)
Fixpoint debug_walk (fuel : nat) (v : gmap Z QueuedWire) (src_wire cursor : WireId)
    : result (gmap Z QueuedWire) :=
  let '(q, v1) := visited_index v cursor in
  if bool_decide (cursor = src_wire) then Ok v1
  else
    match fuel with
    | O => Err FuelTrace
    | S fuel' => debug_walk fuel' v1 src_wire (getPipSrcWire (pip q))
    end.

(** Lines 225-251: the constructor from a pair of wires.  [net_name] is
    default-constructed, [ripup] and [ripup_penalty] have their default
    arguments. *)
Definition Router_wire (fuel : nat) (c : Context) (sc : RipupScoreboard)
    (src_wire dst_wire : WireId) : result (Router * Context) :=
  let cfg := mkCfg sc IdString_empty false 0 in
  '(r, g) ← route fuel cfg (arch c) (rngstate c) Router_init {[src_wire := 0]} dst_wire;
  let ok := bool_decide (is_Some (visited r !! dst_wire)) in
  v ← (if debug c then debug_walk fuel (visited r) src_wire dst_wire else Ok (visited r));
  Ok (mkRouter (rippedNets r) v (visitCnt r) (revisitCnt r) (overtimeRevisitCnt r)
               ok (maxDelay r) (failedDest r),
      mkContext (nets c) (arch c) g (debug c)).

(** The wire of a port: lines 264-285 for the driver, 305-327 for a user. *)
Definition port_wire (pr : PortRef) : result WireId :=
  match cell pr with
  | None => throw NullPointer
  | Some ci =>
      if bool_decide (bel ci = BelId_none) then throw LogExecutionError
      else
        let pin := default (port pr) (pins ci !! port pr) in
        let w := getWireBelPin (bel ci) (portPinFromId pin) in
        if bool_decide (w = WireId_none) then throw LogExecutionError else Ok w
  end.

(** What the constructor from a net name has in hand while it runs: the
    binding state, the generator, the scoreboard passed by reference, the
    members, and its local [src_wires]. *)
Record NetState : Type := mkNetState {
  n_arch : archstate;
  n_rng : Z;
  n_scores : RipupScoreboard;
  n_router : Router;
  n_src_wires : gmap Z Z;
}.

(** Lines 364-378: a conflict on the wire under the cursor. *)
Definition resolve_wire_conflict (ns : gmap Z NetInfo) (cfg : RouterCfg)
    (a : archstate) (sc : RipupScoreboard) (ripped : gset Z) (cursor : WireId)
    : result (archstate * RipupScoreboard * gset Z) :=
  let conflicting_wire_net := getConflictingWireNet a cursor in
  if bool_decide (conflicting_wire_net ≠ IdString_empty) then
    _ ← assert (ripup cfg);
    _ ← assert (bool_decide (conflicting_wire_net ≠ net_name cfg));
    a1 ← call (unbindWire a cursor);
    a2 ← (if negb (checkWireAvail a1 cursor) then ripup_net ns a1 conflicting_wire_net else Ok a1);
    Ok (a2,
        mkScoreboard (incr cursor (wireScores sc)) (pipScores sc)
          (incr (conflicting_wire_net, cursor) (incr (net_name cfg, cursor) (netWireScores sc)))
          (netPipScores sc),
        {[conflicting_wire_net]} ∪ ripped)
  else Ok (a, sc, ripped).

(** Lines 380-395: a conflict on the pip that arrives at the cursor. *)
Definition resolve_pip_conflict (ns : gmap Z NetInfo) (cfg : RouterCfg)
    (a : archstate) (sc : RipupScoreboard) (ripped : gset Z) (p : PipId)
    : result (archstate * RipupScoreboard * gset Z) :=
  let conflicting_pip_net := getConflictingPipNet a p in
  if bool_decide (conflicting_pip_net ≠ IdString_empty) then
    _ ← assert (ripup cfg);
    _ ← assert (bool_decide (conflicting_pip_net ≠ net_name cfg));
    a1 ← call (unbindPip a p);
    a2 ← (if negb (checkPipAvail a1 p) then ripup_net ns a1 conflicting_pip_net else Ok a1);
    Ok (a2,
        mkScoreboard (wireScores sc) (incr p (pipScores sc)) (netWireScores sc)
          (incr (conflicting_pip_net, p) (incr (net_name cfg, p) (netPipScores sc))),
        {[conflicting_pip_net]} ∪ ripped)
  else Ok (a, sc, ripped).

(** One turn of the back-trace (lines 364-399), the cursor not being a
    source wire; the result is the next cursor. *)
Definition backtrace_step (ns : gmap Z NetInfo) (cfg : RouterCfg) (st : NetState)
    (cursor : WireId) : result (NetState * WireId) :=
  let r := n_router st in
  '(a1, sc1, ripped1) ←
    resolve_wire_conflict ns cfg (n_arch st) (n_scores st) (rippedNets r) cursor;
  let '(q, v1) := visited_index (visited r) cursor in
  '(a2, sc2, ripped2) ← resolve_pip_conflict ns cfg a1 sc1 ripped1 (pip q);
  a3 ← call (bindPip a2 (pip q) (net_name cfg));
  Ok (mkNetState a3 (n_rng st) sc2
        (mkRouter ripped2 v1 (visitCnt r) (revisitCnt r) (overtimeRevisitCnt r)
                  (routedOkay r) (maxDelay r) (failedDest r))
        (<[cursor := delay q]> (n_src_wires st)),
      getPipSrcWire (pip q)).

(** In debug mode line 359 reads [visited[cursor]] before the test. *)
Definition debug_touch (dbg : bool) (st : NetState) (cursor : WireId) : NetState :=
  if dbg then
    let r := n_router st in
    mkNetState (n_arch st) (n_rng st) (n_scores st)
      (mkRouter (rippedNets r) (visited_index (visited r) cursor).2 (visitCnt r)
                (revisitCnt r) (overtimeRevisitCnt r) (routedOkay r) (maxDelay r)
                (failedDest r))
      (n_src_wires st)
  else st.

(** Lines 357-400. *)
Fixpoint backtrace (fuel : nat) (ns : gmap Z NetInfo) (dbg : bool) (cfg : RouterCfg)
    (st : NetState) (cursor : WireId) : result NetState :=
  let st0 := debug_touch dbg st cursor in
  if bool_decide (is_Some (n_src_wires st0 !! cursor)) then Ok st0
  else
    match fuel with
    | O => Err FuelTrace
    | S fuel' =>
        '(st1, next) ← backtrace_step ns cfg st0 cursor;
        backtrace fuel' ns dbg cfg st1 next
    end.

Definition set_router (st : NetState) (r : Router) : NetState :=
  mkNetState (n_arch st) (n_rng st) (n_scores st) r (n_src_wires st).

(** Lines 301-403: the loop over the shuffled users, with its early
    return, and the final [routedOkay = true]. *)
Fixpoint route_users (fuel : nat) (ns : gmap Z NetInfo) (dbg : bool) (cfg : RouterCfg)
    (st : NetState) (us : list PortRef) : result NetState :=
  let r := n_router st in
  match us with
  | [] =>
      Ok (set_router st
            (mkRouter (rippedNets r) (visited r) (visitCnt r) (revisitCnt r)
                      (overtimeRevisitCnt r) true (maxDelay r) (failedDest r)))
  | user_it :: us' =>
      dst_wire ← port_wire user_it;
      '(r1, g1) ← route fuel cfg (n_arch st) (n_rng st) r (n_src_wires st) dst_wire;
      match visited r1 !! dst_wire with
      | None =>
          a1 ← ripup_net ns (n_arch st) (net_name cfg);
          Ok (mkNetState a1 g1 (n_scores st)
                (mkRouter (rippedNets r1) (visited r1) (visitCnt r1) (revisitCnt r1)
                          (overtimeRevisitCnt r1) (routedOkay r1) (maxDelay r1) dst_wire)
                (n_src_wires st))
      | Some q =>
          let r2 := mkRouter (rippedNets r1) (visited r1) (visitCnt r1) (revisitCnt r1)
                             (overtimeRevisitCnt r1) (routedOkay r1)
                             (Z.max (maxDelay r1) (delay q)) (failedDest r1) in
          st2 ← backtrace fuel ns dbg cfg
                  (mkNetState (n_arch st) g1 (n_scores st) r2 (n_src_wires st)) dst_wire;
          route_users fuel ns dbg cfg st2 us'
      end
  end.

(** Lines 253-404 up to the end of the constructor, with the locals. *)
Definition Router_net_state (fuel : nat) (c : Context) (sc : RipupScoreboard)
    (name : IdString) (rip : bool) (penalty : delay_t) : result NetState :=
  net_info ← at_ (nets c) name;
  src_wire ← port_wire (driver net_info);
  let cfg := mkCfg sc name rip penalty in
  a1 ← ripup_net (nets c) (arch c) name;
  a2 ← call (bindWire a1 src_wire name);
  let '(users_array, g) := shuffle _ (rngstate c) (users net_info) in
  route_users fuel (nets c) (debug c) cfg
    (mkNetState a2 g sc Router_init {[src_wire := 0]}) users_array.

(** The constructor from a net name: the [Router] it leaves, the context
    and the scoreboard of the caller. *)
Definition Router_net (fuel : nat) (c : Context) (sc : RipupScoreboard)
    (name : IdString) (rip : bool) (penalty : delay_t)
    : result (Router * Context * RipupScoreboard) :=
  st ← Router_net_state fuel c sc name rip penalty;
  Ok (n_router st, mkContext (nets c) (n_arch st) (n_rng st) (debug c), n_scores st).

(** Lines 655-662; [delay] is the reference parameter, returned with the
    flag. *)
Definition getActualRouteDelay (fuel : nat) (c : Context) (src_wire dst_wire : WireId)
    (delay_io : delay_t) : result (bool * delay_t * Context) :=
  '(router, c') ← Router_wire fuel c scores_empty src_wire dst_wire;
  if routedOkay router then
    q ← at_ (visited router) dst_wire;
    Ok (true, delay q, c')
  else Ok (false, delay_io, c').

End RouterDefs.

(** ** router1 *)

(** The locals of [router1] that live across iterations. *)
Record LoopState {dev : Arch} : Type := mkLoop {
  l_ctx : Context;
  l_scores : RipupScoreboard;
  netsQueue : gset Z;
  iterCnt : Z;
  l_ripup_penalty : delay_t;
  totalVisitCnt : Z;
  totalRevisitCnt : Z;
  totalOvertimeRevisitCnt : Z;
}.
Arguments mkLoop {dev} _ _ _ _ _ _ _ _.

(** The locals of one pass over an array of nets: the per-iteration
    counters and the set the pass fills ([ripupQueue] in the pass without
    rip-up, [netsQueue] in the pass with rip-up).  [netCnt] and [ripCnt]
    only feed the log. *)
Record PassState {dev : Arch} : Type := mkPass {
  p_ctx : Context;
  p_scores : RipupScoreboard;
  p_visitCnt : Z;
  p_revisitCnt : Z;
  p_overtimeRevisitCnt : Z;
  p_queue : gset Z;
}.
Arguments mkPass {dev} _ _ _ _ _ _.

Section Router1Defs.
Context {dev : Arch}.

(** Lines 423-434. *)
Definition unrouted (a : archstate) (entry : Z * NetInfo) : Prop :=
  cell (driver entry.2) ≠ None ∧ net_wires a entry.1 = [].

#[local] Instance unrouted_dec a entry : Decision (unrouted a entry).
Proof. unfold unrouted. apply _. Defined.

Definition unrouted_nets (c : Context) : gset Z :=
  dom (filter (unrouted (arch c)) (nets c)).

(** Lines 448-488 add up an estimate for the log; what remains of them here
    is that a user without a cell cannot be read. *)
Definition estimate_net (c : Context) (_ : unit) (name : IdString) : result unit :=
  net_info ← at_ (nets c) name;
  match cell (driver net_info) with
  | None => throw NullPointer
  | Some ci =>
      if bool_decide (bel ci = BelId_none) then Ok tt
      else
        let pin := default (port (driver net_info)) (pins ci !! port (driver net_info)) in
        if bool_decide (getWireBelPin (bel ci) (portPinFromId pin) = WireId_none) then Ok tt
        else foldM (λ _ u, match cell u with None => throw NullPointer | Some _ => Ok tt end)
               tt (users net_info)
  end.

(** Lines 523-544: one net of the pass without rip-up. *)
Definition pass_route (fuel : nat) (ps : PassState) (name : IdString) : result PassState :=
  '(router, c', sc') ← Router_net fuel (p_ctx ps) (p_scores ps) name false 0;
  Ok (mkPass c' sc'
        (p_visitCnt ps + visitCnt router)
        (p_revisitCnt ps + revisitCnt router)
        (p_overtimeRevisitCnt ps + overtimeRevisitCnt router)
        (if routedOkay router then p_queue ps else {[name]} ∪ p_queue ps)).

(** Lines 574-606: one net of the pass with rip-up. *)
Definition pass_ripup (fuel : nat) (penalty : delay_t) (ps : PassState) (name : IdString)
    : result PassState :=
  '(router, c', sc') ← Router_net fuel (p_ctx ps) (p_scores ps) name true penalty;
  if routedOkay router then
    Ok (mkPass c' sc'
          (p_visitCnt ps + visitCnt router)
          (p_revisitCnt ps + revisitCnt router)
          (p_overtimeRevisitCnt ps + overtimeRevisitCnt router)
          (rippedNets router ∪ p_queue ps))
  else throw LogExecutionError.

Definition set_rng (c : Context) (g : Z) : Context :=
  mkContext (nets c) (arch c) g (debug c).

Definition penalty_boundary (n : Z) : bool :=
  (n =? 8) || (n =? 16) || (n =? 32) || (n =? 64) || (n =? 128).

(** Lines 506-632: the body of the [while] loop after the test of the cap. *)
Definition router1_iter (fuel : nat) (ls : LoopState) : result LoopState :=
  let iterCnt1 := iterCnt ls + 1 in
  let '(netsArray, g1) := sorted_shuffle (rngstate (l_ctx ls)) (elements (netsQueue ls)) in
  pa ← foldM (pass_route fuel)
         (mkPass (set_rng (l_ctx ls) g1) (l_scores ls) 0 0 0 ∅) netsArray;
  let ripupQueue := p_queue pa in
  pb ← (if bool_decide (ripupQueue ≠ ∅) then
          let '(ripupArray, g2) := sorted_shuffle (rngstate (p_ctx pa)) (elements ripupQueue) in
          foldM (pass_ripup fuel (l_ripup_penalty ls))
            (mkPass (set_rng (p_ctx pa) g2) (p_scores pa) 0 0 0 ∅) ripupArray
        else
          Ok (mkPass (p_ctx pa) (p_scores pa) (p_visitCnt pa) (p_revisitCnt pa)
                     (p_overtimeRevisitCnt pa) ∅));
  Ok (mkLoop (p_ctx pb) (p_scores pb) (p_queue pb) iterCnt1
        (if penalty_boundary iterCnt1
         then l_ripup_penalty ls + getRipupDelayPenalty
         else l_ripup_penalty ls)
        (totalVisitCnt ls + p_visitCnt pb)
        (totalRevisitCnt ls + p_revisitCnt pb)
        (totalOvertimeRevisitCnt ls + p_overtimeRevisitCnt pb)).

(** Lines 496-646: the [while] loop and the two returns it leads to.  [n]
    bounds the number of iterations of the model, [fuel] is handed to the
    loops inside. *)
Fixpoint router1_loop (n : nat) (fuel : nat) (ls : LoopState) : result (bool * LoopState) :=
  if bool_decide (netsQueue ls = ∅) then Ok (true, ls)
  else if iterCnt ls =? 200 then Ok (false, ls)
  else
    match n with
    | O => Err FuelLoop
    | S n' => ls' ← router1_iter fuel ls; router1_loop n' fuel ls'
    end.

(** Lines 414-494: the state on entry to the loop. *)
Definition router1_start (c : Context) : LoopState :=
  mkLoop c scores_empty (unrouted_nets c) 0 getRipupDelayPenalty 0 0 0.

(** The [try] block (lines 414-646) with the locals it ends with. *)
Definition router1_try (fuel : nat) (c : Context) : result (bool * LoopState) :=
  let ls := router1_start c in
  if bool_decide (netsQueue ls = ∅) then Ok (true, ls)
  else
    _ ← foldM (estimate_net c) tt (elements (netsQueue ls));
    router1_loop fuel fuel ls.

(** Lines 411-653.  What the context holds after a caught exception is not
    tracked. *)
Definition router1 (fuel : nat) (c : Context) : result bool :=
  match router1_try fuel c with
  | Ok (b, _) => Ok b
  | Err (Exn LogExecutionError) => Ok false
  | Err e => Err e
  end.

End Router1Defs.

(** ** A table-driven device

    Small devices on which the definitions above can be run: the pips are
    the entries of a table, a bel has one pin and sits on the wire of the
    same number, and a resource is owned by at most one net. *)

Module Table.

Record Pip : Type := mkPip {
  pip_src : WireId;
  pip_dst : WireId;
  pip_delay : delay_t;
}.

Record Device : Type := mkDevice {
  dev_pips : list Pip;
  dev_epsilon : delay_t;
  dev_penalty : delay_t;
}.

(** Modelled from the spec: the binding proxy, whose code is not part of
    router1.cc.  Every wire and every pip has at most one owning net, the
    empty name stands for no owner, and [wires_of] is the [wires] map of
    each net ("NetInfo = { driver, users, wires: map WireId -> { pip } }"). *)
Record Bindings : Type := mkBindings {
  wire_to_net : gmap Z Z;
  pip_to_net : gmap Z Z;
  wires_of : gmap Z (gmap Z Z);
}.

Definition no_bindings : Bindings := mkBindings ∅ ∅ ∅.

Definition pip_at (d : Device) (p : PipId) : option Pip :=
  if p <? 0 then None else dev_pips d !! Z.to_nat p.

Definition downhill (d : Device) (w : WireId) : list PipId :=
  omap (λ ip : nat * Pip, if bool_decide (pip_src ip.2 = w) then Some (Z.of_nat ip.1) else None)
       (imap (λ i x, (i, x)) (dev_pips d)).

Definition dst_of (d : Device) (p : PipId) : WireId :=
  from_option pip_dst WireId_none (pip_at d p).

Definition src_of (d : Device) (p : PipId) : WireId :=
  from_option pip_src WireId_none (pip_at d p).

Definition net_map (b : Bindings) (n : IdString) : gmap Z Z :=
  default ∅ (wires_of b !! n).

Definition check (b : bool) : thrown unit :=
  if b then Returns tt else Throws AssertionFailure.

Definition bind_wire (b : Bindings) (w : WireId) (n : IdString) : thrown Bindings :=
  _ ← check (bool_decide (w ≠ WireId_none));
  _ ← check (bool_decide (wire_to_net b !! w = None));
  Returns (mkBindings (<[w := n]> (wire_to_net b)) (pip_to_net b)
             (<[n := <[w := PipId_none]> (net_map b n)]> (wires_of b))).

Definition unbind_wire (b : Bindings) (w : WireId) : thrown Bindings :=
  _ ← check (bool_decide (w ≠ WireId_none));
  match wire_to_net b !! w with
  | None => Throws AssertionFailure
  | Some n =>
      match net_map b n !! w with
      | None => Throws AssertionFailure
      | Some p =>
          Returns
            (mkBindings (delete w (wire_to_net b))
               (if bool_decide (p ≠ PipId_none) then delete p (pip_to_net b) else pip_to_net b)
               (<[n := delete w (net_map b n)]> (wires_of b)))
      end
  end.

Definition bind_pip (d : Device) (b : Bindings) (p : PipId) (n : IdString) : thrown Bindings :=
  _ ← check (bool_decide (p ≠ PipId_none));
  _ ← check (bool_decide (pip_to_net b !! p = None));
  _ ← check (bool_decide (wire_to_net b !! dst_of d p = None));
  Returns (mkBindings (<[dst_of d p := n]> (wire_to_net b)) (<[p := n]> (pip_to_net b))
             (<[n := <[dst_of d p := p]> (net_map b n)]> (wires_of b))).

Definition unbind_pip (d : Device) (b : Bindings) (p : PipId) : thrown Bindings :=
  _ ← check (bool_decide (p ≠ PipId_none));
  match pip_to_net b !! p with
  | None => Throws AssertionFailure
  | Some n =>
      _ ← check (bool_decide (is_Some (wire_to_net b !! dst_of d p)));
      Returns (mkBindings (delete (dst_of d p) (wire_to_net b)) (delete p (pip_to_net b))
                 (<[n := delete (dst_of d p) (net_map b n)]> (wires_of b)))
  end.

(** A linear congruential generator in place of the generator of the
    context; the shuffles keep the order ([sorted_shuffle] after sorting). *)
Definition lcg (g : Z) : Z * Z :=
  let g' := (g * 1103515245 + 12345) `mod` 2 ^ 31 in (g' `mod` 2 ^ 30, g').

Definition arch (d : Device) : Arch := {|
  archstate := Bindings;
  getPipsDownhill := downhill d;
  getPipDstWire := dst_of d;
  getPipSrcWire := src_of d;
  getPipDelay := λ p, from_option pip_delay 0 (pip_at d p);
  estimateDelay := λ _ _, 0;
  getDelayEpsilon := dev_epsilon d;
  getRipupDelayPenalty := dev_penalty d;
  getWireBelPin := λ b _, b;
  portPinFromId := λ i, i;
  checkWireAvail := λ b w, bool_decide (wire_to_net b !! w = None);
  checkPipAvail := λ b p, bool_decide (pip_to_net b !! p = None);
  getConflictingWireNet := λ b w, default IdString_empty (wire_to_net b !! w);
  getConflictingPipNet := λ b p, default IdString_empty (pip_to_net b !! p);
  net_wires := λ b n, map_to_list (net_map b n);
  bindWire := bind_wire;
  unbindWire := unbind_wire;
  bindPip := bind_pip d;
  unbindPip := unbind_pip d;
  rng := lcg;
  shuffle := λ A g l, (l, g);
  sorted_shuffle := λ g l, (merge_sort Z.le l, g);
  shuffle_perm := λ A g l, Permutation_refl l;
|}.

(** A cell placed on bel [b], and a port of it. *)
Definition placed (b : BelId) : PortRef := mkPortRef (Some (mkCell b 1 b ∅)) 1.

(** A net driven from wire [s] with a user on each wire of [ds]. *)
Definition net (s : WireId) (ds : list WireId) : NetInfo := mkNet (placed s) (placed <$> ds).

Definition context (d : Device) (ns : list (IdString * NetInfo)) (b : Bindings) (dbg : bool)
    : @Context (arch d) :=
  @mkContext (arch d) (list_to_map ns) b 42 dbg.

End Table.

(** ** The cost rule of a pip, in the words of the specification *)

Definition score `{Countable K} (m : gmap K Z) (k : K) : Z := default 0 (m !! k).

Section CostRule.
Context {dev : Arch}.
Variable cfg : RouterCfg.
Variable a : archstate.

(** A conflict that the search does not pay for: rip-up is disabled, or the
    conflicting net is the current net or the empty name. *)
Definition passes_over (conflict : IdString) : bool :=
  negb (ripup cfg) || bool_decide (conflict = net_name cfg)
  || bool_decide (conflict = IdString_empty).

Definition wire_penalty (next : WireId) : delay_t :=
  Z.quot (score (wireScores (scores cfg)) next * ripup_penalty cfg) 8
  + score (netWireScores (scores cfg)) (getConflictingWireNet a next, next) * ripup_penalty cfg.

Definition pip_penalty (p : PipId) : delay_t :=
  Z.quot (score (pipScores (scores cfg)) p * ripup_penalty cfg) 8
  + score (netPipScores (scores cfg)) (getConflictingPipNet a p, p) * ripup_penalty cfg.

(** [None]: the edge is skipped.  Otherwise the base delay, the penalty of
    each side that is unavailable, and one flat [ripup_penalty] if either
    side is. *)
Definition spec_cost (qw : QueuedWire) (p : PipId) : option delay_t :=
  let next := getPipDstWire p in
  let base := delay qw + getPipDelay p in
  let wire_busy := negb (checkWireAvail a next) in
  let pip_busy := negb (checkPipAvail a p) in
  if (wire_busy && passes_over (getConflictingWireNet a next))
     || (pip_busy && passes_over (getConflictingPipNet a p))
  then None
  else Some (base
             + (if wire_busy then wire_penalty next else 0)
             + (if pip_busy then pip_penalty p else 0)
             + (if wire_busy || pip_busy then ripup_penalty cfg else 0)).

End CostRule.

(** What [relax] enters into the queue and the visited map. *)
Definition entered {dev : Arch} (dst : WireId) (p : PipId) (d : delay_t) : QueuedWire :=
  mkQueuedWire (getPipDstWire p) p d (estimateDelay (getPipDstWire p) dst) 0.

(** ** Runs of a search *)

(** The runs of the [while] loop of a search that starts in [s0]: the wires
    popped so far, latest first, and the state that is reached. *)
Inductive search_run {dev : Arch} (cfg : RouterCfg) (a : archstate) (dst : WireId)
    (s0 : SearchState) : list WireId → SearchState → Prop :=
  | run_start : search_run cfg a dst s0 [] s0
  | run_step popped st qw q' st' :
      search_run cfg a dst s0 popped st →
      search_continues st = true →
      pq_pop (queue st) = Some (qw, q') →
      route_step cfg a dst st = Ok st' →
      search_run cfg a dst s0 (wire qw :: popped) st'.

(** The limit is nonzero only once the destination is in the visited map. *)
Definition limit_sound (dst : WireId) (st : SearchState) : Prop :=
  thisVisitCntLimit st ≠ 0 → is_Some (s_visited st !! dst).

(** How a later state [st] of a search relates to an earlier one [s0]. *)
Record search_progress (s0 st : SearchState) : Prop := mkProgress {
  prog_keys : ∀ w, is_Some (s_visited s0 !! w) → is_Some (s_visited st !! w);
  prog_size : (size (s_visited s0) ≤ size (s_visited st))%nat;
  prog_cnt : thisVisitCnt s0 ≤ thisVisitCnt st;
  prog_revisit : s_revisitCnt s0 ≤ s_revisitCnt st;
  prog_overtime : s_overtimeRevisitCnt s0 ≤ s_overtimeRevisitCnt st;
  prog_limit : thisVisitCntLimit s0 ≠ 0 → thisVisitCntLimit st = thisVisitCntLimit s0;
  prog_engaged : s_overtimeRevisitCnt s0 < s_overtimeRevisitCnt st → thisVisitCntLimit st ≠ 0;
  prog_account :
    (s_revisitCnt st - s_revisitCnt s0)
    + (s_overtimeRevisitCnt st - s_overtimeRevisitCnt s0)
    + (Z.of_nat (size (s_visited st)) - Z.of_nat (size (s_visited s0)))
    ≤ thisVisitCnt st - thisVisitCnt s0;
}.

(** ** Counting the pips that a search passes over

    The pips that are examined without anything being entered into the
    queue: the [continue] statements of lines 154, 157, 172, 175 and 195. *)

Section PassedOver.
Context {dev : Arch}.
Variable cfg : RouterCfg.
Variable a : archstate.
Variable dst : WireId.

Fixpoint passed_pips (qs : QueuedWire * SearchState) (ps : list PipId) : Z :=
  match ps with
  | [] => 0
  | p :: ps' =>
      match examine_pip cfg a dst qs p with
      | Ok qs' =>
          (if bool_decide (queue qs'.2 = queue qs.2) then 1 else 0) + passed_pips qs' ps'
      | Err _ => 0
      end
  end.

Fixpoint passed_search (fuel : nat) (st : SearchState) : Z :=
  if search_continues st then
    match fuel, pq_pop (queue st) with
    | S fuel', Some (qw, q') =>
        passed_pips (qw, after_pop dst st q') (getPipsDownhill (wire qw))
        + match route_step cfg a dst st with
          | Ok st' => passed_search fuel' st'
          | Err _ => 0
          end
    | _, _ => 0
    end
  else 0.

End PassedOver.

(** What was counted between [s0] and [st] beyond the revisits and the
    wires newly entered. *)
Definition unaccounted (s0 st : SearchState) : Z :=
  (thisVisitCnt st - thisVisitCnt s0)
  - ((s_revisitCnt st - s_revisitCnt s0)
     + (s_overtimeRevisitCnt st - s_overtimeRevisitCnt s0)
     + (Z.of_nat (size (s_visited st)) - Z.of_nat (size (s_visited s0)))).

(** ** Devices and netlists of the examples *)

(** The search of a [Router] that has no net: no rip-up. *)
Definition cfg_plain : RouterCfg := mkCfg scores_empty IdString_empty false 0.

(** Scenario 1 of the specification: wires 1 and 2, one pip of delay 5. *)
Definition dev_direct : Table.Device := Table.mkDevice [Table.mkPip 1 2 5] 0 10.

(** Two pips of the same delay between the same two wires. *)
Definition dev_parallel : Table.Device :=
  Table.mkDevice [Table.mkPip 1 2 5; Table.mkPip 1 2 5] 0 10.

(** From wire 1 the destination 3 is one slow pip away, or two fast pips
    through wire 2. *)
Definition dev_detour : Table.Device :=
  Table.mkDevice [Table.mkPip 1 3 10; Table.mkPip 1 2 1; Table.mkPip 2 3 1] 0 10.

(** The search from wire 1 to wire 3 on [dev_detour], nothing being bound:
    its first state, the state after one turn of the loop, and the state
    it ends in. *)
Definition detour_start : SearchState :=
  search_init (dev := Table.arch dev_detour) 3 {[1 := 0]} 42 0 0.

Definition detour_mid : SearchState :=
  match route_step (dev := Table.arch dev_detour) cfg_plain Table.no_bindings 3 detour_start with
  | Ok st => st
  | Err _ => detour_start
  end.

Definition detour_end : SearchState :=
  match route_loop (dev := Table.arch dev_detour) cfg_plain Table.no_bindings 3 5 detour_start with
  | Ok st => st
  | Err _ => detour_start
  end.

(** The search from wire 1 to wire 2 on [dev_direct] once wire 1 is popped. *)
Definition direct_popped : SearchState :=
  after_pop 2 (search_init (dev := Table.arch dev_direct) 2 {[1 := 0]} 42 0 0) [].

(** ** Runs of the rip-up loop *)

(** The states that the [while] loop of [router1] is in at its test, from
    the state [ls0] on. *)
Inductive loop_run {dev : Arch} (fuel : nat) (ls0 : LoopState) : LoopState → Prop :=
  | loop_start : loop_run fuel ls0 ls0
  | loop_turn ls ls' :
      loop_run fuel ls0 ls →
      netsQueue ls ≠ ∅ →
      iterCnt ls ≠ 200 →
      router1_iter fuel ls = Ok ls' →
      loop_run fuel ls0 ls'.

(** How many of the iterations 8, 16, 32, 64 and 128 have ended after [n]
    iterations. *)
Definition escalations (n : Z) : Z :=
  (if 8 <=? n then 1 else 0) + (if 16 <=? n then 1 else 0) + (if 32 <=? n then 1 else 0)
  + (if 64 <=? n then 1 else 0) + (if 128 <=? n then 1 else 0).

(** Pointwise order on the counters of a scoreboard. *)
Definition scores_le (s1 s2 : RipupScoreboard) : Prop :=
  (∀ w, score (wireScores s1) w ≤ score (wireScores s2) w)
  ∧ (∀ p, score (pipScores s1) p ≤ score (pipScores s2) p)
  ∧ (∀ k, score (netWireScores s1) k ≤ score (netWireScores s2) k)
  ∧ (∀ k, score (netPipScores s1) k ≤ score (netPipScores s2) k).

(** Scenario 1 as a netlist: net 1 from wire 1 to wire 2. *)
Definition ctx_direct : @Context (Table.arch dev_direct) :=
  Table.context dev_direct [(1, Table.net 1 [2])] Table.no_bindings false.

(** The same netlist once net 1 is routed. *)
Definition ctx_direct_routed : @Context (Table.arch dev_direct) :=
  match Router_net 5 ctx_direct scores_empty 1 false 0 with
  | Ok (_, c, _) => c
  | Err _ => ctx_direct
  end.

(** Two nets that both need wire 3: net 1 from wire 1 to wire 4, net 2
    from wire 2 to wire 5. *)
Definition dev_contend : Table.Device :=
  Table.mkDevice [Table.mkPip 1 3 1; Table.mkPip 2 3 1; Table.mkPip 3 4 1; Table.mkPip 3 5 1]
    0 10.

Definition ctx_contend : @Context (Table.arch dev_contend) :=
  Table.context dev_contend [(1, Table.net 1 [4]); (2, Table.net 2 [5])] Table.no_bindings false.

(** The locals of [router1] on [ctx_contend] when it returns. *)
Definition contend_end : @LoopState (Table.arch dev_contend) :=
  match router1_try 200 ctx_contend with
  | Ok (_, ls) => ls
  | Err _ => router1_start ctx_contend
  end.

(** ** The outcome of routing a net *)

(** A user whose wire is in [src_wires], the wires that the constructor has
    bound to the net so far: the driver wire through [bindWire], and each
    wire of a back-trace through the [bindPip] of the pip that arrives at
    it. *)
Definition sink_routed {dev : Arch} (st : NetState) (u : PortRef) : Prop :=
  ∃ w, port_wire u = Ok w ∧ is_Some (n_src_wires st !! w).

(** A user whose wire the last search did not reach, the net being left
    without wires. *)
Definition sink_failed {dev : Arch} (name : IdString) (st : NetState) (u : PortRef) : Prop :=
  port_wire u = Ok (failedDest (n_router st))
  ∧ visited (n_router st) !! failedDest (n_router st) = None
  ∧ net_wires (n_arch st) name = [].

(** Net 1 of [dev_direct] with a second user, on wire 9, which no pip
    leads to. *)
Definition ctx_split : @Context (Table.arch dev_direct) :=
  Table.context dev_direct [(1, Table.net 1 [2; 9])] Table.no_bindings false.

(** ** Termination of the loops *)

(** A result that does not report the loop of [router1] as unfinished. *)
Definition inner {A : Type} (r : result A) : Prop := r ≠ Err FuelLoop.

(** A result that is not an unfinished loop. *)
Definition settled {A : Type} (r : result A) : Prop :=
  match r with
  | Ok _ | Err (Exn _) => True
  | Err _ => False
  end.

(** With enough fuel [f] returns or throws, the same whatever the fuel, and
    a value that it returns satisfies [Q]. *)
Definition finishes {A : Type} (f : nat → result A) (Q : A → Prop) : Prop :=
  ∃ n r, (∀ fuel, (n ≤ fuel)%nat → f fuel = r)
         ∧ match r with
           | Ok x => Q x
           | Err (Exn _) => True
           | Err _ => False
           end.

(** What the termination of a search and of a back-trace rests on: the pips
    lead to finitely many wires, a downhill pip of a wire leaves that wire
    and is not the sentinel, and delays, epsilon and penalty are not
    negative. *)
Record finite_device {dev : Arch} (W : list WireId) : Prop := mkFinite {
  fd_dst : ∀ p, getPipDstWire p ∈ W;
  fd_src : ∀ w p, p ∈ getPipsDownhill w → getPipSrcWire p = w;
  fd_pip : ∀ w, PipId_none ∉ getPipsDownhill w;
  fd_delay : ∀ p, 0 ≤ getPipDelay p;
  fd_epsilon : 0 ≤ getDelayEpsilon;
  fd_penalty : 0 ≤ getRipupDelayPenalty;
}.

(** The measure of a search: the wires of [W] not yet in the visited map,
    the sum of the delays in the map, and the length of the queue, in
    lexicographic order. *)
Definition unseen (W : list WireId) (v : gmap Z QueuedWire) : nat :=
  size (list_to_set W ∖ dom v : gset Z).

Definition total_delay (v : gmap Z QueuedWire) : nat :=
  map_fold (λ _ e n, (Z.to_nat (delay e) + n)%nat) 0%nat v.

Definition lex_lt (x y : nat * nat) : Prop :=
  (x.1 < y.1)%nat ∨ (x.1 = y.1 ∧ (x.2 < y.2)%nat).

Definition search_measure (W : list WireId) (st : SearchState) : nat * nat :=
  (unseen W (s_visited st), total_delay (s_visited st)).

(** The chain of arriving pips that starts at [w] ends, after [h] pips, at
    an entry that has none. *)
Inductive rooted {dev : Arch} (v : gmap Z QueuedWire) : nat → WireId → Prop :=
  | rooted_source w e :
      v !! w = Some e → pip e = PipId_none → rooted v 0 w
  | rooted_step h w e :
      v !! w = Some e → pip e ≠ PipId_none →
      rooted v h (getPipSrcWire (pip e)) →
      rooted v (S h) w.

(** The entry [q] is no better than what the visited map has for its wire. *)
Definition covered (v : gmap Z QueuedWire) (q : QueuedWire) : Prop :=
  ∃ e, v !! wire q = Some e ∧ delay e ≤ delay q.

(** What a search keeps true of its visited map and its queue; [srcs] are
    the source wires. *)
Record search_inv {dev : Arch} (srcs : gset Z) (st : SearchState) : Prop := mkSearchInv {
  inv_queue : ∀ q, q ∈ queue st → covered (s_visited st) q;
  inv_pred : ∀ w e, s_visited st !! w = Some e → pip e ≠ PipId_none →
    ∃ eu, s_visited st !! getPipSrcWire (pip e) = Some eu ∧ delay eu ≤ delay e;
  inv_rooted : ∀ w, is_Some (s_visited st !! w) → ∃ h, rooted (s_visited st) h w;
  inv_sources : ∀ w e, s_visited st !! w = Some e → pip e = PipId_none → w ∈ srcs;
  inv_entry : ∀ w e, s_visited st !! w = Some e → pip e ≠ PipId_none →
    getPipDstWire (pip e) = w;
}.

(** The state in which the pips of a popped entry are examined. *)
Definition examining {dev : Arch} (srcs : gset Z) (qs : QueuedWire * SearchState) : Prop :=
  search_inv srcs qs.2 ∧ covered (s_visited qs.2) qs.1.

(** The penalty and the counters that a search reads are not negative. *)
Definition cfg_nonneg (cfg : RouterCfg) : Prop :=
  0 ≤ ripup_penalty cfg ∧ scores_le scores_empty (scores cfg).

(** Every wire of the visited map [v] has a chain of arriving pips, and the
    chains end at wires of [src_wires]. *)
Definition chains_end {dev : Arch} (src_wires : gmap Z Z) (v : gmap Z QueuedWire) : Prop :=
  (∀ w, is_Some (v !! w) → ∃ h, rooted v h w)
  ∧ (∀ w e, v !! w = Some e → pip e = PipId_none → is_Some (src_wires !! w))
  ∧ (∀ w e, v !! w = Some e → pip e ≠ PipId_none → getPipDstWire (pip e) = w).

(** What the loop of [router1] keeps true of its scoreboard and its penalty. *)
Definition loop_inv {dev : Arch} (ls : LoopState) : Prop :=
  scores_le scores_empty (l_scores ls) ∧ 0 ≤ l_ripup_penalty ls.

(** The wires that the pips of a table lead to, and the sentinel, which is
    what the device answers for a pip that is not in the table. *)
Definition table_wires (d : Table.Device) : list WireId :=
  WireId_none :: (Table.pip_dst <$> Table.dev_pips d).

(** More fuel does not change a result that is settled. *)
Definition monotone {A : Type} (f : nat → result A) : Prop :=
  ∀ fuel fuel' r, f fuel = r → settled r → (fuel ≤ fuel')%nat → f fuel' = r.


(** ** The bindings of a net *)

(** The wire [w] is in the [wires] map of the net [n]. *)
Definition bound {dev : Arch} (a : archstate) (n : IdString) (w : WireId) : Prop :=
  w ∈ (net_wires a n).*1.

(** What the router relies on of the binding proxy, [good] being the states
    of the proxy whose tables agree with one another: binding a wire, or a
    pip and with it the wire the pip leads to, adds that wire to the map of
    the net and touches no other entry; unbinding takes that wire out of
    every map; a wire is in the map of one net at most; and the pip of an
    entry leads to the wire of the entry. *)
Record proxy_contract {dev : Arch} (good : archstate → Prop) : Prop := mkContract {
  pc_bindWire : ∀ a a' w n, good a → bindWire a w n = Returns a' →
    good a' ∧ ∀ m x, bound a' m x ↔ bound a m x ∨ (m = n ∧ x = w);
  pc_bindPip : ∀ a a' p n, good a → bindPip a p n = Returns a' →
    good a' ∧ ∀ m x, bound a' m x ↔ bound a m x ∨ (m = n ∧ x = getPipDstWire p);
  pc_unbindWire : ∀ a a' w, good a → unbindWire a w = Returns a' →
    good a' ∧ ∀ m x, bound a' m x ↔ bound a m x ∧ x ≠ w;
  pc_unbindPip : ∀ a a' p, good a → unbindPip a p = Returns a' →
    good a' ∧ ∀ m x, bound a' m x ↔ bound a m x ∧ x ≠ getPipDstWire p;
  pc_owner : ∀ a m n x, good a → bound a m x → bound a n x → m = n;
  pc_pip : ∀ a n x p, good a → (x, p) ∈ net_wires a n → p ≠ PipId_none →
    getPipDstWire p = x;
}.

(** The wires bound so far by the constructor are in the map of its net. *)
Definition sources_bound {dev : Arch} (good : archstate → Prop) (name : IdString)
    (st : NetState) : Prop :=
  good (n_arch st) ∧ ∀ w, is_Some (n_src_wires st !! w) → bound (n_arch st) name w.

(** The tables of [Table.Bindings] agree: the owner of a wire is the net
    whose map has the wire, a bound pip is the pip of the entry of the wire
    it leads to, and the sentinel is never bound. *)
Record table_good (d : Table.Device) (b : Table.Bindings) : Prop := mkTableGood {
  tg_wire : ∀ w n, Table.wire_to_net b !! w = Some n ↔ is_Some (Table.net_map b n !! w);
  tg_pip : ∀ p n, Table.pip_to_net b !! p = Some n →
    Table.net_map b n !! Table.dst_of d p = Some p;
  tg_entry : ∀ n w p, Table.net_map b n !! w = Some p → p ≠ PipId_none →
    Table.pip_to_net b !! p = Some n ∧ Table.dst_of d p = w;
  tg_none : Table.pip_to_net b !! PipId_none = None;
}.

(** ** The hashes of the keys of the scoreboard *)

Section Hash.

(** [std::size_t] has [bits] bits; unsigned arithmetic wraps around. *)
Variable bits : Z.

Definition wrap (x : Z) : Z := x `mod` 2 ^ bits.

(** Lines 35-37 and 45-47, on the hashes [h1] and [h2] of the two
    components of the pair, which [std::hash] gives. *)
Definition hash_combine (h1 h2 : Z) : Z :=
  let seed := h1 in
  Z.lxor seed
    (wrap (wrap (wrap (h2 + 0x9e3779b9) + wrap (Z.shiftl seed 6)) + Z.shiftr seed 2)).

(** [hash_id_wire]; [hash_id] and [hash_wire] are [std::hash<IdString>] and
    [std::hash<WireId>], which other headers define. *)
Definition hash_id_wire (hash_id : IdString → Z) (hash_wire : WireId → Z)
    (arg : IdString * WireId) : Z :=
  hash_combine (hash_id arg.1) (hash_wire arg.2).

(** [hash_id_pip]. *)
Definition hash_id_pip (hash_id : IdString → Z) (hash_pip : PipId → Z)
    (arg : IdString * PipId) : Z :=
  hash_combine (hash_id arg.1) (hash_pip arg.2).

End Hash.

(** ** The wires within reach of a search *)

(** A search enters the wire that the pip [p] leads to (lines 152-186): the
    wire and the pip are available, or rip-up is enabled and what holds them
    is another net. *)
Definition usable {dev : Arch} (cfg : RouterCfg) (a : archstate) (p : PipId) : bool :=
  let next := getPipDstWire p in
  (checkWireAvail a next || negb (passes_over cfg (getConflictingWireNet a next)))
  && (checkPipAvail a p || negb (passes_over cfg (getConflictingPipNet a p))).

(** The wires that usable pips lead to from the source wires [srcs]. *)
Inductive reachable {dev : Arch} (cfg : RouterCfg) (a : archstate) (srcs : gset Z)
    : WireId → Prop :=
  | reach_source w : w ∈ srcs → reachable cfg a srcs w
  | reach_pip w p :
      reachable cfg a srcs w → p ∈ getPipsDownhill w → usable cfg a p = true →
      reachable cfg a srcs (getPipDstWire p).

(** Every usable pip downhill of [w] leads to a wire of the visited map. *)
Definition closed {dev : Arch} (cfg : RouterCfg) (a : archstate) (v : gmap Z QueuedWire)
    (w : WireId) : Prop :=
  ∀ p, p ∈ getPipsDownhill w → usable cfg a p = true → is_Some (v !! getPipDstWire p).

(** The queue holds an entry of the wire [w]. *)
Definition waiting (q : list QueuedWire) (w : WireId) : Prop :=
  ∃ x, x ∈ q ∧ wire x = w.

(** What a search keeps true while the pips of [popped] are examined
    ([None] between two turns of the loop): what it has entered is within
    reach, and a wire of the visited map other than the popped one waits in
    the queue or has its usable pips followed. *)
Record reach_inv {dev : Arch} (cfg : RouterCfg) (a : archstate) (srcs : gset Z)
    (popped : option WireId) (st : SearchState) : Prop := mkReachInv {
  ri_popped : ∀ w, popped = Some w → reachable cfg a srcs w;
  ri_visited : ∀ w, is_Some (s_visited st !! w) → reachable cfg a srcs w;
  ri_queue : ∀ x, x ∈ queue st → reachable cfg a srcs (wire x);
  ri_closed : ∀ w, is_Some (s_visited st !! w) → popped ≠ Some w →
    waiting (queue st) w ∨ closed cfg a (s_visited st) w;
}.

(** ** Delays that are not negative *)

(** What a search keeps true when nothing it adds up is negative: the
    delays in the queue and in the visited map are not negative, and the
    wires of [zeros] keep an entry of delay 0. *)
Definition nonneg_inv (zeros : WireId → Prop) (st : SearchState) : Prop :=
  (∀ x, x ∈ queue st → 0 ≤ delay x)
  ∧ (∀ w e, s_visited st !! w = Some e → 0 ≤ delay e)
  ∧ (∀ w, zeros w → ∃ e, s_visited st !! w = Some e ∧ delay e = 0).

(** Wires 1 and 2 on a ring of two pips, and a pip from the ring to
    wire 3. *)
Definition dev_ring : Table.Device :=
  Table.mkDevice [Table.mkPip 1 2 1; Table.mkPip 2 1 1; Table.mkPip 2 3 1] 0 10.

(** ** The delay of a recorded path *)

(** The path that the visited map [v] records for a wire, followed back
    over the pips of the entries to a source wire, and its delay: the delay
    of that source wire in [src_wires] and the delays of the pips. *)
Inductive path_delay {dev : Arch} (src_wires : gmap Z Z) (v : gmap Z QueuedWire)
    : WireId → delay_t → Prop :=
  | path_source w e d :
      v !! w = Some e → pip e = PipId_none → src_wires !! w = Some d →
      path_delay src_wires v w d
  | path_pip w e d :
      v !! w = Some e → pip e ≠ PipId_none →
      path_delay src_wires v (getPipSrcWire (pip e)) d →
      path_delay src_wires v w (d + getPipDelay (pip e)).

(** The delay of an entry is at least the delay of the entry its pip comes
    from and the delay of the pip; an entry without a pip has the delay of
    its source wire. *)
Definition delays_add_up {dev : Arch} (src_wires : gmap Z Z) (v : gmap Z QueuedWire)
    : Prop :=
  (∀ w e, v !! w = Some e → pip e ≠ PipId_none →
     ∃ eu, v !! getPipSrcWire (pip e) = Some eu ∧ delay eu + getPipDelay (pip e) ≤ delay e)
  ∧ (∀ w e, v !! w = Some e → pip e = PipId_none → src_wires !! w = Some (delay e)).

(** ** The nets that a net rips up *)

(** From the state [st] of a constructor to a later state [st']: the set
    [rippedNets] has grown, by nets other than the net itself and the empty
    name; while it is empty the scoreboard is as it was; and it grows only
    with rip-up on. *)
Definition ripped_since {dev : Arch} (cfg : RouterCfg) (st st' : NetState) : Prop :=
  rippedNets (n_router st) ⊆ rippedNets (n_router st')
  ∧ (∀ n, n ∈ rippedNets (n_router st') →
       n ∈ rippedNets (n_router st) ∨ (n ≠ IdString_empty ∧ n ≠ net_name cfg))
  ∧ (rippedNets (n_router st') = ∅ → n_scores st' = n_scores st)
  ∧ (ripup cfg = false → rippedNets (n_router st') = rippedNets (n_router st)).

(** ** An example with rip-up *)

(** Net 1 leads from wire 2 to wire 5 and net 2 from wire 1 to wire 4.
    Both go through wire 3, and net 1 can also go through wire 6, over two
    slower pips. *)
Definition dev_yield : Table.Device :=
  Table.mkDevice
    [Table.mkPip 1 3 1; Table.mkPip 3 4 1; Table.mkPip 2 3 1; Table.mkPip 3 5 1;
     Table.mkPip 2 6 5; Table.mkPip 6 5 5] 0 10.

Definition ctx_yield : @Context (Table.arch dev_yield) :=
  Table.context dev_yield [(1, Table.net 2 [5]); (2, Table.net 1 [4])] Table.no_bindings false.

(** The same netlist once net 1 is routed, through wire 3. *)
Definition ctx_yield_first : @Context (Table.arch dev_yield) :=
  match Router_net 5 ctx_yield scores_empty 1 false 0 with
  | Ok (_, c, _) => c
  | Err _ => ctx_yield
  end.

(** The same once net 2 is routed after it, with rip-up: net 2 has taken
    wire 3 and net 1 is ripped up. *)
Definition ctx_yield_second : @Context (Table.arch dev_yield) :=
  match Router_net 5 ctx_yield_first scores_empty 2 true 10 with
  | Ok (_, c, _) => c
  | Err _ => ctx_yield_first
  end.

(** ** Nets that are routed *)

(** The proxy names the net that holds a wire. *)
Definition names_holder {dev : Arch} (good : archstate → Prop) : Prop :=
  ∀ a m x, good a → bound a m x → getConflictingWireNet a x = m.

(** From the state [st] of a constructor to a later state [st']: a net
    that is neither the net of the constructor nor in [rippedNets] has kept
    the wires of its map. *)
Definition others_kept {dev : Arch} (good : archstate → Prop) (cfg : RouterCfg)
    (st st' : NetState) : Prop :=
  good (n_arch st')
  ∧ rippedNets (n_router st) ⊆ rippedNets (n_router st')
  ∧ ∀ m x, m ≠ IdString_empty → m ≠ net_name cfg → m ∉ rippedNets (n_router st') →
      bound (n_arch st) m x → bound (n_arch st') m x.

(** The net [name] is routed: the wire of its driver and the wire of each
    of its users are in its [wires] map. *)
Definition net_routed {dev : Arch} (a : archstate) (name : IdString) (ni : NetInfo) : Prop :=
  (∃ w, port_wire (driver ni) = Ok w ∧ bound a name w)
  ∧ Forall (λ u, ∃ w, port_wire u = Ok w ∧ bound a name w) (users ni).

(** Every net with a driver is [pending], or it is routed, [routed] being
    what is asked of the bindings of a routed net. *)
Definition nets_routed {dev : Arch} (routed : archstate → IdString → NetInfo → Prop)
    (ns : gmap Z NetInfo) (a : archstate) (pending : IdString → Prop) : Prop :=
  ∀ name ni, ns !! name = Some ni → cell (driver ni) ≠ None → name ≠ IdString_empty →
    pending name ∨ routed a name ni.

(** What a pass over an array of nets keeps true, [remaining] being the
    nets of the array that are still to come. *)
Definition pass_inv {dev : Arch} (good : archstate → Prop)
    (routed : archstate → IdString → NetInfo → Prop) (ns : gmap Z NetInfo)
    (ps : PassState) (remaining : list IdString) : Prop :=
  good (arch (p_ctx ps))
  ∧ scores_le scores_empty (p_scores ps)
  ∧ nets (p_ctx ps) = ns
  ∧ nets_routed routed ns (arch (p_ctx ps)) (λ n, n ∈ remaining ∨ n ∈ p_queue ps).

(** What the loop of [router1] keeps true. *)
Definition route_inv {dev : Arch} (good : archstate → Prop)
    (routed : archstate → IdString → NetInfo → Prop) (ns : gmap Z NetInfo)
    (ls : LoopState) : Prop :=
  good (arch (l_ctx ls))
  ∧ scores_le scores_empty (l_scores ls)
  ∧ 0 ≤ l_ripup_penalty ls
  ∧ nets (l_ctx ls) = ns
  ∧ nets_routed routed ns (arch (l_ctx ls)) (λ n, n ∈ netsQueue ls).

(** Net 1 of [dev_direct] with a driver that is on no bel. *)
Definition ctx_unplaced : @Context (Table.arch dev_direct) :=
  Table.context dev_direct [(1, Table.net BelId_none [2])] Table.no_bindings false.

(** ** The pips of a routed net *)

(** The [wires] map of the net [n] has the entry of the wire [x], with the
    pip [p]. *)
Definition entry {dev : Arch} (a : archstate) (n : IdString) (x : WireId) (p : PipId)
    : Prop :=
  (x, p) ∈ net_wires a n.

(** The contract of the proxy on the entries of the maps: binding a wire
    enters it without a pip, binding a pip enters the wire it leads to with
    that pip, and unbinding takes the entries of a wire out. *)
Record entries_contract {dev : Arch} (good : archstate → Prop) : Prop := mkEntries {
  ec_bindWire : ∀ a a' w n, good a → bindWire a w n = Returns a' →
    ∀ m x p, entry a' m x p ↔ entry a m x p ∨ (m = n ∧ x = w ∧ p = PipId_none);
  ec_bindPip : ∀ a a' q n, good a → bindPip a q n = Returns a' →
    ∀ m x p, entry a' m x p ↔ entry a m x p ∨ (m = n ∧ x = getPipDstWire q ∧ p = q);
  ec_unbindWire : ∀ a a' w, good a → unbindWire a w = Returns a' →
    ∀ m x p, entry a' m x p ↔ entry a m x p ∧ x ≠ w;
  ec_unbindPip : ∀ a a' q, good a → unbindPip a q = Returns a' →
    ∀ m x p, entry a' m x p ↔ entry a m x p ∧ x ≠ getPipDstWire q;
}.

(** From [a] to [a'] the map of the net [m] has lost entries at most. *)
Definition kept {dev : Arch} (m : IdString) (a a' : archstate) : Prop :=
  (∀ x, bound a' m x → bound a m x)
  ∧ (∀ x p, entry a m x p → bound a' m x → entry a' m x p).

(** The wire [x] is joined to a wire of [root] by pips of the map of the
    net [n], each leading from a wire of the map to the next. *)
Inductive linked {dev : Arch} (a : archstate) (n : IdString) (root : WireId → Prop)
    : WireId → Prop :=
  | linked_root x : root x → linked a n root x
  | linked_pip x p :
      entry a n x p → p ≠ PipId_none → linked a n root (getPipSrcWire p) →
      linked a n root x.

(** The map of the net is a tree from the wire of the driver: that wire is
    in the map without a pip, the wire of each user is joined to it by pips
    of the map, and so is every wire of the map. *)
Definition net_linked {dev : Arch} (a : archstate) (name : IdString) (ni : NetInfo) : Prop :=
  ∃ s, port_wire (driver ni) = Ok s
    ∧ entry a name s PipId_none
    ∧ Forall (λ u, ∃ w, port_wire u = Ok w ∧ linked a name (λ x, x = s) w) (users ni)
    ∧ ∀ x, bound a name x → linked a name (λ y, y = s) x.

(** What the constructor keeps true of the map of its net between two
    back-traces, [s] being the wire of the driver: the map holds the wires
    of [src_wires] and no other, the wire of the driver without a pip, and
    each of its wires is joined to the wire of the driver. *)
Definition tree_inv {dev : Arch} (name : IdString) (s : WireId) (st : NetState) : Prop :=
  entry (n_arch st) name s PipId_none
  ∧ (∀ x, bound (n_arch st) name x ↔ is_Some (n_src_wires st !! x))
  ∧ (∀ x, is_Some (n_src_wires st !! x) → linked (n_arch st) name (λ y, y = s) x).

(** The same in the course of a back-trace over the visited map [v], from
    the source wires [old], with the cursor on [c], whose path in [v] has
    [h] pips: the wires that the back-trace has entered are joined to the
    wires of [old] or to the cursor, and their paths in [v] are longer than
    that of the cursor. *)
Definition trace_inv {dev : Arch} (name : IdString) (s : WireId) (old : gmap Z Z)
    (v : gmap Z QueuedWire) (st : NetState) (c : WireId) (h : nat) : Prop :=
  entry (n_arch st) name s PipId_none
  ∧ (∀ x, bound (n_arch st) name x ↔ is_Some (n_src_wires st !! x))
  ∧ (∀ x, is_Some (old !! x) →
       is_Some (n_src_wires st !! x) ∧ linked (n_arch st) name (λ y, y = s) x)
  ∧ (∀ x, is_Some (n_src_wires st !! x) →
       linked (n_arch st) name (λ y, is_Some (old !! y) ∨ y = c) x
       ∧ (is_Some (old !! x) ∨ ∃ hx, rooted v hx x ∧ (h < hx)%nat)).

(** ** The least delays *)

(** An entry of the delay [d], as far as the cost of a pip reads it. *)
Definition at_delay (d : delay_t) : QueuedWire :=
  mkQueuedWire WireId_none PipId_none d 0 0.

(** The walks of a search from the source wires: a walk ends at a wire,
    with the delay that the search adds up along it (the delay of the
    source wire, and for each pip the cost of lines 147-191, penalties
    included), and it has a number of pips. *)
Inductive walk {dev : Arch} (cfg : RouterCfg) (a : archstate) (src_wires : gmap Z Z)
    : WireId → delay_t → nat → Prop :=
  | walk_source w d : src_wires !! w = Some d → walk cfg a src_wires w d 0
  | walk_pip w d k p c :
      walk cfg a src_wires w d k → p ∈ getPipsDownhill w →
      pip_cost cfg a (at_delay d) p = Ok (Some c) →
      walk cfg a src_wires (getPipDstWire p) c (S k).

(** From [v] to [v'] the entries stay and their delays do not grow. *)
Definition lower (v v' : gmap Z QueuedWire) : Prop :=
  ∀ w e, v !! w = Some e → ∃ e', v' !! w = Some e' ∧ delay e' ≤ delay e.

(** The pip [p] has been examined from an entry of the delay [d]: its cost
    was computed, and if the pip was not passed over, the wire it leads to
    has an entry that is no worse, up to epsilon. *)
Definition relaxed {dev : Arch} (cfg : RouterCfg) (a : archstate) (v : gmap Z QueuedWire)
    (d : delay_t) (p : PipId) : Prop :=
  ∃ c, pip_cost cfg a (at_delay d) p = Ok c
    ∧ ∀ nd, c = Some nd →
        ∃ ev, v !! getPipDstWire p = Some ev ∧ delay ev ≤ nd + getDelayEpsilon.

(** What a search keeps true of the delays, [popped] being the wire and
    the delay of the entry whose pips are examined ([None] between two
    turns of the loop): an entry of the visited map has an entry of its
    wire and delay in the queue, or the downhill pips of its wire have been
    examined from its delay, or it is the popped one. *)
Definition least_inv {dev : Arch} (cfg : RouterCfg) (a : archstate)
    (popped : option (WireId * delay_t)) (st : SearchState) : Prop :=
  ∀ u eu, s_visited st !! u = Some eu →
    (∃ x, x ∈ queue st ∧ wire x = u ∧ delay x = delay eu)
    ∨ (∀ p, p ∈ getPipsDownhill u → relaxed cfg a (s_visited st) (delay eu) p)
    ∨ popped = Some (u, delay eu).
(** * Properties *)

(** ** The result monad *)

Lemma bind_Ok {A B : Type} (m : result A) (f : A → result B) (b : B) :
  m ≫= f = Ok b → ∃ x, m = Ok x ∧ f x = Ok b.
Proof. destruct m as [x|e]; simpl; [eauto | discriminate]. Qed.

Lemma bind_Err {A B : Type} (m : result A) (f : A → result B) (e : error) :
  m ≫= f = Err e → m = Err e ∨ ∃ x, m = Ok x ∧ f x = Err e.
Proof. destruct m as [x|e']; simpl; [eauto | intros [= ->]; eauto]. Qed.

Lemma assert_Ok (b : bool) (u : unit) : assert b = Ok u → b = true.
Proof. destruct b; [done | discriminate]. Qed.

(** ** The cost of a pip (C3) *)

Section CostProofs.
Context {dev : Arch}.
Variable cfg : RouterCfg.
Variable a : archstate.

Lemma check_wire_spec (next : WireId) (d : delay_t) :
  check_wire cfg a next d =
    if checkWireAvail a next then Some (d, false)
    else if passes_over cfg (getConflictingWireNet a next) then None
    else Some (d + wire_penalty cfg a next, true).
Proof.
  unfold check_wire, passes_over, wire_penalty, score.
  destruct (checkWireAvail a next); [done|].
  destruct (ripup cfg); simpl; [|done].
  destruct (bool_decide _ || bool_decide _); [done|].
  destruct (wireScores (scores cfg) !! next) as [s1|],
           (netWireScores (scores cfg) !! _) as [s2|]; simpl; f_equal; f_equal;
    rewrite ?Z.quot_0_l by done; lia.
Qed.

Lemma check_pip_spec (p : PipId) (d : delay_t) (found : bool) :
  check_pip cfg a p d found =
    if checkPipAvail a p then Some (d, found)
    else if passes_over cfg (getConflictingPipNet a p) then None
    else Some (d + pip_penalty cfg a p, true).
Proof.
  unfold check_pip, passes_over, pip_penalty, score.
  destruct (checkPipAvail a p); [done|].
  destruct (ripup cfg); simpl; [|done].
  destruct (bool_decide _ || bool_decide _); [done|].
  destruct (pipScores (scores cfg) !! p) as [s1|],
           (netPipScores (scores cfg) !! _) as [s2|]; simpl; f_equal; f_equal;
    rewrite ?Z.quot_0_l by done; lia.
Qed.

(** The code computes the cost rule and stops on a negative cost. *)
Lemma pip_cost_spec (qw : QueuedWire) (p : PipId) :
  pip_cost cfg a qw p =
    match spec_cost cfg a qw p with
    | None => Ok None
    | Some c => if 0 <=? c then Ok (Some c) else throw AssertionFailure
    end.
Proof.
  unfold pip_cost, spec_cost. rewrite check_wire_spec.
  destruct (checkWireAvail a (getPipDstWire p)); simpl.
  - rewrite check_pip_spec. destruct (checkPipAvail a p); simpl.
    + rewrite !Z.add_0_r. by destruct (0 <=? _).
    + destruct (passes_over cfg (getConflictingPipNet a p)); [done|].
      replace (delay qw + getPipDelay p + 0 + pip_penalty cfg a p + ripup_penalty cfg)
        with (delay qw + getPipDelay p + pip_penalty cfg a p + ripup_penalty cfg) by lia.
      by destruct (0 <=? _).
  - destruct (passes_over cfg (getConflictingWireNet a _)); simpl; [done|].
    rewrite check_pip_spec. destruct (checkPipAvail a p); simpl.
    + rewrite !Z.add_0_r. by destruct (0 <=? _).
    + destruct (passes_over cfg (getConflictingPipNet a p)); [done|].
      by destruct (0 <=? _).
Qed.

End CostProofs.

(** C3.  For every examined pip the code follows the cost rule: an
    unavailable destination wire (and, symmetrically, an unavailable pip)
    makes the search skip the edge when rip-up is disabled or when the
    conflicting net is the current net or the empty name; otherwise the cost
    is the base delay plus [(wireScores[next] * ripup_penalty) / 8 +
    netWireScores[(net, next)] * ripup_penalty] for the wire, the same with
    [pipScores] and [netPipScores] for the pip, plus one [ripup_penalty] if
    there was a conflict; and a cost that the search goes on with is
    nonnegative, the assertion stopping the search otherwise. *)
Theorem C3_pip_cost {dev : Arch} (cfg : RouterCfg) (a : archstate) (qw : QueuedWire) (p : PipId) :
  match pip_cost cfg a qw p with
  | Ok (Some c) => spec_cost cfg a qw p = Some c ∧ 0 ≤ c
  | Ok None => spec_cost cfg a qw p = None
  | Err e => e = Exn AssertionFailure ∧ ∃ c, spec_cost cfg a qw p = Some c ∧ c < 0
  end.
Proof.
  rewrite pip_cost_spec. destruct (spec_cost cfg a qw p) as [c|]; [|done].
  destruct (Z.leb_spec 0 c); unfold throw; eauto with lia.
Qed.

(** ** One examined pip *)

Section EdgeProofs.
Context {dev : Arch}.
Variable cfg : RouterCfg.
Variable a : archstate.
Variable dst : WireId.

Lemma relax_cases (qw : QueuedWire) (st : SearchState) (p : PipId) (d : delay_t) :
  let next := getPipDstWire p in
  let r := relax dst qw st p d in
  thisVisitCnt r.2 = thisVisitCnt st ∧ thisVisitCntLimit r.2 = thisVisitCntLimit st ∧
  ((r = (qw, st) ∧ ∃ old, s_visited st !! next = Some old ∧ delay old ≤ d + getDelayEpsilon)
   ∨ (queue r.2 = entered dst p d :: queue st
      ∧ s_visited r.2 = <[next := entered dst p d]> (s_visited st)
      ∧ s_rng r.2 = (rng (s_rng st)).2
      ∧ r.1 = mkQueuedWire (wire qw) (pip qw) (delay qw) (togo qw) (rng (s_rng st)).1
      ∧ ((s_visited st !! next = None
          ∧ s_revisitCnt r.2 = s_revisitCnt st
          ∧ s_overtimeRevisitCnt r.2 = s_overtimeRevisitCnt st)
         ∨ (is_Some (s_visited st !! next) ∧ thisVisitCntLimit st = 0
            ∧ s_revisitCnt r.2 = s_revisitCnt st + 1
            ∧ s_overtimeRevisitCnt r.2 = s_overtimeRevisitCnt st)
         ∨ (is_Some (s_visited st !! next) ∧ thisVisitCntLimit st ≠ 0
            ∧ s_revisitCnt r.2 = s_revisitCnt st
            ∧ s_overtimeRevisitCnt r.2 = s_overtimeRevisitCnt st + 1)))).
Proof.
  intros next r. subst r. unfold relax. fold next.
  destruct (s_visited st !! next) as [old|] eqn:Hv.
  - destruct (Z.leb_spec (delay old) (d + getDelayEpsilon)).
    + simpl. split_and!; [done..|]. left. eauto.
    + destruct (Z.eqb_spec (thisVisitCntLimit st) 0);
        destruct (rng (s_rng st)) as [r g]; simpl;
        (split_and!; [done..|]); right; (split_and!; [done..|]); eauto 10.
  - destruct (rng (s_rng st)) as [r g]; simpl.
    split_and!; [done..|]. right. split_and!; [done..|]. eauto.
Qed.

End EdgeProofs.

(** ** The priority queue *)

Lemma pq_pop_None (q : list QueuedWire) : pq_pop q = None → q = [].
Proof. destruct q as [|x q]; [done|]. simpl. by repeat case_match. Qed.

Lemma pq_pop_length (q r : list QueuedWire) (x : QueuedWire) :
  pq_pop q = Some (x, r) → length q = S (length r).
Proof.
  revert x r. induction q as [|y q IH]; intros x r Hp; simpl in Hp; [done|].
  destruct (pq_pop q) as [[z r']|] eqn:Hq.
  - specialize (IH _ _ eq_refl). destruct (Greater y z); injection Hp as <- <-; simpl; lia.
  - injection Hp as <- <-. by rewrite (pq_pop_None _ Hq).
Qed.

(** ** Progress of a search *)

Section SearchProofs.
Context {dev : Arch}.
Variable cfg : RouterCfg.
Variable a : archstate.
Variable dst : WireId.

Lemma search_progress_refl (st : SearchState) : search_progress st st.
Proof. split; intros; (done || lia). Qed.

Lemma search_progress_trans (s0 s1 s2 : SearchState) :
  search_progress s0 s1 → search_progress s1 s2 → search_progress s0 s2.
Proof.
  intros [Hk1 Hs1 Hc1 Hr1 Ho1 Hl1 He1 Ha1] [Hk2 Hs2 Hc2 Hr2 Ho2 Hl2 He2 Ha2].
  split; [naive_solver | lia | lia | lia | lia | | | lia].
  - intros Hl. rewrite <- Hl1 by done. apply Hl2. by rewrite Hl1.
  - intros Hlt. destruct (decide (s_overtimeRevisitCnt s0 < s_overtimeRevisitCnt s1)) as [Hlt1|Hge].
    + rewrite Hl2; auto.
    + apply He2. lia.
Qed.

Lemma examine_pip_progress (qw qw' : QueuedWire) (st st' : SearchState) (p : PipId) :
  examine_pip cfg a dst (qw, st) p = Ok (qw', st') →
  search_progress st st'
  ∧ thisVisitCnt st' = thisVisitCnt st + 1
  ∧ thisVisitCntLimit st' = thisVisitCntLimit st.
Proof.
  unfold examine_pip. intros Hex. apply bind_Ok in Hex as (c & _ & Hex).
  destruct c as [d|].
  - injection Hex as Hex.
    set (st1 := mkSearch _ _ _ _ _ _ _) in Hex.
    destruct (relax_cases dst qw st1 p d) as (Hcnt & Hlim & Hcases).
    rewrite Hex in Hcnt, Hlim, Hcases. simpl in Hcnt, Hlim, Hcases.
    split_and!; [|done..].
    destruct Hcases as [[[= -> ->] _]|(Hq & Hv & _ & _ & Hcs)].
    + split; simpl; intros; (done || lia).
    + assert (Hkeys : ∀ w, is_Some (s_visited st !! w) → is_Some (s_visited st' !! w)).
      { intros w Hw. rewrite Hv. destruct (decide (getPipDstWire p = w)) as [->|].
        - rewrite lookup_insert_eq. eauto.
        - by rewrite lookup_insert_ne. }
      destruct Hcs as [(Hn & Hr & Ho)|[(Hs & Hl0 & Hr & Ho)|(Hs & Hl0 & Hr & Ho)]].
      * assert (size (s_visited st') = S (size (s_visited st))) as Hsz
          by (rewrite Hv; by apply map_size_insert_None).
        split; try done; rewrite ?Hsz; try lia.
      * assert (size (s_visited st') = size (s_visited st)) as Hsz
          by (rewrite Hv; by apply map_size_insert_Some).
        split; try done; rewrite ?Hsz; try lia.
      * assert (size (s_visited st') = size (s_visited st)) as Hsz
          by (rewrite Hv; by apply map_size_insert_Some).
        split; try done; rewrite ?Hsz; try lia; intros _; by rewrite Hlim.
  - injection Hex as <- <-. split_and!; [|done..].
    split; simpl; intros; (done || lia).
Qed.

Lemma examine_pips_progress (ps : list PipId) (qw qw' : QueuedWire) (st st' : SearchState) :
  foldM (examine_pip cfg a dst) (qw, st) ps = Ok (qw', st') →
  search_progress st st'
  ∧ thisVisitCnt st' = thisVisitCnt st + Z.of_nat (length ps)
  ∧ thisVisitCntLimit st' = thisVisitCntLimit st.
Proof.
  revert qw st. induction ps as [|p ps IH]; intros qw st Hf; simpl in Hf.
  - injection Hf as <- <-. split_and!; [apply search_progress_refl | simpl; lia | done].
  - apply bind_Ok in Hf as ([qw1 st1] & H1 & Hf).
    apply examine_pip_progress in H1 as (Hp1 & Hc1 & Hl1).
    apply IH in Hf as (Hp2 & Hc2 & Hl2).
    split_and!; [by eapply search_progress_trans | simpl length; lia | congruence].
Qed.

(** The limit after a turn of the loop is the one set right after the pop. *)
Lemma route_step_limit (st st' : SearchState) :
  search_continues st = true →
  route_step cfg a dst st = Ok st' →
  thisVisitCntLimit st' = engage_limit dst st.
Proof.
  unfold route_step. intros Hc Hs. destruct (pq_pop (queue st)) as [[qw q']|] eqn:Hpop.
  - apply bind_Ok in Hs as ([qw' st1] & Hf & [= <-]).
    by apply examine_pips_progress in Hf as (_ & _ & ->).
  - apply pq_pop_None in Hpop. unfold search_continues in Hc.
    by rewrite bool_decide_eq_true_2 in Hc.
Qed.

Lemma engage_limit_cases (st : SearchState) :
  (thisVisitCntLimit st = 0 ∧ is_Some (s_visited st !! dst)
   ∧ engage_limit dst st = Z.quot (thisVisitCnt st * 3) 2)
  ∨ ((thisVisitCntLimit st ≠ 0 ∨ s_visited st !! dst = None)
     ∧ engage_limit dst st = thisVisitCntLimit st).
Proof.
  unfold engage_limit. destruct (Z.eqb_spec (thisVisitCntLimit st) 0) as [H0|Hn0]; simpl.
  - case_bool_decide as Hd; [left; done|right]. split; [right|done].
    by apply eq_None_not_Some.
  - right. split; [by left | done].
Qed.

Lemma route_step_progress (st st' : SearchState) :
  limit_sound dst st →
  route_step cfg a dst st = Ok st' →
  search_progress st st' ∧ limit_sound dst st'.
Proof.
  unfold route_step, limit_sound. intros Hls Hs.
  destruct (pq_pop (queue st)) as [[qw q']|] eqn:Hpop.
  - apply bind_Ok in Hs as ([qw' st1] & Hf & [= <-]).
    apply examine_pips_progress in Hf as ([Hk Hsz Hcn Hr Ho Hlm He Ha] & Hc & Hl).
    unfold after_pop in *. simpl in *.
    destruct (engage_limit_cases st) as [(H0 & Hd & Heq)|(Hor & Heq)].
    + split.
      * split; try done; intros Hn0; by destruct Hn0.
      * intros _. by apply Hk.
    + split.
      * split; try done; intros _; congruence.
      * intros Hn0. apply Hk, Hls. destruct Hor as [?|Hnone]; [done|].
        intros H0. apply Hn0. congruence.
  - injection Hs as <-. split; [apply search_progress_refl | done].
Qed.

Lemma route_loop_progress (fuel : nat) (st st' : SearchState) :
  limit_sound dst st →
  route_loop cfg a dst fuel st = Ok st' →
  search_progress st st' ∧ limit_sound dst st' ∧ search_continues st' = false.
Proof.
  revert st. induction fuel as [|fuel IH]; intros st Hls Hl; simpl in Hl;
    destruct (search_continues st) eqn:Hc; try discriminate.
  - injection Hl as <-. split_and!; [apply search_progress_refl | done..].
  - apply bind_Ok in Hl as (st1 & Hs & Hl).
    apply route_step_progress in Hs as [Hp1 Hls1]; [|done].
    apply IH in Hl as (Hp2 & Hls2 & Hc2); [|done].
    split_and!; [by eapply search_progress_trans | done..].
  - injection Hl as <-. split_and!; [apply search_progress_refl | done..].
Qed.

Lemma search_run_progress (s0 : SearchState) (popped : list WireId) (st : SearchState) :
  limit_sound dst s0 →
  search_run cfg a dst s0 popped st →
  search_progress s0 st ∧ limit_sound dst st.
Proof.
  intros Hls. induction 1 as [|popped st qw q' st' _ [IHp IHl] Hc Hpop Hs].
  - split; [apply search_progress_refl | done].
  - apply route_step_progress in Hs as [Hp Hl]; [|done].
    split; [by eapply search_progress_trans | done].
Qed.

End SearchProofs.

(** ** The exact account of the examined pips *)

Section AccountProofs.
Context {dev : Arch}.
Variable cfg : RouterCfg.
Variable a : archstate.
Variable dst : WireId.

Lemma cons_neq {A : Type} (x : A) (l : list A) : x :: l ≠ l.
Proof. intros Heq. apply (f_equal length) in Heq. simpl in Heq. lia. Qed.

Lemma examine_pip_exact (qw qw' : QueuedWire) (st st' : SearchState) (p : PipId) :
  examine_pip cfg a dst (qw, st) p = Ok (qw', st') →
  unaccounted st st' = if bool_decide (queue st' = queue st) then 1 else 0.
Proof.
  unfold examine_pip, unaccounted. intros Hex. apply bind_Ok in Hex as (c & _ & Hex).
  destruct c as [d|].
  - injection Hex as Hex.
    set (st1 := mkSearch _ _ _ _ _ _ _) in Hex.
    destruct (relax_cases dst qw st1 p d) as (Hcnt & Hlim & Hcases).
    rewrite Hex in Hcnt, Hlim, Hcases. simpl in Hcnt, Hlim, Hcases.
    destruct Hcases as [[[= -> ->] _]|(Hq & Hv & _ & _ & Hcs)].
    + simpl. rewrite bool_decide_eq_true_2 by done. lia.
    + rewrite Hq, bool_decide_eq_false_2 by apply cons_neq.
      destruct Hcs as [(Hn & Hr & Ho)|[(Hs & Hl0 & Hr & Ho)|(Hs & Hl0 & Hr & Ho)]];
        rewrite Hv, ?map_size_insert_None, ?map_size_insert_Some by done; lia.
  - injection Hex as <- <-. simpl. rewrite bool_decide_eq_true_2 by done. lia.
Qed.

Lemma unaccounted_trans (s0 s1 s2 : SearchState) :
  unaccounted s0 s2 = unaccounted s0 s1 + unaccounted s1 s2.
Proof. unfold unaccounted. lia. Qed.

Lemma examine_pips_exact (ps : list PipId) (qw qw' : QueuedWire) (st st' : SearchState) :
  foldM (examine_pip cfg a dst) (qw, st) ps = Ok (qw', st') →
  unaccounted st st' = passed_pips cfg a dst (qw, st) ps
  ∧ 0 ≤ passed_pips cfg a dst (qw, st) ps.
Proof.
  revert qw st. induction ps as [|p ps IH]; intros qw st Hf; simpl in Hf |- *.
  - injection Hf as <- <-. unfold unaccounted. lia.
  - apply bind_Ok in Hf as ([qw1 st1] & H1 & Hf). rewrite H1. simpl.
    apply examine_pip_exact in H1. apply IH in Hf as [Hf Hpos].
    rewrite (unaccounted_trans st st1 st'), H1, Hf. case_bool_decide; lia.
Qed.

Lemma route_loop_exact (fuel : nat) (st st' : SearchState) :
  route_loop cfg a dst fuel st = Ok st' →
  unaccounted st st' = passed_search cfg a dst fuel st
  ∧ 0 ≤ passed_search cfg a dst fuel st.
Proof.
  revert st. induction fuel as [|fuel IH]; intros st Hl; simpl in Hl |- *;
    destruct (search_continues st) eqn:Hc; try discriminate.
  - injection Hl as <-. unfold unaccounted. lia.
  - apply bind_Ok in Hl as (st1 & Hs & Hl). rewrite Hs.
    apply IH in Hl as [Hl Hpos]. unfold route_step in Hs.
    destruct (pq_pop (queue st)) as [[qw q']|] eqn:Hpop.
    + apply bind_Ok in Hs as ([qw' st2] & Hf & [= <-]).
      apply examine_pips_exact in Hf as [Hf Hpos1]. simpl.
      rewrite (unaccounted_trans st st2 st'), Hl, <- Hf. unfold unaccounted, after_pop in *.
      simpl in *. lia.
    + apply pq_pop_None in Hpop. unfold search_continues in Hc.
      by rewrite bool_decide_eq_true_2 in Hc.
  - injection Hl as <-. unfold unaccounted. lia.
Qed.

End AccountProofs.

(** ** The state on entry to the loop *)

Section InitProofs.
Context {dev : Arch}.
Variable dst : WireId.

Lemma push_sources_spec (l : list (Z * Z)) (st : SearchState) :
  let st' := fold_left (push_source dst) l st in
  thisVisitCnt st' = thisVisitCnt st
  ∧ thisVisitCntLimit st' = thisVisitCntLimit st
  ∧ s_revisitCnt st' = s_revisitCnt st
  ∧ s_overtimeRevisitCnt st' = s_overtimeRevisitCnt st
  ∧ dom (s_visited st') = dom (s_visited st) ∪ list_to_set l.*1.
Proof.
  revert st. induction l as [|[w d] l IH]; intros st; simpl.
  - split_and!; try done. by rewrite (right_id_L ∅ (∪)).
  - destruct (IH (push_source dst st (w, d))) as (-> & -> & -> & -> & ->).
    unfold push_source. destruct (rng (s_rng st)) as [r g]. simpl.
    split_and!; try done. rewrite dom_insert_L.
    by rewrite (comm_L (∪) {[w]}), (assoc_L (∪)).
Qed.

Lemma search_init_spec (srcs : gmap Z Z) (g rv ov : Z) :
  let st := search_init dst srcs g rv ov in
  thisVisitCnt st = 0
  ∧ thisVisitCntLimit st = 0
  ∧ s_revisitCnt st = rv
  ∧ s_overtimeRevisitCnt st = ov
  ∧ dom (s_visited st) = dom srcs.
Proof.
  unfold search_init.
  destruct (push_sources_spec (map_to_list srcs) (mkSearch [] ∅ g 0 0 rv ov))
    as (-> & -> & -> & -> & ->).
  simpl. split_and!; try done.
  rewrite dom_empty_L, (left_id_L ∅ (∪)). symmetry. apply leibniz_equiv, dom_alt.
Qed.

Lemma search_init_size (srcs : gmap Z Z) (g rv ov : Z) :
  size (s_visited (search_init dst srcs g rv ov)) = size srcs.
Proof.
  destruct (search_init_spec srcs g rv ov) as (_ & _ & _ & _ & Hdom).
  by rewrite <- (size_dom (D := gset Z) (s_visited _)), Hdom, size_dom.
Qed.

Lemma search_init_sound (srcs : gmap Z Z) (g rv ov : Z) :
  limit_sound dst (search_init dst srcs g rv ov).
Proof.
  destruct (search_init_spec srcs g rv ov) as (_ & Hl & _). by intros [].
Qed.

End InitProofs.

(** ** The limit of a search (C4) *)

Lemma run_step_to {dev : Arch} (cfg : RouterCfg) (a : archstate) (dst : WireId)
    (s0 : SearchState) (popped : list WireId) (st st' : SearchState) (w : WireId) :
  search_run cfg a dst s0 popped st →
  search_continues st = true →
  fmap (λ x : QueuedWire * list QueuedWire, wire x.1) (pq_pop (queue st)) = Some w →
  route_step cfg a dst st = Ok st' →
  search_run cfg a dst s0 (w :: popped) st'.
Proof.
  intros Hrun Hc Hpop Hs. destruct (pq_pop (queue st)) as [[qw q']|] eqn:Hq; [|done].
  injection Hpop as <-. by eapply run_step.
Qed.

Lemma detour_run :
  search_run (dev := Table.arch dev_detour) cfg_plain Table.no_bindings 3
    detour_start [2; 1] detour_end.
Proof.
  apply (run_step_to _ _ _ _ [1] detour_mid detour_end 2).
  - apply (run_step_to _ _ _ _ [] detour_start detour_mid 1);
      [apply run_start | by vm_compute..].
  - by vm_compute.
  - by vm_compute.
  - by vm_compute.
Qed.

(** The claim as it is stated fails on [dev_detour]: the search from wire 1
    to wire 3 pops wire 1, then wire 2, and ends there; the limit became 3 at
    the second pop, and wire 3 was never popped. *)
Lemma C4_counterexample :
  search_run (dev := Table.arch dev_detour) cfg_plain Table.no_bindings 3
    detour_start [2; 1] detour_end
  ∧ route_loop (dev := Table.arch dev_detour) cfg_plain Table.no_bindings 3 5 detour_start
    = Ok detour_end
  ∧ (3 ∉ [2; 1])
  ∧ thisVisitCntLimit detour_end = 3.
Proof.
  split_and!; [apply detour_run | by vm_compute | | by vm_compute].
  intros Hin. by repeat (apply elem_of_cons in Hin as [?|Hin]; [done|]); inversion Hin.
Qed.

Lemma route_loop_run {dev : Arch} (cfg : RouterCfg) (a : archstate) (dst : WireId)
    (s0 : SearchState) (fuel : nat) (popped : list WireId) (st st' : SearchState) :
  search_run cfg a dst s0 popped st →
  route_loop cfg a dst fuel st = Ok st' →
  ∃ popped', search_run cfg a dst s0 popped' st'.
Proof.
  revert popped st. induction fuel as [|fuel IH]; intros popped st Hrun Hl; simpl in Hl;
    destruct (search_continues st) eqn:Hc; try discriminate.
  - injection Hl as <-. eauto.
  - apply bind_Ok in Hl as (st1 & Hs & Hl).
    destruct (pq_pop (queue st)) as [[qw q']|] eqn:Hpop.
    + eapply IH; [|done]. by eapply run_step.
    + apply pq_pop_None in Hpop. unfold search_continues in Hc.
      by rewrite bool_decide_eq_true_2 in Hc.
  - injection Hl as <-. eauto.
Qed.

Lemma search_continues_false (st : SearchState) :
  search_continues st = false ↔
  queue st = [] ∨ (thisVisitCntLimit st ≠ 0 ∧ thisVisitCntLimit st ≤ thisVisitCnt st).
Proof.
  unfold search_continues.
  rewrite andb_false_iff, negb_false_iff, bool_decide_eq_true, orb_false_iff.
  rewrite Z.eqb_neq, Z.ltb_ge. done.
Qed.

(** C4, as the code has it.  In every run of a path search the limit
    [thisVisitCntLimit] is 0 as long as the destination wire is not in the
    visited map (a wire enters the map when it is first discovered, which
    can be before it is popped); a turn of the loop that starts with the
    limit at 0 and the destination in the map sets it to
    [(thisVisitCnt * 3) / 2], any other turn leaves it as it is; the loop
    is left exactly when the queue is empty or [thisVisitCnt] has reached a
    nonzero limit. *)
Theorem C4_visit_limit {dev : Arch} (cfg : RouterCfg) (a : archstate) (dst : WireId)
    (src_wires : gmap Z Z) (g rv ov : Z) (popped : list WireId) (st : SearchState) :
  search_run cfg a dst (search_init dst src_wires g rv ov) popped st →
  (s_visited st !! dst = None → thisVisitCntLimit st = 0)
  ∧ (∀ st', search_continues st = true → route_step cfg a dst st = Ok st' →
       thisVisitCntLimit st' =
         if (thisVisitCntLimit st =? 0) && bool_decide (is_Some (s_visited st !! dst))
         then Z.quot (thisVisitCnt st * 3) 2
         else thisVisitCntLimit st)
  ∧ (search_continues st = false ↔
       queue st = [] ∨ (thisVisitCntLimit st ≠ 0 ∧ thisVisitCntLimit st ≤ thisVisitCnt st))
  ∧ (∀ fuel st', route_loop cfg a dst fuel st = Ok st' →
       search_continues st' = false ∧ ∃ popped', search_run cfg a dst
         (search_init dst src_wires g rv ov) popped' st').
Proof.
  intros Hrun.
  destruct (search_run_progress cfg a dst _ _ _ (search_init_sound dst src_wires g rv ov) Hrun)
    as [_ Hsound].
  split_and!.
  - intros Hnone. destruct (decide (thisVisitCntLimit st = 0)) as [|Hn0]; [done|].
    apply Hsound in Hn0. rewrite Hnone in Hn0. by destruct Hn0.
  - intros st' Hc Hs. by apply (route_step_limit cfg a).
  - apply search_continues_false.
  - intros fuel st' Hl. split.
    + by apply route_loop_progress in Hl as (_ & _ & ?).
    + by eapply route_loop_run.
Qed.

Lemma C4_witness :
  search_run (dev := Table.arch dev_detour) cfg_plain Table.no_bindings 3
    detour_start [2; 1] detour_end
  ∧ (s_visited detour_end !! 3 = None → thisVisitCntLimit detour_end = 0).
Proof.
  split; [apply detour_run|].
  apply (C4_visit_limit (dev := Table.arch dev_detour) cfg_plain Table.no_bindings 3
           {[1 := 0]} 42 0 0 [2; 1] detour_end detour_run).
Defined.

(** ** The account of a search (C8) *)

Lemma route_Ok {dev : Arch} (fuel : nat) (cfg : RouterCfg) (a : archstate) (g : Z)
    (r0 r : Router) (src_wires : gmap Z Z) (dst : WireId) (g' : Z) :
  route fuel cfg a g r0 src_wires dst = Ok (r, g') →
  ∃ st, route_loop cfg a dst fuel
          (search_init dst src_wires g (revisitCnt r0) (overtimeRevisitCnt r0)) = Ok st
    ∧ r = mkRouter (rippedNets r0) (s_visited st) (visitCnt r0 + thisVisitCnt st)
            (s_revisitCnt st) (s_overtimeRevisitCnt st) (routedOkay r0) (maxDelay r0)
            (failedDest r0)
    ∧ g' = s_rng st.
Proof.
  unfold route. intros Hr. apply bind_Ok in Hr as (st & Hl & [= <- <-]). eauto.
Qed.

(** The claim as it is stated fails on [dev_parallel]: the search from wire
    1 to wire 2 examines both pips, enters wire 2 once and passes over the
    second pip, which is no better. *)
Lemma C8_counterexample :
  ∃ (r : Router) (g' : Z),
    route (dev := Table.arch dev_parallel) 5 cfg_plain Table.no_bindings 42 Router_init
      {[1 := 0]} 2 = Ok (r, g')
    ∧ visitCnt r = 2
    ∧ revisitCnt r + overtimeRevisitCnt r
      + (Z.of_nat (size (visited r)) - Z.of_nat (size ({[1 := 0]} : gmap Z Z))) = 1.
Proof. eexists _, _. split_and!; by vm_compute. Qed.

(** C8, as the code has it.  A completed path search adds to [visitCnt] the
    number of pips it examined: the revisits it added to [revisitCnt] and to
    [overtimeRevisitCnt], the wires it newly entered into the visited map,
    and the pips it passed over; and it adds to [overtimeRevisitCnt] only if
    the destination wire was reached. *)
Theorem C8_visit_account {dev : Arch} (fuel : nat) (cfg : RouterCfg) (a : archstate) (g : Z)
    (r0 r : Router) (src_wires : gmap Z Z) (dst : WireId) (g' : Z) :
  route fuel cfg a g r0 src_wires dst = Ok (r, g') →
  let passed :=
    passed_search cfg a dst fuel
      (search_init dst src_wires g (revisitCnt r0) (overtimeRevisitCnt r0)) in
  visitCnt r - visitCnt r0 =
    (revisitCnt r - revisitCnt r0)
    + (overtimeRevisitCnt r - overtimeRevisitCnt r0)
    + (Z.of_nat (size (visited r)) - Z.of_nat (size src_wires))
    + passed
  ∧ 0 ≤ passed
  ∧ (overtimeRevisitCnt r0 < overtimeRevisitCnt r → is_Some (visited r !! dst)).
Proof.
  intros Hr. apply route_Ok in Hr as (st & Hl & -> & ->). simpl.
  destruct (route_loop_exact _ _ _ _ _ _ Hl) as [Hacc Hpos].
  destruct (route_loop_progress _ _ _ _ _ _ (search_init_sound dst src_wires g _ _) Hl)
    as ([_ _ _ _ _ _ Heng _] & Hsound & _).
  destruct (search_init_spec dst src_wires g (revisitCnt r0) (overtimeRevisitCnt r0))
    as (Hc0 & _ & Hr0 & Ho0 & _).
  pose proof (search_init_size dst src_wires g (revisitCnt r0) (overtimeRevisitCnt r0)) as Hsz.
  unfold unaccounted in Hacc. rewrite Hc0, Hr0, Ho0, Hsz in Hacc. rewrite Ho0 in Heng.
  split_and!; [lia | done | auto].
Qed.

Lemma C8_witness :
  ∃ (r : Router) (g' : Z),
    route (dev := Table.arch dev_parallel) 5 cfg_plain Table.no_bindings 42 Router_init
      {[1 := 0]} 2 = Ok (r, g')
    ∧ visitCnt r - visitCnt Router_init =
        (revisitCnt r - revisitCnt Router_init)
        + (overtimeRevisitCnt r - overtimeRevisitCnt Router_init)
        + (Z.of_nat (size (visited r)) - Z.of_nat (size ({[1 := 0]} : gmap Z Z)))
        + passed_search (dev := Table.arch dev_parallel) cfg_plain Table.no_bindings 2 5
            (search_init (dev := Table.arch dev_parallel) 2 {[1 := 0]} 42 0 0).
Proof.
  destruct (route (dev := Table.arch dev_parallel) 5 cfg_plain Table.no_bindings 42
              Router_init {[1 := 0]} 2) as [[r g']|e] eqn:Hr; [|by vm_compute in Hr].
  exists r, g'. split; [done|].
  apply (C8_visit_account (dev := Table.arch dev_parallel) _ _ _ _ _ _ _ _ _ Hr).
Defined.

(** ** The tiebreak of an entered wire (C5) *)

(** C5 does not hold of the code.  Whenever [relax] enters a wire, the
    entry that goes into the queue and into the visited map has the
    [randtag] 0 of its default construction; the value drawn from the
    generator at that moment is stored in the popped entry [qw]. *)
Theorem C5_relax_randtag {dev : Arch} (dst : WireId) (qw : QueuedWire) (st : SearchState)
    (p : PipId) (d : delay_t) :
  let r := relax dst qw st p d in
  r = (qw, st)
  ∨ ∃ next_qw : QueuedWire,
      queue r.2 = next_qw :: queue st
      ∧ s_visited r.2 !! getPipDstWire p = Some next_qw
      ∧ randtag next_qw = 0
      ∧ randtag r.1 = (rng (s_rng st)).1
      ∧ s_rng r.2 = (rng (s_rng st)).2.
Proof.
  destruct (relax_cases dst qw st p d) as (_ & _ & [[? _]|(Hq & Hv & Hg & Hqw & _)]).
  - by left.
  - right. exists (entered dst p d). split_and!; try done.
    + simpl. rewrite Hv. apply lookup_insert_eq.
    + simpl. by rewrite Hqw.
Qed.

(** On [dev_direct] the generator yields 42560440 when wire 2 is entered
    from the popped entry of wire 1; that value ends up in the popped entry,
    and the entry of wire 2 has the tiebreak 0. *)
Lemma C5_failing_input :
  @rng (Table.arch dev_direct) (s_rng direct_popped) = (42560440, 1116302264)
  ∧ examine_pip (dev := Table.arch dev_direct) cfg_plain Table.no_bindings 2
      (mkQueuedWire 1 PipId_none 0 0 176754203, direct_popped) 0
    = Ok (mkQueuedWire 1 PipId_none 0 0 42560440,
          mkSearch [mkQueuedWire 2 0 5 0 0]
            (<[2 := mkQueuedWire 2 0 5 0 0]> (s_visited direct_popped))
            1116302264 1 0 0 0).
Proof. split; by vm_compute. Qed.

(** ** The delay between two wires (C10) *)

Lemma visited_index_keys (v : gmap Z QueuedWire) (w w' : WireId) (q : QueuedWire) :
  v !! w' = Some q → (visited_index v w).2 !! w' = Some q.
Proof.
  unfold visited_index. intros Hq. destruct (v !! w) eqn:Hw; simpl; [done|].
  rewrite lookup_insert_ne; [done|]. intros ->. congruence.
Qed.

Lemma debug_walk_keys {dev : Arch} (fuel : nat) (v v' : gmap Z QueuedWire)
    (src cursor w : WireId) (q : QueuedWire) :
  debug_walk fuel v src cursor = Ok v' → v !! w = Some q → v' !! w = Some q.
Proof.
  revert v cursor. induction fuel as [|fuel IH]; intros v cursor Hw Hq; simpl in Hw;
    pose proof (visited_index_keys v cursor w q Hq) as Hq';
    destruct (visited_index v cursor) as [q1 v1]; simpl in Hq';
    case_bool_decide; try discriminate.
  - by injection Hw as <-.
  - by injection Hw as <-.
  - eauto.
Qed.

Lemma Router_wire_reached {dev : Arch} (fuel : nat) (c c' : Context) (sc : RipupScoreboard)
    (src dst : WireId) (router : Router) :
  Router_wire fuel c sc src dst = Ok (router, c') →
  routedOkay router = true → is_Some (visited router !! dst).
Proof.
  unfold Router_wire. intros Hw Hok. apply bind_Ok in Hw as ([r g] & Hr & Hw).
  apply bind_Ok in Hw as (v & Hv & [= <- <-]). simpl in *.
  apply bool_decide_eq_true in Hok as [q Hq]. exists q.
  destruct (debug c); [by eapply debug_walk_keys | by injection Hv as <-].
Qed.

(** C10.  [getActualRouteDelay] returns the flag [routedOkay] of the
    router it constructs.  When it returns false the delay of the caller is
    returned as it was passed; when it returns true the delay is that of the
    destination in the visited map.  It fails only where the construction of
    the router fails. *)
Theorem C10_actual_route_delay {dev : Arch} (fuel : nat) (c : Context) (src dst : WireId)
    (delay_io : delay_t) :
  match getActualRouteDelay fuel c src dst delay_io with
  | Ok (b, d, c') =>
      ∃ router, Router_wire fuel c scores_empty src dst = Ok (router, c')
        ∧ b = routedOkay router
        ∧ if b then ∃ q, visited router !! dst = Some q ∧ d = delay q
          else d = delay_io
  | Err e => Router_wire fuel c scores_empty src dst = Err e
  end.
Proof.
  unfold getActualRouteDelay.
  destruct (Router_wire fuel c scores_empty src dst) as [[router c']|e] eqn:Hw; simpl; [|done].
  destruct (routedOkay router) eqn:Hok.
  - destruct (Router_wire_reached _ _ _ _ _ _ _ Hw Hok) as [q Hq].
    unfold at_. rewrite Hq. simpl. exists router. rewrite Hok. eauto.
  - exists router. by rewrite Hok.
Qed.

(** ** Errors of the loops inside

    Nothing below the loop of [router1] reports that loop as unfinished. *)

Lemma inner_bind {A B : Type} (m : result A) (f : A → result B) :
  inner m → (∀ x, inner (f x)) → inner (m ≫= f).
Proof.
  intros Hm Hf. destruct m as [x|e]; [apply Hf|].
  unfold inner in *. simpl. intros [= ->]. by apply Hm.
Qed.

Lemma inner_foldM {A B : Type} (f : A → B → result A) (l : list B) (x : A) :
  (∀ y b, inner (f y b)) → inner (foldM f x l).
Proof.
  intros Hf. revert x. induction l as [|b l IH]; intros x; simpl; [done|].
  apply inner_bind; auto.
Qed.

Lemma inner_call {A : Type} (t : thrown A) : inner (call t).
Proof. by destruct t. Qed.

Lemma inner_assert (b : bool) : inner (assert b).
Proof. by destruct b. Qed.

Lemma inner_at `{Countable K} {V : Type} (m : gmap K V) (k : K) : inner (at_ m k).
Proof. unfold at_. by destruct (m !! k). Qed.

Ltac inner_step :=
  match goal with
  | |- inner (Ok _) => done
  | |- inner (throw _) => done
  | |- inner (Err _) => done
  | |- inner (call _) => apply inner_call
  | |- inner (assert _) => apply inner_assert
  | |- inner (at_ _ _) => apply inner_at
  | |- inner (foldM _ _ _) => apply inner_foldM; intros
  | |- inner (_ ≫= _) => apply inner_bind; [|intros]
  | |- inner (match ?x with _ => _ end) => destruct x eqn:?
  | |- inner (if ?x then _ else _) => destruct x eqn:?
  | |- inner (let '(_, _) := ?x in _) => destruct x eqn:?
  end.

Section InnerProofs.
Context {dev : Arch}.

Lemma inner_ripup_net (ns : gmap Z NetInfo) (a : archstate) (name : IdString) :
  inner (ripup_net ns a name).
Proof. unfold ripup_net. repeat inner_step. Qed.

Lemma inner_route_loop (cfg : RouterCfg) (a : archstate) (dst : WireId) (fuel : nat)
    (st : SearchState) :
  inner (route_loop cfg a dst fuel st).
Proof.
  revert st. induction fuel as [|fuel IH]; intros st; simpl;
    destruct (search_continues st); try done.
  apply inner_bind; [|apply IH].
  unfold route_step. destruct (pq_pop _) as [[qw q']|]; [|done].
  apply inner_bind; [|done]. apply inner_foldM. intros [qw1 st1] p.
  unfold examine_pip, pip_cost. repeat inner_step.
Qed.

Lemma inner_route (fuel : nat) (cfg : RouterCfg) (a : archstate) (g : Z) (r : Router)
    (src_wires : gmap Z Z) (dst : WireId) :
  inner (route fuel cfg a g r src_wires dst).
Proof. unfold route. repeat inner_step. apply inner_route_loop. Qed.

Lemma inner_backtrace (fuel : nat) (ns : gmap Z NetInfo) (dbg : bool) (cfg : RouterCfg)
    (st : NetState) (cursor : WireId) :
  inner (backtrace fuel ns dbg cfg st cursor).
Proof.
  revert st cursor. induction fuel as [|fuel IH]; intros st cursor; simpl;
    case_bool_decide; try done.
  apply inner_bind; [|intros [st1 next]; apply IH].
  unfold backtrace_step, resolve_wire_conflict, resolve_pip_conflict.
  repeat (inner_step || apply inner_ripup_net).
Qed.

Lemma inner_port_wire (pr : PortRef) : inner (port_wire pr).
Proof. unfold port_wire. repeat inner_step. Qed.

Lemma inner_route_users (fuel : nat) (ns : gmap Z NetInfo) (dbg : bool) (cfg : RouterCfg)
    (us : list PortRef) (st : NetState) :
  inner (route_users fuel ns dbg cfg st us).
Proof.
  revert st. induction us as [|u us IH]; intros st; simpl; [done|].
  repeat (inner_step || apply inner_port_wire || apply inner_route
          || apply inner_ripup_net || apply inner_backtrace || apply IH).
Qed.

Lemma Router_net_no_FuelLoop (fuel : nat) (c : Context) (sc : RipupScoreboard)
    (name : IdString) (rip : bool) (penalty : delay_t) :
  inner (Router_net fuel c sc name rip penalty).
Proof.
  unfold Router_net, Router_net_state.
  repeat (inner_step || apply inner_port_wire || apply inner_ripup_net
          || apply inner_route_users).
Qed.

End InnerProofs.

(** ** The rip-up loop *)

Section LoopProofs.
Context {dev : Arch}.

Lemma router1_iter_counters (fuel : nat) (ls ls' : LoopState) :
  router1_iter fuel ls = Ok ls' →
  iterCnt ls' = iterCnt ls + 1
  ∧ l_ripup_penalty ls' =
      if penalty_boundary (iterCnt ls') then l_ripup_penalty ls + getRipupDelayPenalty
      else l_ripup_penalty ls.
Proof.
  unfold router1_iter. destruct (sorted_shuffle _ _) as [netsArray g1].
  intros Hi. apply bind_Ok in Hi as (pa & _ & Hi). apply bind_Ok in Hi as (pb & _ & [= <-]).
  done.
Qed.

(** Decides the comparisons of the goal from the hypotheses. *)
Ltac decide_comparisons :=
  repeat match goal with
         | |- context [?x <=? ?y] =>
             first [rewrite (proj2 (Z.leb_le x y)) by lia | rewrite (proj2 (Z.leb_gt x y)) by lia]
         | |- context [?x =? ?y] =>
             first [rewrite (proj2 (Z.eqb_eq x y)) by lia | rewrite (proj2 (Z.eqb_neq x y)) by lia]
         end.

Lemma escalations_step (n : Z) :
  0 ≤ n →
  escalations (n + 1) = escalations n + if penalty_boundary (n + 1) then 1 else 0.
Proof.
  intros Hn. unfold escalations, penalty_boundary.
  assert (n < 7 ∨ n = 7 ∨ 7 < n < 15 ∨ n = 15 ∨ 15 < n < 31 ∨ n = 31 ∨ 31 < n < 63
          ∨ n = 63 ∨ 63 < n < 127 ∨ n = 127 ∨ 127 < n) as Hcases by lia.
  repeat (destruct Hcases as [Hc|Hcases]; [decide_comparisons; simpl; lia|]).
  decide_comparisons; simpl; lia.
Qed.

Lemma loop_run_penalty (fuel : nat) (c : Context) (ls : LoopState) :
  loop_run fuel (router1_start c) ls →
  0 ≤ iterCnt ls ≤ 200
  ∧ l_ripup_penalty ls = getRipupDelayPenalty * (1 + escalations (iterCnt ls)).
Proof.
  induction 1 as [|ls ls' _ [Hrange Hpen] Hq H200 Hi].
  - simpl. split; [lia|]. unfold escalations. simpl. lia.
  - apply router1_iter_counters in Hi as [Hc Hp].
    split; [lia|]. rewrite Hp, Hc, escalations_step, Hpen by lia.
    destruct (penalty_boundary (iterCnt ls + 1)); lia.
Qed.

(** What [router1_loop] returns was reached by turns of the loop. *)
Lemma router1_loop_run (n fuel : nat) (ls0 ls ls' : LoopState) (b : bool) :
  loop_run fuel ls0 ls →
  router1_loop n fuel ls = Ok (b, ls') →
  loop_run fuel ls0 ls'
  ∧ (b = true ↔ netsQueue ls' = ∅)
  ∧ (b = false → iterCnt ls' = 200).
Proof.
  revert ls. induction n as [|n IH]; intros ls Hrun Hl; simpl in Hl;
    case_bool_decide as Hq; try (injection Hl as <- <-; by split_and!);
    destruct (Z.eqb_spec (iterCnt ls) 200) as [H200|H200];
    try (injection Hl as <- <-; split_and!; [done | split; intros; done | done]);
    try discriminate.
  apply bind_Ok in Hl as (ls1 & Hi & Hl). eapply IH; [|done]. by eapply loop_turn.
Qed.

(** The loop of the model runs out of its bound only if the bound is less
    than the iterations that remain up to the cap. *)
Lemma router1_loop_bound (n fuel : nat) (ls : LoopState) :
  0 ≤ iterCnt ls ≤ 200 →
  200 - iterCnt ls ≤ Z.of_nat n →
  router1_loop n fuel ls ≠ Err FuelLoop.
Proof.
  revert ls. induction n as [|n IH]; intros ls Hrange Hn; simpl;
    case_bool_decide as Hq; try done;
    destruct (Z.eqb_spec (iterCnt ls) 200) as [H200|H200]; try done; [lia|].
  destruct (router1_iter fuel ls) as [ls1|e] eqn:Hi; simpl.
  - apply router1_iter_counters in Hi as [Hc _]. apply IH; lia.
  - intros [= ->]. unfold router1_iter in Hi.
    destruct (sorted_shuffle _ _) as [netsArray g1].
    apply bind_Err in Hi as [Hi|(pa & _ & Hi)].
    + revert Hi. generalize (mkPass (set_rng (l_ctx ls) g1) (l_scores ls) 0 0 0 ∅).
      induction netsArray as [|x xs IHx]; intros ps Hf; simpl in Hf; [done|].
      apply bind_Err in Hf as [Hf|(ps' & _ & Hf)]; [|eauto].
      unfold pass_route in Hf. apply bind_Err in Hf as [Hf|([[r c'] sc'] & _ & Hf)]; [|done].
      by apply Router_net_no_FuelLoop in Hf.
    + apply bind_Err in Hi as [Hi|(pb & _ & Hi)]; [|done].
      case_bool_decide; [|done]. destruct (sorted_shuffle _ _) as [ripupArray g2].
      revert Hi. generalize (mkPass (set_rng (p_ctx pa) g2) (p_scores pa) 0 0 0 ∅).
      induction ripupArray as [|x xs IHx]; intros ps Hf; simpl in Hf; [done|].
      apply bind_Err in Hf as [Hf|(ps' & _ & Hf)]; [|eauto].
      unfold pass_ripup in Hf. apply bind_Err in Hf as [Hf|([[r c'] sc'] & _ & Hf)].
      * by apply Router_net_no_FuelLoop in Hf.
      * by destruct (routedOkay r).
Qed.

End LoopProofs.

(** ** The escalation of the penalty (C6) *)

Lemma penalty_boundary_spec (n : Z) :
  penalty_boundary n = bool_decide (n ∈ [8; 16; 32; 64; 128]).
Proof.
  unfold penalty_boundary. case_bool_decide as Hin.
  - repeat (apply elem_of_cons in Hin as [->|Hin]; [done|]). inversion Hin.
  - repeat match goal with
           | |- context [n =? ?k] =>
               destruct (Z.eqb_spec n k) as [->|]; [exfalso; apply Hin; repeat constructor|]
           end.
    done.
Qed.

(** [router1] on [ctx_contend]: the two nets rip each other up in turn, and
    the loop gives up at the cap. *)
Lemma contend_try : router1_try 200 ctx_contend = Ok (false, contend_end).
Proof.
  assert (match router1_try 200 ctx_contend with Ok (false, _) => true | _ => false end = true)
    as Hcheck by (by vm_compute).
  unfold contend_end.
  by destruct (router1_try 200 ctx_contend) as [[[] ls]|e].
Qed.

Lemma contend_run :
  loop_run 200 (router1_start ctx_contend) contend_end.
Proof.
  pose proof contend_try as Htry. unfold router1_try in Htry.
  rewrite bool_decide_eq_false_2 in Htry.
  - apply bind_Ok in Htry as (_ & _ & Hl).
    by destruct (router1_loop_run _ _ _ _ _ _ (loop_start 200 (router1_start ctx_contend)) Hl).
  - assert (bool_decide (netsQueue (router1_start ctx_contend) = ∅) = false) as Hq
      by (by vm_compute).
    by apply bool_decide_eq_false in Hq.
Qed.

(** C6.  On entry to the loop [ripup_penalty] is the penalty of the device;
    an iteration adds the penalty of the device once if it is iteration 8,
    16, 32, 64 or 128, and nothing otherwise; so at every test of the loop
    it is the penalty of the device times one more than the number of these
    iterations that have ended. *)
Theorem C6_ripup_penalty {dev : Arch} (fuel : nat) (c : Context) (ls : LoopState) :
  loop_run fuel (router1_start c) ls →
  l_ripup_penalty (router1_start c) = getRipupDelayPenalty
  ∧ l_ripup_penalty ls = getRipupDelayPenalty * (1 + escalations (iterCnt ls))
  ∧ ∀ ls', router1_iter fuel ls = Ok ls' →
      iterCnt ls' = iterCnt ls + 1
      ∧ l_ripup_penalty ls' =
          l_ripup_penalty ls
          + if bool_decide (iterCnt ls' ∈ [8; 16; 32; 64; 128])
            then getRipupDelayPenalty else 0.
Proof.
  intros Hrun. split_and!; [done | by apply loop_run_penalty in Hrun as [_ ?] |].
  intros ls' Hi. apply router1_iter_counters in Hi as [Hc Hp]. split; [done|].
  rewrite Hp, penalty_boundary_spec. case_bool_decide; lia.
Qed.

Lemma C6_witness :
  loop_run 200 (router1_start ctx_contend) contend_end
  ∧ iterCnt contend_end = 200
  ∧ l_ripup_penalty contend_end
    = @getRipupDelayPenalty (Table.arch dev_contend) * (1 + escalations (iterCnt contend_end)).
Proof.
  split; [apply contend_run|]. split; [by vm_compute|].
  destruct (C6_ripup_penalty 200 ctx_contend contend_end contend_run) as (_ & Hpen & _).
  exact Hpen.
Defined.

(** ** Termination of the rip-up loop (C2) *)

(** With a bound of 200 or more on the iterations of the model, the loop of
    [router1] is never the one that is left unfinished, whatever the routers
    inside do; and what [router1] returns tells how the loop was left. *)
Lemma router1_try_outcome {dev : Arch} (fuel : nat) (c : Context) :
  (200 ≤ fuel)%nat →
  match router1_try fuel c with
  | Ok (b, ls) =>
      loop_run fuel (router1_start c) ls
      ∧ 0 ≤ iterCnt ls ≤ 200
      ∧ (b = true ↔ netsQueue ls = ∅)
      ∧ (b = false ↔ iterCnt ls = 200 ∧ netsQueue ls ≠ ∅)
      ∧ router1 fuel c = Ok b
  | Err e =>
      e ≠ FuelLoop
      ∧ router1 fuel c = match e with Exn LogExecutionError => Ok false | _ => Err e end
  end.
Proof.
  intros Hfuel. unfold router1.
  destruct (router1_try fuel c) as [[b ls]|e] eqn:Htry.
  - assert (loop_run fuel (router1_start c) ls
            ∧ (b = true ↔ netsQueue ls = ∅) ∧ (b = false → iterCnt ls = 200))
      as (Hrun & Hb & H200).
    { unfold router1_try in Htry. case_bool_decide as Hq.
      - injection Htry as <- <-. split_and!; [apply loop_start | done | done].
      - apply bind_Ok in Htry as (_ & _ & Htry).
        eapply router1_loop_run; [apply loop_start | done]. }
    pose proof (loop_run_penalty _ _ _ Hrun) as [Hrange _].
    do 3 (split; [done|]). split; [|done]. split.
    + intros ->. split; [auto|]. intros Hq. by apply Hb in Hq.
    + intros [_ Hq]. destruct b; [|done]. destruct Hq. by apply Hb.
  - split.
    + intros ->. unfold router1_try in Htry. case_bool_decide; [done|].
      apply bind_Err in Htry as [Hest|(_ & _ & Hl)].
      * revert Hest. apply inner_foldM. intros [] name. unfold estimate_net.
        repeat inner_step.
      * revert Hl. apply router1_loop_bound; simpl; lia.
    + by destruct e as [[]| | |].
Qed.

(** ** A netlist that is already routed (C9) *)

Lemma unrouted_nets_empty {dev : Arch} (c : Context) :
  unrouted_nets c = ∅ ↔
  ∀ name ni, nets c !! name = Some ni →
    cell (driver ni) = None ∨ net_wires (arch c) name ≠ [].
Proof.
  unfold unrouted_nets. rewrite dom_empty_iff_L, map_empty_filter.
  unfold map_Forall, unrouted. simpl. split; intros Hall name ni Hl.
  - specialize (Hall name ni Hl).
    destruct (cell (driver ni)) eqn:Hc; [|by left]. right. intros Hw. apply Hall.
    by split; [rewrite ?Hc|].
  - intros [Hc Hw]. by destruct (Hall name ni Hl).
Qed.

(** C9.  If every net of the netlist has no driver cell or has a nonempty
    [wires] map, then [router1] returns true and its locals at the return
    are those of its entry: the context as it was passed, an empty
    scoreboard, no net queued, no iteration run. *)
Theorem C9_routed_noop {dev : Arch} (fuel : nat) (c : Context) :
  (∀ name ni, nets c !! name = Some ni →
     cell (driver ni) = None ∨ net_wires (arch c) name ≠ []) →
  router1 fuel c = Ok true
  ∧ router1_try fuel c = Ok (true, router1_start c)
  ∧ l_ctx (router1_start c) = c
  ∧ l_scores (router1_start c) = scores_empty
  ∧ netsQueue (router1_start c) = ∅
  ∧ iterCnt (router1_start c) = 0.
Proof.
  intros Hall. apply unrouted_nets_empty in Hall.
  unfold router1, router1_try. simpl. rewrite Hall.
  rewrite bool_decide_eq_true_2 by done. done.
Qed.

Lemma C9_witness :
  net_wires (arch ctx_direct_routed) 1 = [(2, 0); (1, -1)]
  ∧ router1 5 ctx_direct_routed = Ok true
  ∧ router1_try 5 ctx_direct_routed = Ok (true, router1_start ctx_direct_routed).
Proof.
  split; [by vm_compute|].
  assert (unrouted_nets ctx_direct_routed = ∅) as Hall by (by vm_compute).
  pose proof (proj1 (unrouted_nets_empty ctx_direct_routed) Hall) as Hrouted.
  destruct (C9_routed_noop 5 ctx_direct_routed Hrouted) as (Hr & Ht & _).
  exact (conj Hr Ht).
Defined.

(** ** The scoreboard *)

Lemma score_incr `{Countable K} (k k' : K) (m : gmap K Z) :
  score (incr k m) k' = if decide (k = k') then score m k + 1 else score m k'.
Proof.
  unfold score, incr. case_decide as Hk.
  - subst. by rewrite lookup_insert_eq.
  - by rewrite lookup_insert_ne.
Qed.

Lemma score_incr_le `{Countable K} (k k' : K) (m : gmap K Z) :
  score m k' ≤ score (incr k m) k'.
Proof. rewrite score_incr. case_decide; subst; lia. Qed.

Lemma scores_le_refl (sc : RipupScoreboard) : scores_le sc sc.
Proof. by split_and!. Qed.

Lemma scores_le_trans (s1 s2 s3 : RipupScoreboard) :
  scores_le s1 s2 → scores_le s2 s3 → scores_le s1 s3.
Proof.
  intros (Ha & Hb & Hc & Hd) (Ha' & Hb' & Hc' & Hd').
  split_and!; intros k; etrans; eauto.
Qed.

Section ScoreProofs.
Context {dev : Arch}.

Lemma resolve_wire_conflict_scores (ns : gmap Z NetInfo) (cfg : RouterCfg) (a a' : archstate)
    (sc sc' : RipupScoreboard) (ripped ripped' : gset Z) (cursor : WireId) :
  resolve_wire_conflict ns cfg a sc ripped cursor = Ok (a', sc', ripped') →
  let n := getConflictingWireNet a cursor in
  if decide (n = IdString_empty) then sc' = sc ∧ a' = a ∧ ripped' = ripped
  else
    ripup cfg = true ∧ n ≠ net_name cfg ∧ ripped' = {[n]} ∪ ripped
    ∧ wireScores sc' = incr cursor (wireScores sc)
    ∧ netWireScores sc' = incr (n, cursor) (incr (net_name cfg, cursor) (netWireScores sc))
    ∧ pipScores sc' = pipScores sc
    ∧ netPipScores sc' = netPipScores sc.
Proof.
  intros Hr. unfold resolve_wire_conflict in Hr. cbv zeta in Hr |- *.
  destruct (decide (getConflictingWireNet a cursor = IdString_empty)) as [Hn|Hn].
  - rewrite bool_decide_eq_false_2 in Hr by (intros Hc; by apply Hc). by injection Hr as <- <- <-.
  - rewrite bool_decide_eq_true_2 in Hr by done.
    apply bind_Ok in Hr as (_ & Hrip%assert_Ok & Hr).
    apply bind_Ok in Hr as (_ & Hne%assert_Ok%bool_decide_eq_true & Hr).
    apply bind_Ok in Hr as (a1 & _ & Hr). apply bind_Ok in Hr as (a2 & _ & Hr).
    by injection Hr as <- <- <-.
Qed.

Lemma resolve_pip_conflict_scores (ns : gmap Z NetInfo) (cfg : RouterCfg) (a a' : archstate)
    (sc sc' : RipupScoreboard) (ripped ripped' : gset Z) (p : PipId) :
  resolve_pip_conflict ns cfg a sc ripped p = Ok (a', sc', ripped') →
  let n := getConflictingPipNet a p in
  if decide (n = IdString_empty) then sc' = sc ∧ a' = a ∧ ripped' = ripped
  else
    ripup cfg = true ∧ n ≠ net_name cfg ∧ ripped' = {[n]} ∪ ripped
    ∧ pipScores sc' = incr p (pipScores sc)
    ∧ netPipScores sc' = incr (n, p) (incr (net_name cfg, p) (netPipScores sc))
    ∧ wireScores sc' = wireScores sc
    ∧ netWireScores sc' = netWireScores sc.
Proof.
  intros Hr. unfold resolve_pip_conflict in Hr. cbv zeta in Hr |- *.
  destruct (decide (getConflictingPipNet a p = IdString_empty)) as [Hn|Hn].
  - rewrite bool_decide_eq_false_2 in Hr by (intros Hc; by apply Hc). by injection Hr as <- <- <-.
  - rewrite bool_decide_eq_true_2 in Hr by done.
    apply bind_Ok in Hr as (_ & Hrip%assert_Ok & Hr).
    apply bind_Ok in Hr as (_ & Hne%assert_Ok%bool_decide_eq_true & Hr).
    apply bind_Ok in Hr as (a1 & _ & Hr). apply bind_Ok in Hr as (a2 & _ & Hr).
    by injection Hr as <- <- <-.
Qed.

Lemma resolve_wire_conflict_le (ns : gmap Z NetInfo) (cfg : RouterCfg) (a a' : archstate)
    (sc sc' : RipupScoreboard) (ripped ripped' : gset Z) (cursor : WireId) :
  resolve_wire_conflict ns cfg a sc ripped cursor = Ok (a', sc', ripped') →
  scores_le sc sc'.
Proof.
  intros Hr. apply resolve_wire_conflict_scores in Hr. simpl in Hr.
  case_decide; [destruct Hr as (-> & _); apply scores_le_refl|].
  destruct Hr as (_ & _ & _ & Hw & Hnw & Hp & Hnp).
  split_and!; intros k; rewrite ?Hw, ?Hnw, ?Hp, ?Hnp; try done.
  - apply score_incr_le.
  - etrans; apply score_incr_le.
Qed.

Lemma resolve_pip_conflict_le (ns : gmap Z NetInfo) (cfg : RouterCfg) (a a' : archstate)
    (sc sc' : RipupScoreboard) (ripped ripped' : gset Z) (p : PipId) :
  resolve_pip_conflict ns cfg a sc ripped p = Ok (a', sc', ripped') →
  scores_le sc sc'.
Proof.
  intros Hr. apply resolve_pip_conflict_scores in Hr. simpl in Hr.
  case_decide; [destruct Hr as (-> & _); apply scores_le_refl|].
  destruct Hr as (_ & _ & _ & Hp & Hnp & Hw & Hnw).
  split_and!; intros k; rewrite ?Hw, ?Hnw, ?Hp, ?Hnp; try done.
  - apply score_incr_le.
  - etrans; apply score_incr_le.
Qed.

End ScoreProofs.

(** ** The constructor from a net name *)

Section NetProofs.
Context {dev : Arch}.

Lemma ripup_net_Ok (ns : gmap Z NetInfo) (a a' : archstate) (name : IdString) :
  ripup_net ns a name = Ok a' → net_wires a' name = [] ∧ is_Some (ns !! name).
Proof.
  unfold ripup_net. intros Hr. apply bind_Ok in Hr as (ni & Hat & Hr).
  apply bind_Ok in Hr as (a1 & _ & Hr). apply bind_Ok in Hr as (a2 & _ & Hr).
  apply bind_Ok in Hr as (_ & Hempty%assert_Ok%bool_decide_eq_true & [= <-]).
  split; [done|]. unfold at_ in Hat. destruct (ns !! name); [eauto | discriminate].
Qed.

Lemma route_flags (fuel : nat) (cfg : RouterCfg) (a : archstate) (g g' : Z) (r r' : Router)
    (src_wires : gmap Z Z) (dst : WireId) :
  route fuel cfg a g r src_wires dst = Ok (r', g') →
  routedOkay r' = routedOkay r ∧ rippedNets r' = rippedNets r ∧ failedDest r' = failedDest r.
Proof. intros Hr. by apply route_Ok in Hr as (st & _ & -> & _). Qed.

Lemma debug_touch_same (dbg : bool) (st : NetState) (cursor : WireId) :
  let st0 := debug_touch dbg st cursor in
  n_arch st0 = n_arch st ∧ n_scores st0 = n_scores st ∧ n_src_wires st0 = n_src_wires st
  ∧ n_rng st0 = n_rng st ∧ routedOkay (n_router st0) = routedOkay (n_router st).
Proof. unfold debug_touch. by destruct dbg. Qed.

Lemma backtrace_step_props (ns : gmap Z NetInfo) (cfg : RouterCfg) (st st1 : NetState)
    (cursor next : WireId) :
  backtrace_step ns cfg st cursor = Ok (st1, next) →
  scores_le (n_scores st) (n_scores st1)
  ∧ (∃ d, n_src_wires st1 = <[cursor := d]> (n_src_wires st))
  ∧ routedOkay (n_router st1) = routedOkay (n_router st).
Proof.
  unfold backtrace_step. intros Hs.
  apply bind_Ok in Hs as ([[a1 sc1] rp1] & Hw & Hs).
  destruct (visited_index (visited (n_router st)) cursor) as [q v1].
  apply bind_Ok in Hs as ([[a2 sc2] rp2] & Hp & Hs).
  apply bind_Ok in Hs as (a3 & _ & [= <- <-]). simpl.
  apply resolve_wire_conflict_le in Hw. apply resolve_pip_conflict_le in Hp.
  split_and!; [by eapply scores_le_trans | eauto | done].
Qed.

Lemma backtrace_props (fuel : nat) (ns : gmap Z NetInfo) (dbg : bool) (cfg : RouterCfg)
    (st st' : NetState) (cursor : WireId) :
  backtrace fuel ns dbg cfg st cursor = Ok st' →
  scores_le (n_scores st) (n_scores st')
  ∧ (∀ w, is_Some (n_src_wires st !! w) → is_Some (n_src_wires st' !! w))
  ∧ is_Some (n_src_wires st' !! cursor)
  ∧ routedOkay (n_router st') = routedOkay (n_router st).
Proof.
  revert st cursor. induction fuel as [|fuel IH]; intros st cursor Hb; simpl in Hb;
    destruct (debug_touch_same dbg st cursor) as (Ha & Hsc & Hsrc & Hg & Hok);
    case_bool_decide as Hin; try discriminate.
  - injection Hb as <-. rewrite Hsc, Hsrc, Hok.
    split_and!; [apply scores_le_refl | done | by rewrite <- Hsrc | done].
  - injection Hb as <-. rewrite Hsc, Hsrc, Hok.
    split_and!; [apply scores_le_refl | done | by rewrite <- Hsrc | done].
  - apply bind_Ok in Hb as ([st1 next] & Hs & Hb).
    apply backtrace_step_props in Hs as (Hle1 & [d Hsrc1] & Hok1).
    apply IH in Hb as (Hle2 & Hkeys2 & _ & Hok2).
    assert (∀ w, is_Some (n_src_wires (debug_touch dbg st cursor) !! w)
                 → is_Some (n_src_wires st1 !! w)) as Hkeys1.
    { intros w Hw. rewrite Hsrc1. destruct (decide (cursor = w)) as [->|].
      - rewrite lookup_insert_eq. eauto.
      - by rewrite lookup_insert_ne. }
    split_and!.
    + rewrite <- Hsc. by eapply scores_le_trans.
    + intros w Hw. apply Hkeys2, Hkeys1. by rewrite Hsrc.
    + apply Hkeys2. rewrite Hsrc1, lookup_insert_eq. eauto.
    + congruence.
Qed.

Lemma route_users_props (fuel : nat) (ns : gmap Z NetInfo) (dbg : bool) (cfg : RouterCfg)
    (us : list PortRef) (st st' : NetState) :
  route_users fuel ns dbg cfg st us = Ok st' →
  scores_le (n_scores st) (n_scores st')
  ∧ ((routedOkay (n_router st') = true
      ∧ Forall (sink_routed st') us
      ∧ ∀ w, is_Some (n_src_wires st !! w) → is_Some (n_src_wires st' !! w))
     ∨ (routedOkay (n_router st') = routedOkay (n_router st)
        ∧ ∃ u, u ∈ us ∧ sink_failed (net_name cfg) st' u)).
Proof.
  revert st. induction us as [|u us IH]; intros st Hr; simpl in Hr.
  - injection Hr as <-. simpl. split; [apply scores_le_refl|]. left. by split_and!.
  - apply bind_Ok in Hr as (dst & Hport & Hr).
    apply bind_Ok in Hr as ([r1 g1] & Hroute & Hr).
    apply route_flags in Hroute as (Hok1 & _ & _).
    destruct (visited r1 !! dst) as [q|] eqn:Hv.
    + apply bind_Ok in Hr as (st2 & Hb & Hr).
      apply backtrace_props in Hb as (Hle2 & Hkeys2 & Hdst & Hok2). simpl in *.
      apply IH in Hr as (Hle & [(Hok & Hall & Hkeys)|(Hok & u' & Hin & Hfail)]).
      * split; [by eapply scores_le_trans|]. left. split_and!; [done | | by auto].
        constructor; [|done]. exists dst. auto.
      * split; [by eapply scores_le_trans|]. right. split; [congruence|].
        exists u'. split; [by apply elem_of_cons; right | done].
    + apply bind_Ok in Hr as (a1 & Hrip & [= <-]). simpl.
      split; [apply scores_le_refl|]. right. split; [done|].
      exists u. split; [apply elem_of_cons; by left|].
      apply ripup_net_Ok in Hrip as [Hempty _]. by split_and!.
Qed.

Lemma Router_net_state_props (fuel : nat) (c : Context) (sc : RipupScoreboard)
    (name : IdString) (rip : bool) (penalty : delay_t) (st : NetState) :
  Router_net_state fuel c sc name rip penalty = Ok st →
  scores_le sc (n_scores st)
  ∧ ∃ ni, nets c !! name = Some ni
     ∧ if routedOkay (n_router st) then Forall (sink_routed st) (users ni)
       else ∃ u, u ∈ users ni ∧ sink_failed name st u.
Proof.
  unfold Router_net_state. intros Hs. apply bind_Ok in Hs as (ni & Hat & Hs).
  apply bind_Ok in Hs as (src_wire & _ & Hs). apply bind_Ok in Hs as (a1 & _ & Hs).
  apply bind_Ok in Hs as (a2 & _ & Hs).
  pose proof (shuffle_perm _ (rngstate c) (users ni)) as Hperm.
  destruct (shuffle PortRef (rngstate c) (users ni)) as [users_array g]. simpl in Hperm.
  apply route_users_props in Hs as (Hle & Hcases). simpl in *.
  split; [done|]. exists ni. split.
  { unfold at_ in Hat. destruct (nets c !! name); [by injection Hat as -> | discriminate]. }
  destruct Hcases as [(-> & Hall & _)|(-> & u & Hin & Hfail)].
  - by rewrite <- Hperm.
  - exists u. by rewrite <- Hperm.
Qed.

End NetProofs.

(** ** Routing a net (C1) *)

(** What the constructor leaves when it returns. *)
Lemma Router_net_outcome {dev : Arch} (fuel : nat) (c c' : Context) (sc sc' : RipupScoreboard)
    (name : IdString) (rip : bool) (penalty : delay_t) (r : Router) :
  Router_net fuel c sc name rip penalty = Ok (r, c', sc') →
  ∃ ni st,
    nets c !! name = Some ni
    ∧ Router_net_state fuel c sc name rip penalty = Ok st
    ∧ r = n_router st ∧ arch c' = n_arch st
    ∧ if routedOkay r then Forall (sink_routed st) (users ni)
      else ∃ u, u ∈ users ni
             ∧ port_wire u = Ok (failedDest r)
             ∧ visited r !! failedDest r = None
             ∧ net_wires (arch c') name = [].
Proof.
  unfold Router_net. intros Hr. apply bind_Ok in Hr as (st & Hst & [= <- <- <-]).
  destruct (Router_net_state_props _ _ _ _ _ _ _ Hst) as (_ & ni & Hni & Hcases).
  exists ni, st. by split_and!.
Qed.

(** ** The scoreboard over a run of [router1] (C7) *)

Section ScoreRunProofs.
Context {dev : Arch}.

Lemma Router_net_scores_le (fuel : nat) (c c' : Context) (sc sc' : RipupScoreboard)
    (name : IdString) (rip : bool) (penalty : delay_t) (r : Router) :
  Router_net fuel c sc name rip penalty = Ok (r, c', sc') → scores_le sc sc'.
Proof.
  unfold Router_net. intros Hr. apply bind_Ok in Hr as (st & Hst & [= <- <- <-]).
  by apply Router_net_state_props in Hst as [? _].
Qed.

Lemma pass_route_scores_le (fuel : nat) (ps ps' : PassState) (name : IdString) :
  pass_route fuel ps name = Ok ps' → scores_le (p_scores ps) (p_scores ps').
Proof.
  unfold pass_route. intros Hp. apply bind_Ok in Hp as ([[r c'] sc'] & Hr & [= <-]).
  by apply Router_net_scores_le in Hr.
Qed.

Lemma pass_ripup_scores_le (fuel : nat) (penalty : delay_t) (ps ps' : PassState)
    (name : IdString) :
  pass_ripup fuel penalty ps name = Ok ps' → scores_le (p_scores ps) (p_scores ps').
Proof.
  unfold pass_ripup. intros Hp. apply bind_Ok in Hp as ([[r c'] sc'] & Hr & Hp).
  destruct (routedOkay r); [|discriminate]. injection Hp as <-.
  by apply Router_net_scores_le in Hr.
Qed.

Lemma foldM_scores_le {B : Type} (f : PassState → B → result PassState) (l : list B)
    (ps ps' : PassState) :
  (∀ x b y, f x b = Ok y → scores_le (p_scores x) (p_scores y)) →
  foldM f ps l = Ok ps' → scores_le (p_scores ps) (p_scores ps').
Proof.
  intros Hf. revert ps. induction l as [|b l IH]; intros ps Hfold; simpl in Hfold.
  - injection Hfold as <-. apply scores_le_refl.
  - apply bind_Ok in Hfold as (ps1 & H1 & Hfold).
    eapply scores_le_trans; [by eapply Hf | by apply IH].
Qed.

Lemma router1_iter_scores_le (fuel : nat) (ls ls' : LoopState) :
  router1_iter fuel ls = Ok ls' → scores_le (l_scores ls) (l_scores ls').
Proof.
  unfold router1_iter. destruct (sorted_shuffle _ _) as [netsArray g1].
  intros Hi. apply bind_Ok in Hi as (pa & Ha & Hi). apply bind_Ok in Hi as (pb & Hb & [= <-]).
  simpl. apply foldM_scores_le in Ha; [|intros; by eapply pass_route_scores_le].
  simpl in Ha.
  eapply scores_le_trans; [done|].
  case_bool_decide.
  - destruct (sorted_shuffle _ _) as [ripupArray g2].
    by apply foldM_scores_le in Hb; [|intros; by eapply pass_ripup_scores_le].
  - injection Hb as <-. apply scores_le_refl.
Qed.

Lemma loop_run_scores_le (fuel : nat) (ls0 ls : LoopState) :
  loop_run fuel ls0 ls → scores_le (l_scores ls0) (l_scores ls).
Proof.
  induction 1 as [|ls ls' _ IH _ _ Hi]; [apply scores_le_refl|].
  eapply scores_le_trans; [done | by eapply router1_iter_scores_le].
Qed.

End ScoreRunProofs.

(** C7.  Over a run of [router1] no counter of the scoreboard decreases:
    not from one test of the loop to a later one, and not over the
    construction of any [Router].  A search reads a copy and writes none.
    In a back-trace, a cursor without a conflicting net leaves the
    scoreboard as it is; a conflict on the wire under the cursor adds one to
    [wireScores[cursor]], to [netWireScores[(net, cursor)]] of the current
    net and to that of the conflicting net, and to nothing else; a conflict
    on the arriving pip does the same with [pipScores] and [netPipScores]. *)
Theorem C7_scores_monotone {dev : Arch} (fuel : nat) (ls0 ls : LoopState) :
  loop_run fuel ls0 ls →
  scores_le (l_scores ls0) (l_scores ls)
  ∧ (∀ c c' sc sc' name rip penalty r,
       Router_net fuel c sc name rip penalty = Ok (r, c', sc') → scores_le sc sc')
  ∧ (∀ ns cfg a a' sc sc' ripped ripped' cursor,
       resolve_wire_conflict ns cfg a sc ripped cursor = Ok (a', sc', ripped') →
       let n := getConflictingWireNet a cursor in
       if decide (n = IdString_empty) then sc' = sc
       else
         n ≠ net_name cfg
         ∧ (∀ w, score (wireScores sc') w
                 = score (wireScores sc) w + if decide (w = cursor) then 1 else 0)
         ∧ (∀ k, score (netWireScores sc') k
                 = score (netWireScores sc) k
                   + if decide (k = (net_name cfg, cursor) ∨ k = (n, cursor)) then 1 else 0)
         ∧ pipScores sc' = pipScores sc ∧ netPipScores sc' = netPipScores sc)
  ∧ (∀ ns cfg a a' sc sc' ripped ripped' p,
       resolve_pip_conflict ns cfg a sc ripped p = Ok (a', sc', ripped') →
       let n := getConflictingPipNet a p in
       if decide (n = IdString_empty) then sc' = sc
       else
         n ≠ net_name cfg
         ∧ (∀ q, score (pipScores sc') q
                 = score (pipScores sc) q + if decide (q = p) then 1 else 0)
         ∧ (∀ k, score (netPipScores sc') k
                 = score (netPipScores sc) k
                   + if decide (k = (net_name cfg, p) ∨ k = (n, p)) then 1 else 0)
         ∧ wireScores sc' = wireScores sc ∧ netWireScores sc' = netWireScores sc).
Proof.
  intros Hrun. split_and!.
  - by apply loop_run_scores_le in Hrun.
  - intros. by eapply Router_net_scores_le.
  - intros ns cfg a a' sc sc' ripped ripped' cursor Hr.
    apply resolve_wire_conflict_scores in Hr. cbv zeta in Hr |- *.
    case_decide as Hn; [by destruct Hr|].
    destruct Hr as (_ & Hne & _ & Hw & Hnw & Hp & Hnp). split_and!; try done.
    + intros w. rewrite Hw, score_incr. repeat case_decide; subst; done || lia.
    + intros k. rewrite Hnw, !score_incr.
      repeat case_decide; subst; try lia; exfalso; intuition congruence.
  - intros ns cfg a a' sc sc' ripped ripped' p Hr.
    apply resolve_pip_conflict_scores in Hr. cbv zeta in Hr |- *.
    case_decide as Hn; [by destruct Hr|].
    destruct Hr as (_ & Hne & _ & Hp & Hnp & Hw & Hnw). split_and!; try done.
    + intros q. rewrite Hp, score_incr. repeat case_decide; subst; done || lia.
    + intros k. rewrite Hnp, !score_incr.
      repeat case_decide; subst; try lia; exfalso; intuition congruence.
Qed.

(** On [ctx_contend] wire 3 is taken from the other net in each of the 200
    iterations. *)
Lemma C7_witness :
  loop_run 200 (router1_start ctx_contend) contend_end
  ∧ score (wireScores (l_scores contend_end)) 3 = 200
  ∧ scores_le (l_scores (router1_start ctx_contend)) (l_scores contend_end).
Proof.
  split; [apply contend_run|]. split; [by vm_compute|].
  destruct (C7_scores_monotone 200 (router1_start ctx_contend) contend_end contend_run)
    as [Hle _].
  exact Hle.
Defined.

(** * Termination *)

(** ** Results that are settled *)

Lemma settled_bind {A B : Type} (m : result A) (f : A → result B) :
  settled m → (∀ x, settled (f x)) → settled (m ≫= f).
Proof. intros Hm Hf. destruct m as [x|[]]; simpl; auto. Qed.

Lemma settled_foldM {A B : Type} (f : A → B → result A) (l : list B) (x : A) :
  (∀ y b, settled (f y b)) → settled (foldM f x l).
Proof.
  intros Hf. revert x. induction l as [|b l IH]; intros x; simpl; [done|].
  apply settled_bind; auto.
Qed.

Lemma settled_call {A : Type} (t : thrown A) : settled (call t).
Proof. by destruct t. Qed.

Lemma settled_assert (b : bool) : settled (assert b).
Proof. by destruct b. Qed.

Lemma settled_at `{Countable K} {V : Type} (m : gmap K V) (k : K) : settled (at_ m k).
Proof. unfold at_. by destruct (m !! k). Qed.

Ltac settled_step :=
  match goal with
  | |- settled (Ok _) => exact I
  | |- settled (throw _) => exact I
  | |- settled (call _) => apply settled_call
  | |- settled (assert _) => apply settled_assert
  | |- settled (at_ _ _) => apply settled_at
  | |- settled (foldM _ _ _) => apply settled_foldM; intros
  | |- settled (_ ≫= _) => apply settled_bind; [|intros]
  | |- settled (match ?x with _ => _ end) => destruct x eqn:?
  | |- settled (if ?x then _ else _) => destruct x eqn:?
  end.

(** ** Code that finishes *)

Lemma finishes_const {A : Type} (r : result A) (Q : A → Prop) :
  settled r → (∀ x, r = Ok x → Q x) → finishes (λ _, r) Q.
Proof. intros Hs HQ. exists 0%nat, r. split; [done|]. destruct r as [x|[]]; auto. Qed.

Lemma finishes_bind {A B : Type} (m : nat → result A) (k : nat → A → result B)
    (P : A → Prop) (Q : B → Prop) :
  finishes m P →
  (∀ x, P x → finishes (λ fuel, k fuel x) Q) →
  finishes (λ fuel, m fuel ≫= k fuel) Q.
Proof.
  intros (n1 & r1 & Hm & Hr1) Hk. destruct r1 as [x|e].
  - destruct (Hk x Hr1) as (n2 & r2 & Hk2 & Hr2).
    exists (Nat.max n1 n2), r2. split; [|done].
    intros fuel Hfuel. rewrite Hm by lia. simpl. apply Hk2. lia.
  - exists n1, (Err e). split; [|by destruct e].
    intros fuel Hfuel. by rewrite Hm.
Qed.

Lemma finishes_weaken {A : Type} (f : nat → result A) (P Q : A → Prop) :
  finishes f P → (∀ x, P x → Q x) → finishes f Q.
Proof.
  intros (n & r & Hf & Hr) HPQ. exists n, r. split; [done|].
  destruct r as [x|[]]; auto.
Qed.

(** What holds of every returned value holds of the value that is returned
    with enough fuel. *)
Lemma finishes_post {A : Type} (f : nat → result A) (P Q : A → Prop) :
  finishes f P → (∀ fuel x, f fuel = Ok x → Q x) → finishes f (λ x, P x ∧ Q x).
Proof.
  intros (n & r & Hf & Hr) HQ. exists n, r. split; [done|].
  destruct r as [x|[]]; auto. split; [done|]. by apply (HQ n), Hf.
Qed.

Lemma finishes_foldM {A B : Type} (f : nat → A → B → result A) (I : A → Prop) (l : list B)
    (x : A) :
  I x →
  (∀ y b, I y → b ∈ l → finishes (λ fuel, f fuel y b) I) →
  finishes (λ fuel, foldM (f fuel) x l) I.
Proof.
  revert x. induction l as [|b l IH]; intros x Hx Hf; simpl.
  - apply finishes_const; [done|]. by intros y [= <-].
  - apply (finishes_bind (λ fuel, f fuel x b) (λ fuel y, foldM (f fuel) y l) I I).
    + apply Hf; [done | apply elem_of_cons; by left].
    + intros y Hy. apply IH; [done|]. intros z c Hz Hc.
      apply Hf; [done | apply elem_of_cons; by right].
Qed.

(** ** The measure of a search *)

Lemma total_delay_insert_None (v : gmap Z QueuedWire) (w : WireId) (e : QueuedWire) :
  v !! w = None →
  total_delay (<[w := e]> v) = (Z.to_nat (delay e) + total_delay v)%nat.
Proof.
  intros Hw. unfold total_delay.
  rewrite map_fold_insert_L; [done | intros; lia | done].
Qed.

Lemma total_delay_insert_Some (v : gmap Z QueuedWire) (w : WireId) (e old : QueuedWire) :
  v !! w = Some old →
  (total_delay (<[w := e]> v) + Z.to_nat (delay old)
   = total_delay v + Z.to_nat (delay e))%nat.
Proof.
  intros Hw. rewrite <- (insert_delete_eq v w e).
  rewrite total_delay_insert_None by apply lookup_delete_eq.
  unfold total_delay at 2.
  rewrite (map_fold_delete_L _ _ w old v); [fold (total_delay (delete w v)); lia | | done].
  intros; lia.
Qed.

Lemma unseen_insert_None (W : list WireId) (v : gmap Z QueuedWire) (w : WireId)
    (e : QueuedWire) :
  w ∈ W → v !! w = None → (unseen W (<[w := e]> v) < unseen W v)%nat.
Proof.
  intros HW Hw. unfold unseen. apply subset_size. rewrite dom_insert_L.
  apply not_elem_of_dom in Hw.
  assert (w ∈ (list_to_set W : gset Z)) as HwW by by apply elem_of_list_to_set.
  split.
  - intros x. rewrite !elem_of_difference, elem_of_union. tauto.
  - intros Hsub. specialize (Hsub w). rewrite !elem_of_difference, elem_of_union in Hsub.
    destruct Hsub as [_ Hn]; [done|]. apply Hn. left. by apply elem_of_singleton.
Qed.

Lemma unseen_insert_Some (W : list WireId) (v : gmap Z QueuedWire) (w : WireId)
    (e : QueuedWire) :
  is_Some (v !! w) → unseen W (<[w := e]> v) = unseen W v.
Proof.
  intros Hw. unfold unseen. rewrite dom_insert_L.
  apply elem_of_dom in Hw. f_equal. apply set_eq. intros x.
  rewrite !elem_of_difference, elem_of_union, elem_of_singleton.
  split; [tauto|]. intros [? Hx]. split; [done|]. intros [->|]; auto.
Qed.

Section MeasureProofs.
Context {dev : Arch}.
Variable W : list WireId.
Hypothesis HW : finite_device W.
Variable cfg : RouterCfg.
Variable a : archstate.
Variable dst : WireId.

Lemma pip_cost_nonneg (qw : QueuedWire) (p : PipId) (d : delay_t) :
  pip_cost cfg a qw p = Ok (Some d) → 0 ≤ d.
Proof.
  rewrite pip_cost_spec. destruct (spec_cost cfg a qw p) as [c|]; [|discriminate].
  destruct (Z.leb_spec 0 c); [by intros [= <-] | discriminate].
Qed.

Lemma relax_improves (qw : QueuedWire) (st : SearchState) (p : PipId) (d : delay_t)
    (old : QueuedWire) :
  s_visited st !! getPipDstWire p = Some old →
  relax dst qw st p d ≠ (qw, st) →
  d + getDelayEpsilon < delay old.
Proof.
  unfold relax. intros ->. destruct (Z.leb_spec (delay old) (d + getDelayEpsilon)); done.
Qed.

(** An examined pip leaves the queue and the visited map alone, or it
    pushes one entry and the measure of the map goes down. *)
Lemma examine_pip_measure (qw qw' : QueuedWire) (st st' : SearchState) (p : PipId) :
  examine_pip cfg a dst (qw, st) p = Ok (qw', st') →
  (queue st' = queue st ∧ s_visited st' = s_visited st)
  ∨ lex_lt (search_measure W st') (search_measure W st).
Proof.
  unfold examine_pip. intros Hex. apply bind_Ok in Hex as (c & Hc & Hex).
  destruct c as [d|]; [|injection Hex as <- <-; by left].
  apply pip_cost_nonneg in Hc. injection Hex as Hex.
  set (st1 := mkSearch _ _ _ _ _ _ _) in Hex.
  destruct (relax_cases dst qw st1 p d) as (_ & _ & Hcases).
  destruct Hcases as [[Hsame _]|(Hq & Hv & _ & _ & _)].
  - rewrite Hex in Hsame. injection Hsame as -> ->. by left.
  - right. rewrite Hex in Hv, Hq. simpl in Hv, Hq. unfold lex_lt, search_measure. simpl.
    rewrite Hv.
    destruct (s_visited st !! getPipDstWire p) as [old|] eqn:Hold.
    + right. split; [apply unseen_insert_Some; by rewrite Hold|].
      pose proof (total_delay_insert_Some _ _ (entered dst p d) _ Hold) as Htot.
      assert (d + getDelayEpsilon < delay old) as Hlt.
      { apply (relax_improves qw st1 p d old); [done|].
        rewrite Hex. intros [= _ Hst]. rewrite Hst in Hq. subst st1. simpl in Hq.
        symmetry in Hq. by apply cons_neq in Hq. }
      pose proof (fd_epsilon W HW). simpl in Htot. lia.
    + left. apply unseen_insert_None; [apply (fd_dst W HW) | done].
Qed.

End MeasureProofs.

(** ** A search finishes *)

Lemma lex3_ind (P : nat → nat → nat → Prop) :
  (∀ x y z,
     (∀ x' y' z', lex_lt (x', y') (x, y) ∨ (x' = x ∧ y' = y ∧ (z' < z)%nat) → P x' y' z') →
     P x y z) →
  ∀ x y z, P x y z.
Proof.
  intros Hstep x. induction x as [x IHx] using lt_wf_ind.
  intros y. induction y as [y IHy] using lt_wf_ind.
  intros z. induction z as [z IHz] using lt_wf_ind.
  apply Hstep. intros x' y' z' Hlt. unfold lex_lt in Hlt. simpl in Hlt.
  destruct Hlt as [[Hlt|[-> Hlt]]|(-> & -> & Hlt)]; auto.
Qed.

Section SearchTermination.
Context {dev : Arch}.
Variable W : list WireId.
Hypothesis HW : finite_device W.
Variable cfg : RouterCfg.
Variable a : archstate.
Variable dst : WireId.

Lemma lex_lt_trans (x y z : nat * nat) : lex_lt x y → lex_lt y z → lex_lt x z.
Proof. unfold lex_lt. lia. Qed.

Lemma examine_pips_measure (ps : list PipId) (qw qw' : QueuedWire) (st st' : SearchState) :
  foldM (examine_pip cfg a dst) (qw, st) ps = Ok (qw', st') →
  (queue st' = queue st ∧ s_visited st' = s_visited st)
  ∨ lex_lt (search_measure W st') (search_measure W st).
Proof.
  revert qw st. induction ps as [|p ps IH]; intros qw st Hf; simpl in Hf.
  - injection Hf as <- <-. by left.
  - apply bind_Ok in Hf as ([qw1 st1] & H1 & Hf).
    apply (examine_pip_measure W HW) in H1. apply IH in Hf.
    destruct H1 as [[Hq1 Hv1]|Hlt1], Hf as [[Hq2 Hv2]|Hlt2].
    + left. split; congruence.
    + right. unfold search_measure in *. by rewrite <- Hv1.
    + right. unfold search_measure in *. by rewrite Hv2.
    + right. by eapply lex_lt_trans.
Qed.

Lemma route_step_measure (st st' : SearchState) :
  search_continues st = true →
  route_step cfg a dst st = Ok st' →
  lex_lt (search_measure W st') (search_measure W st)
  ∨ (search_measure W st' = search_measure W st
     ∧ (length (queue st') < length (queue st))%nat).
Proof.
  unfold route_step. intros Hc Hs.
  destruct (pq_pop (queue st)) as [[qw q']|] eqn:Hpop.
  - apply bind_Ok in Hs as ([qw' st1] & Hf & [= <-]).
    apply examine_pips_measure in Hf as [[Hq Hv]|Hlt]; simpl in *.
    + right. unfold search_measure. rewrite Hv, Hq. simpl.
      apply pq_pop_length in Hpop. split; [done | lia].
    + by left.
  - apply pq_pop_None in Hpop. unfold search_continues in Hc.
    by rewrite bool_decide_eq_true_2 in Hc.
Qed.

Lemma settled_route_step (st : SearchState) : settled (route_step cfg a dst st).
Proof.
  unfold route_step. destruct (pq_pop _) as [[qw q']|]; [|done].
  apply settled_bind; [|done]. apply settled_foldM. intros [qw1 st1] p.
  unfold examine_pip, pip_cost. repeat settled_step.
Qed.

(** With the device finite, the loop of a search ends. *)
Lemma route_loop_finishes (st : SearchState) :
  finishes (λ fuel, route_loop cfg a dst fuel st) (λ _, True).
Proof.
  remember (unseen W (s_visited st)) as x eqn:Hx.
  remember (total_delay (s_visited st)) as y eqn:Hy.
  remember (length (queue st)) as z eqn:Hz.
  revert st Hx Hy Hz. induction x, y, z as [x y z IH] using lex3_ind. intros st -> -> ->.
  destruct (search_continues st) eqn:Hc.
  - destruct (route_step cfg a dst st) as [st1|e] eqn:Hs.
    + assert (lex_lt (search_measure W st1) (search_measure W st)
              ∨ (unseen W (s_visited st1) = unseen W (s_visited st)
                 ∧ total_delay (s_visited st1) = total_delay (s_visited st)
                 ∧ (length (queue st1) < length (queue st))%nat)) as Hlt.
      { destruct (route_step_measure _ _ Hc Hs) as [?|[[= Hu Ht] ?]]; auto. }
      destruct (IH _ _ _ Hlt st1 eq_refl eq_refl eq_refl) as (n & r & Hn & Hr).
      exists (S n), r. split; [|done]. intros [|fuel] Hfuel; [lia|]. simpl.
      rewrite Hc, Hs. simpl. apply Hn. lia.
    + exists 1%nat, (Err e). split.
      * intros [|fuel] Hfuel; [lia|]. simpl. by rewrite Hc, Hs.
      * pose proof (settled_route_step st) as Hset. rewrite Hs in Hset. by destruct e.
  - exists 0%nat, (Ok st). split; [|done]. intros [|fuel] _; simpl; by rewrite Hc.
Qed.

End SearchTermination.

(** ** What a search keeps true *)

Lemma pq_pop_elem (q r : list QueuedWire) (x : QueuedWire) :
  pq_pop q = Some (x, r) → x ∈ q ∧ ∀ y, y ∈ r → y ∈ q.
Proof.
  revert x r. induction q as [|z q IH]; intros x r Hp; simpl in Hp; [done|].
  destruct (pq_pop q) as [[y r']|] eqn:Hq.
  - destruct (IH _ _ eq_refl) as [Hy Hr'].
    destruct (Greater z y); injection Hp as <- <-.
    + split; [by apply elem_of_cons; right|]. intros w [->|Hw]%elem_of_cons.
      * apply elem_of_cons; by left.
      * apply elem_of_cons; right; auto.
    + split; [apply elem_of_cons; by left|]. intros w Hw. apply elem_of_cons; by right.
  - injection Hp as <- <-. split; [apply elem_of_cons; by left|]. by intros w Hw%elem_of_nil.
Qed.

Lemma score_empty_nonneg (sc : RipupScoreboard) :
  scores_le scores_empty sc →
  (∀ w, 0 ≤ score (wireScores sc) w) ∧ (∀ p, 0 ≤ score (pipScores sc) p)
  ∧ (∀ k, 0 ≤ score (netWireScores sc) k) ∧ (∀ k, 0 ≤ score (netPipScores sc) k).
Proof. intros (Ha & Hb & Hc & Hd). split_and!; intros k; [apply Ha | apply Hb | apply Hc | apply Hd]. Qed.

Section InvariantProofs.
Context {dev : Arch}.
Variable W : list WireId.
Hypothesis HW : finite_device W.
Variable cfg : RouterCfg.
Hypothesis Hcfg : cfg_nonneg cfg.
Variable a : archstate.
Variable dst : WireId.
Variable srcs : gset Z.

Lemma penalty_term_nonneg (s : Z) :
  0 ≤ s → 0 ≤ Z.quot (s * ripup_penalty cfg) 8.
Proof. intros Hs. destruct Hcfg as [Hp _]. apply Z.quot_pos; lia. Qed.

(** The cost of arriving over a pip is at least the delay of the entry it
    starts from. *)
Lemma pip_cost_ge (qw : QueuedWire) (p : PipId) (d : delay_t) :
  pip_cost cfg a qw p = Ok (Some d) → delay qw ≤ d.
Proof.
  rewrite pip_cost_spec. destruct (spec_cost cfg a qw p) as [c|] eqn:Hspec; [|discriminate].
  destruct (Z.leb_spec 0 c); [|discriminate]. intros [= <-].
  unfold spec_cost in Hspec. destruct (_ || _); [discriminate|]. injection Hspec as <-.
  destruct Hcfg as [Hp Hsc]. apply score_empty_nonneg in Hsc as (Hw & Hpp & Hnw & Hnp).
  pose proof (fd_delay W HW p).
  assert (0 ≤ wire_penalty cfg a (getPipDstWire p)) as Hwp.
  { unfold wire_penalty. pose proof (penalty_term_nonneg _ (Hw (getPipDstWire p))).
    pose proof (Hnw (getConflictingWireNet a (getPipDstWire p), getPipDstWire p)). nia. }
  assert (0 ≤ pip_penalty cfg a p) as Hppn.
  { unfold pip_penalty. pose proof (penalty_term_nonneg _ (Hpp p)).
    pose proof (Hnp (getConflictingPipNet a p, p)). nia. }
  repeat case_match; lia.
Qed.

(** Entries of the chain of [x] are no worse than [x]: a wire whose entry
    is worse than [d] is not on the chain of an entry as good as [d]. *)
Lemma rooted_insert_other (v : gmap Z QueuedWire) (w : WireId) (e' : QueuedWire) (d : delay_t) :
  (∀ x e, v !! x = Some e → pip e ≠ PipId_none →
     ∃ eu, v !! getPipSrcWire (pip e) = Some eu ∧ delay eu ≤ delay e) →
  (∀ old, v !! w = Some old → d < delay old) →
  ∀ h x ex, rooted v h x → v !! x = Some ex → delay ex ≤ d →
    rooted (<[w := e']> v) h x.
Proof.
  intros Hpred Hold h x ex Hroot. revert ex.
  induction Hroot as [x e Hx Hp|h x e Hx Hp Hroot IH]; intros ex Hex Hd;
    rewrite Hx in Hex; injection Hex as <-.
  - assert (x ≠ w) as Hne by (intros ->; specialize (Hold _ Hx); lia).
    apply (rooted_source _ x e); [by rewrite lookup_insert_ne | done].
  - assert (x ≠ w) as Hne by (intros ->; specialize (Hold _ Hx); lia).
    destruct (Hpred _ _ Hx Hp) as (eu & Hu & Hle).
    apply (rooted_step _ h x e); [by rewrite lookup_insert_ne | done |].
    apply (IH eu); [done | lia].
Qed.

Lemma rooted_insert (v : gmap Z QueuedWire) (w : WireId) (e' : QueuedWire) (hw : nat) :
  rooted (<[w := e']> v) hw w →
  ∀ h x, rooted v h x → ∃ h', rooted (<[w := e']> v) h' x.
Proof.
  intros Hw h x Hroot. induction Hroot as [x e Hx Hp|h x e Hx Hp Hroot [h' IH]].
  - destruct (decide (x = w)) as [->|Hne]; [eauto|].
    exists 0%nat. apply (rooted_source _ x e); [by rewrite lookup_insert_ne | done].
  - destruct (decide (x = w)) as [->|Hne]; [eauto|].
    exists (S h'). apply (rooted_step _ h' x e); [by rewrite lookup_insert_ne | done..].
Qed.

Lemma relax_inv (qw : QueuedWire) (st : SearchState) (p : PipId) (d : delay_t) :
  examining srcs (qw, st) →
  p ∈ getPipsDownhill (wire qw) →
  delay qw ≤ d →
  examining srcs (relax dst qw st p d) ∧ wire (relax dst qw st p d).1 = wire qw.
Proof.
  intros [[Hq Hpred Hroot Hsrc Hent] (eu & Hu & Hule)] Hp Hd. simpl in *.
  destruct (relax_cases dst qw st p d) as (_ & _ & [[Hsame _]|(Hqueue & Hv & _ & Hqw & _)]).
  { rewrite Hsame. split; [|done]. split; [by split | by exists eu]. }
  set (w := getPipDstWire p) in *. set (r := relax dst qw st p d) in *.
  assert (getPipSrcWire p = wire qw) as Hsrcp by by apply (fd_src W HW).
  assert (p ≠ PipId_none) as Hpn by (intros ->; by apply (fd_pip W HW (wire qw))).
  assert (∀ old, s_visited st !! w = Some old → d < delay old) as Hold.
  { intros old Hw. pose proof (fd_epsilon W HW).
    assert (d + getDelayEpsilon < delay old); [|lia].
    apply (relax_improves dst qw st p d old Hw). fold r. intros Hr.
    rewrite Hr in Hqueue. simpl in Hqueue. symmetry in Hqueue. by apply cons_neq in Hqueue. }
  assert (wire qw ≠ w) as Hne by (intros Heq; rewrite Heq in Hu; specialize (Hold _ Hu); lia).
  assert (s_visited r.2 !! wire qw = Some eu) as Hu' by (by rewrite Hv, lookup_insert_ne).
  assert (∃ h, rooted (s_visited r.2) h w) as [hw Hw'].
  { destruct (Hroot (wire qw)) as [hu Hru]; [eauto|].
    exists (S hu). rewrite Hv.
    apply (rooted_step _ hu w (entered dst p d)); [apply lookup_insert_eq | done |].
    simpl. rewrite Hsrcp. apply (rooted_insert_other _ _ _ d Hpred Hold _ _ eu); [done..|lia]. }
  split; [|by rewrite Hqw]. split; [split|].
  - intros q. rewrite Hqueue. intros [->|Hin]%elem_of_cons.
    + exists (entered dst p d). simpl. rewrite Hv, lookup_insert_eq. split; [done | lia].
    + destruct (Hq q Hin) as (e & He & Hle). unfold covered. rewrite Hv.
      destruct (decide (wire q = w)) as [Heq|Hneq].
      * rewrite Heq, lookup_insert_eq. exists (entered dst p d). split; [done|].
        rewrite Heq in He. specialize (Hold _ He). simpl. lia.
      * rewrite lookup_insert_ne by done. eauto.
  - intros x e. rewrite Hv. destruct (decide (x = w)) as [->|Hxw].
    + rewrite lookup_insert_eq. intros [= <-] _. simpl. rewrite Hsrcp.
      rewrite lookup_insert_ne by done. exists eu. split; [done | lia].
    + rewrite lookup_insert_ne by done. intros He Hpe.
      destruct (Hpred _ _ He Hpe) as (ey & Hy & Hle).
      destruct (decide (getPipSrcWire (pip e) = w)) as [Heq|Hneq].
      * rewrite Heq, lookup_insert_eq. exists (entered dst p d). split; [done|].
        rewrite Heq in Hy. specialize (Hold _ Hy). simpl. lia.
      * rewrite lookup_insert_ne by done. eauto.
  - intros x. destruct (decide (x = w)) as [->|Hxw]; [eauto|].
    rewrite Hv, lookup_insert_ne by done. intros Hx.
    destruct (Hroot x Hx) as [h Hrx]. rewrite <- Hv.
    rewrite Hv in Hw' |- *. by apply (rooted_insert _ _ _ hw Hw' h).
  - intros x e. rewrite Hv. destruct (decide (x = w)) as [->|Hxw].
    + rewrite lookup_insert_eq. by intros [= <-].
    + rewrite lookup_insert_ne by done. apply Hsrc.
  - intros x e. rewrite Hv. destruct (decide (x = w)) as [->|Hxw].
    + rewrite lookup_insert_eq. by intros [= <-].
    + rewrite lookup_insert_ne by done. apply Hent.
  - exists eu. rewrite Hqw. simpl. done.
Qed.

Lemma examine_pip_inv (qs qs' : QueuedWire * SearchState) (p : PipId) :
  examining srcs qs →
  p ∈ getPipsDownhill (wire qs.1) →
  examine_pip cfg a dst qs p = Ok qs' →
  examining srcs qs' ∧ wire qs'.1 = wire qs.1.
Proof.
  destruct qs as [qw st]. unfold examine_pip. intros Hex Hp Hr.
  apply bind_Ok in Hr as (c & Hc & Hr).
  set (st1 := mkSearch _ _ _ _ _ _ _) in Hr.
  assert (examining srcs (qw, st1)) as Hex1.
  { destruct Hex as [[] ?]. split; [by split | done]. }
  destruct c as [d|]; injection Hr as <-; [|done].
  apply relax_inv; [done | done | by apply pip_cost_ge in Hc].
Qed.

Lemma examine_pips_inv (ps : list PipId) (qs qs' : QueuedWire * SearchState) :
  examining srcs qs →
  (∀ p, p ∈ ps → p ∈ getPipsDownhill (wire qs.1)) →
  foldM (examine_pip cfg a dst) qs ps = Ok qs' →
  examining srcs qs'.
Proof.
  revert qs. induction ps as [|p ps IH]; intros qs Hex Hps Hf; simpl in Hf.
  - by injection Hf as <-.
  - apply bind_Ok in Hf as (qs1 & H1 & Hf).
    apply examine_pip_inv in H1 as [Hex1 Hw]; [|done|apply Hps, elem_of_cons; by left].
    apply (IH qs1); [done | | done]. intros q Hq. rewrite Hw. apply Hps, elem_of_cons. by right.
Qed.

Lemma route_step_inv (st st' : SearchState) :
  search_inv srcs st → route_step cfg a dst st = Ok st' → search_inv srcs st'.
Proof.
  unfold route_step. intros Hinv Hs.
  destruct (pq_pop (queue st)) as [[qw q']|] eqn:Hpop; [|by injection Hs as <-].
  apply bind_Ok in Hs as (qs & Hf & [= <-]).
  apply pq_pop_elem in Hpop as [Hqw Hq'].
  apply examine_pips_inv in Hf; [by destruct Hf | | done].
  destruct Hinv as [Hq Hpred Hroot Hsrc Hent]. split; [split|]; simpl; auto.
Qed.

Lemma route_loop_inv (fuel : nat) (st st' : SearchState) :
  search_inv srcs st → route_loop cfg a dst fuel st = Ok st' → search_inv srcs st'.
Proof.
  revert st. induction fuel as [|fuel IH]; intros st Hinv Hl; simpl in Hl;
    destruct (search_continues st); try discriminate; try (by injection Hl as <-).
  apply bind_Ok in Hl as (st1 & Hs & Hl). eapply IH; [|done]. by eapply route_step_inv.
Qed.

End InvariantProofs.

(** ** The chains of a completed search *)

Section ChainProofs.
Context {dev : Arch}.
Variable W : list WireId.
Hypothesis HW : finite_device W.

Lemma push_sources_flat (dst : WireId) (S : gset Z) (l : list (Z * Z)) (st : SearchState) :
  NoDup l.*1 →
  (∀ w, w ∈ l.*1 → s_visited st !! w = None ∧ w ∈ S) →
  (∀ q, q ∈ queue st → covered (s_visited st) q) →
  (∀ w e, s_visited st !! w = Some e → pip e = PipId_none ∧ w ∈ S) →
  let st' := fold_left (push_source dst) l st in
  (∀ q, q ∈ queue st' → covered (s_visited st') q)
  ∧ (∀ w e, s_visited st' !! w = Some e → pip e = PipId_none ∧ w ∈ S).
Proof.
  revert st. induction l as [|[w d] l IH]; intros st Hnd Hnew Hq Hflat; simpl; [done|].
  apply NoDup_cons in Hnd as [Hw Hnd]. simpl in Hw.
  destruct (Hnew w) as [Hwv HwS]; [apply elem_of_cons; by left|].
  apply IH; [done | | |].
  - intros x Hx. destruct (Hnew x) as [Hxv HxS]; [apply elem_of_cons; by right|].
    split; [|done]. unfold push_source. destruct (rng (s_rng st)) as [r g]. simpl.
    rewrite lookup_insert_ne; [done|]. by intros ->.
  - unfold push_source. destruct (rng (s_rng st)) as [r g]. simpl.
    intros q [->|Hin]%elem_of_cons.
    + eexists. simpl. split; [apply lookup_insert_eq | simpl; lia].
    + destruct (Hq q Hin) as (e & He & Hle). exists e. split; [|done].
      rewrite lookup_insert_ne; [done|]. intros Heq. rewrite <- Heq in He. congruence.
  - unfold push_source. destruct (rng (s_rng st)) as [r g]. simpl.
    intros x e. destruct (decide (w = x)) as [->|Hne].
    + rewrite lookup_insert_eq. by intros [= <-].
    + rewrite lookup_insert_ne by done. apply Hflat.
Qed.

Lemma search_init_inv (dst : WireId) (src_wires : gmap Z Z) (g rv ov : Z) :
  search_inv (dom src_wires) (search_init dst src_wires g rv ov).
Proof.
  unfold search_init.
  destruct (push_sources_flat dst (dom src_wires) (map_to_list src_wires)
              (mkSearch [] ∅ g 0 0 rv ov)) as [Hq Hflat].
  - apply NoDup_fst_map_to_list.
  - intros w [[w' d] [-> Hin]]%list_elem_of_fmap. simpl.
    split; [apply lookup_empty|]. apply elem_of_map_to_list in Hin. by apply elem_of_dom.
  - by intros q Hin%elem_of_nil.
  - intros w e. simpl. by rewrite lookup_empty.
  - split; [done | | | |].
    + intros w e He Hp. by destruct (Hflat w e He).
    + intros w [e He]. exists 0%nat. apply (rooted_source _ w e); [done|].
      by destruct (Hflat w e He).
    + intros w e He _. by destruct (Hflat w e He).
    + intros w e He Hp. by destruct (Hflat w e He).
Qed.

(** After a search every wire of the visited map has a chain of arriving
    pips that ends at a source wire. *)
Lemma route_chains (fuel : nat) (cfg : RouterCfg) (a : archstate) (g g' : Z) (r r' : Router)
    (src_wires : gmap Z Z) (dst : WireId) :
  cfg_nonneg cfg →
  route fuel cfg a g r src_wires dst = Ok (r', g') →
  chains_end src_wires (visited r').
Proof.
  intros Hcfg Hr. apply route_Ok in Hr as (st & Hl & -> & _). simpl.
  apply (route_loop_inv W HW cfg Hcfg a dst (dom src_wires)) in Hl;
    [|apply search_init_inv].
  destruct Hl as [_ _ Hroot Hsrc Hent]. split; [done|]. split; [|done].
  intros w e He Hp. by apply elem_of_dom, (Hsrc w e).
Qed.

Lemma route_finishes (cfg : RouterCfg) (a : archstate) (g : Z) (r : Router)
    (src_wires : gmap Z Z) (dst : WireId) :
  finishes (λ fuel, route fuel cfg a g r src_wires dst) (λ _, True).
Proof.
  unfold route.
  apply (finishes_bind (λ fuel, route_loop cfg a dst fuel _) _ (λ _, True)).
  - by apply (route_loop_finishes W HW).
  - intros st _. by apply finishes_const.
Qed.

Lemma settled_ripup_net (ns : gmap Z NetInfo) (a : archstate) (name : IdString) :
  settled (ripup_net ns a name).
Proof. unfold ripup_net. repeat settled_step. Qed.

Lemma settled_backtrace_step (ns : gmap Z NetInfo) (cfg : RouterCfg) (st : NetState)
    (cursor : WireId) :
  settled (backtrace_step ns cfg st cursor).
Proof.
  unfold backtrace_step, resolve_wire_conflict, resolve_pip_conflict.
  repeat (settled_step || apply settled_ripup_net).
Qed.

Lemma visited_index_present (v : gmap Z QueuedWire) (w : WireId) (e : QueuedWire) :
  v !! w = Some e → visited_index v w = (e, v).
Proof. unfold visited_index. by intros ->. Qed.

Lemma backtrace_step_next (ns : gmap Z NetInfo) (cfg : RouterCfg) (st st1 : NetState)
    (cursor next : WireId) (e : QueuedWire) :
  visited (n_router st) !! cursor = Some e →
  backtrace_step ns cfg st cursor = Ok (st1, next) →
  next = getPipSrcWire (pip e)
  ∧ visited (n_router st1) = visited (n_router st)
  ∧ n_src_wires st1 = <[cursor := delay e]> (n_src_wires st).
Proof.
  unfold backtrace_step. intros He Hs.
  apply bind_Ok in Hs as ([[a1 sc1] rp1] & _ & Hs).
  rewrite (visited_index_present _ _ _ He) in Hs.
  apply bind_Ok in Hs as ([[a2 sc2] rp2] & _ & Hs).
  by apply bind_Ok in Hs as (a3 & _ & [= <- <-]).
Qed.

(** A back-trace along a chain that ends at a source wire ends. *)
Lemma backtrace_finishes (ns : gmap Z NetInfo) (dbg : bool) (cfg : RouterCfg) (h : nat) :
  ∀ (st : NetState) (cursor : WireId),
    rooted (visited (n_router st)) h cursor →
    (∀ w e, visited (n_router st) !! w = Some e → pip e = PipId_none →
       is_Some (n_src_wires st !! w)) →
    finishes (λ fuel, backtrace fuel ns dbg cfg st cursor) (λ _, True).
Proof.
  induction h as [|h IH]; intros st cursor Hroot Hsrc.
  - inversion Hroot as [w e He Hp|]; subst.
    exists 0%nat, (Ok (debug_touch dbg st cursor)). split; [|done].
    intros fuel _.
    destruct (debug_touch_same dbg st cursor) as (_ & _ & Hsw & _).
    destruct fuel; simpl; rewrite Hsw, bool_decide_eq_true_2 by eauto; done.
  - inversion Hroot as [|h' w e He Hp Hnext]; subst.
    set (st0 := debug_touch dbg st cursor).
    assert (visited (n_router st0) = visited (n_router st)
            ∧ n_src_wires st0 = n_src_wires st) as [Hv0 Hs0].
    { unfold st0, debug_touch. destruct dbg; [|done]. simpl.
      by rewrite (visited_index_present _ _ _ He). }
    destruct (decide (is_Some (n_src_wires st0 !! cursor))) as [Hin|Hout].
    { exists 0%nat, (Ok st0). split; [|done].
      intros fuel _. destruct fuel; simpl; fold st0; by rewrite bool_decide_eq_true_2. }
    destruct (backtrace_step ns cfg st0 cursor) as [[st1 next]|err] eqn:Hstep.
    + rewrite <- Hv0 in He.
      destruct (backtrace_step_next _ _ _ _ _ _ _ He Hstep) as (-> & Hv1 & Hs1).
      destruct (IH st1 (getPipSrcWire (pip e))) as (n & r & Hn & Hr).
      * by rewrite Hv1, Hv0.
      * intros w e' He' Hp'. rewrite Hv1, Hv0 in He'. rewrite Hs1, Hs0.
        destruct (decide (cursor = w)) as [->|Hne]; [rewrite lookup_insert_eq; eauto|].
        rewrite lookup_insert_ne by done. by eapply Hsrc.
      * exists (S n), r. split; [|done]. intros [|fuel] Hfuel; [lia|]. simpl. fold st0.
        rewrite bool_decide_eq_false_2 by done. rewrite Hstep. simpl. apply Hn. lia.
    + exists 1%nat, (Err err). split.
      * intros [|fuel] Hfuel; [lia|]. simpl. fold st0.
        rewrite bool_decide_eq_false_2 by done. by rewrite Hstep.
      * pose proof (settled_backtrace_step ns cfg st0 cursor) as Hset.
        rewrite Hstep in Hset. by destruct err.
Qed.

End ChainProofs.

(** ** Routing a net finishes *)

Section NetTermination.
Context {dev : Arch}.
Variable W : list WireId.
Hypothesis HW : finite_device W.

Lemma settled_port_wire (pr : PortRef) : settled (port_wire pr).
Proof. unfold port_wire. repeat settled_step. Qed.

Lemma route_users_finishes (ns : gmap Z NetInfo) (dbg : bool) (cfg : RouterCfg)
    (us : list PortRef) :
  cfg_nonneg cfg →
  ∀ st, finishes (λ fuel, route_users fuel ns dbg cfg st us) (λ _, True).
Proof.
  intros Hcfg. induction us as [|u us IH]; intros st; simpl.
  - by apply finishes_const.
  - eapply finishes_bind.
    { apply finishes_const with (Q := λ _, True); [apply settled_port_wire | done]. }
    intros dst _. simpl.
    eapply (finishes_bind (λ fuel, route fuel cfg (n_arch st) (n_rng st) (n_router st)
                                     (n_src_wires st) dst)).
    { apply (finishes_post _ (λ _, True)
               (λ out, chains_end (n_src_wires st) (visited out.1)));
        [apply (route_finishes W HW)|].
      intros fuel [r1 g1] Hr. exact (route_chains W HW _ _ _ _ _ _ _ _ _ Hcfg Hr). }
    intros [r1 g1] [_ (Hroot & Hsrc & _)]. simpl in Hroot, Hsrc |- *.
    destruct (visited r1 !! dst) as [q|] eqn:Hq.
    + eapply finishes_bind; [|intros st2 _; apply IH].
      destruct (Hroot dst) as [h Hh]; [eauto|].
      apply (backtrace_finishes ns dbg cfg h); simpl; auto.
    + apply finishes_const; [|done]. apply settled_bind; [apply settled_ripup_net | done].
Qed.

Lemma Router_net_finishes (c : Context) (sc : RipupScoreboard) (name : IdString)
    (rip : bool) (penalty : delay_t) :
  0 ≤ penalty → scores_le scores_empty sc →
  finishes (λ fuel, Router_net fuel c sc name rip penalty)
    (λ out, scores_le scores_empty out.2 ∧ nets out.1.2 = nets c ∧ debug out.1.2 = debug c).
Proof.
  intros Hpen Hsc.
  apply (finishes_weaken _
           (λ out, True ∧ (scores_le sc out.2 ∧ nets out.1.2 = nets c
                           ∧ debug out.1.2 = debug c))).
  2: { intros [[r c'] sc'] (_ & Hle & Hn & Hd). split_and!; try done.
       by eapply scores_le_trans. }
  apply finishes_post.
  - unfold Router_net, Router_net_state.
    eapply finishes_bind with (P := λ _, True); [|intros st _; by apply finishes_const].
    eapply finishes_bind with (P := λ _, True);
      [apply finishes_const; [apply settled_at | done]|].
    intros ni _.
    eapply finishes_bind with (P := λ _, True);
      [apply finishes_const; [apply settled_port_wire | done]|].
    intros src_wire _.
    eapply finishes_bind with (P := λ _, True);
      [apply finishes_const; [apply settled_ripup_net | done]|].
    intros a1 _.
    eapply finishes_bind with (P := λ _, True);
      [apply finishes_const; [apply settled_call | done]|].
    intros a2 _. destruct (shuffle PortRef (rngstate c) (users ni)) as [users_array g].
    by apply route_users_finishes.
  - intros fuel [[r c'] sc'] Hr. split; [by eapply Router_net_scores_le|].
    unfold Router_net in Hr. by apply bind_Ok in Hr as (st & _ & [= <- <- <-]).
Qed.

End NetTermination.

(** ** The rip-up loop finishes *)

Section LoopTermination.
Context {dev : Arch}.
Variable W : list WireId.
Hypothesis HW : finite_device W.

Lemma pass_route_finishes (ps : PassState) (name : IdString) :
  scores_le scores_empty (p_scores ps) →
  finishes (λ fuel, pass_route fuel ps name) (λ ps', scores_le scores_empty (p_scores ps')).
Proof.
  intros Hsc. unfold pass_route.
  eapply finishes_bind; [by apply (Router_net_finishes W HW)|].
  intros [[r c'] sc'] (Hle & _). by apply finishes_const; [|intros ps' [= <-]].
Qed.

Lemma pass_ripup_finishes (penalty : delay_t) (ps : PassState) (name : IdString) :
  0 ≤ penalty →
  scores_le scores_empty (p_scores ps) →
  finishes (λ fuel, pass_ripup fuel penalty ps name)
    (λ ps', scores_le scores_empty (p_scores ps')).
Proof.
  intros Hpen Hsc. unfold pass_ripup.
  eapply finishes_bind; [by apply (Router_net_finishes W HW)|].
  intros [[r c'] sc'] (Hle & _). simpl in Hle.
  destruct (routedOkay r); by apply finishes_const; [|intros ps' [= <-]].
Qed.

Lemma router1_iter_finishes (ls : LoopState) :
  loop_inv ls → finishes (λ fuel, router1_iter fuel ls) loop_inv.
Proof.
  intros [Hsc Hpen]. unfold router1_iter.
  destruct (sorted_shuffle _ _) as [netsArray g1].
  eapply (finishes_bind _ _ (λ ps, scores_le scores_empty (p_scores ps))).
  { apply (finishes_foldM (λ fuel, pass_route fuel)
             (λ ps, scores_le scores_empty (p_scores ps))); [done|].
    intros ps name Hps _. by apply pass_route_finishes. }
  intros pa Hpa. simpl.
  eapply (finishes_bind _ _ (λ ps, scores_le scores_empty (p_scores ps))).
  { case_bool_decide.
    - destruct (sorted_shuffle _ _) as [ripupArray g2].
      apply (finishes_foldM (λ fuel, pass_ripup fuel (l_ripup_penalty ls))
               (λ ps, scores_le scores_empty (p_scores ps))); [done|].
      intros ps name Hps _. by apply pass_ripup_finishes.
    - by apply finishes_const; [|intros ps' [= <-]]. }
  intros pb Hpb. apply finishes_const; [done|]. intros ls' [= <-].
  split; [done|]. simpl. pose proof (fd_penalty W HW). by destruct (penalty_boundary _); lia.
Qed.

Lemma router1_loop_finishes (k : nat) :
  ∀ ls, loop_inv ls →
    0 ≤ iterCnt ls ≤ 200 →
    200 - iterCnt ls ≤ Z.of_nat k →
    ∃ m r, (∀ n fuel, (k ≤ n)%nat → (m ≤ fuel)%nat → router1_loop n fuel ls = r)
           ∧ settled r.
Proof.
  induction k as [|k IH]; intros ls Hinv Hrange Hk.
  - exists 0%nat.
    destruct (decide (netsQueue ls = ∅)) as [Hq|Hq].
    + exists (Ok (true, ls)). split; [|done]. intros [|n] fuel _ _; simpl;
        by rewrite bool_decide_eq_true_2.
    + exists (Ok (false, ls)). split; [|done].
      assert ((iterCnt ls =? 200) = true) as H200 by (apply Z.eqb_eq; lia).
      intros [|n] fuel _ _; simpl; by rewrite bool_decide_eq_false_2, H200.
  - destruct (decide (netsQueue ls = ∅)) as [Hq|Hq].
    { exists 0%nat, (Ok (true, ls)). split; [|done]. intros [|n] fuel _ _; simpl;
        by rewrite bool_decide_eq_true_2. }
    destruct (Z.eqb_spec (iterCnt ls) 200) as [H200|H200].
    { exists 0%nat, (Ok (false, ls)). split; [|done].
      apply Z.eqb_eq in H200.
      intros [|n] fuel _ _; simpl; by rewrite bool_decide_eq_false_2, H200. }
    destruct (router1_iter_finishes ls Hinv) as (m1 & r1 & Hm1 & Hr1).
    destruct r1 as [ls1|e].
    + pose proof (router1_iter_counters _ _ _ (Hm1 m1 (le_n _))) as [Hc _].
      destruct (IH ls1 Hr1) as (m2 & r2 & Hm2 & Hr2); [lia..|].
      exists (Nat.max m1 m2), r2. split; [|done].
      intros [|n] fuel Hn Hfuel; [lia|]. simpl.
      rewrite bool_decide_eq_false_2 by done.
      apply Z.eqb_neq in H200. rewrite H200, Hm1 by lia. simpl. apply Hm2; lia.
    + exists m1, (Err e). split; [|by destruct e].
      intros [|n] fuel Hn Hfuel; [lia|]. simpl.
      rewrite bool_decide_eq_false_2 by done.
      apply Z.eqb_neq in H200. by rewrite H200, Hm1.
Qed.

Lemma settled_estimate_net (c : Context) (u : unit) (name : IdString) :
  settled (estimate_net c u name).
Proof. unfold estimate_net. repeat settled_step. Qed.

(** With the device finite, [router1] finishes. *)
Lemma router1_try_finishes (c : Context) :
  finishes (λ fuel, router1_try fuel c) (λ _, True).
Proof.
  assert (loop_inv (router1_start c)) as Hinv.
  { split; [apply scores_le_refl | apply (fd_penalty W HW)]. }
  destruct (router1_loop_finishes 200 (router1_start c) Hinv) as (m & r & Hm & Hr);
    [simpl; lia..|].
  unfold router1_try. case_bool_decide; [by apply finishes_const|].
  destruct (foldM (estimate_net c) () (elements (netsQueue (router1_start c))))
    as [[]|e] eqn:Hest; simpl.
  - exists (Nat.max 200 m), r. split; [|by destruct r as [|[]]].
    intros fuel Hfuel. apply Hm; lia.
  - apply finishes_const; [|done].
    pose proof (settled_foldM (estimate_net c) (elements (netsQueue (router1_start c))) ()
                  (settled_estimate_net c)) as Hset.
    by rewrite Hest in Hset.
Qed.

End LoopTermination.

(** ** The devices of the examples are finite *)

Lemma table_pip_at (d : Table.Device) (p : PipId) (x : Table.Pip) :
  Table.pip_at d p = Some x → x ∈ Table.dev_pips d.
Proof.
  unfold Table.pip_at. destruct (p <? 0); [done|]. apply list_elem_of_lookup_2.
Qed.

Lemma table_downhill (d : Table.Device) (w : WireId) (p : PipId) :
  p ∈ Table.downhill d w →
  0 ≤ p ∧ ∃ x, Table.pip_at d p = Some x ∧ Table.pip_src x = w.
Proof.
  unfold Table.downhill. intros ([i x] & Hin & Hsome)%list_elem_of_omap.
  simpl in Hsome. case_bool_decide as Hsrc; [|done]. injection Hsome as <-.
  apply list_elem_of_lookup in Hin as [j Hj].
  apply list_lookup_imap_Some in Hj as (y & Hy & [= <- <-]).
  split; [lia|]. exists x. split; [|done].
  unfold Table.pip_at. destruct (Z.ltb_spec (Z.of_nat i) 0); [lia|]. by rewrite Nat2Z.id.
Qed.

Lemma table_finite (d : Table.Device) :
  Forall (λ x, 0 ≤ Table.pip_delay x) (Table.dev_pips d) →
  0 ≤ Table.dev_epsilon d →
  0 ≤ Table.dev_penalty d →
  finite_device (dev := Table.arch d) (table_wires d).
Proof.
  intros Hdelay Heps Hpen. split; simpl; try done.
  - intros p. unfold Table.dst_of, table_wires.
    destruct (Table.pip_at d p) as [x|] eqn:Hp; simpl.
    + apply elem_of_cons. right. apply list_elem_of_fmap. exists x.
      split; [done | by eapply table_pip_at].
    + apply elem_of_cons. by left.
  - intros w p (_ & x & Hx & Hsrc)%table_downhill. unfold Table.src_of. by rewrite Hx.
  - intros w [Hneg _]%table_downhill. unfold PipId_none in Hneg. lia.
  - intros p. destruct (Table.pip_at d p) as [x|] eqn:Hp; simpl; [|done].
    apply table_pip_at in Hp. by eapply (proj1 (Forall_forall _ _) Hdelay).
Qed.

(** ** More fuel changes nothing *)

Lemma monotone_const {A : Type} (r : result A) : monotone (λ _, r).
Proof. by intros fuel fuel' r' <-. Qed.

Lemma monotone_bind {A B : Type} (m : nat → result A) (k : nat → A → result B) :
  monotone m → (∀ x, monotone (λ fuel, k fuel x)) →
  monotone (λ fuel, m fuel ≫= k fuel).
Proof.
  intros Hm Hk fuel fuel' r Hr Hset Hle. simpl in *.
  destruct (m fuel) as [x|e] eqn:Hmf; simpl in Hr.
  - rewrite (Hm fuel fuel' (Ok x)); [simpl; by eapply Hk | done..].
  - subst r. rewrite (Hm fuel fuel' (Err e)); [done | done | by destruct e | done].
Qed.

Lemma monotone_foldM {A B : Type} (f : nat → A → B → result A) (l : list B) :
  (∀ x b, monotone (λ fuel, f fuel x b)) →
  ∀ x, monotone (λ fuel, foldM (f fuel) x l).
Proof.
  intros Hf. induction l as [|b l IH]; intros x; simpl; [apply monotone_const|].
  apply (monotone_bind (λ fuel, f fuel x b) (λ fuel y, foldM (f fuel) y l)); auto.
Qed.

Section MonotoneProofs.
Context {dev : Arch}.

Lemma route_loop_monotone (cfg : RouterCfg) (a : archstate) (dst : WireId) (st : SearchState) :
  monotone (λ fuel, route_loop cfg a dst fuel st).
Proof.
  intros fuel. revert st. induction fuel as [|fuel IH]; intros st fuel' r Hr Hset Hle;
    simpl in Hr; destruct (search_continues st) eqn:Hc.
  - by subst r.
  - subst r. destruct fuel'; simpl; by rewrite Hc.
  - destruct fuel' as [|fuel']; [lia|]. simpl. rewrite Hc.
    destruct (route_step cfg a dst st) as [st1|e]; simpl in *; [|done].
    apply (IH st1); [done..|lia].
  - subst r. destruct fuel'; simpl; by rewrite Hc.
Qed.

Lemma route_monotone (cfg : RouterCfg) (a : archstate) (g : Z) (r : Router)
    (src_wires : gmap Z Z) (dst : WireId) :
  monotone (λ fuel, route fuel cfg a g r src_wires dst).
Proof.
  unfold route. apply monotone_bind; [apply route_loop_monotone|].
  intros st. apply monotone_const.
Qed.

Lemma backtrace_monotone (ns : gmap Z NetInfo) (dbg : bool) (cfg : RouterCfg)
    (st : NetState) (cursor : WireId) :
  monotone (λ fuel, backtrace fuel ns dbg cfg st cursor).
Proof.
  intros fuel. revert st cursor.
  induction fuel as [|fuel IH]; intros st cursor fuel' r Hr Hset Hle; simpl in Hr;
    case_bool_decide as Hin.
  - subst r. destruct fuel'; simpl; by rewrite bool_decide_eq_true_2.
  - by subst r.
  - subst r. destruct fuel'; simpl; by rewrite bool_decide_eq_true_2.
  - destruct fuel' as [|fuel']; [lia|]. simpl. rewrite bool_decide_eq_false_2 by done.
    destruct (backtrace_step ns cfg _ cursor) as [[st1 next]|e]; simpl in *; [|done].
    apply (IH st1 next); [done..|lia].
Qed.

Lemma route_users_monotone (ns : gmap Z NetInfo) (dbg : bool) (cfg : RouterCfg)
    (us : list PortRef) :
  ∀ st, monotone (λ fuel, route_users fuel ns dbg cfg st us).
Proof.
  induction us as [|u us IH]; intros st; simpl; [apply monotone_const|].
  apply monotone_bind; [apply monotone_const|]. intros dst.
  apply monotone_bind; [apply route_monotone|].
  intros [r1 g1]. destruct (visited r1 !! dst); [|apply monotone_const].
  apply monotone_bind; [apply backtrace_monotone | apply IH].
Qed.

Lemma Router_net_monotone (c : Context) (sc : RipupScoreboard) (name : IdString)
    (rip : bool) (penalty : delay_t) :
  monotone (λ fuel, Router_net fuel c sc name rip penalty).
Proof.
  unfold Router_net, Router_net_state.
  apply monotone_bind; [|intros; apply monotone_const].
  apply monotone_bind; [apply monotone_const|]. intros ni.
  apply monotone_bind; [apply monotone_const|]. intros src_wire.
  apply monotone_bind; [apply monotone_const|]. intros a1.
  apply monotone_bind; [apply monotone_const|]. intros a2.
  destruct (shuffle PortRef (rngstate c) (users ni)) as [users_array g].
  apply route_users_monotone.
Qed.

Lemma pass_route_monotone (ps : PassState) (name : IdString) :
  monotone (λ fuel, pass_route fuel ps name).
Proof.
  unfold pass_route. apply monotone_bind; [apply Router_net_monotone|].
  intros [[r c'] sc']. apply monotone_const.
Qed.

Lemma pass_ripup_monotone (penalty : delay_t) (ps : PassState) (name : IdString) :
  monotone (λ fuel, pass_ripup fuel penalty ps name).
Proof.
  unfold pass_ripup. apply monotone_bind; [apply Router_net_monotone|].
  intros [[r c'] sc']. apply monotone_const.
Qed.

Lemma router1_iter_monotone (ls : LoopState) :
  monotone (λ fuel, router1_iter fuel ls).
Proof.
  unfold router1_iter. destruct (sorted_shuffle _ _) as [netsArray g1].
  apply monotone_bind.
  { apply (monotone_foldM (λ fuel, pass_route fuel)). apply pass_route_monotone. }
  intros pa. apply monotone_bind; [|intros; apply monotone_const].
  case_bool_decide; [|apply monotone_const].
  destruct (sorted_shuffle _ _) as [ripupArray g2].
  apply (monotone_foldM (λ fuel, pass_ripup fuel (l_ripup_penalty ls))).
  apply pass_ripup_monotone.
Qed.

Lemma router1_loop_monotone (n : nat) :
  ∀ (n' fuel fuel' : nat) (ls : LoopState) r,
    router1_loop n fuel ls = r → settled r →
    (n ≤ n')%nat → (fuel ≤ fuel')%nat →
    router1_loop n' fuel' ls = r.
Proof.
  induction n as [|n IH]; intros n' fuel fuel' ls r Hr Hset Hn Hfuel; simpl in Hr;
    case_bool_decide as Hq;
    try (subst r; destruct n'; simpl; by rewrite bool_decide_eq_true_2);
    destruct (iterCnt ls =? 200) eqn:H200;
    try (subst r; destruct n'; simpl; by rewrite bool_decide_eq_false_2, H200).
  destruct n' as [|n']; [lia|]. simpl. rewrite bool_decide_eq_false_2, H200 by done.
  destruct (router1_iter fuel ls) as [ls1|e] eqn:Hi; simpl in Hr.
  - rewrite (router1_iter_monotone ls fuel fuel' (Ok ls1)); [simpl|done..].
    apply (IH n' fuel fuel' ls1); [done..|lia|done].
  - subst r. by rewrite (router1_iter_monotone ls fuel fuel' (Err e)).
Qed.

Lemma router1_try_monotone (c : Context) : monotone (λ fuel, router1_try fuel c).
Proof.
  intros fuel fuel' r Hr Hset Hle. unfold router1_try in *.
  case_bool_decide; [done|].
  destruct (foldM (estimate_net c) () _) as [[]|e]; simpl in *; [|done].
  by eapply router1_loop_monotone.
Qed.

End MonotoneProofs.

(** ** [router1] terminates (C2) *)

(** C2.  On a finite device [router1] terminates: there is an amount of
    fuel with which the model returns or throws, and more fuel changes
    nothing.  The loop runs at most 200 iterations; true is returned exactly
    when the loop is left with [netsQueue] empty, which includes that no net
    was unrouted on entry; false is returned when [iterCnt] is 200 with nets
    still queued, and when a [log_error] is caught. *)
Theorem C2_router1_terminates {dev : Arch} (W : list WireId) (c : Context) :
  finite_device W →
  ∃ n : nat,
    settled (router1_try n c)
    ∧ (∀ fuel, (n ≤ fuel)%nat →
         router1_try fuel c = router1_try n c ∧ router1 fuel c = router1 n c)
    ∧ match router1_try n c with
      | Ok (b, ls) =>
          loop_run n (router1_start c) ls
          ∧ 0 ≤ iterCnt ls ≤ 200
          ∧ (b = true ↔ netsQueue ls = ∅)
          ∧ (b = false ↔ iterCnt ls = 200 ∧ netsQueue ls ≠ ∅)
          ∧ router1 n c = Ok b
      | Err e =>
          router1 n c = match e with Exn LogExecutionError => Ok false | _ => Err e end
      end.
Proof.
  intros HW. destruct (router1_try_finishes W HW c) as (n0 & r & Hn0 & Hr).
  set (n := Nat.max n0 200).
  assert (router1_try n c = r) as Hn by (apply Hn0; lia).
  assert (settled r) as Hset by (by destruct r as [|[]]).
  exists n. rewrite Hn. split; [done|]. split.
  - intros fuel Hfuel.
    assert (router1_try fuel c = r) as Hf by (apply Hn0; lia).
    split; [done|]. unfold router1. by rewrite Hf, Hn.
  - pose proof (router1_try_outcome n c) as Hout. rewrite Hn in Hout.
    destruct r as [[b ls]|e]; [apply Hout; lia|]. apply Hout. lia.
Qed.

Lemma contend_finite : finite_device (dev := Table.arch dev_contend) (table_wires dev_contend).
Proof. apply table_finite; simpl; [repeat constructor; simpl; lia | lia..]. Qed.

(** On [ctx_contend] the two nets rip each other up until the cap. *)
Lemma C2_witness :
  finite_device (dev := Table.arch dev_contend) (table_wires dev_contend)
  ∧ ∃ n : nat, ∀ fuel, (n ≤ fuel)%nat → router1 fuel ctx_contend = Ok false.
Proof.
  split; [apply contend_finite|].
  destruct (C2_router1_terminates (table_wires dev_contend) ctx_contend contend_finite)
    as (n & _ & Hstable & _).
  exists (Nat.max n 200). intros fuel Hfuel.
  assert (router1_try fuel ctx_contend = Ok (false, contend_end)) as Htry.
  { apply (router1_try_monotone ctx_contend 200%nat fuel); [apply contend_try | done | lia]. }
  unfold router1. by rewrite Htry.
Defined.

(** ** The wires of a routed net are bound *)

Lemma call_Ok {A : Type} (t : thrown A) (a : A) : call t = Ok a → t = Returns a.
Proof. destruct t; simpl; [by intros [= ->] | discriminate]. Qed.

Section BindingProofs.
Context {dev : Arch}.
Variable good : archstate → Prop.
Hypothesis Hpc : proxy_contract good.

Lemma unbind_pips_bound (pips : list PipId) :
  ∀ a a', good a →
    foldM (λ b p, call (unbindPip b p)) a pips = Ok a' →
    good a' ∧ ∀ m x, bound a' m x ↔ bound a m x ∧ x ∉ (getPipDstWire <$> pips).
Proof.
  induction pips as [|p pips IH]; intros a a' Hg Hf; simpl in Hf.
  - injection Hf as <-. split; [done|]. intros m x. simpl. split; [|tauto].
    intros Hb. split; [done | apply not_elem_of_nil].
  - apply bind_Ok in Hf as (a1 & Hc%call_Ok & Hf).
    destruct (pc_unbindPip good Hpc _ _ _ Hg Hc) as [Hg1 H1].
    destruct (IH _ _ Hg1 Hf) as [Hg' H']. split; [done|].
    intros m x. rewrite H', H1, fmap_cons, not_elem_of_cons. tauto.
Qed.

Lemma unbind_wires_bound (ws : list WireId) :
  ∀ a a', good a →
    foldM (λ b w, call (unbindWire b w)) a ws = Ok a' →
    good a' ∧ ∀ m x, bound a' m x ↔ bound a m x ∧ x ∉ ws.
Proof.
  induction ws as [|w ws IH]; intros a a' Hg Hf; simpl in Hf.
  - injection Hf as <-. split; [done|]. intros m x. split; [|tauto].
    intros Hb. split; [done | apply not_elem_of_nil].
  - apply bind_Ok in Hf as (a1 & Hc%call_Ok & Hf).
    destruct (pc_unbindWire good Hpc _ _ _ Hg Hc) as [Hg1 H1].
    destruct (IH _ _ Hg1 Hf) as [Hg' H']. split; [done|].
    intros m x. rewrite H', H1, not_elem_of_cons. tauto.
Qed.

(** Ripping up a net leaves the maps of the other nets as they are. *)
Lemma ripup_net_bound (ns : gmap Z NetInfo) (a a' : archstate) (name : IdString) :
  good a → ripup_net ns a name = Ok a' →
  good a' ∧ ∀ n x, n ≠ name → bound a n x → bound a' n x.
Proof.
  unfold ripup_net. intros Hg Hr. apply bind_Ok in Hr as (ni & _ & Hr).
  apply bind_Ok in Hr as (a1 & Hp & Hr). apply bind_Ok in Hr as (a2 & Hw & Hr).
  apply bind_Ok in Hr as (_ & _ & [= <-]).
  destruct (unbind_pips_bound _ _ _ Hg Hp) as [Hg1 H1].
  destruct (unbind_wires_bound _ _ _ Hg1 Hw) as [Hg2 H2].
  split; [done|]. intros n x Hne Hb. apply H2. split; [apply H1; split; [done|]|].
  - intros (p & -> & Hin)%list_elem_of_fmap.
    apply list_elem_of_omap in Hin as ([y q] & Hin & Hq). simpl in Hq.
    case_bool_decide as Hnone; [|discriminate]. injection Hq as ->.
    rewrite (pc_pip good Hpc _ _ _ _ Hg Hin Hnone) in Hb.
    apply Hne, (pc_owner good Hpc a n name y Hg Hb).
    apply list_elem_of_fmap. by exists (y, p).
  - intros Hin. apply list_elem_of_omap in Hin as ([y q] & Hin & Hq). simpl in Hq.
    case_bool_decide; [discriminate|]. injection Hq as ->.
    apply Hne, (pc_owner good Hpc a n name x Hg Hb).
    apply list_elem_of_fmap. by exists (x, q).
Qed.

Lemma resolve_wire_conflict_bound (ns : gmap Z NetInfo) (cfg : RouterCfg)
    (a a' : archstate) (sc sc' : RipupScoreboard) (rp rp' : gset Z) (cursor : WireId) :
  good a →
  resolve_wire_conflict ns cfg a sc rp cursor = Ok (a', sc', rp') →
  good a' ∧ ∀ x, x ≠ cursor → bound a (net_name cfg) x → bound a' (net_name cfg) x.
Proof.
  unfold resolve_wire_conflict. intros Hg Hr.
  case_bool_decide as Hconf; [|by injection Hr as <- <- <-].
  apply bind_Ok in Hr as (_ & _ & Hr).
  apply bind_Ok in Hr as (_ & Hne%assert_Ok%bool_decide_eq_true & Hr).
  apply bind_Ok in Hr as (a1 & Hc%call_Ok & Hr).
  apply bind_Ok in Hr as (a2 & Hrip & [= <- <- <-]).
  destruct (pc_unbindWire good Hpc _ _ _ Hg Hc) as [Hg1 H1].
  destruct (negb (checkWireAvail a1 cursor)).
  - destruct (ripup_net_bound _ _ _ _ Hg1 Hrip) as [Hg2 H2]. split; [done|].
    intros x Hx Hb. apply H2; [done|]. by apply H1.
  - injection Hrip as <-. split; [done|]. intros x Hx Hb. by apply H1.
Qed.

Lemma resolve_pip_conflict_bound (ns : gmap Z NetInfo) (cfg : RouterCfg)
    (a a' : archstate) (sc sc' : RipupScoreboard) (rp rp' : gset Z) (p : PipId) :
  good a →
  resolve_pip_conflict ns cfg a sc rp p = Ok (a', sc', rp') →
  good a' ∧ ∀ x, x ≠ getPipDstWire p → bound a (net_name cfg) x → bound a' (net_name cfg) x.
Proof.
  unfold resolve_pip_conflict. intros Hg Hr.
  case_bool_decide as Hconf; [|by injection Hr as <- <- <-].
  apply bind_Ok in Hr as (_ & _ & Hr).
  apply bind_Ok in Hr as (_ & Hne%assert_Ok%bool_decide_eq_true & Hr).
  apply bind_Ok in Hr as (a1 & Hc%call_Ok & Hr).
  apply bind_Ok in Hr as (a2 & Hrip & [= <- <- <-]).
  destruct (pc_unbindPip good Hpc _ _ _ Hg Hc) as [Hg1 H1].
  destruct (negb (checkPipAvail a1 p)).
  - destruct (ripup_net_bound _ _ _ _ Hg1 Hrip) as [Hg2 H2]. split; [done|].
    intros x Hx Hb. apply H2; [done|]. by apply H1.
  - injection Hrip as <-. split; [done|]. intros x Hx Hb. by apply H1.
Qed.

(** A turn of the back-trace binds the wire under the cursor and keeps the
    wires bound before it. *)
Lemma backtrace_step_bound (ns : gmap Z NetInfo) (cfg : RouterCfg) (st st1 : NetState)
    (cursor next : WireId) (e : QueuedWire) :
  visited (n_router st) !! cursor = Some e →
  getPipDstWire (pip e) = cursor →
  n_src_wires st !! cursor = None →
  sources_bound good (net_name cfg) st →
  backtrace_step ns cfg st cursor = Ok (st1, next) →
  sources_bound good (net_name cfg) st1.
Proof.
  unfold backtrace_step. intros He Hdst Hout [Hg Hsrc] Hs.
  apply bind_Ok in Hs as ([[a1 sc1] rp1] & Hw & Hs).
  rewrite (visited_index_present _ _ _ He) in Hs.
  apply bind_Ok in Hs as ([[a2 sc2] rp2] & Hp & Hs).
  apply bind_Ok in Hs as (a3 & Hc%call_Ok & [= <- <-]).
  destruct (resolve_wire_conflict_bound _ _ _ _ _ _ _ _ _ Hg Hw) as [Hg1 H1].
  destruct (resolve_pip_conflict_bound _ _ _ _ _ _ _ _ _ Hg1 Hp) as [Hg2 H2].
  destruct (pc_bindPip good Hpc _ _ _ _ Hg2 Hc) as [Hg3 H3].
  split; [done|]. simpl. intros w Hw'. apply H3.
  destruct (decide (w = cursor)) as [->|Hne]; [right; by rewrite Hdst|]. left.
  rewrite lookup_insert_ne in Hw' by done.
  apply H2; [by rewrite Hdst|]. apply H1; [done|]. by apply Hsrc.
Qed.

Lemma backtrace_bound (fuel : nat) (ns : gmap Z NetInfo) (dbg : bool) (cfg : RouterCfg) :
  ∀ (st st' : NetState) (cursor : WireId),
    is_Some (visited (n_router st) !! cursor) →
    chains_end (n_src_wires st) (visited (n_router st)) →
    sources_bound good (net_name cfg) st →
    backtrace fuel ns dbg cfg st cursor = Ok st' →
    sources_bound good (net_name cfg) st'.
Proof.
  induction fuel as [|fuel IH]; intros st st' cursor [e He] Hch Hsb Hb; simpl in Hb.
  all: assert (visited (n_router (debug_touch dbg st cursor)) = visited (n_router st)
               ∧ n_src_wires (debug_touch dbg st cursor) = n_src_wires st
               ∧ n_arch (debug_touch dbg st cursor) = n_arch st) as (Hv0 & Hs0 & Ha0)
         by (unfold debug_touch; destruct dbg; [|done]; simpl;
             by rewrite (visited_index_present _ _ _ He)).
  all: assert (sources_bound good (net_name cfg) (debug_touch dbg st cursor)) as Hsb0
         by (destruct Hsb as [Hg Hsrc]; split; [by rewrite Ha0|];
             intros w Hw; rewrite Ha0; apply Hsrc; by rewrite <- Hs0).
  all: case_bool_decide as Hin; try discriminate; [by injection Hb as <-|..].
  apply bind_Ok in Hb as ([st1 next] & Hstep & Hb).
  destruct Hch as (Hroot & Hsrc & Hent).
  assert (pip e ≠ PipId_none) as Hpip.
  { intros Hp. apply Hin. rewrite Hs0. by apply (Hsrc cursor e). }
  rewrite <- Hv0 in He.
  destruct (backtrace_step_next _ _ _ _ _ _ _ He Hstep) as (-> & Hv1 & Hs1).
  rewrite Hv0 in He.
  apply (IH st1 st' (getPipSrcWire (pip e))); [| |  |done].
  - rewrite Hv1, Hv0. destruct (Hroot cursor) as [h Hh]; [eauto|].
    inversion Hh as [w e' He' Hp'|h' w e' He' Hp' Hnext]; subst;
      rewrite He in He'; injection He' as <-; [done|].
    inversion Hnext; subst; eauto.
  - rewrite Hv1, Hv0, Hs1, Hs0. split_and!; [done | | done].
    intros w e' He' Hp'. destruct (decide (cursor = w)) as [->|Hne].
    + rewrite lookup_insert_eq. eauto.
    + rewrite lookup_insert_ne by done. by apply (Hsrc w e').
  - apply (backtrace_step_bound ns cfg (debug_touch dbg st cursor) st1 cursor
             (getPipSrcWire (pip e)) e); try done.
    + by rewrite Hv0.
    + by apply Hent.
    + destruct (n_src_wires (debug_touch dbg st cursor) !! cursor) eqn:Hl; [|done].
      exfalso. apply Hin. eauto.
Qed.

End BindingProofs.

Section NetBinding.
Context {dev : Arch}.
Variable good : archstate → Prop.
Hypothesis Hpc : proxy_contract good.
Variable W : list WireId.
Hypothesis HW : finite_device W.

Lemma route_users_bound (fuel : nat) (ns : gmap Z NetInfo) (dbg : bool) (cfg : RouterCfg)
    (us : list PortRef) :
  cfg_nonneg cfg →
  ∀ st st', sources_bound good (net_name cfg) st →
    route_users fuel ns dbg cfg st us = Ok st' →
    sources_bound good (net_name cfg) st'
    ∨ routedOkay (n_router st') = routedOkay (n_router st).
Proof.
  intros Hcfg. induction us as [|u us IH]; intros st st' Hsb Hr; simpl in Hr.
  - injection Hr as <-. left. exact Hsb.
  - apply bind_Ok in Hr as (dst & Hport & Hr).
    apply bind_Ok in Hr as ([r1 g1] & Hroute & Hr).
    pose proof (route_chains W HW _ _ _ _ _ _ _ _ _ Hcfg Hroute) as Hch.
    apply route_flags in Hroute as (Hok1 & _ & _).
    destruct (visited r1 !! dst) as [q|] eqn:Hv.
    + apply bind_Ok in Hr as (st2 & Hb & Hr).
      pose proof (backtrace_props _ _ _ _ _ _ _ Hb) as (_ & _ & _ & Hok2).
      apply (backtrace_bound good Hpc) in Hb; simpl; [| eauto | done | done].
      destruct (IH _ _ Hb Hr) as [?|Hok]; [by left|]. right. simpl in *. congruence.
    + apply bind_Ok in Hr as (a1 & _ & [= <-]). by right.
Qed.

(** After the constructor has routed a net, the wire of the driver and the
    wire of every user are in the [wires] map of the net. *)
Lemma Router_net_bound (fuel : nat) (c c' : Context) (sc sc' : RipupScoreboard)
    (name : IdString) (rip : bool) (penalty : delay_t) (r : Router) (ni : NetInfo) :
  good (arch c) → 0 ≤ penalty → scores_le scores_empty sc →
  nets c !! name = Some ni →
  Router_net fuel c sc name rip penalty = Ok (r, c', sc') →
  routedOkay r = true →
  good (arch c')
  ∧ (∃ w, port_wire (driver ni) = Ok w ∧ bound (arch c') name w)
  ∧ Forall (λ u, ∃ w, port_wire u = Ok w ∧ bound (arch c') name w) (users ni).
Proof.
  intros Hg Hpen Hsc Hni. unfold Router_net, Router_net_state. intros Hr Hok.
  apply bind_Ok in Hr as (st & Hs & [= <- <- <-]). simpl in *.
  unfold at_ in Hs. rewrite Hni in Hs. simpl in Hs.
  apply bind_Ok in Hs as (src_wire & Hsrc & Hs).
  apply bind_Ok in Hs as (a1 & Hrip & Hs).
  apply bind_Ok in Hs as (a2 & Hbw%call_Ok & Hs).
  pose proof (shuffle_perm _ (rngstate c) (users ni)) as Hperm.
  destruct (shuffle PortRef (rngstate c) (users ni)) as [users_array g]. simpl in Hperm.
  destruct (ripup_net_bound good Hpc _ _ _ _ Hg Hrip) as [Hg1 _].
  destruct (pc_bindWire good Hpc _ _ _ _ Hg1 Hbw) as [Hg2 H2].
  pose proof (route_users_props _ _ _ _ _ _ _ Hs) as (_ & Hcases).
  apply (route_users_bound fuel (nets c) (debug c) (mkCfg sc name rip penalty)) in Hs;
    [| done |].
  2: { split; [done|]. simpl. intros w [d Hw].
       apply lookup_singleton_Some in Hw as [<- _]. apply H2. by right. }
  simpl in *.
  destruct Hs as [[Hg' Hb]|Hsame]; [|by rewrite Hok in Hsame].
  destruct Hcases as [(_ & Hall & Hkeys)|(Hsame & _)]; [|by rewrite Hok in Hsame].
  split_and!; [done | |].
  - exists src_wire. split; [done|]. apply Hb, Hkeys. simpl.
    rewrite lookup_singleton_eq. eauto.
  - rewrite <- Hperm. eapply Forall_impl; [exact Hall|].
    intros u (w & Hw & Hin). exists w. auto.
Qed.

End NetBinding.

(** ** The binding tables of the examples keep the contract *)

Section TableBindings.
Variable d : Table.Device.

Lemma table_bound (b : Table.Bindings) (n : IdString) (w : WireId) :
  bound (dev := Table.arch d) b n w ↔ is_Some (Table.net_map b n !! w).
Proof.
  unfold bound. simpl. rewrite list_elem_of_fmap. split.
  - intros ([x p] & -> & Hin). apply elem_of_map_to_list in Hin. simpl. eauto.
  - intros [p Hp]. exists (w, p). split; [done|]. by apply elem_of_map_to_list.
Qed.

Lemma net_map_insert (wn pn : gmap Z Z) (wo : gmap Z (gmap Z Z)) (n n' : Z) (m : gmap Z Z) :
  Table.net_map (Table.mkBindings wn pn (<[n := m]> wo)) n'
  = if decide (n' = n) then m else default ∅ (wo !! n').
Proof.
  unfold Table.net_map. simpl. destruct (decide (n' = n)) as [->|Hne].
  - by rewrite lookup_insert_eq.
  - by rewrite lookup_insert_ne.
Qed.

Lemma table_free_wire (b : Table.Bindings) (w : WireId) (m : IdString) :
  table_good d b → Table.wire_to_net b !! w = None → Table.net_map b m !! w = None.
Proof.
  intros Hg Hfree. destruct (Table.net_map b m !! w) as [p|] eqn:Hp; [|done].
  assert (Table.wire_to_net b !! w = Some m) as Hw by (apply (tg_wire d b Hg); eauto).
  congruence.
Qed.

Lemma table_owner (b : Table.Bindings) (w : WireId) (m n : IdString) :
  table_good d b → Table.wire_to_net b !! w = Some n →
  is_Some (Table.net_map b m !! w) → m = n.
Proof. intros Hg Hn Hm. apply (tg_wire d b Hg) in Hm. congruence. Qed.

Lemma bind_wire_Returns (b b' : Table.Bindings) (w : WireId) (n : IdString) :
  Table.bind_wire b w n = Returns b' →
  w ≠ WireId_none ∧ Table.wire_to_net b !! w = None
  ∧ b' = Table.mkBindings (<[w := n]> (Table.wire_to_net b)) (Table.pip_to_net b)
           (<[n := <[w := PipId_none]> (Table.net_map b n)]> (Table.wires_of b)).
Proof.
  unfold Table.bind_wire, Table.check. repeat case_bool_decide; simpl; try discriminate.
  by intros [= <-].
Qed.

Lemma bind_pip_Returns (b b' : Table.Bindings) (p : PipId) (n : IdString) :
  Table.bind_pip d b p n = Returns b' →
  p ≠ PipId_none ∧ Table.pip_to_net b !! p = None
  ∧ Table.wire_to_net b !! Table.dst_of d p = None
  ∧ b' = Table.mkBindings (<[Table.dst_of d p := n]> (Table.wire_to_net b))
           (<[p := n]> (Table.pip_to_net b))
           (<[n := <[Table.dst_of d p := p]> (Table.net_map b n)]> (Table.wires_of b)).
Proof.
  unfold Table.bind_pip, Table.check. repeat case_bool_decide; simpl; try discriminate.
  by intros [= <-].
Qed.

Lemma unbind_wire_Returns (b b' : Table.Bindings) (w : WireId) :
  Table.unbind_wire b w = Returns b' →
  ∃ n p, Table.wire_to_net b !! w = Some n ∧ Table.net_map b n !! w = Some p
    ∧ b' = Table.mkBindings (delete w (Table.wire_to_net b))
             (if bool_decide (p ≠ PipId_none) then delete p (Table.pip_to_net b)
              else Table.pip_to_net b)
             (<[n := delete w (Table.net_map b n)]> (Table.wires_of b)).
Proof.
  unfold Table.unbind_wire, Table.check. intros H.
  destruct (bool_decide (w ≠ WireId_none)); simpl in H; [|discriminate].
  destruct (Table.wire_to_net b !! w) as [n|] eqn:Hn; [|discriminate].
  destruct (Table.net_map b n !! w) as [p|] eqn:Hp; [|discriminate].
  injection H as <-. by exists n, p.
Qed.

Lemma unbind_pip_Returns (b b' : Table.Bindings) (p : PipId) :
  Table.unbind_pip d b p = Returns b' →
  ∃ n, p ≠ PipId_none ∧ Table.pip_to_net b !! p = Some n
    ∧ is_Some (Table.wire_to_net b !! Table.dst_of d p)
    ∧ b' = Table.mkBindings (delete (Table.dst_of d p) (Table.wire_to_net b))
             (delete p (Table.pip_to_net b))
             (<[n := delete (Table.dst_of d p) (Table.net_map b n)]> (Table.wires_of b)).
Proof.
  unfold Table.unbind_pip, Table.check. intros H.
  destruct (bool_decide (p ≠ PipId_none)) eqn:Hp; simpl in H; [|discriminate].
  destruct (Table.pip_to_net b !! p) as [n|] eqn:Hn; [|discriminate].
  destruct (bool_decide (is_Some (Table.wire_to_net b !! Table.dst_of d p))) eqn:Hw;
    simpl in H; [|discriminate].
  injection H as <-. apply bool_decide_eq_true in Hp, Hw. by exists n.
Qed.

(** Entering the wire [w] with the pip [q] in the map of [n], [w] being
    free. *)
Lemma table_enter (b : Table.Bindings) (pn : gmap Z Z) (w q : Z) (n : IdString) :
  table_good d b → Table.wire_to_net b !! w = None →
  (∀ p m, pn !! p = Some m →
     (Table.pip_to_net b !! p = Some m ∧ p ≠ q) ∨ (p = q ∧ m = n ∧ Table.dst_of d q = w)) →
  (∀ p m, Table.pip_to_net b !! p = Some m → pn !! p = Some m) →
  (q ≠ PipId_none → pn !! q = Some n ∧ Table.dst_of d q = w) →
  pn !! PipId_none = None →
  let b' := Table.mkBindings (<[w := n]> (Table.wire_to_net b)) pn
              (<[n := <[w := q]> (Table.net_map b n)]> (Table.wires_of b)) in
  table_good d b'
  ∧ ∀ m x, is_Some (Table.net_map b' m !! x)
           ↔ is_Some (Table.net_map b m !! x) ∨ (m = n ∧ x = w).
Proof.
  intros Hg Hfree Hpn Hkeep Hq Hnone b'.
  assert (∀ m x, Table.net_map b' m !! x
                 = if decide (m = n ∧ x = w) then Some q else Table.net_map b m !! x) as Hmap.
  { intros m x. unfold b'. rewrite net_map_insert.
    destruct (decide (m = n)) as [->|Hm].
    - destruct (decide (x = w)) as [->|Hx].
      + rewrite lookup_insert_eq. by rewrite decide_True.
      + rewrite lookup_insert_ne by done. rewrite decide_False by tauto. done.
    - rewrite decide_False by tauto. done. }
  split; [split|].
  - intros x m. rewrite Hmap. simpl. destruct (decide (x = w)) as [->|Hx].
    + rewrite lookup_insert_eq. destruct (decide (m = n ∧ w = w)) as [[-> _]|Hm].
      * split; eauto.
      * rewrite (table_free_wire b w m Hg Hfree). split.
        -- intros [= <-]. tauto.
        -- by intros [? ?].
    + rewrite lookup_insert_ne by done. rewrite decide_False by tauto.
      apply (tg_wire d b Hg).
  - intros p m Hp. rewrite Hmap. simpl in Hp.
    destruct (Hpn p m Hp) as [[Hold Hne]|(-> & -> & Hd)].
    + pose proof (tg_pip d b Hg p m Hold) as Hent.
      destruct (decide (m = n ∧ Table.dst_of d p = w)) as [[-> Hd]|]; [|done].
      rewrite Hd, (table_free_wire b w n Hg Hfree) in Hent. discriminate.
    + by rewrite decide_True.
  - intros m x p. rewrite Hmap. simpl.
    destruct (decide (m = n ∧ x = w)) as [[-> ->]|Hne].
    + intros [= <-] Hqn. by apply Hq.
    + intros Hent Hp. destruct (tg_entry d b Hg m x p Hent Hp) as [Hown Hd].
      split; [by apply Hkeep | done].
  - done.
  - intros m x. rewrite Hmap. destruct (decide (m = n ∧ x = w)) as [Hmx|Hmx].
    + split; [by right | eauto].
    + split; [by left | by intros [?|?]].
Qed.

(** Taking the wire [w], owned by [n], out of the tables, with the pip
    [q] of its entry when it has one. *)
Lemma table_leave (b : Table.Bindings) (pn : gmap Z Z) (w q : Z) (n : IdString) :
  table_good d b → Table.wire_to_net b !! w = Some n →
  Table.net_map b n !! w = Some q →
  (∀ p m, pn !! p = Some m ↔ Table.pip_to_net b !! p = Some m ∧ (q ≠ PipId_none → p ≠ q)) →
  let b' := Table.mkBindings (delete w (Table.wire_to_net b)) pn
              (<[n := delete w (Table.net_map b n)]> (Table.wires_of b)) in
  table_good d b'
  ∧ ∀ m x, is_Some (Table.net_map b' m !! x)
           ↔ is_Some (Table.net_map b m !! x) ∧ x ≠ w.
Proof.
  intros Hg Hown Hent Hpn b'.
  assert (∀ m x, Table.net_map b' m !! x
                 = if decide (x = w) then None else Table.net_map b m !! x) as Hmap.
  { intros m x. unfold b'. rewrite net_map_insert.
    destruct (decide (m = n)) as [->|Hm].
    - destruct (decide (x = w)) as [->|Hx].
      + by rewrite lookup_delete_eq.
      + by rewrite lookup_delete_ne.
    - destruct (decide (x = w)) as [->|Hx]; [|done].
      destruct (Table.net_map b m !! w) as [p|] eqn:Hp; [|done].
      destruct Hm. apply (table_owner b w m n Hg Hown). unfold Table.net_map in *. eauto. }
  split; [split|].
  - intros x m. rewrite Hmap. simpl. destruct (decide (x = w)) as [->|Hx].
    + rewrite lookup_delete_eq. split; [discriminate | by intros [? ?]].
    + rewrite lookup_delete_ne by done. apply (tg_wire d b Hg).
  - intros p m Hp. simpl in Hp. apply Hpn in Hp as [Hold Hne].
    pose proof (tg_pip d b Hg p m Hold) as Hp.
    rewrite Hmap. destruct (decide (Table.dst_of d p = w)) as [Hd|]; [|done].
    exfalso. rewrite Hd in Hp.
    assert (m = n) as -> by (apply (table_owner b w m n Hg Hown); eauto).
    rewrite Hent in Hp. injection Hp as ->.
    destruct (decide (p = PipId_none)) as [->|Hnone]; [|by apply Hne].
    rewrite (tg_none d b Hg) in Hold. discriminate.
  - intros m x p. rewrite Hmap. simpl. destruct (decide (x = w)) as [->|Hx]; [done|].
    intros Hp Hnone. destruct (tg_entry d b Hg m x p Hp Hnone) as [Hold Hd].
    split; [|done]. apply Hpn. split; [done|]. intros Hq ->.
    destruct (tg_entry d b Hg n w q Hent Hq) as [_ Hd']. congruence.
  - simpl. destruct (pn !! PipId_none) as [m|] eqn:Hp; [|done].
    apply Hpn in Hp as [Hold _]. rewrite (tg_none d b Hg) in Hold. discriminate.
  - intros m x. rewrite Hmap. destruct (decide (x = w)) as [->|Hx].
    + split; [by intros [? ?] | tauto].
    + tauto.
Qed.

Lemma table_contract : proxy_contract (dev := Table.arch d) (table_good d).
Proof.
  split.
  - intros b b' w n Hg (Hw & Hfree & ->)%bind_wire_Returns.
    destruct (table_enter b (Table.pip_to_net b) w PipId_none n Hg Hfree) as [Hg' Hb'];
      [by left; split; [|intros ->; rewrite (tg_none d b Hg) in *] | done | done
      | apply (tg_none d b Hg) |].
    split; [done|]. intros m x. rewrite !table_bound. apply Hb'.
  - intros b b' p n Hg (Hp & Hpfree & Hfree & ->)%bind_pip_Returns.
    destruct (table_enter b (<[p := n]> (Table.pip_to_net b)) (Table.dst_of d p) p n Hg Hfree)
      as [Hg' Hb'].
    + intros q m. destruct (decide (q = p)) as [->|Hq].
      * rewrite lookup_insert_eq. intros [= <-]. by right.
      * rewrite lookup_insert_ne by done. by left.
    + intros q m Hq. rewrite lookup_insert_ne; [done|]. intros <-. congruence.
    + intros _. by rewrite lookup_insert_eq.
    + rewrite lookup_insert_ne by done. apply (tg_none d b Hg).
    + split; [done|]. intros m x. rewrite !table_bound. apply Hb'.
  - intros b b' w Hg (n & q & Hown & Hent & ->)%unbind_wire_Returns.
    destruct (table_leave b
                (if bool_decide (q ≠ PipId_none) then delete q (Table.pip_to_net b)
                 else Table.pip_to_net b) w q n Hg Hown Hent) as [Hg' Hb'].
    + intros p m. case_bool_decide as Hq.
      * rewrite lookup_delete_Some. split; [intros [? ?] | intros [? Hne]]; split; auto.
        intros ->. by apply Hne.
      * tauto.
    + split; [done|]. intros m x. rewrite !table_bound. apply Hb'.
  - intros b b' p Hg (n & Hp & Hown & Hw & ->)%unbind_pip_Returns.
    pose proof (tg_pip d b Hg p n Hown) as Hent.
    assert (Table.wire_to_net b !! Table.dst_of d p = Some n) as Hwn
      by (apply (tg_wire d b Hg); eauto).
    destruct (table_leave b (delete p (Table.pip_to_net b)) (Table.dst_of d p) p n
                Hg Hwn Hent) as [Hg' Hb'].
    + intros q m. rewrite lookup_delete_Some.
      split; [intros [? ?] | intros [? Hne]]; split; auto.
      intros ->. by apply Hne.
    + split; [done|]. intros m x. rewrite !table_bound. apply Hb'.
  - intros b m n x Hg Hm%table_bound Hn%table_bound.
    apply (tg_wire d b Hg) in Hm, Hn. congruence.
  - intros b n x p Hg Hin Hp. simpl in Hin. apply elem_of_map_to_list in Hin.
    by destruct (tg_entry d b Hg n x p Hin Hp).
Qed.

Lemma table_good_empty : table_good d Table.no_bindings.
Proof.
  split; unfold Table.net_map; simpl.
  - intros w n. rewrite !lookup_empty. simpl. rewrite lookup_empty.
    split; [discriminate | by intros [? ?]].
  - intros p n. by rewrite lookup_empty.
  - intros n w p. rewrite lookup_empty. simpl. by rewrite lookup_empty.
  - apply lookup_empty.
Qed.

End TableBindings.

(** ** Routing a net (C1) *)

(** C1.  When the constructor of [Router] for a net returns, either
    [routedOkay] is true and the wire of every user of the net is among the
    wires that the constructor bound to the net (the driver wire and the
    wires of the back-traces, each bound through the proxy); or [routedOkay]
    is false, [failedDest] is the wire of a user that the path search did
    not reach, and the [wires] map of the net is empty.  On a finite device,
    with a penalty and a scoreboard that are not negative, the constructor
    returns or throws; and when the proxy keeps its contract and
    [routedOkay] is true, the wire of the driver and the wire of every user
    are in the [wires] map of the net. *)
Theorem C1_route_net {dev : Arch} (W : list WireId) (good : archstate → Prop) (c : Context)
    (sc : RipupScoreboard) (name : IdString) (rip : bool) (penalty : delay_t) :
  (∀ fuel r c' sc',
     Router_net fuel c sc name rip penalty = Ok (r, c', sc') →
     ∃ ni st,
       nets c !! name = Some ni
       ∧ Router_net_state fuel c sc name rip penalty = Ok st
       ∧ r = n_router st ∧ arch c' = n_arch st
       ∧ if routedOkay r then Forall (sink_routed st) (users ni)
         else ∃ u, u ∈ users ni
                ∧ port_wire u = Ok (failedDest r)
                ∧ visited r !! failedDest r = None
                ∧ net_wires (arch c') name = [])
  ∧ (finite_device W → 0 ≤ penalty → scores_le scores_empty sc →
     (∃ n, settled (Router_net n c sc name rip penalty)
           ∧ ∀ fuel, (n ≤ fuel)%nat →
               Router_net fuel c sc name rip penalty = Router_net n c sc name rip penalty)
     ∧ (proxy_contract good → good (arch c) →
        ∀ fuel r c' sc' ni,
          Router_net fuel c sc name rip penalty = Ok (r, c', sc') →
          routedOkay r = true →
          nets c !! name = Some ni →
          good (arch c')
          ∧ (∃ w, port_wire (driver ni) = Ok w ∧ bound (arch c') name w)
          ∧ Forall (λ u, ∃ w, port_wire u = Ok w ∧ bound (arch c') name w) (users ni))).
Proof.
  split; [intros fuel r c' sc'; apply Router_net_outcome|].
  intros HW Hpen Hsc. split.
  - destruct (Router_net_finishes W HW c sc name rip penalty Hpen Hsc) as (n & r & Hn & Hr).
    exists n. rewrite (Hn n (le_n n)). split; [by destruct r as [|[]]|].
    intros fuel Hfuel. by apply Hn.
  - intros Hpc Hg fuel r c' sc' ni Hr Hok Hni.
    exact (Router_net_bound good Hpc W HW fuel c c' sc sc' name rip penalty r ni
             Hg Hpen Hsc Hni Hr Hok).
Qed.

Lemma direct_finite : finite_device (dev := Table.arch dev_direct) (table_wires dev_direct).
Proof. apply table_finite; simpl; [repeat constructor; simpl; lia | lia..]. Qed.

(** On [dev_direct]: net 1 with its user on wire 2 is routed, wire 2 being
    bound through pip 0; with a second user on wire 9 it fails and is left
    without wires. *)
Lemma C1_witness :
  finite_device (dev := Table.arch dev_direct) (table_wires dev_direct)
  ∧ proxy_contract (dev := Table.arch dev_direct) (table_good dev_direct)
  ∧ (∃ r c' sc',
       Router_net 5 ctx_direct scores_empty 1 false 0 = Ok (r, c', sc')
       ∧ routedOkay r = true
       ∧ net_wires (arch c') 1 = [(2, 0); (1, -1)]
       ∧ Forall (λ u, ∃ w, port_wire (dev := Table.arch dev_direct) u = Ok w
                            ∧ bound (arch c') 1 w) [Table.placed 2])
  ∧ (∃ r c' sc',
       Router_net 5 ctx_split scores_empty 1 false 0 = Ok (r, c', sc')
       ∧ routedOkay r = false ∧ failedDest r = 9
       ∧ net_wires (arch c') 1 = []).
Proof.
  split; [apply direct_finite|]. split; [apply table_contract|]. split.
  - assert (match Router_net 5 ctx_direct scores_empty 1 false 0 with
            | Ok (r, c', _) =>
                routedOkay r && bool_decide (net_wires (arch c') 1 = [(2, 0); (1, -1)])
            | Err _ => false
            end = true) as Hcheck by (by vm_compute).
    destruct (Router_net 5 ctx_direct scores_empty 1 false 0) as [[[r c'] sc']|e] eqn:Hr;
      [|discriminate].
    exists r, c', sc'. split; [done|].
    apply andb_true_iff in Hcheck as [Hok Hw].
    split; [done|]. split; [by apply bool_decide_eq_true in Hw|].
    destruct (C1_route_net (dev := Table.arch dev_direct) (table_wires dev_direct)
                (table_good dev_direct) ctx_direct scores_empty 1 false 0) as [_ Hfin].
    destruct (Hfin direct_finite (Z.le_refl 0) (scores_le_refl scores_empty)) as [_ Hb].
    destruct (Hb (table_contract dev_direct) (table_good_empty dev_direct) 5%nat r c' sc'
                (Table.net 1 [2]) Hr Hok eq_refl) as (_ & _ & Hall).
    exact Hall.
  - assert (match Router_net 5 ctx_split scores_empty 1 false 0 with
            | Ok (r, _, _) => negb (routedOkay r) && (failedDest r =? 9)
            | Err _ => false
            end = true) as Hcheck by (by vm_compute).
    destruct (Router_net 5 ctx_split scores_empty 1 false 0) as [[[r c'] sc']|e] eqn:Hr;
      [|discriminate].
    exists r, c', sc'. split; [done|].
    apply andb_true_iff in Hcheck as [Hok Hf].
    apply negb_true_iff in Hok. apply Z.eqb_eq in Hf.
    destruct (C1_route_net (dev := Table.arch dev_direct) (table_wires dev_direct)
                (table_good dev_direct) ctx_split scores_empty 1 false 0) as [Hout _].
    destruct (Hout _ _ _ _ Hr) as (ni & st & _ & _ & _ & _ & Hcase).
    rewrite Hok in Hcase. destruct Hcase as (u & _ & _ & _ & Hempty).
    by split_and!.
Defined.

(** * Further properties of the code *)

(** ** The hashes of the keys of the scoreboard *)

Lemma lxor_bound (n a b : Z) :
  0 ≤ n → 0 ≤ a < 2 ^ n → 0 ≤ b < 2 ^ n → 0 ≤ Z.lxor a b < 2 ^ n.
Proof.
  intros Hn Ha Hb. assert (0 ≤ Z.lxor a b) as Hx by (apply Z.lxor_nonneg; lia).
  split; [done|].
  destruct (decide (Z.lxor a b = 0)) as [->|Hne]; [lia|].
  assert (0 < n) as Hpos.
  { destruct (decide (n = 0)) as [->|?]; [|lia].
    destruct Hne. replace a with 0 by lia. by replace b with 0 by lia. }
  apply Z.log2_lt_pow2; [lia|].
  pose proof (Z.log2_lxor a b ltac:(lia) ltac:(lia)) as Hl.
  assert (Z.log2 a < n) as Hla.
  { destruct (decide (a = 0)) as [->|?]; [simpl; lia|]. apply Z.log2_lt_pow2; lia. }
  assert (Z.log2 b < n) as Hlb.
  { destruct (decide (b = 0)) as [->|?]; [simpl; lia|]. apply Z.log2_lt_pow2; lia. }
  lia.
Qed.

Lemma lxor_cancel (s x y : Z) : Z.lxor s x = Z.lxor s y → x = y.
Proof.
  intros H. apply (f_equal (Z.lxor s)) in H.
  by rewrite <- !Z.lxor_assoc, Z.lxor_nilpotent, !Z.lxor_0_l in H.
Qed.

Lemma wrap_sum (bits x k : Z) : wrap bits (wrap bits x + k) = wrap bits (x + k).
Proof. unfold wrap. apply Zplus_mod_idemp_l. Qed.

Lemma wrap_add_cancel (bits x y k : Z) :
  0 ≤ x < 2 ^ bits → 0 ≤ y < 2 ^ bits →
  wrap bits (x + k) = wrap bits (y + k) → x = y.
Proof.
  unfold wrap. intros Hx Hy H.
  assert ((x + k - k) `mod` 2 ^ bits = (y + k - k) `mod` 2 ^ bits) as H'.
  { rewrite (Zminus_mod (x + k)), (Zminus_mod (y + k)). by rewrite H. }
  rewrite !Z.add_simpl_r in H'. by rewrite !Z.mod_small in H' by lia.
Qed.

(** X1.  The hash of a pair lies in the range of [std::size_t], and two
    pairs with the same first component and different hashes of the second
    component never have the same hash: among the keys of one net the
    combination adds no collision. *)
Theorem X1_hash_pairs (bits : Z) (hash_id : IdString → Z) (hash_wire : WireId → Z)
    (n : IdString) (w1 w2 : WireId) :
  0 ≤ bits →
  0 ≤ hash_id n < 2 ^ bits →
  0 ≤ hash_wire w1 < 2 ^ bits →
  0 ≤ hash_wire w2 < 2 ^ bits →
  0 ≤ hash_id_wire bits hash_id hash_wire (n, w1) < 2 ^ bits
  ∧ hash_id_pip bits hash_id hash_wire (n, w1) = hash_id_wire bits hash_id hash_wire (n, w1)
  ∧ (hash_wire w1 ≠ hash_wire w2 →
     hash_id_wire bits hash_id hash_wire (n, w1) ≠ hash_id_wire bits hash_id hash_wire (n, w2)).
Proof.
  intros Hbits Hn H1 H2. unfold hash_id_pip, hash_id_wire, hash_combine. simpl.
  split; [|split; [done|]].
  - apply lxor_bound; [done..|]. unfold wrap. apply Z.mod_pos_bound. lia.
  - intros Hne Heq. apply Hne. apply lxor_cancel in Heq.
    rewrite !wrap_sum, <- !Z.add_assoc, !wrap_sum, <- !Z.add_assoc in Heq.
    by apply wrap_add_cancel in Heq.
Qed.

Lemma X1_witness :
  hash_id_wire 64 id id (1, 2) = 2654435834
  ∧ hash_id_wire 64 id id (1, 2) ≠ hash_id_wire 64 id id (1, 3).
Proof.
  split; [reflexivity|].
  refine (proj2 (proj2 (X1_hash_pairs 64 id id 1 2 3 _ _ _ _)) _); simpl; lia.
Defined.

(** ** The order of the queue *)

Lemma Greater_spec (x y : QueuedWire) :
  Greater x y = true
  ↔ delay y + togo y < delay x + togo x
    ∨ (delay x + togo x = delay y + togo y ∧ randtag y < randtag x).
Proof.
  unfold Greater. cbv zeta. rewrite !Z.gtb_ltb.
  destruct (Z.eqb_spec (delay x + togo x) (delay y + togo y)) as [Heq|Hne];
    rewrite Z.ltb_lt; lia.
Qed.

(** X2.  [QueuedWire::Greater] is a strict weak order, as
    [std::priority_queue] requires: no entry is greater than itself, the
    comparison is transitive, and so is being incomparable, which means
    having the same sum of delay and estimate and the same tag. *)
Theorem X2_Greater_order :
  (∀ x, Greater x x = false)
  ∧ (∀ x y z, Greater x y = true → Greater y z = true → Greater x z = true)
  ∧ (∀ x y, Greater x y = false ∧ Greater y x = false
            ↔ delay x + togo x = delay y + togo y ∧ randtag x = randtag y)
  ∧ (∀ x y z, Greater x y = false → Greater y x = false →
              Greater y z = false → Greater z y = false →
              Greater x z = false ∧ Greater z x = false).
Proof.
  split_and!.
  - intros x. apply not_true_iff_false. rewrite Greater_spec. lia.
  - intros x y z. rewrite !Greater_spec. lia.
  - intros x y. rewrite <- !not_true_iff_false, !Greater_spec. lia.
  - intros x y z. rewrite <- !not_true_iff_false, !Greater_spec. lia.
Qed.

(** ** The wires within reach of a search *)

Lemma pq_pop_rest (q r : list QueuedWire) (x : QueuedWire) :
  pq_pop q = Some (x, r) → ∀ y, y ∈ q → y = x ∨ y ∈ r.
Proof.
  revert x r. induction q as [|z q IH]; intros x r Hp y Hy; simpl in Hp; [done|].
  apply elem_of_cons in Hy. destruct (pq_pop q) as [[u r']|] eqn:Hq.
  - specialize (IH _ _ eq_refl). destruct (Greater z u); injection Hp as <- <-.
    + destruct Hy as [->|Hy]; [right; apply elem_of_cons; by left|].
      destruct (IH y Hy) as [->|?]; [by left|]. right. apply elem_of_cons. by right.
    + destruct Hy as [->|Hy]; [by left | by right].
  - injection Hp as <- <-. apply pq_pop_None in Hq as ->.
    destruct Hy as [->|Hy%elem_of_nil]; [by left | done].
Qed.

Section ReachProofs.
Context {dev : Arch}.
Variable cfg : RouterCfg.
Variable a : archstate.
Variable dst : WireId.
Variable srcs : gset Z.

Lemma pip_cost_usable (qw : QueuedWire) (p : PipId) (c : option delay_t) :
  pip_cost cfg a qw p = Ok c → (c = None ↔ usable cfg a p = false).
Proof.
  rewrite pip_cost_spec. unfold spec_cost, usable. cbv zeta.
  destruct (checkWireAvail a (getPipDstWire p)), (checkPipAvail a p),
    (passes_over cfg (getConflictingWireNet a (getPipDstWire p))),
    (passes_over cfg (getConflictingPipNet a p)); simpl;
    try (intros [= <-]; done);
    (destruct (0 <=? _); [intros [= <-]; by split | discriminate]).
Qed.

Lemma closed_mono (v v' : gmap Z QueuedWire) (w : WireId) :
  (∀ x, is_Some (v !! x) → is_Some (v' !! x)) → closed cfg a v w → closed cfg a v' w.
Proof. intros Hsub Hc p Hp Hu. by apply Hsub, Hc. Qed.

Lemma examine_pip_reach (w0 : WireId) (qw qw' : QueuedWire) (st st' : SearchState)
    (p : PipId) :
  wire qw = w0 → p ∈ getPipsDownhill w0 →
  reach_inv cfg a srcs (Some w0) st →
  examine_pip cfg a dst (qw, st) p = Ok (qw', st') →
  wire qw' = w0
  ∧ reach_inv cfg a srcs (Some w0) st'
  ∧ (∀ w, is_Some (s_visited st !! w) → is_Some (s_visited st' !! w))
  ∧ (usable cfg a p = true → is_Some (s_visited st' !! getPipDstWire p)).
Proof.
  intros Hw0 Hp [Hpop Hvis Hque Hclo] He. unfold examine_pip in He.
  apply bind_Ok in He as (c & Hc & He). apply pip_cost_usable in Hc.
  destruct c as [d|].
  - assert (usable cfg a p = true) as Hu.
    { destruct (usable cfg a p); [done|]. by pose proof (proj2 Hc eq_refl). }
    set (st1 := mkSearch _ _ _ _ _ _ _) in He.
    injection He as He.
    pose proof (relax_cases dst qw st1 p d) as Hcases. cbv zeta in Hcases.
    rewrite He in Hcases. simpl in Hcases. destruct Hcases as (_ & _ & Hcases).
    destruct Hcases as [[[= -> ->] (old & Hold & _)]|(Hq & Hv & _ & Hqw & _)].
    + simpl in *. split_and!; [done | by split | done | eauto].
    + subst qw'. simpl. split; [done|].
      assert (∀ w, is_Some (s_visited st !! w) → is_Some (s_visited st' !! w)) as Hgrow.
      { intros w Hw. rewrite Hv. simpl.
        destruct (decide (getPipDstWire p = w)) as [->|?];
          [rewrite lookup_insert_eq; eauto | by rewrite lookup_insert_ne]. }
      assert (reachable cfg a srcs (getPipDstWire p)) as Hreach.
      { apply (reach_pip cfg a srcs w0); [by apply Hpop | done..]. }
      split_and!; [split | done |].
      * done.
      * intros w. rewrite Hv. simpl.
        destruct (decide (getPipDstWire p = w)) as [<-|?]; [done|].
        rewrite lookup_insert_ne by done. apply Hvis.
      * intros x. rewrite Hq. simpl. intros [->|Hx]%elem_of_cons; [done | by apply Hque].
      * intros w Hw Hne. rewrite Hq. simpl.
        destruct (decide (getPipDstWire p = w)) as [<-|Hnw].
        { left. exists (entered dst p d). split; [apply elem_of_cons; by left | done]. }
        rewrite Hv in Hw. simpl in Hw. rewrite lookup_insert_ne in Hw by done.
        destruct (Hclo w Hw Hne) as [(x & Hx & Hxw)|Hc'].
        -- left. exists x. split; [apply elem_of_cons; by right | done].
        -- right. by apply (closed_mono (s_visited st)).
      * intros _. rewrite Hv. simpl. rewrite lookup_insert_eq. eauto.
  - injection He as <- <-. simpl. split_and!; [done | by split | done |].
    intros Hu. rewrite (proj1 Hc eq_refl) in Hu. discriminate.
Qed.

Lemma examine_pips_reach (w0 : WireId) (ps : list PipId) :
  ∀ (qw qw' : QueuedWire) (st st' : SearchState),
    wire qw = w0 → (∀ p, p ∈ ps → p ∈ getPipsDownhill w0) →
    reach_inv cfg a srcs (Some w0) st →
    foldM (examine_pip cfg a dst) (qw, st) ps = Ok (qw', st') →
    reach_inv cfg a srcs (Some w0) st'
    ∧ (∀ w, is_Some (s_visited st !! w) → is_Some (s_visited st' !! w))
    ∧ (∀ p, p ∈ ps → usable cfg a p = true → is_Some (s_visited st' !! getPipDstWire p)).
Proof.
  induction ps as [|p ps IH]; intros qw qw' st st' Hw0 Hps Hinv Hf; simpl in Hf.
  - injection Hf as <- <-. split_and!; [done..|]. by intros p Hp%elem_of_nil.
  - apply bind_Ok in Hf as ([qw1 st1] & He & Hf).
    destruct (examine_pip_reach w0 qw qw1 st st1 p Hw0) as (Hw1 & Hinv1 & Hgrow1 & Hp1);
      [apply Hps, elem_of_cons; by left | done..|].
    destruct (IH qw1 qw' st1 st' Hw1) as (Hinv' & Hgrow' & Hps'); [|done..|].
    { intros q Hq. apply Hps, elem_of_cons. by right. }
    split_and!; [done | by auto |].
    intros q [->|Hq]%elem_of_cons Hu; [by apply Hgrow', Hp1 | by apply Hps'].
Qed.

Lemma route_step_reach (st st' : SearchState) :
  reach_inv cfg a srcs None st → route_step cfg a dst st = Ok st' →
  reach_inv cfg a srcs None st'.
Proof.
  intros [_ Hvis Hque Hclo] Hs. unfold route_step in Hs.
  destruct (pq_pop (queue st)) as [[qw q']|] eqn:Hpop; [|injection Hs as <-; by split].
  apply bind_Ok in Hs as ([qw' st1] & Hf & [= <-]). simpl.
  destruct (pq_pop_elem _ _ _ Hpop) as [Hin Hsub].
  apply (examine_pips_reach (wire qw)) in Hf as (Hinv & Hgrow & Hps); [|done..|].
  - destruct Hinv as [_ Hvis1 Hque1 Hclo1]. split; [done..|].
    intros w Hw _. destruct (decide (w = wire qw)) as [->|Hne].
    + right. intros p Hp Hu. by apply Hps.
    + apply Hclo1; [done|]. intros [= Heq]. by destruct Hne.
  - split; simpl.
    + intros w [= <-]. by apply Hque.
    + done.
    + intros x Hx. by apply Hque, Hsub.
    + intros w Hw Hne. destruct (Hclo w Hw) as [(x & Hx & Hxw)|Hc]; [done| |by right].
      left. exists x. split; [|done].
      destruct (pq_pop_rest _ _ _ Hpop x Hx) as [->|?]; [|done]. by destruct Hne; f_equal.
Qed.

Lemma route_loop_reach (fuel : nat) (st st' : SearchState) :
  reach_inv cfg a srcs None st → route_loop cfg a dst fuel st = Ok st' →
  reach_inv cfg a srcs None st'.
Proof.
  revert st. induction fuel as [|fuel IH]; intros st Hinv Hl; simpl in Hl;
    destruct (search_continues st); try discriminate; try (by injection Hl as <-).
  apply bind_Ok in Hl as (st1 & Hs & Hl). eapply IH; [|done]. by eapply route_step_reach.
Qed.

(** Once the queue is empty, a wire within reach is in the visited map. *)
Lemma reach_inv_complete (st : SearchState) (w : WireId) :
  reach_inv cfg a srcs None st → queue st = [] →
  (∀ s, s ∈ srcs → is_Some (s_visited st !! s)) →
  reachable cfg a srcs w → is_Some (s_visited st !! w).
Proof.
  intros [_ _ _ Hclo] Hq Hsrc Hr. induction Hr as [w Hw|w p Hr IH Hp Hu]; [by apply Hsrc|].
  destruct (Hclo w IH) as [(x & Hx & _)|Hc]; [done | | by apply Hc].
  rewrite Hq in Hx. by apply elem_of_nil in Hx.
Qed.

End ReachProofs.

Lemma push_sources_reach {dev : Arch} (cfg : RouterCfg) (a : archstate) (dst : WireId)
    (srcs : gset Z) (l : list (Z * Z)) :
  ∀ st, (∀ w, w ∈ l.*1 → w ∈ srcs) →
    reach_inv cfg a srcs None st →
    (∀ w, is_Some (s_visited st !! w) → waiting (queue st) w) →
    let st' := fold_left (push_source dst) l st in
    reach_inv cfg a srcs None st' ∧ ∀ w, is_Some (s_visited st' !! w) → waiting (queue st') w.
Proof.
  induction l as [|[w d] l IH]; intros st Hl Hinv Hwait; simpl; [done|].
  apply IH.
  - intros x Hx. apply Hl, elem_of_cons. by right.
  - destruct Hinv as [_ Hvis Hque Hclo].
    assert (reachable cfg a srcs w) as Hw.
    { apply reach_source, Hl, elem_of_cons. by left. }
    unfold push_source. destruct (rng (s_rng st)) as [r g]. simpl.
    split; simpl; [done | | |].
    + intros x. destruct (decide (w = x)) as [<-|?]; [done|].
      rewrite lookup_insert_ne by done. apply Hvis.
    + intros x [->|Hx]%elem_of_cons; [done | by apply Hque].
    + intros x Hx _. left. destruct (decide (w = x)) as [<-|Hne].
      * eexists. split; [apply elem_of_cons; by left | done].
      * rewrite lookup_insert_ne in Hx by done.
        destruct (Hwait x Hx) as (y & Hy & Hyx). exists y.
        split; [apply elem_of_cons; by right | done].
  - unfold push_source. destruct (rng (s_rng st)) as [r g]. simpl.
    intros x Hx. destruct (decide (w = x)) as [<-|Hne].
    + eexists. split; [apply elem_of_cons; by left | done].
    + rewrite lookup_insert_ne in Hx by done.
      destruct (Hwait x Hx) as (y & Hy & Hyx). exists y.
      split; [apply elem_of_cons; by right | done].
Qed.

Lemma search_init_reach {dev : Arch} (cfg : RouterCfg) (a : archstate) (dst : WireId)
    (src_wires : gmap Z Z) (g rv ov : Z) :
  reach_inv cfg a (dom src_wires) None (search_init dst src_wires g rv ov).
Proof.
  unfold search_init. apply push_sources_reach.
  - intros w [[w' d] [-> Hin]]%list_elem_of_fmap. simpl.
    apply elem_of_map_to_list in Hin. by apply elem_of_dom.
  - split; simpl; try done.
    + by intros w [? Hw]; rewrite lookup_empty in Hw.
    + by intros x Hx%elem_of_nil.
    + by intros w [? Hw]; rewrite lookup_empty in Hw.
  - simpl. by intros w [? Hw]; rewrite lookup_empty in Hw.
Qed.

Lemma route_reach {dev : Arch} (fuel : nat) (cfg : RouterCfg) (a : archstate)
    (g g' : Z) (r r' : Router) (src_wires : gmap Z Z) (dst : WireId) :
  route fuel cfg a g r src_wires dst = Ok (r', g') →
  (∀ w, is_Some (visited r' !! w) → reachable cfg a (dom src_wires) w)
  ∧ (∀ w, is_Some (src_wires !! w) → is_Some (visited r' !! w))
  ∧ (is_Some (visited r' !! dst) ↔ reachable cfg a (dom src_wires) dst).
Proof.
  intros Hr. apply route_Ok in Hr as (st & Hl & -> & _). simpl.
  pose proof (route_loop_reach cfg a dst (dom src_wires) _ _ _
                (search_init_reach cfg a dst src_wires g _ _) Hl) as Hinv.
  destruct (route_loop_progress cfg a dst _ _ _ (search_init_sound dst src_wires g _ _) Hl)
    as (Hprog & Hsound & Hstop).
  assert (∀ w, w ∈ dom src_wires → is_Some (s_visited st !! w)) as Hsrc.
  { intros w Hw. apply (prog_keys _ _ Hprog), elem_of_dom.
    destruct (search_init_spec dst src_wires g (revisitCnt r) (overtimeRevisitCnt r))
      as (_ & _ & _ & _ & ->). done. }
  split_and!.
  - apply (ri_visited _ _ _ _ _ Hinv).
  - intros w Hw. by apply Hsrc, elem_of_dom.
  - split; [apply (ri_visited _ _ _ _ _ Hinv)|]. intros Hreach.
    apply search_continues_false in Hstop as [Hq|[Hlim _]]; [|by apply Hsound].
    by apply (reach_inv_complete cfg a (dom src_wires) st).
Qed.

(** X3.  A path search that returns has entered only wires that usable
    pips lead to from the source wires, and it has entered the destination
    exactly when such pips lead to it: a search fails only where no path
    exists. *)
Theorem X3_route_reachable {dev : Arch} (fuel : nat) (cfg : RouterCfg) (a : archstate)
    (g g' : Z) (r r' : Router) (src_wires : gmap Z Z) (dst : WireId) :
  route fuel cfg a g r src_wires dst = Ok (r', g') →
  (∀ w, is_Some (visited r' !! w) → reachable cfg a (dom src_wires) w)
  ∧ (∀ w, is_Some (src_wires !! w) → is_Some (visited r' !! w))
  ∧ (is_Some (visited r' !! dst) ↔ reachable cfg a (dom src_wires) dst).
Proof. apply route_reach. Qed.

Lemma X3_witness :
  ∃ (r : Router) (g' : Z),
    route (dev := Table.arch dev_detour) 5 cfg_plain Table.no_bindings 42 Router_init
      {[1 := 0]} 3 = Ok (r, g')
    ∧ (is_Some (visited r !! 3)
       ↔ reachable (dev := Table.arch dev_detour) cfg_plain Table.no_bindings
           (dom ({[1 := 0]} : gmap Z Z)) 3).
Proof.
  destruct (route (dev := Table.arch dev_detour) 5 cfg_plain Table.no_bindings 42
              Router_init {[1 := 0]} 3) as [[r g']|e] eqn:Hr; [|by vm_compute in Hr].
  exists r, g'. split; [done|].
  apply (X3_route_reachable (dev := Table.arch dev_detour) _ _ _ _ _ _ _ _ _ Hr).
Defined.

(** ** A search on delays that are not negative *)

Lemma foldM_cons {A B : Type} (f : A → B → result A) (x : A) (b : B) (l : list B) :
  foldM f x (b :: l) = f x b ≫= λ x', foldM f x' l.
Proof. done. Qed.

Section NonnegProofs.
Context {dev : Arch}.
Variable W : list WireId.
Hypothesis HW : finite_device W.
Variable cfg : RouterCfg.
Hypothesis Hcfg : cfg_nonneg cfg.
Variable a : archstate.
Variable dst : WireId.
Variable zeros : WireId → Prop.

(** The cost of arriving over a pip is at least the delay of the entry it
    starts from and the delay of the pip. *)
Lemma spec_cost_base (qw : QueuedWire) (p : PipId) (c : delay_t) :
  spec_cost cfg a qw p = Some c → delay qw + getPipDelay p ≤ c.
Proof.
  intros Hspec. unfold spec_cost in Hspec.
  destruct (_ || _); [discriminate|]. injection Hspec as <-.
  destruct Hcfg as [Hp Hsc]. apply score_empty_nonneg in Hsc as (Hw & Hpp & Hnw & Hnp).
  assert (0 ≤ wire_penalty cfg a (getPipDstWire p)) as Hwp.
  { unfold wire_penalty.
    pose proof (penalty_term_nonneg cfg Hcfg _ (Hw (getPipDstWire p))).
    pose proof (Hnw (getConflictingWireNet a (getPipDstWire p), getPipDstWire p)). nia. }
  assert (0 ≤ pip_penalty cfg a p) as Hppn.
  { unfold pip_penalty. pose proof (penalty_term_nonneg cfg Hcfg _ (Hpp p)).
    pose proof (Hnp (getConflictingPipNet a p, p)). nia. }
  repeat case_match; lia.
Qed.

Lemma spec_cost_ge (qw : QueuedWire) (p : PipId) (c : delay_t) :
  spec_cost cfg a qw p = Some c → delay qw ≤ c.
Proof. intros Hb%spec_cost_base. pose proof (fd_delay W HW p). lia. Qed.

(** Entering a wire with a delay that is not negative, over an entry, if
    there is one, of a greater delay. *)
Lemma nonneg_enter (st : SearchState) (x : QueuedWire) (w : WireId) (g n l rv ov : Z) :
  nonneg_inv zeros st → 0 ≤ delay x →
  (∀ old, s_visited st !! w = Some old → 0 < delay old) →
  (¬ zeros w ∨ is_Some (s_visited st !! w)) →
  nonneg_inv zeros (mkSearch (x :: queue st) (<[w := x]> (s_visited st)) g n l rv ov).
Proof.
  intros (Hq & Hv & Hz) Hx Hold Hnew. split_and!; simpl.
  - intros y [->|Hy]%elem_of_cons; [done | by apply Hq].
  - intros u e. destruct (decide (w = u)) as [<-|Hne].
    + rewrite lookup_insert_eq. by intros [= <-].
    + rewrite lookup_insert_ne by done. apply Hv.
  - intros u Hu. destruct (Hz u Hu) as (e & He & He0).
    destruct (decide (w = u)) as [<-|Hne].
    + specialize (Hold e He). lia.
    + exists e. by rewrite lookup_insert_ne.
Qed.

Lemma examine_pip_nonneg (qw : QueuedWire) (st : SearchState) (p : PipId) :
  0 ≤ delay qw → nonneg_inv zeros st →
  ∃ qw' st', examine_pip cfg a dst (qw, st) p = Ok (qw', st')
    ∧ delay qw' = delay qw ∧ nonneg_inv zeros st'.
Proof.
  intros Hqw Hinv. unfold examine_pip. rewrite pip_cost_spec.
  destruct (spec_cost cfg a qw p) as [c|] eqn:Hspec; simpl.
  2: { eexists _, _. split; [done|]. split; [done|]. exact Hinv. }
  pose proof (spec_cost_ge _ _ _ Hspec) as Hge. pose proof (fd_epsilon W HW) as Heps.
  rewrite (proj2 (Z.leb_le 0 c)) by lia. simpl.
  unfold relax. simpl.
  destruct (s_visited st !! getPipDstWire p) as [old|] eqn:Hold.
  - destruct (Z.leb_spec (delay old) (c + getDelayEpsilon)).
    + eexists _, _. split; [done|]. split; [done|]. exact Hinv.
    + destruct (thisVisitCntLimit st =? 0); destruct (rng (s_rng st)) as [rr g'];
        eexists _, _; (split; [done|]); (split; [done|]);
        (apply nonneg_enter; [done | simpl; lia | | right; eauto]);
        intros old' Hold'; rewrite Hold in Hold'; injection Hold' as <-; lia.
  - destruct (rng (s_rng st)) as [rr g']. eexists _, _. split; [done|]. split; [done|].
    apply nonneg_enter; [done | simpl; lia | by intros old' Hold'; rewrite Hold in Hold' |].
    left. intros Hz. destruct Hinv as (_ & _ & Hzz). destruct (Hzz _ Hz) as (e & He & _).
    congruence.
Qed.

Lemma examine_pips_nonneg (ps : list PipId) :
  ∀ (qw : QueuedWire) (st : SearchState),
    0 ≤ delay qw → nonneg_inv zeros st →
    ∃ qw' st', foldM (examine_pip cfg a dst) (qw, st) ps = Ok (qw', st')
      ∧ nonneg_inv zeros st'.
Proof.
  induction ps as [|p ps IH]; intros qw st Hqw Hinv; [by eexists _, _|].
  rewrite foldM_cons.
  destruct (examine_pip_nonneg qw st p Hqw Hinv) as (qw1 & st1 & -> & Hd & Hinv1).
  apply IH; [lia | done].
Qed.

Lemma route_step_nonneg (st : SearchState) :
  nonneg_inv zeros st → ∃ st', route_step cfg a dst st = Ok st' ∧ nonneg_inv zeros st'.
Proof.
  intros Hinv. unfold route_step.
  destruct (pq_pop (queue st)) as [[qw q']|] eqn:Hpop; [|by exists st].
  destruct (pq_pop_elem _ _ _ Hpop) as [Hin Hsub]. destruct Hinv as (Hq & Hv & Hz).
  destruct (examine_pips_nonneg (getPipsDownhill (wire qw)) qw (after_pop dst st q'))
    as (qw' & st' & -> & Hinv'); [by apply Hq | | by exists st'].
  split_and!; simpl; [|done..]. intros x Hx. by apply Hq, Hsub.
Qed.

(** Such a search throws nothing. *)
Lemma route_loop_nonneg (fuel : nat) :
  ∀ st, nonneg_inv zeros st →
    match route_loop cfg a dst fuel st with
    | Ok st' => nonneg_inv zeros st'
    | Err e => e = FuelSearch
    end.
Proof.
  induction fuel as [|fuel IH]; intros st Hinv; simpl;
    destruct (search_continues st); try done.
  destruct (route_step_nonneg st Hinv) as (st1 & -> & Hinv1). simpl. by apply IH.
Qed.

End NonnegProofs.

Lemma push_sources_nonneg (dst : WireId) {dev : Arch} (zeros : WireId → Prop)
    (l : list (Z * Z)) :
  ∀ st, NoDup l.*1 →
    (∀ w d, (w, d) ∈ l → 0 ≤ d) →
    (∀ x, x ∈ queue st → 0 ≤ delay x) →
    (∀ w e, s_visited st !! w = Some e → 0 ≤ delay e) →
    (∀ w, zeros w →
       ((w ∉ l.*1) ∧ ∃ e, s_visited st !! w = Some e ∧ delay e = 0) ∨ (w, 0) ∈ l) →
    nonneg_inv zeros (fold_left (push_source dst) l st).
Proof.
  induction l as [|[w d] l IH]; intros st Hnd Hl Hq Hv Hz; simpl.
  - split_and!; [done..|]. intros u Hu.
    destruct (Hz u Hu) as [[_ ?]|Hin%elem_of_nil]; done.
  - apply NoDup_cons in Hnd as [Hw Hnd]. simpl in Hw.
    assert (0 ≤ d) as Hd by (apply (Hl w), elem_of_cons; by left).
    unfold push_source at 2. destruct (rng (s_rng st)) as [rr g']. simpl.
    apply IH; simpl; [done | | | |].
    + intros u du Hu. apply (Hl u), elem_of_cons. by right.
    + intros x [->|Hx]%elem_of_cons; [done | by apply Hq].
    + intros u e. destruct (decide (w = u)) as [<-|Hne].
      * rewrite lookup_insert_eq. by intros [= <-].
      * rewrite lookup_insert_ne by done. apply Hv.
    + intros u Hu. destruct (Hz u Hu) as [[Hout (e & He & He0)]|Hin].
      * left. apply not_elem_of_cons in Hout as [Hne Hout]. simpl in Hne.
        split; [done|]. exists e. by rewrite lookup_insert_ne.
      * apply elem_of_cons in Hin as [[= <- <-]|Hin]; [|by right].
        left. split; [done|]. rewrite lookup_insert_eq. eauto.
Qed.

Lemma route_returns {dev : Arch} (W : list WireId) (cfg : RouterCfg) (a : archstate)
    (g : Z) (r : Router) (src_wires : gmap Z Z) (dst : WireId) :
  finite_device W → cfg_nonneg cfg →
  (∀ w d, src_wires !! w = Some d → 0 ≤ d) →
  ∃ n r' g',
    (∀ fuel, (n ≤ fuel)%nat → route fuel cfg a g r src_wires dst = Ok (r', g'))
    ∧ (∀ w e, visited r' !! w = Some e → 0 ≤ delay e)
    ∧ (∀ w, src_wires !! w = Some 0 → ∃ e, visited r' !! w = Some e ∧ delay e = 0).
Proof.
  intros HW Hcfg Hsrc.
  set (st0 := search_init dst src_wires g (revisitCnt r) (overtimeRevisitCnt r)).
  assert (nonneg_inv (λ w, src_wires !! w = Some 0) st0) as Hinv0.
  { apply push_sources_nonneg; simpl.
    - apply NoDup_fst_map_to_list.
    - intros w d Hin%elem_of_map_to_list. by apply (Hsrc w).
    - by intros x Hx%elem_of_nil.
    - intros w e. by rewrite lookup_empty.
    - intros w Hw. right. by apply elem_of_map_to_list. }
  destruct (route_loop_finishes W HW cfg a dst st0) as (n & res & Hn & Hres).
  pose proof (route_loop_nonneg W HW cfg Hcfg a dst _ n st0 Hinv0) as Hnn.
  rewrite (Hn n (le_n n)) in Hnn. destruct res as [st'|e]; [|by subst e].
  destruct Hnn as (_ & Hv & Hz).
  eexists n, _, _. split_and!.
  - intros fuel Hfuel. unfold route. fold st0. by rewrite (Hn fuel Hfuel).
  - exact Hv.
  - exact Hz.
Qed.

(** X4.  On a finite device, with delays, penalty and counters that are
    not negative, a path search returns: its loop ends and the assertion of
    line 191 holds every time.  No delay of the visited map it leaves is
    negative, and a source wire of delay 0 keeps its entry of delay 0. *)
Theorem X4_route_returns {dev : Arch} (W : list WireId) (cfg : RouterCfg) (a : archstate)
    (g : Z) (r : Router) (src_wires : gmap Z Z) (dst : WireId) :
  finite_device W → cfg_nonneg cfg →
  (∀ w d, src_wires !! w = Some d → 0 ≤ d) →
  ∃ n r' g',
    (∀ fuel, (n ≤ fuel)%nat → route fuel cfg a g r src_wires dst = Ok (r', g'))
    ∧ (∀ w e, visited r' !! w = Some e → 0 ≤ delay e)
    ∧ (∀ w, src_wires !! w = Some 0 → ∃ e, visited r' !! w = Some e ∧ delay e = 0).
Proof. apply route_returns. Qed.

Lemma X4_witness :
  ∃ (n : nat) (r' : Router) (g' : Z),
    ∀ fuel, (n ≤ fuel)%nat →
      route (dev := Table.arch dev_ring) fuel cfg_plain Table.no_bindings 42 Router_init
        {[1 := 0]} 3 = Ok (r', g').
Proof.
  destruct (X4_route_returns (dev := Table.arch dev_ring) (table_wires dev_ring) cfg_plain
              Table.no_bindings 42 Router_init {[1 := 0]} 3) as (n & r' & g' & Hn & _).
  - apply table_finite; simpl; [repeat constructor; simpl; lia | lia..].
  - split; [done | apply scores_le_refl].
  - intros w d [<- <-]%lookup_singleton_Some. done.
  - by exists n, r', g'.
Defined.

(** ** The delay between two wires *)

Lemma getActualRouteDelay_Ok {dev : Arch} (fuel : nat) (c c' : Context) (src dst : WireId)
    (d0 d : delay_t) (b : bool) :
  getActualRouteDelay fuel c src dst d0 = Ok (b, d, c') →
  ∃ r g, route fuel cfg_plain (arch c) (rngstate c) Router_init {[src := 0]} dst = Ok (r, g)
    ∧ b = bool_decide (is_Some (visited r !! dst))
    ∧ c' = mkContext (nets c) (arch c) g (debug c).
Proof.
  unfold getActualRouteDelay, Router_wire. intros Hg.
  apply bind_Ok in Hg as ([router c1] & Hw & Hg).
  apply bind_Ok in Hw as ([r g] & Hr & Hw). apply bind_Ok in Hw as (v & _ & [= <- <-]).
  exists r, g. split; [exact Hr|]. simpl in Hg.
  destruct (bool_decide (is_Some (visited r !! dst))).
  - apply bind_Ok in Hg as (q & _ & [= <- <- <-]). done.
  - by injection Hg as <- <- <-.
Qed.

(** X5.  [getActualRouteDelay] returns true exactly when pips that are
    available, with available wires, lead from the source wire to the
    destination, and it leaves the bindings and the netlist as they are. *)
Theorem X5_actual_delay_reachable {dev : Arch} (fuel : nat) (c c' : Context)
    (src dst : WireId) (d0 d : delay_t) (b : bool) :
  getActualRouteDelay fuel c src dst d0 = Ok (b, d, c') →
  (b = true ↔ reachable cfg_plain (arch c) {[src]} dst)
  ∧ (∀ p, usable cfg_plain (arch c) p
          = checkWireAvail (arch c) (getPipDstWire p) && checkPipAvail (arch c) p)
  ∧ arch c' = arch c ∧ nets c' = nets c.
Proof.
  intros (r & g & Hr & -> & ->)%getActualRouteDelay_Ok.
  destruct (route_reach _ _ _ _ _ _ _ _ _ Hr) as (_ & _ & Hiff).
  rewrite dom_singleton_L in Hiff. rewrite bool_decide_eq_true.
  split_and!; [done | | done..].
  intros p. unfold usable, passes_over. simpl.
  by destruct (checkWireAvail _ _), (checkPipAvail _ _).
Qed.

Lemma X5_witness :
  ∃ (b : bool) (d : delay_t) (c' : Context),
    getActualRouteDelay 5 ctx_direct 1 2 7 = Ok (b, d, c')
    ∧ (b = true ↔ reachable cfg_plain (arch ctx_direct) {[1]} 2).
Proof.
  assert (match getActualRouteDelay 5 ctx_direct 1 2 7 with
          | Ok _ => true
          | Err _ => false
          end = true) as Hcheck by (by vm_compute).
  destruct (getActualRouteDelay 5 ctx_direct 1 2 7) as [[[b d] c']|e] eqn:Hg;
    [|discriminate].
  exists b, d, c'. split; [done|].
  apply (X5_actual_delay_reachable _ _ _ _ _ _ _ _ Hg).
Defined.

Lemma debug_walk_source {dev : Arch} (fuel : nat) (v : gmap Z QueuedWire) (w : WireId) :
  is_Some (v !! w) → debug_walk fuel v w w = Ok v.
Proof.
  intros [e He].
  destruct fuel; simpl; rewrite (visited_index_present _ _ _ He);
    by rewrite bool_decide_eq_true_2.
Qed.

(** X6.  On a finite device, whose delays and epsilon are not negative,
    [getActualRouteDelay] from a wire to itself returns true with the delay
    0, whatever the bindings and the debug flag; and between any two wires,
    debug being off, it returns, with a delay that is not negative when it
    returns true. *)
Theorem X6_actual_delay_returns {dev : Arch} (W : list WireId) (c : Context)
    (src dst : WireId) (d0 : delay_t) :
  finite_device W →
  (∃ n c', ∀ fuel, (n ≤ fuel)%nat → getActualRouteDelay fuel c src src d0 = Ok (true, 0, c'))
  ∧ (debug c = false →
     ∃ n b d c',
       (∀ fuel, (n ≤ fuel)%nat → getActualRouteDelay fuel c src dst d0 = Ok (b, d, c'))
       ∧ (b = true → 0 ≤ d) ∧ (b = false → d = d0)).
Proof.
  intros HW.
  assert (cfg_nonneg cfg_plain) as Hcfg by (split; [done | apply scores_le_refl]).
  assert (∀ w d, ({[src := 0]} : gmap Z Z) !! w = Some d → 0 ≤ d) as Hsrc.
  { by intros w d [<- <-]%lookup_singleton_Some. }
  split.
  - destruct (route_returns W cfg_plain (arch c) (rngstate c) Router_init {[src := 0]} src
                HW Hcfg Hsrc) as (n & r' & g' & Hn & _ & Hz).
    destruct (Hz src) as (e & He & He0); [apply lookup_singleton_eq|].
    exists n, (mkContext (nets c) (arch c) g' (debug c)). intros fuel Hfuel.
    unfold cfg_plain in Hn.
    unfold getActualRouteDelay, Router_wire. rewrite (Hn fuel Hfuel). simpl.
    rewrite bool_decide_eq_true_2 by eauto.
    destruct (debug c); [rewrite debug_walk_source by eauto|]; simpl;
      unfold at_; rewrite He; simpl; by rewrite He0.
  - intros Hdbg.
    destruct (route_returns W cfg_plain (arch c) (rngstate c) Router_init {[src := 0]} dst
                HW Hcfg Hsrc) as (n & r' & g' & Hn & Hv & _).
    destruct (visited r' !! dst) as [e|] eqn:He.
    + exists n, true, (delay e), (mkContext (nets c) (arch c) g' (debug c)).
      split; [|split; [intros _; by apply (Hv dst) | done]].
      intros fuel Hfuel. unfold getActualRouteDelay, Router_wire. unfold cfg_plain in Hn.
      rewrite (Hn fuel Hfuel), Hdbg. simpl.
      rewrite bool_decide_eq_true_2 by (rewrite He; eauto). simpl.
      unfold at_. by rewrite He.
    + exists n, false, d0, (mkContext (nets c) (arch c) g' (debug c)).
      split; [|done].
      intros fuel Hfuel. unfold getActualRouteDelay, Router_wire. unfold cfg_plain in Hn.
      rewrite (Hn fuel Hfuel), Hdbg. simpl.
      rewrite bool_decide_eq_false_2; [done|]. rewrite He. by intros [? ?].
Qed.

Lemma X6_witness :
  (∃ n c', ∀ fuel, (n ≤ fuel)%nat →
     getActualRouteDelay (dev := Table.arch dev_ring) fuel
       (Table.context dev_ring [] Table.no_bindings true) 2 2 7 = Ok (true, 0, c')).
Proof.
  refine (proj1 (X6_actual_delay_returns (dev := Table.arch dev_ring) (table_wires dev_ring)
                   (Table.context dev_ring [] Table.no_bindings true) 2 2 7 _)).
  apply table_finite; simpl; [repeat constructor; simpl; lia | lia..].
Defined.

(** ** The delay of a recorded path *)

Section PathProofs.
Context {dev : Arch}.
Variable W : list WireId.
Hypothesis HW : finite_device W.
Variable cfg : RouterCfg.
Hypothesis Hcfg : cfg_nonneg cfg.
Variable a : archstate.
Variable dst : WireId.
Variable src_wires : gmap Z Z.

Lemma relax_delays (qw : QueuedWire) (st : SearchState) (p : PipId) (d : delay_t) :
  examining (dom src_wires) (qw, st) →
  delays_add_up src_wires (s_visited st) →
  p ∈ getPipsDownhill (wire qw) →
  delay qw + getPipDelay p ≤ d →
  delays_add_up src_wires (s_visited (relax dst qw st p d).2).
Proof.
  intros [Hinv (eu & Hu & Hule)] [Hadd Hnone] Hp Hd. simpl in *.
  destruct (relax_cases dst qw st p d) as (_ & _ & [[Hsame _]|(Hqueue & Hv & _)]).
  { by rewrite Hsame. }
  set (w := getPipDstWire p) in *.
  assert (getPipSrcWire p = wire qw) as Hsrcp by by apply (fd_src W HW).
  assert (p ≠ PipId_none) as Hpn by (intros ->; by apply (fd_pip W HW (wire qw))).
  pose proof (fd_delay W HW p) as Hpd. pose proof (fd_epsilon W HW) as Heps.
  assert (∀ old, s_visited st !! w = Some old → d < delay old) as Hold.
  { intros old Hw.
    assert (d + getDelayEpsilon < delay old); [|lia].
    apply (relax_improves dst qw st p d old Hw). intros Hr.
    rewrite Hr in Hqueue. simpl in Hqueue. symmetry in Hqueue. by apply cons_neq in Hqueue. }
  assert (wire qw ≠ w) as Hne by (intros Heq; rewrite Heq in Hu; specialize (Hold _ Hu); lia).
  rewrite Hv. split.
  - intros x e. destruct (decide (x = w)) as [->|Hxw].
    + rewrite lookup_insert_eq. intros [= <-] _. simpl. rewrite Hsrcp.
      rewrite lookup_insert_ne by done. exists eu. split; [done | lia].
    + rewrite lookup_insert_ne by done. intros He Hpe.
      destruct (Hadd _ _ He Hpe) as (ey & Hy & Hle).
      destruct (decide (getPipSrcWire (pip e) = w)) as [Heq|Hneq].
      * rewrite Heq, lookup_insert_eq. exists (entered dst p d). split; [done|].
        rewrite Heq in Hy. specialize (Hold _ Hy). simpl. lia.
      * rewrite lookup_insert_ne by done. eauto.
  - intros x e. destruct (decide (x = w)) as [->|Hxw].
    + rewrite lookup_insert_eq. by intros [= <-].
    + rewrite lookup_insert_ne by done. apply Hnone.
Qed.

Lemma examine_pip_delays (qs qs' : QueuedWire * SearchState) (p : PipId) :
  examining (dom src_wires) qs →
  delays_add_up src_wires (s_visited qs.2) →
  p ∈ getPipsDownhill (wire qs.1) →
  examine_pip cfg a dst qs p = Ok qs' →
  delays_add_up src_wires (s_visited qs'.2).
Proof.
  destruct qs as [qw st]. unfold examine_pip. intros Hex Hadd Hp Hr.
  apply bind_Ok in Hr as (c & Hc & Hr).
  set (st1 := mkSearch _ _ _ _ _ _ _) in Hr.
  assert (examining (dom src_wires) (qw, st1)) as Hex1.
  { destruct Hex as [[] ?]. split; [by split | done]. }
  destruct c as [d|]; injection Hr as <-; [|done].
  apply relax_delays; [done..|].
  rewrite pip_cost_spec in Hc. destruct (spec_cost cfg a qw p) as [c|] eqn:Hs; [|done].
  destruct (0 <=? c); [|done]. injection Hc as <-. by apply (spec_cost_base cfg Hcfg a).
Qed.

Lemma examine_pips_delays (ps : list PipId) (qs qs' : QueuedWire * SearchState) :
  examining (dom src_wires) qs →
  delays_add_up src_wires (s_visited qs.2) →
  (∀ p, p ∈ ps → p ∈ getPipsDownhill (wire qs.1)) →
  foldM (examine_pip cfg a dst) qs ps = Ok qs' →
  delays_add_up src_wires (s_visited qs'.2).
Proof.
  revert qs. induction ps as [|p ps IH]; intros qs Hex Hadd Hps Hf; simpl in Hf.
  - by injection Hf as <-.
  - apply bind_Ok in Hf as (qs1 & H1 & Hf).
    pose proof (examine_pip_delays _ _ _ Hex Hadd (Hps p ltac:(apply elem_of_cons; by left)) H1)
      as Hadd1.
    apply (examine_pip_inv W HW cfg Hcfg a dst (dom src_wires)) in H1 as [Hex1 Hw];
      [|done|apply Hps, elem_of_cons; by left].
    apply (IH qs1); [done.. | | done].
    intros q Hq. rewrite Hw. apply Hps, elem_of_cons. by right.
Qed.

Lemma route_step_delays (st st' : SearchState) :
  search_inv (dom src_wires) st → delays_add_up src_wires (s_visited st) →
  route_step cfg a dst st = Ok st' →
  delays_add_up src_wires (s_visited st').
Proof.
  unfold route_step. intros Hinv Hadd Hs.
  destruct (pq_pop (queue st)) as [[qw q']|] eqn:Hpop; [|by injection Hs as <-].
  apply bind_Ok in Hs as (qs & Hf & [= <-]).
  apply pq_pop_elem in Hpop as [Hqw Hq'].
  apply examine_pips_delays in Hf; [done | | done..].
  destruct Hinv as [Hq Hpred Hroot Hsrc Hent]. split; [split|]; simpl; auto.
Qed.

Lemma route_loop_delays (fuel : nat) (st st' : SearchState) :
  search_inv (dom src_wires) st → delays_add_up src_wires (s_visited st) →
  route_loop cfg a dst fuel st = Ok st' →
  delays_add_up src_wires (s_visited st').
Proof.
  revert st. induction fuel as [|fuel IH]; intros st Hinv Hadd Hl; simpl in Hl;
    destruct (search_continues st); try discriminate; try (by injection Hl as <-).
  apply bind_Ok in Hl as (st1 & Hs & Hl). eapply (IH st1); [| |done].
  - by eapply (route_step_inv W HW cfg Hcfg a dst (dom src_wires)).
  - by eapply route_step_delays.
Qed.

Lemma push_sources_delays (l : list (Z * Z)) :
  ∀ st, (∀ w d, (w, d) ∈ l → src_wires !! w = Some d) →
    (∀ w e, s_visited st !! w = Some e →
       pip e = PipId_none ∧ src_wires !! w = Some (delay e)) →
    ∀ w e, s_visited (fold_left (push_source dst) l st) !! w = Some e →
      pip e = PipId_none ∧ src_wires !! w = Some (delay e).
Proof.
  induction l as [|[w d] l IH]; intros st Hl Hst; simpl; [done|].
  apply IH.
  - intros u du Hu. apply Hl, elem_of_cons. by right.
  - unfold push_source. destruct (rng (s_rng st)) as [rr g']. simpl.
    intros u e. destruct (decide (w = u)) as [<-|Hne].
    + rewrite lookup_insert_eq. intros [= <-]. simpl. split; [done|].
      apply Hl, elem_of_cons. by left.
    + rewrite lookup_insert_ne by done. apply Hst.
Qed.

Lemma rooted_path_delay (v : gmap Z QueuedWire) (h : nat) (w : WireId) :
  delays_add_up src_wires v → rooted v h w →
  ∃ e d, v !! w = Some e ∧ path_delay src_wires v w d ∧ d ≤ delay e.
Proof.
  intros [Hadd Hnone] Hr. induction Hr as [w e He Hp|h w e He Hp Hr (eu & d & Hu & Hpath & Hle)].
  - exists e, (delay e). split; [done|]. split; [|lia].
    apply (path_source _ _ w e); [done..|]. by apply Hnone.
  - exists e, (d + getPipDelay (pip e)). split; [done|].
    split; [by apply (path_pip _ _ w e)|].
    destruct (Hadd w e He Hp) as (eu' & Hu' & Hle'). rewrite Hu in Hu'. injection Hu' as <-.
    lia.
Qed.

Lemma route_path_delay (fuel : nat) (g g' : Z) (r r' : Router) (w : WireId) (e : QueuedWire) :
  route fuel cfg a g r src_wires dst = Ok (r', g') →
  visited r' !! w = Some e →
  ∃ d, path_delay src_wires (visited r') w d ∧ d ≤ delay e.
Proof.
  intros Hr He. apply route_Ok in Hr as (st & Hl & -> & _). simpl in *.
  pose proof (search_init_inv dst src_wires g (revisitCnt r) (overtimeRevisitCnt r)) as Hinv0.
  assert (delays_add_up src_wires
            (s_visited (search_init dst src_wires g (revisitCnt r) (overtimeRevisitCnt r))))
    as Hadd0.
  { assert (∀ w e, s_visited (search_init dst src_wires g (revisitCnt r)
                                (overtimeRevisitCnt r)) !! w = Some e →
                   pip e = PipId_none ∧ src_wires !! w = Some (delay e)) as Hflat.
    { apply push_sources_delays.
      - intros u d Hin. by apply elem_of_map_to_list.
      - intros u e'. simpl. by rewrite lookup_empty. }
    split; intros u e' He'; destruct (Hflat u e' He'); [congruence | done]. }
  pose proof (route_loop_delays _ _ _ Hinv0 Hadd0 Hl) as Hadd.
  pose proof (route_loop_inv W HW cfg Hcfg a dst _ _ _ _ Hinv0 Hl) as Hinv.
  destruct (inv_rooted _ _ Hinv w) as [h Hroot]; [eauto|].
  destruct (rooted_path_delay _ _ _ Hadd Hroot) as (e' & d & He' & Hpath & Hle).
  rewrite He in He'. injection He' as <-. eauto.
Qed.

End PathProofs.

(** X7.  On a finite device, with a penalty and counters that are not
    negative, the visited map that a search leaves records for each of its
    wires a path of pips back to a source wire, and the delay of the entry
    is never less than the delay of that path: the delay of the source wire
    and the delays of the pips. *)
Theorem X7_route_path_delay {dev : Arch} (W : list WireId) (fuel : nat) (cfg : RouterCfg)
    (a : archstate) (g g' : Z) (r r' : Router) (src_wires : gmap Z Z) (dst w : WireId)
    (e : QueuedWire) :
  finite_device W → cfg_nonneg cfg →
  route fuel cfg a g r src_wires dst = Ok (r', g') →
  visited r' !! w = Some e →
  ∃ d, path_delay src_wires (visited r') w d ∧ d ≤ delay e.
Proof. intros HW Hcfg. by apply (route_path_delay W HW cfg Hcfg). Qed.

Lemma X7_witness :
  ∃ (r' : Router) (g' : Z) (e : QueuedWire) (d : delay_t),
    route (dev := Table.arch dev_detour) 5 cfg_plain Table.no_bindings 42 Router_init
      {[1 := 0]} 3 = Ok (r', g')
    ∧ visited r' !! 3 = Some e
    ∧ path_delay (dev := Table.arch dev_detour) {[1 := 0]} (visited r') 3 d ∧ d ≤ delay e.
Proof.
  assert (match route (dev := Table.arch dev_detour) 5 cfg_plain Table.no_bindings 42
                  Router_init {[1 := 0]} 3 with
          | Ok (r', _) => bool_decide (is_Some (visited r' !! 3))
          | Err _ => false
          end = true) as Hcheck by (by vm_compute).
  destruct (route (dev := Table.arch dev_detour) 5 cfg_plain Table.no_bindings 42
              Router_init {[1 := 0]} 3) as [[r' g']|err] eqn:Hr; [|discriminate].
  apply bool_decide_eq_true in Hcheck as [e He].
  destruct (X7_route_path_delay (dev := Table.arch dev_detour) (table_wires dev_detour) 5
              cfg_plain Table.no_bindings 42 g' Router_init r' {[1 := 0]} 3 3 e)
    as (d & Hpath & Hle); [| | done | done |].
  - apply table_finite; simpl; [repeat constructor; simpl; lia | lia..].
  - split; [done | apply scores_le_refl].
  - exists r', g', e, d. exact (conj eq_refl (conj He (conj Hpath Hle))).
Defined.

(** ** Routing a net without rip-up *)

Section PlainProofs.
Context {dev : Arch}.

Lemma resolve_wire_conflict_plain (ns : gmap Z NetInfo) (cfg : RouterCfg)
    (a a' : archstate) (sc sc' : RipupScoreboard) (rp rp' : gset Z) (cursor : WireId) :
  ripup cfg = false →
  resolve_wire_conflict ns cfg a sc rp cursor = Ok (a', sc', rp') →
  a' = a ∧ sc' = sc ∧ rp' = rp.
Proof.
  unfold resolve_wire_conflict. intros Hrip Hr. rewrite Hrip in Hr.
  case_bool_decide; [discriminate|]. by injection Hr as <- <- <-.
Qed.

Lemma resolve_pip_conflict_plain (ns : gmap Z NetInfo) (cfg : RouterCfg)
    (a a' : archstate) (sc sc' : RipupScoreboard) (rp rp' : gset Z) (p : PipId) :
  ripup cfg = false →
  resolve_pip_conflict ns cfg a sc rp p = Ok (a', sc', rp') →
  a' = a ∧ sc' = sc ∧ rp' = rp.
Proof.
  unfold resolve_pip_conflict. intros Hrip Hr. rewrite Hrip in Hr.
  case_bool_decide; [discriminate|]. by injection Hr as <- <- <-.
Qed.

Lemma backtrace_step_plain (ns : gmap Z NetInfo) (cfg : RouterCfg) (st st1 : NetState)
    (cursor next : WireId) :
  ripup cfg = false →
  backtrace_step ns cfg st cursor = Ok (st1, next) →
  n_scores st1 = n_scores st
  ∧ rippedNets (n_router st1) = rippedNets (n_router st)
  ∧ ∃ p, bindPip (n_arch st) p (net_name cfg) = Returns (n_arch st1).
Proof.
  unfold backtrace_step. intros Hrip Hs.
  apply bind_Ok in Hs as ([[a1 sc1] rp1] & Hw & Hs).
  destruct (visited_index (visited (n_router st)) cursor) as [q v1].
  apply bind_Ok in Hs as ([[a2 sc2] rp2] & Hp & Hs).
  apply bind_Ok in Hs as (a3 & Hc%call_Ok & [= <- <-]). simpl.
  apply resolve_wire_conflict_plain in Hw as (-> & -> & ->); [|done].
  apply resolve_pip_conflict_plain in Hp as (-> & -> & ->); [|done].
  eauto.
Qed.

Lemma debug_touch_ripped (dbg : bool) (st : NetState) (cursor : WireId) :
  rippedNets (n_router (debug_touch dbg st cursor)) = rippedNets (n_router st).
Proof. unfold debug_touch. by destruct dbg. Qed.

(** The maps of the nets other than [name] are the same in [a] and [a']. *)
Lemma backtrace_plain (fuel : nat) (ns : gmap Z NetInfo) (dbg : bool) (cfg : RouterCfg)
    (good : archstate → Prop) :
  ripup cfg = false →
  ∀ (st st' : NetState) (cursor : WireId),
    backtrace fuel ns dbg cfg st cursor = Ok st' →
    n_scores st' = n_scores st
    ∧ rippedNets (n_router st') = rippedNets (n_router st)
    ∧ (proxy_contract good → good (n_arch st) →
       good (n_arch st')
       ∧ ∀ m x, m ≠ net_name cfg → (bound (n_arch st') m x ↔ bound (n_arch st) m x)).
Proof.
  intros Hrip. induction fuel as [|fuel IH]; intros st st' cursor Hb; simpl in Hb;
    destruct (debug_touch_same dbg st cursor) as (Ha & Hsc & _);
    pose proof (debug_touch_ripped dbg st cursor) as Hrp;
    case_bool_decide; try discriminate.
  1,2: injection Hb as <-; rewrite Ha, Hsc, Hrp; by split_and!.
  apply bind_Ok in Hb as ([st1 next] & Hs & Hb).
  apply backtrace_step_plain in Hs as (Hsc1 & Hrp1 & p & Hbind); [|done].
  apply IH in Hb as (Hsc2 & Hrp2 & Hframe).
  split_and!; [congruence.. |].
  intros Hpc Hg. rewrite Ha in Hbind.
  destruct (pc_bindPip good Hpc _ _ _ _ Hg Hbind) as [Hg1 H1].
  destruct (Hframe Hpc Hg1) as [Hg2 H2]. split; [done|].
  intros m x Hm. rewrite (H2 m x Hm), H1. split; [|by left].
  by intros [?|[? _]].
Qed.

Lemma ripup_net_frame (good : archstate → Prop) (ns : gmap Z NetInfo) (a a' : archstate)
    (name : IdString) :
  proxy_contract good → good a → ripup_net ns a name = Ok a' →
  good a'
  ∧ net_wires a' name = []
  ∧ (∀ n x, bound a' n x → bound a n x)
  ∧ (∀ n x, n ≠ name → bound a n x → bound a' n x).
Proof.
  intros Hpc Hg Hr. destruct (ripup_net_bound good Hpc _ _ _ _ Hg Hr) as [Hg' Hkeep].
  destruct (ripup_net_Ok _ _ _ _ Hr) as [Hempty _].
  split_and!; [done..| |done].
  unfold ripup_net in Hr. apply bind_Ok in Hr as (ni & _ & Hr).
  apply bind_Ok in Hr as (a1 & Hp & Hr). apply bind_Ok in Hr as (a2 & Hw & Hr).
  apply bind_Ok in Hr as (_ & _ & [= <-]).
  destruct (unbind_pips_bound good Hpc _ _ _ Hg Hp) as [Hg1 H1].
  destruct (unbind_wires_bound good Hpc _ _ _ Hg1 Hw) as [Hg2 H2].
  intros n x [[Hb _]%H1 _]%H2. done.
Qed.

Lemma route_users_plain (fuel : nat) (ns : gmap Z NetInfo) (dbg : bool) (cfg : RouterCfg)
    (good : archstate → Prop) (us : list PortRef) :
  ripup cfg = false →
  ∀ (st st' : NetState),
    route_users fuel ns dbg cfg st us = Ok st' →
    n_scores st' = n_scores st
    ∧ rippedNets (n_router st') = rippedNets (n_router st)
    ∧ (proxy_contract good → good (n_arch st) →
       good (n_arch st')
       ∧ ∀ m x, m ≠ net_name cfg → (bound (n_arch st') m x ↔ bound (n_arch st) m x)).
Proof.
  intros Hrip. induction us as [|u us IH]; intros st st' Hr; simpl in Hr.
  - injection Hr as <-. by split_and!.
  - apply bind_Ok in Hr as (dst & _ & Hr).
    apply bind_Ok in Hr as ([r1 g1] & Hroute & Hr).
    apply route_flags in Hroute as (_ & Hrp1 & _).
    destruct (visited r1 !! dst) as [q|].
    + apply bind_Ok in Hr as (st2 & Hb & Hr).
      apply (backtrace_plain _ _ _ _ good Hrip) in Hb as (Hsc2 & Hrp2 & Hf2).
      apply IH in Hr as (Hsc & Hrp & Hf). simpl in *.
      split_and!; [congruence.. |].
      intros Hpc Hg. destruct (Hf2 Hpc Hg) as [Hg2 H2]. destruct (Hf Hpc Hg2) as [Hg' H'].
      split; [done|]. intros m x Hm. by rewrite (H' m x Hm), (H2 m x Hm).
    + apply bind_Ok in Hr as (a1 & Hrip1 & [= <-]). simpl. split_and!; [done..|].
      intros Hpc Hg.
      destruct (ripup_net_frame good _ _ _ _ Hpc Hg Hrip1) as (Hg1 & _ & Hsub & Hkeep).
      split; [done|]. intros m x Hm. split; [apply Hsub | by apply Hkeep].
Qed.

Lemma Router_net_plain (fuel : nat) (c c' : Context) (sc sc' : RipupScoreboard)
    (name : IdString) (penalty : delay_t) (r : Router) (good : archstate → Prop) :
  Router_net fuel c sc name false penalty = Ok (r, c', sc') →
  sc' = sc
  ∧ rippedNets r = ∅
  ∧ (proxy_contract good → good (arch c) →
     good (arch c')
     ∧ ∀ m x, m ≠ name → (bound (arch c') m x ↔ bound (arch c) m x)).
Proof.
  unfold Router_net, Router_net_state. intros Hr.
  apply bind_Ok in Hr as (st & Hs & [= <- <- <-]). simpl.
  apply bind_Ok in Hs as (ni & _ & Hs). apply bind_Ok in Hs as (src_wire & _ & Hs).
  apply bind_Ok in Hs as (a1 & Hrip & Hs). apply bind_Ok in Hs as (a2 & Hbw%call_Ok & Hs).
  destruct (shuffle PortRef (rngstate c) (users ni)) as [users_array g].
  apply (route_users_plain _ _ _ _ good) in Hs as (Hsc & Hrp & Hf); [|done].
  simpl in *. split_and!; [done..|].
  intros Hpc Hg.
  destruct (ripup_net_frame good _ _ _ _ Hpc Hg Hrip) as (Hg1 & _ & Hsub & Hkeep).
  destruct (pc_bindWire good Hpc _ _ _ _ Hg1 Hbw) as [Hg2 H2].
  destruct (Hf Hpc Hg2) as [Hg' H']. split; [done|].
  intros m x Hm. rewrite (H' m x Hm), H2. split.
  - intros [?|[? _]]; [by apply Hsub | done].
  - intros Hb. left. by apply Hkeep.
Qed.

End PlainProofs.

(** X8.  When the constructor of [Router] for a net returns and rip-up is
    off, the scoreboard of the caller is as it was, no net is in
    [rippedNets], and, the proxy keeping its contract, the [wires] map of
    every other net is as it was: routing without rip-up disturbs no other
    net, whether it succeeds or fails. *)
Theorem X8_plain_route_frame {dev : Arch} (fuel : nat) (c c' : Context)
    (sc sc' : RipupScoreboard) (name : IdString) (penalty : delay_t) (r : Router)
    (good : archstate → Prop) :
  Router_net fuel c sc name false penalty = Ok (r, c', sc') →
  sc' = sc
  ∧ rippedNets r = ∅
  ∧ (proxy_contract good → good (arch c) →
     good (arch c')
     ∧ ∀ m x, m ≠ name → (bound (arch c') m x ↔ bound (arch c) m x)).
Proof. apply Router_net_plain. Qed.

Lemma X8_witness :
  ∃ (r : Router) (c' : Context) (sc' : RipupScoreboard),
    Router_net 5 ctx_contend scores_empty 1 false 0 = Ok (r, c', sc')
    ∧ sc' = scores_empty
    ∧ rippedNets r = ∅
    ∧ ∀ m x, m ≠ 1 → (bound (arch c') m x ↔ bound (arch ctx_contend) m x).
Proof.
  assert (match Router_net 5 ctx_contend scores_empty 1 false 0 with
          | Ok _ => true
          | Err _ => false
          end = true) as Hcheck by (by vm_compute).
  destruct (Router_net 5 ctx_contend scores_empty 1 false 0) as [[[r c'] sc']|e] eqn:Hr;
    [|discriminate].
  destruct (X8_plain_route_frame (dev := Table.arch dev_contend) 5 ctx_contend c'
              scores_empty sc' 1 0 r (table_good dev_contend) Hr) as (Hsc & Hrp & Hf).
  destruct (Hf (table_contract dev_contend) (table_good_empty dev_contend)) as [_ H].
  exists r, c', sc'. exact (conj eq_refl (conj Hsc (conj Hrp H))).
Defined.

(** ** The nets that a net rips up *)

Section RippedProofs.
Context {dev : Arch}.

Lemma resolve_wire_conflict_ripped (ns : gmap Z NetInfo) (cfg : RouterCfg)
    (a a' : archstate) (sc sc' : RipupScoreboard) (rp rp' : gset Z) (cursor : WireId) :
  resolve_wire_conflict ns cfg a sc rp cursor = Ok (a', sc', rp') →
  (a' = a ∧ sc' = sc ∧ rp' = rp)
  ∨ (∃ n, n ≠ IdString_empty ∧ n ≠ net_name cfg ∧ ripup cfg = true ∧ rp' = {[n]} ∪ rp).
Proof.
  unfold resolve_wire_conflict. intros Hr.
  case_bool_decide as Hconf; [|left; by injection Hr as <- <- <-].
  apply bind_Ok in Hr as (_ & Hrip%assert_Ok & Hr).
  apply bind_Ok in Hr as (_ & Hne%assert_Ok%bool_decide_eq_true & Hr).
  apply bind_Ok in Hr as (a1 & _ & Hr). apply bind_Ok in Hr as (a2 & _ & [= <- <- <-]).
  right. eauto.
Qed.

Lemma resolve_pip_conflict_ripped (ns : gmap Z NetInfo) (cfg : RouterCfg)
    (a a' : archstate) (sc sc' : RipupScoreboard) (rp rp' : gset Z) (p : PipId) :
  resolve_pip_conflict ns cfg a sc rp p = Ok (a', sc', rp') →
  (a' = a ∧ sc' = sc ∧ rp' = rp)
  ∨ (∃ n, n ≠ IdString_empty ∧ n ≠ net_name cfg ∧ ripup cfg = true ∧ rp' = {[n]} ∪ rp).
Proof.
  unfold resolve_pip_conflict. intros Hr.
  case_bool_decide as Hconf; [|left; by injection Hr as <- <- <-].
  apply bind_Ok in Hr as (_ & Hrip%assert_Ok & Hr).
  apply bind_Ok in Hr as (_ & Hne%assert_Ok%bool_decide_eq_true & Hr).
  apply bind_Ok in Hr as (a1 & _ & Hr). apply bind_Ok in Hr as (a2 & _ & [= <- <- <-]).
  right. eauto.
Qed.

Lemma ripped_since_same (cfg : RouterCfg) (st st' : NetState) :
  rippedNets (n_router st') = rippedNets (n_router st) → n_scores st' = n_scores st →
  ripped_since cfg st st'.
Proof.
  intros Hrp Hsc. unfold ripped_since. rewrite Hrp. split_and!; [done | by left | done..].
Qed.

Lemma ripped_since_trans (cfg : RouterCfg) (st1 st2 st3 : NetState) :
  ripped_since cfg st1 st2 → ripped_since cfg st2 st3 → ripped_since cfg st1 st3.
Proof.
  unfold ripped_since. intros (Hsub1 & Hnew1 & Hsame1 & Hrip1) (Hsub2 & Hnew2 & Hsame2 & Hrip2).
  split_and!.
  - by etrans.
  - intros n Hn. destruct (Hnew2 n Hn) as [Hin|?]; [|by right]. by apply Hnew1.
  - intros Hempty.
    assert (rippedNets (n_router st2) = ∅) as Hempty2.
    { apply leibniz_equiv, elem_of_equiv_empty. intros n Hn.
      apply Hsub2 in Hn. rewrite Hempty in Hn. by apply elem_of_empty in Hn. }
    rewrite Hsame2, Hsame1; done.
  - intros Hrip. rewrite Hrip2, Hrip1; done.
Qed.

(** A set to which a net was added is not the empty set. *)
Lemma ripped_nonempty (n : IdString) (X : gset Z) : {[n]} ∪ X = (∅ : gset Z) → False.
Proof.
  intros Heq. assert (n ∈ ({[n]} ∪ X)) as Hin by (apply elem_of_union_l, elem_of_singleton; done).
  rewrite Heq in Hin. by apply elem_of_empty in Hin.
Qed.

Lemma ripped_since_add (cfg : RouterCfg) (st st' : NetState) (n : IdString) (X : gset Z) :
  rippedNets (n_router st) ⊆ X →
  (∀ m, m ∈ X → m ∈ rippedNets (n_router st) ∨ (m ≠ IdString_empty ∧ m ≠ net_name cfg)) →
  n ≠ IdString_empty → n ≠ net_name cfg → ripup cfg = true →
  rippedNets (n_router st') = {[n]} ∪ X →
  ripped_since cfg st st'.
Proof.
  intros Hsub Hnew Hn0 Hn1 Hrip Heq. unfold ripped_since. rewrite Heq. split_and!.
  - etrans; [exact Hsub | apply union_subseteq_r].
  - intros m [->%elem_of_singleton|Hm]%elem_of_union; [by right | by apply Hnew].
  - by intros ?%ripped_nonempty.
  - intros Hoff. congruence.
Qed.

Lemma backtrace_step_ripped (ns : gmap Z NetInfo) (cfg : RouterCfg) (st st1 : NetState)
    (cursor next : WireId) :
  backtrace_step ns cfg st cursor = Ok (st1, next) →
  ripped_since cfg st st1.
Proof.
  unfold backtrace_step. intros Hs.
  apply bind_Ok in Hs as ([[a1 sc1] rp1] & Hw & Hs).
  destruct (visited_index (visited (n_router st)) cursor) as [q v1].
  apply bind_Ok in Hs as ([[a2 sc2] rp2] & Hp & Hs).
  apply bind_Ok in Hs as (a3 & _ & [= <- <-]).
  apply resolve_wire_conflict_ripped in Hw. apply resolve_pip_conflict_ripped in Hp.
  destruct Hw as [(-> & -> & ->)|(n & Hn0 & Hn1 & Hrip & ->)],
    Hp as [(-> & -> & ->)|(n' & Hn0' & Hn1' & Hrip' & ->)].
  - by apply ripped_since_same.
  - apply (ripped_since_add cfg _ _ n' (rippedNets (n_router st))); try done. by left.
  - apply (ripped_since_add cfg _ _ n (rippedNets (n_router st))); try done. by left.
  - apply (ripped_since_add cfg _ _ n' ({[n]} ∪ rippedNets (n_router st))); try done.
    + apply union_subseteq_r.
    + intros m [->%elem_of_singleton|Hm]%elem_of_union; [by right | by left].
Qed.

Lemma backtrace_ripped (fuel : nat) (ns : gmap Z NetInfo) (dbg : bool) (cfg : RouterCfg) :
  ∀ (st st' : NetState) (cursor : WireId),
    backtrace fuel ns dbg cfg st cursor = Ok st' → ripped_since cfg st st'.
Proof.
  induction fuel as [|fuel IH]; intros st st' cursor Hb; simpl in Hb;
    destruct (debug_touch_same dbg st cursor) as (_ & Hsc & _);
    pose proof (debug_touch_ripped dbg st cursor) as Hrp;
    case_bool_decide; try discriminate.
  1,2: injection Hb as <-; by apply ripped_since_same.
  apply bind_Ok in Hb as ([st1 next] & Hs & Hb).
  apply backtrace_step_ripped in Hs. apply IH in Hb.
  eapply ripped_since_trans; [|exact Hb].
  eapply ripped_since_trans; [|exact Hs]. by apply ripped_since_same.
Qed.

Lemma route_users_ripped (fuel : nat) (ns : gmap Z NetInfo) (dbg : bool) (cfg : RouterCfg)
    (us : list PortRef) :
  ∀ (st st' : NetState),
    route_users fuel ns dbg cfg st us = Ok st' → ripped_since cfg st st'.
Proof.
  induction us as [|u us IH]; intros st st' Hr; simpl in Hr.
  - injection Hr as <-. by apply ripped_since_same.
  - apply bind_Ok in Hr as (dst & _ & Hr).
    apply bind_Ok in Hr as ([r1 g1] & Hroute & Hr).
    apply route_flags in Hroute as (_ & Hrp1 & _).
    destruct (visited r1 !! dst) as [q|].
    + apply bind_Ok in Hr as (st2 & Hb & Hr).
      apply backtrace_ripped in Hb. apply IH in Hr.
      eapply ripped_since_trans; [|exact Hr].
      eapply ripped_since_trans; [|exact Hb]. by apply ripped_since_same.
    + apply bind_Ok in Hr as (a1 & _ & [= <-]). by apply ripped_since_same.
Qed.

Lemma Router_net_ripped (fuel : nat) (c c' : Context) (sc sc' : RipupScoreboard)
    (name : IdString) (rip : bool) (penalty : delay_t) (r : Router) :
  Router_net fuel c sc name rip penalty = Ok (r, c', sc') →
  (name ∉ rippedNets r)
  ∧ (IdString_empty ∉ rippedNets r)
  ∧ (rippedNets r = ∅ → sc' = sc)
  ∧ (rip = false → rippedNets r = ∅).
Proof.
  unfold Router_net, Router_net_state. intros Hr.
  apply bind_Ok in Hr as (st & Hs & [= <- <- <-]).
  apply bind_Ok in Hs as (ni & _ & Hs). apply bind_Ok in Hs as (src_wire & _ & Hs).
  apply bind_Ok in Hs as (a1 & _ & Hs). apply bind_Ok in Hs as (a2 & _ & Hs).
  destruct (shuffle PortRef (rngstate c) (users ni)) as [users_array g].
  apply route_users_ripped in Hs as (Hsub & Hnew & Hsame & Hrip). simpl in *.
  split_and!.
  - intros Hin. destruct (Hnew _ Hin) as [?%elem_of_empty|[_ ?]]; done.
  - intros Hin. destruct (Hnew _ Hin) as [?%elem_of_empty|[? _]]; done.
  - exact Hsame.
  - exact Hrip.
Qed.

End RippedProofs.

(** X9.  When the constructor of [Router] for a net returns, neither the
    net itself nor the empty name is in [rippedNets]; with rip-up off the
    set is empty; and while it is empty the scoreboard of the caller is as
    it was: the counters move only when a net is ripped up. *)
Theorem X9_ripped_nets {dev : Arch} (fuel : nat) (c c' : Context) (sc sc' : RipupScoreboard)
    (name : IdString) (rip : bool) (penalty : delay_t) (r : Router) :
  Router_net fuel c sc name rip penalty = Ok (r, c', sc') →
  (name ∉ rippedNets r)
  ∧ (IdString_empty ∉ rippedNets r)
  ∧ (rippedNets r = ∅ → sc' = sc)
  ∧ (rip = false → rippedNets r = ∅).
Proof. apply Router_net_ripped. Qed.

Lemma X9_witness :
  ∃ (r : Router) (c' : Context) (sc' : RipupScoreboard),
    Router_net 5 ctx_yield_first scores_empty 2 true 10 = Ok (r, c', sc')
    ∧ elements (rippedNets r) = [1]
    ∧ (2 ∉ rippedNets r) ∧ (IdString_empty ∉ rippedNets r).
Proof.
  assert (match Router_net 5 ctx_yield_first scores_empty 2 true 10 with
          | Ok (r, _, _) => bool_decide (elements (rippedNets r) = [1])
          | Err _ => false
          end = true) as Hcheck by (by vm_compute).
  destruct (Router_net 5 ctx_yield_first scores_empty 2 true 10) as [[[r c'] sc']|e] eqn:Hr;
    [|discriminate].
  apply bool_decide_eq_true in Hcheck.
  destruct (X9_ripped_nets (dev := Table.arch dev_yield) 5 ctx_yield_first c' scores_empty
              sc' 2 true 10 r Hr) as (Hself & Hempty & _).
  exists r, c', sc'. exact (conj eq_refl (conj Hcheck (conj Hself Hempty))).
Defined.

(** ** Ripping up a net *)

(** X10.  [ripup_net] throws [std::out_of_range] for a name that is not a
    net.  When it returns, under the contract of the proxy, the [wires] map
    of the net is empty and the map of every other net is as it was. *)
Theorem X10_ripup_net_frame {dev : Arch} (good : archstate → Prop) (ns : gmap Z NetInfo)
    (a : archstate) (name : IdString) :
  (ns !! name = None → ripup_net ns a name = Err (Exn OutOfRange))
  ∧ (proxy_contract good → good a →
     ∀ a', ripup_net ns a name = Ok a' →
       good a'
       ∧ is_Some (ns !! name)
       ∧ net_wires a' name = []
       ∧ (∀ x, ¬ bound a' name x)
       ∧ (∀ n x, n ≠ name → (bound a' n x ↔ bound a n x))).
Proof.
  split.
  - intros Hnone. unfold ripup_net, at_. by rewrite Hnone.
  - intros Hpc Hg a' Hr.
    destruct (ripup_net_frame good _ _ _ _ Hpc Hg Hr) as (Hg' & Hempty & Hsub & Hkeep).
    destruct (ripup_net_Ok _ _ _ _ Hr) as [_ Hin].
    split_and!; [done..| |].
    + intros x. unfold bound. rewrite Hempty. simpl. apply not_elem_of_nil.
    + intros n x Hn. split; [apply Hsub | by apply Hkeep].
Qed.

Lemma yield_first_good : table_good dev_yield (arch ctx_yield_first).
Proof.
  unfold ctx_yield_first.
  destruct (Router_net 5 ctx_yield scores_empty 1 false 0) as [[[r c'] sc']|e] eqn:Hr.
  - destruct (Router_net_plain (dev := Table.arch dev_yield) _ _ _ _ _ _ _ _
                (table_good dev_yield) Hr) as (_ & _ & Hf).
    apply Hf; [apply table_contract | apply table_good_empty].
  - apply table_good_empty.
Qed.

Lemma X10_witness :
  ∃ a', ripup_net (nets ctx_yield) (arch ctx_yield_first) 1 = Ok a'
    ∧ net_wires a' 1 = []
    ∧ ∀ n x, n ≠ 1 → (bound a' n x ↔ bound (arch ctx_yield_first) n x).
Proof.
  assert (match ripup_net (nets ctx_yield) (arch ctx_yield_first) 1 with
          | Ok _ => true
          | Err _ => false
          end = true) as Hcheck by (by vm_compute).
  destruct (ripup_net (nets ctx_yield) (arch ctx_yield_first) 1) as [a'|e] eqn:Hr;
    [|discriminate].
  destruct (X10_ripup_net_frame (dev := Table.arch dev_yield) (table_good dev_yield)
              (nets ctx_yield) (arch ctx_yield_first) 1) as [_ Hf].
  destruct (Hf (table_contract dev_yield) yield_first_good a' Hr)
    as (_ & _ & Hempty & _ & Hkeep).
  exists a'. exact (conj eq_refl (conj Hempty Hkeep)).
Defined.

(** ** What routing a net leaves of the other nets *)

Section FrameProofs.
Context {dev : Arch}.
Variable good : archstate → Prop.
Hypothesis Hpc : proxy_contract good.
Hypothesis Hnh : names_holder good.

Lemma resolve_wire_conflict_frame (ns : gmap Z NetInfo) (cfg : RouterCfg)
    (a a' : archstate) (sc sc' : RipupScoreboard) (rp rp' : gset Z) (cursor : WireId) :
  good a →
  resolve_wire_conflict ns cfg a sc rp cursor = Ok (a', sc', rp') →
  good a' ∧ rp ⊆ rp'
  ∧ (∀ m x, m ≠ IdString_empty → m ∉ rp' → bound a m x → bound a' m x)
  ∧ (∀ m, m ≠ IdString_empty → ¬ bound a' m cursor).
Proof.
  unfold resolve_wire_conflict. intros Hg Hr. case_bool_decide as Hconf.
  - apply bind_Ok in Hr as (_ & _ & Hr). apply bind_Ok in Hr as (_ & _ & Hr).
    apply bind_Ok in Hr as (a1 & Hc%call_Ok & Hr).
    apply bind_Ok in Hr as (a2 & Hrip & [= <- <- <-]).
    destruct (pc_unbindWire good Hpc _ _ _ Hg Hc) as [Hg1 H1].
    assert (good a2 ∧ (∀ n x, bound a2 n x → bound a1 n x)
            ∧ (∀ n x, n ≠ getConflictingWireNet a cursor → bound a1 n x → bound a2 n x))
      as (Hg2 & Hsub & Hkeep).
    { destruct (negb (checkWireAvail a1 cursor)).
      - by destruct (ripup_net_frame good _ _ _ _ Hpc Hg1 Hrip) as (? & _ & ? & ?).
      - injection Hrip as <-. by split_and!. }
    split_and!; [done | apply union_subseteq_r | |].
    + intros m x Hm Hout Hb. apply not_elem_of_union in Hout as [Hne%not_elem_of_singleton _].
      apply Hkeep; [done|]. apply H1. split; [done|].
      intros ->. apply Hne. symmetry. by apply (Hnh a).
    + intros m Hm Hb%Hsub%H1. by destruct Hb.
  - injection Hr as <- <- <-. split_and!; [done..|].
    intros m Hm Hb. apply Hm. rewrite <- (Hnh a m cursor Hg Hb).
    by destruct (decide (getConflictingWireNet a cursor = IdString_empty)).
Qed.

Lemma resolve_pip_conflict_frame (ns : gmap Z NetInfo) (cfg : RouterCfg)
    (a a' : archstate) (sc sc' : RipupScoreboard) (rp rp' : gset Z) (p : PipId) :
  good a →
  (∀ m, m ≠ IdString_empty → ¬ bound a m (getPipDstWire p)) →
  resolve_pip_conflict ns cfg a sc rp p = Ok (a', sc', rp') →
  good a' ∧ rp ⊆ rp'
  ∧ (∀ m x, m ≠ IdString_empty → m ∉ rp' → bound a m x → bound a' m x).
Proof.
  unfold resolve_pip_conflict. intros Hg Hfree Hr. case_bool_decide as Hconf.
  - apply bind_Ok in Hr as (_ & _ & Hr). apply bind_Ok in Hr as (_ & _ & Hr).
    apply bind_Ok in Hr as (a1 & Hc%call_Ok & Hr).
    apply bind_Ok in Hr as (a2 & Hrip & [= <- <- <-]).
    destruct (pc_unbindPip good Hpc _ _ _ Hg Hc) as [Hg1 H1].
    assert (good a2
            ∧ (∀ n x, n ≠ getConflictingPipNet a p → bound a1 n x → bound a2 n x))
      as (Hg2 & Hkeep).
    { destruct (negb (checkPipAvail a1 p)).
      - by destruct (ripup_net_frame good _ _ _ _ Hpc Hg1 Hrip) as (? & _ & _ & ?).
      - injection Hrip as <-. by split. }
    split_and!; [done | apply union_subseteq_r |].
    intros m x Hm Hout Hb. apply not_elem_of_union in Hout as [Hne%not_elem_of_singleton _].
    apply Hkeep; [done|]. apply H1. split; [done|].
    intros ->. by apply (Hfree m).
  - injection Hr as <- <- <-. by split_and!.
Qed.

Lemma others_kept_same (cfg : RouterCfg) (st st' : NetState) :
  good (n_arch st) → n_arch st' = n_arch st →
  rippedNets (n_router st') = rippedNets (n_router st) →
  others_kept good cfg st st'.
Proof. intros Hg Ha Hrp. unfold others_kept. rewrite Ha, Hrp. by split_and!. Qed.

Lemma others_kept_trans (cfg : RouterCfg) (st1 st2 st3 : NetState) :
  others_kept good cfg st1 st2 → others_kept good cfg st2 st3 → others_kept good cfg st1 st3.
Proof.
  intros (Hg2 & Hsub1 & H1) (Hg3 & Hsub2 & H2). split_and!; [done | by etrans |].
  intros m x Hm Hname Hout Hb. apply H2; [done..|]. apply H1; [done.. | | done].
  intros Hin. by apply Hout, Hsub2.
Qed.

Lemma backtrace_step_frame (ns : gmap Z NetInfo) (cfg : RouterCfg) (st st1 : NetState)
    (cursor next : WireId) (e : QueuedWire) :
  visited (n_router st) !! cursor = Some e →
  getPipDstWire (pip e) = cursor →
  good (n_arch st) →
  backtrace_step ns cfg st cursor = Ok (st1, next) →
  others_kept good cfg st st1.
Proof.
  unfold backtrace_step. intros He Hdst Hg Hs.
  apply bind_Ok in Hs as ([[a1 sc1] rp1] & Hw & Hs).
  rewrite (visited_index_present _ _ _ He) in Hs.
  apply bind_Ok in Hs as ([[a2 sc2] rp2] & Hp & Hs).
  apply bind_Ok in Hs as (a3 & Hc%call_Ok & [= <- <-]).
  destruct (resolve_wire_conflict_frame _ _ _ _ _ _ _ _ _ Hg Hw) as (Hg1 & Hsub1 & H1 & Hfree).
  destruct (resolve_pip_conflict_frame _ _ _ _ _ _ _ _ _ Hg1 ltac:(by rewrite Hdst) Hp)
    as (Hg2 & Hsub2 & H2).
  destruct (pc_bindPip good Hpc _ _ _ _ Hg2 Hc) as [Hg3 H3].
  split_and!; simpl; [done | by etrans |].
  intros m x Hm _ Hout Hb. apply H3. left. apply H2; [done..|].
  apply H1; [done | | done]. intros Hin. by apply Hout, Hsub2.
Qed.

Lemma backtrace_frame (fuel : nat) (ns : gmap Z NetInfo) (dbg : bool) (cfg : RouterCfg) :
  ∀ (st st' : NetState) (cursor : WireId),
    is_Some (visited (n_router st) !! cursor) →
    chains_end (n_src_wires st) (visited (n_router st)) →
    good (n_arch st) →
    backtrace fuel ns dbg cfg st cursor = Ok st' →
    others_kept good cfg st st'.
Proof.
  induction fuel as [|fuel IH]; intros st st' cursor [e He] Hch Hg Hb; simpl in Hb.
  all: assert (visited (n_router (debug_touch dbg st cursor)) = visited (n_router st)
               ∧ n_src_wires (debug_touch dbg st cursor) = n_src_wires st
               ∧ n_arch (debug_touch dbg st cursor) = n_arch st) as (Hv0 & Hs0 & Ha0)
         by (unfold debug_touch; destruct dbg; [|done]; simpl;
             by rewrite (visited_index_present _ _ _ He)).
  all: pose proof (debug_touch_ripped dbg st cursor) as Hrp0.
  all: pose proof (others_kept_same cfg st _ Hg Ha0 Hrp0) as Hk0.
  all: case_bool_decide as Hin; try discriminate; [by injection Hb as <-|..].
  apply bind_Ok in Hb as ([st1 next] & Hstep & Hb).
  destruct Hch as (Hroot & Hsrc & Hent).
  assert (pip e ≠ PipId_none) as Hpip.
  { intros Hp. apply Hin. rewrite Hs0. by apply (Hsrc cursor e). }
  rewrite <- Hv0 in He.
  destruct (backtrace_step_next _ _ _ _ _ _ _ He Hstep) as (-> & Hv1 & Hs1).
  assert (others_kept good cfg (debug_touch dbg st cursor) st1) as Hk1.
  { apply (backtrace_step_frame ns cfg _ st1 cursor (getPipSrcWire (pip e)) e);
      [done | | by rewrite Ha0 | done].
    rewrite Hv0 in He. by apply (Hent cursor e). }
  rewrite Hv0 in He.
  eapply others_kept_trans; [exact Hk0|]. eapply others_kept_trans; [exact Hk1|].
  apply (IH st1 st' (getPipSrcWire (pip e))); [| | by destruct Hk1 | done].
  - rewrite Hv1, Hv0. destruct (Hroot cursor) as [h Hh]; [eauto|].
    inversion Hh as [w e' He' Hp'|h' w e' He' Hp' Hnext]; subst;
      rewrite He in He'; injection He' as <-; [done|].
    inversion Hnext; subst; eauto.
  - rewrite Hv1, Hv0, Hs1, Hs0. split_and!; [done | | done].
    intros w e' He' Hp'. destruct (decide (cursor = w)) as [->|Hne].
    + rewrite lookup_insert_eq. eauto.
    + rewrite lookup_insert_ne by done. by apply (Hsrc w e').
Qed.

End FrameProofs.

Section RouteCorrect.
Context {dev : Arch}.
Variable good : archstate → Prop.
Hypothesis Hpc : proxy_contract good.
Hypothesis Hnh : names_holder good.
Variable W : list WireId.
Hypothesis HW : finite_device W.
Hypothesis Hperm : ∀ g l, (sorted_shuffle g l).1 ≡ₚ l.

Lemma route_users_frame (fuel : nat) (ns : gmap Z NetInfo) (dbg : bool) (cfg : RouterCfg)
    (us : list PortRef) :
  cfg_nonneg cfg →
  ∀ st st', good (n_arch st) →
    route_users fuel ns dbg cfg st us = Ok st' → others_kept good cfg st st'.
Proof.
  intros Hcfg. induction us as [|u us IH]; intros st st' Hg Hr; simpl in Hr.
  - injection Hr as <-. by apply others_kept_same.
  - apply bind_Ok in Hr as (dst & Hport & Hr).
    apply bind_Ok in Hr as ([r1 g1] & Hroute & Hr).
    pose proof (route_chains W HW _ _ _ _ _ _ _ _ _ Hcfg Hroute) as Hch.
    apply route_flags in Hroute as (_ & Hrp1 & _).
    destruct (visited r1 !! dst) as [q|] eqn:Hv.
    + apply bind_Ok in Hr as (st2 & Hb & Hr).
      apply (backtrace_frame good Hpc Hnh) in Hb; simpl; [| eauto | done | done].
      pose proof (IH _ _ (proj1 Hb) Hr) as Hk.
      eapply others_kept_trans; [|exact Hk]. eapply others_kept_trans; [|exact Hb].
      by apply others_kept_same.
    + apply bind_Ok in Hr as (a1 & Hrip & [= <-]).
      destruct (ripup_net_frame good _ _ _ _ Hpc Hg Hrip) as (Hg1 & _ & _ & Hkeep).
      split_and!; simpl; [done | by rewrite Hrp1 |].
      intros m x _ Hname _ Hb. by apply Hkeep.
Qed.

Lemma Router_net_frame (fuel : nat) (c c' : Context) (sc sc' : RipupScoreboard)
    (name : IdString) (rip : bool) (penalty : delay_t) (r : Router) :
  good (arch c) → 0 ≤ penalty → scores_le scores_empty sc →
  Router_net fuel c sc name rip penalty = Ok (r, c', sc') →
  good (arch c')
  ∧ nets c' = nets c
  ∧ ∀ m x, m ≠ IdString_empty → m ≠ name → m ∉ rippedNets r →
      bound (arch c) m x → bound (arch c') m x.
Proof.
  intros Hg Hpen Hsc. unfold Router_net, Router_net_state. intros Hr.
  apply bind_Ok in Hr as (st & Hs & [= <- <- <-]). simpl.
  apply bind_Ok in Hs as (ni & _ & Hs). apply bind_Ok in Hs as (src_wire & _ & Hs).
  apply bind_Ok in Hs as (a1 & Hrip & Hs). apply bind_Ok in Hs as (a2 & Hbw%call_Ok & Hs).
  destruct (shuffle PortRef (rngstate c) (users ni)) as [users_array g].
  destruct (ripup_net_frame good _ _ _ _ Hpc Hg Hrip) as (Hg1 & _ & _ & Hkeep).
  destruct (pc_bindWire good Hpc _ _ _ _ Hg1 Hbw) as [Hg2 H2].
  apply (route_users_frame fuel (nets c) (debug c) (mkCfg sc name rip penalty)) in Hs
    as (Hg' & _ & H'); [|done..].
  simpl in *. split_and!; [done..|].
  intros m x Hm Hname Hout Hb. apply H'; [done..|]. apply H2. left. by apply Hkeep.
Qed.

Lemma net_routed_kept (a a' : archstate) (name : IdString) (ni : NetInfo) :
  (∀ x, bound a name x → bound a' name x) → net_routed a name ni → net_routed a' name ni.
Proof.
  intros Hkeep [(w & Hw & Hb) Hall]. split; [exists w; auto|].
  eapply Forall_impl; [exact Hall|]. intros u (x & Hx & Hbx). exists x. auto.
Qed.

(** A net that the constructor has routed is routed. *)
Lemma net_routed_made (fuel : nat) (c c' : Context) (sc sc' : RipupScoreboard)
    (name : IdString) (rip : bool) (penalty : delay_t) (r : Router) (ni : NetInfo) :
  good (arch c) → 0 ≤ penalty → scores_le scores_empty sc →
  nets c !! name = Some ni →
  Router_net fuel c sc name rip penalty = Ok (r, c', sc') →
  routedOkay r = true →
  net_routed (arch c') name ni.
Proof.
  intros Hg Hpen Hsc Hni Hr Hok.
  destruct (Router_net_bound good Hpc W HW _ _ _ _ _ _ _ _ _ ni Hg Hpen Hsc Hni Hr Hok)
    as (_ & Hd & Hu).
  by split.
Qed.

(** A routed net stays routed while the constructor routes another net,
    unless that net rips it up. *)
Lemma net_routed_frame (fuel : nat) (c c' : Context) (sc sc' : RipupScoreboard)
    (name : IdString) (rip : bool) (penalty : delay_t) (r : Router) (m : IdString)
    (ni : NetInfo) :
  good (arch c) → 0 ≤ penalty → scores_le scores_empty sc →
  Router_net fuel c sc name rip penalty = Ok (r, c', sc') →
  m ≠ IdString_empty → m ≠ name → (m ∉ rippedNets r) →
  net_routed (arch c) m ni → net_routed (arch c') m ni.
Proof.
  intros Hg Hpen Hsc Hr Hm Hne Hrp.
  destruct (Router_net_frame _ _ _ _ _ _ _ _ _ Hg Hpen Hsc Hr) as (_ & _ & Hkeep).
  apply net_routed_kept. intros x. by apply Hkeep.
Qed.

(** The passes of [router1], for a property [routed] of the bindings of a
    net that the constructor brings about when it routes the net, and that
    it leaves to the other nets that it does not rip up. *)
Variable routed : archstate → IdString → NetInfo → Prop.
Hypothesis Hmade : ∀ fuel (c c' : Context) sc sc' name rip penalty r ni,
  good (arch c) → 0 ≤ penalty → scores_le scores_empty sc →
  nets c !! name = Some ni →
  Router_net fuel c sc name rip penalty = Ok (r, c', sc') →
  routedOkay r = true →
  routed (arch c') name ni.
Hypothesis Hkept : ∀ fuel (c c' : Context) sc sc' name rip penalty r m ni,
  good (arch c) → 0 ≤ penalty → scores_le scores_empty sc →
  Router_net fuel c sc name rip penalty = Ok (r, c', sc') →
  m ≠ IdString_empty → m ≠ name → (m ∉ rippedNets r) →
  routed (arch c) m ni → routed (arch c') m ni.

Lemma pass_route_inv (fuel : nat) (ns : gmap Z NetInfo) (ps ps' : PassState)
    (name : IdString) (l : list IdString) :
  pass_inv good routed ns ps (name :: l) → pass_route fuel ps name = Ok ps' →
  pass_inv good routed ns ps' l.
Proof.
  intros (Hg & Hsc & Hns & Hrouted). unfold pass_route. intros Hp.
  apply bind_Ok in Hp as ([[r c'] sc'] & Hr & [= <-]).
  pose proof (Router_net_scores_le _ _ _ _ _ _ _ _ _ Hr) as Hle.
  destruct (Router_net_ripped _ _ _ _ _ _ _ _ _ Hr) as (_ & _ & _ & Hnone).
  destruct (Router_net_frame _ _ _ _ _ _ _ _ _ Hg (Z.le_refl 0) Hsc Hr) as (Hg' & Hns' & _).
  split_and!; simpl; [done | by eapply scores_le_trans | congruence |].
  intros m ni Hni Hcell Hm. destruct (decide (m = name)) as [->|Hne].
  - destruct (routedOkay r) eqn:Hok.
    + right. rewrite <- Hns in Hni.
      by apply (Hmade _ _ _ _ _ _ _ _ _ ni Hg (Z.le_refl 0) Hsc Hni Hr).
    + left. right. apply elem_of_union_l, elem_of_singleton. done.
  - destruct (Hrouted m ni Hni Hcell Hm) as [[Hin|Hin]|Hrt].
    + left. left. apply elem_of_cons in Hin as [?|?]; done.
    + left. right. destruct (routedOkay r); [done | by apply elem_of_union_r].
    + right. apply (Hkept _ _ _ _ _ _ _ _ _ m ni Hg (Z.le_refl 0) Hsc Hr); [done..| |done].
      rewrite (Hnone eq_refl). apply not_elem_of_empty.
Qed.

Lemma pass_route_fold (fuel : nat) (ns : gmap Z NetInfo) (l : list IdString) :
  ∀ ps ps', pass_inv good routed ns ps l → foldM (pass_route fuel) ps l = Ok ps' →
    pass_inv good routed ns ps' [].
Proof.
  induction l as [|name l IH]; intros ps ps' Hinv Hf; simpl in Hf.
  - by injection Hf as <-.
  - apply bind_Ok in Hf as (ps1 & Hp & Hf). eapply IH; [|exact Hf].
    by eapply pass_route_inv.
Qed.

Lemma pass_ripup_inv (fuel : nat) (penalty : delay_t) (ns : gmap Z NetInfo)
    (ps ps' : PassState) (name : IdString) (l : list IdString) :
  0 ≤ penalty →
  pass_inv good routed ns ps (name :: l) → pass_ripup fuel penalty ps name = Ok ps' →
  pass_inv good routed ns ps' l.
Proof.
  intros Hpen (Hg & Hsc & Hns & Hrouted). unfold pass_ripup. intros Hp.
  apply bind_Ok in Hp as ([[r c'] sc'] & Hr & Hp).
  destruct (routedOkay r) eqn:Hok; [|discriminate]. injection Hp as <-.
  pose proof (Router_net_scores_le _ _ _ _ _ _ _ _ _ Hr) as Hle.
  destruct (Router_net_frame _ _ _ _ _ _ _ _ _ Hg Hpen Hsc Hr) as (Hg' & Hns' & _).
  split_and!; simpl; [done | by eapply scores_le_trans | congruence |].
  intros m ni Hni Hcell Hm. destruct (decide (m = name)) as [->|Hne].
  - right. rewrite <- Hns in Hni.
    by apply (Hmade _ _ _ _ _ _ _ _ _ ni Hg Hpen Hsc Hni Hr).
  - destruct (Hrouted m ni Hni Hcell Hm) as [[Hin|Hin]|Hrt].
    + left. left. apply elem_of_cons in Hin as [?|?]; done.
    + left. right. by apply elem_of_union_r.
    + destruct (decide (m ∈ rippedNets r)) as [Hrp|Hrp].
      * left. right. by apply elem_of_union_l.
      * right. by apply (Hkept _ _ _ _ _ _ _ _ _ m ni Hg Hpen Hsc Hr).
Qed.

Lemma pass_ripup_fold (fuel : nat) (penalty : delay_t) (ns : gmap Z NetInfo)
    (l : list IdString) :
  0 ≤ penalty →
  ∀ ps ps', pass_inv good routed ns ps l → foldM (pass_ripup fuel penalty) ps l = Ok ps' →
    pass_inv good routed ns ps' [].
Proof.
  intros Hpen. induction l as [|name l IH]; intros ps ps' Hinv Hf; simpl in Hf.
  - by injection Hf as <-.
  - apply bind_Ok in Hf as (ps1 & Hp & Hf). eapply IH; [|exact Hf].
    by eapply pass_ripup_inv.
Qed.

(** The array of a pass holds the nets of its queue. *)
Lemma sorted_shuffle_elem (g : Z) (q : gset Z) (n : IdString) :
  n ∈ q → n ∈ (sorted_shuffle g (elements q)).1.
Proof. intros Hn. rewrite (Hperm g (elements q)). by apply elem_of_elements. Qed.

Lemma router1_iter_inv (fuel : nat) (ns : gmap Z NetInfo) (ls ls' : LoopState) :
  route_inv good routed ns ls → router1_iter fuel ls = Ok ls' → route_inv good routed ns ls'.
Proof.
  intros (Hg & Hsc & Hpen & Hns & Hrouted). unfold router1_iter.
  pose proof (sorted_shuffle_elem (rngstate (l_ctx ls)) (netsQueue ls)) as Harr1.
  destruct (sorted_shuffle (rngstate (l_ctx ls)) (elements (netsQueue ls)))
    as [netsArray g1].
  intros Hi. apply bind_Ok in Hi as (pa & Ha & Hi). apply bind_Ok in Hi as (pb & Hb & [= <-]).
  simpl.
  apply (pass_route_fold fuel ns) in Ha as (Hga & Hsca & Hnsa & Hra).
  2: { split_and!; simpl; [done..|]. intros m ni Hni Hcell Hm.
       destruct (Hrouted m ni Hni Hcell Hm) as [Hin|?]; [|by right].
       left. left. by apply Harr1. }
  assert (pass_inv good routed ns pb []) as (Hgb & Hscb & Hnsb & Hrb).
  { case_bool_decide as Hq.
    - pose proof (sorted_shuffle_elem (rngstate (p_ctx pa)) (p_queue pa)) as Harr2.
      destruct (sorted_shuffle (rngstate (p_ctx pa)) (elements (p_queue pa)))
        as [ripupArray g2].
      apply (pass_ripup_fold fuel _ ns) in Hb; [done | done |].
      split_and!; simpl; [done..|]. intros m ni Hni Hcell Hm.
      destruct (Hra m ni Hni Hcell Hm) as [[Hin%elem_of_nil|Hin]|?]; [done | | by right].
      left. left. by apply Harr2.
    - injection Hb as <-. split_and!; simpl; [done..|]. intros m ni Hni Hcell Hm.
      destruct (Hra m ni Hni Hcell Hm) as [[Hin%elem_of_nil|Hin]|?]; [done | | by right].
      rewrite Hq in Hin. by apply elem_of_empty in Hin. }
  split_and!; simpl; [done.. | | done |].
  - pose proof (fd_penalty W HW). destruct (penalty_boundary _); lia.
  - intros m ni Hni Hcell Hm.
    destruct (Hrb m ni Hni Hcell Hm) as [[Hin%elem_of_nil|Hin]|?]; [done | by left | by right].
Qed.

Lemma router1_loop_inv (fuel : nat) (ns : gmap Z NetInfo) (n : nat) :
  ∀ ls b ls', route_inv good routed ns ls → router1_loop n fuel ls = Ok (b, ls') →
    route_inv good routed ns ls' ∧ (b = true → netsQueue ls' = ∅).
Proof.
  induction n as [|n IH]; intros ls b ls' Hinv Hl; simpl in Hl.
  all: case_bool_decide as Hq; [injection Hl as <- <-; by split|].
  all: destruct (iterCnt ls =? 200); [injection Hl as <- <-; by split|].
  - discriminate.
  - apply bind_Ok in Hl as (ls1 & Hi & Hl). eapply IH; [|exact Hl].
    by eapply router1_iter_inv.
Qed.

(** When [router1] returns true, every net with a driver is routed. *)
Lemma router1_try_routed (fuel : nat) (c : Context) (ls : LoopState) :
  good (arch c) →
  nets_routed routed (nets c) (arch c) (λ n, net_wires (arch c) n = []) →
  router1_try fuel c = Ok (true, ls) →
  nets (l_ctx ls) = nets c
  ∧ nets_routed routed (nets c) (arch (l_ctx ls)) (λ _, False).
Proof.
  intros Hg H0. unfold router1_try.
  assert (route_inv good routed (nets c) (router1_start c)) as Hinv0.
  { split_and!; simpl; [done | apply scores_le_refl | apply (fd_penalty W HW) | done |].
    intros m ni Hni Hcell Hm. destruct (H0 m ni Hni Hcell Hm) as [Hempty|?]; [|by right].
    left. unfold unrouted_nets. apply elem_of_dom. exists ni.
    by apply map_lookup_filter_Some. }
  case_bool_decide as Hq.
  - intros [= <-]. split; [done|]. destruct Hinv0 as (_ & _ & _ & _ & Hrouted).
    intros m ni Hni Hcell Hm. destruct (Hrouted m ni Hni Hcell Hm) as [Hin|?]; [|by right].
    simpl in Hq, Hin. rewrite Hq in Hin. by apply elem_of_empty in Hin.
  - intros Ht. apply bind_Ok in Ht as (_ & _ & Hl).
    apply (router1_loop_inv fuel (nets c)) in Hl as [(_ & _ & _ & Hns & Hrouted) Hempty];
      [|done].
    split; [done|]. intros m ni Hni Hcell Hm.
    destruct (Hrouted m ni Hni Hcell Hm) as [Hin|?]; [|by right].
    rewrite (Hempty eq_refl) in Hin. by apply elem_of_empty in Hin.
Qed.

End RouteCorrect.

(** X11.  With a proxy that keeps its contract and names the net that holds
    a wire, on a finite device, from bindings in which every net that has
    wires is routed: when [router1] returns true, every net with a driver is
    routed, the wire of its driver and the wire of each of its users being
    in its [wires] map. *)
Theorem X11_router1_routes {dev : Arch} (W : list WireId) (good : archstate → Prop)
    (fuel : nat) (c : Context) (ls : LoopState) :
  finite_device W → proxy_contract good → names_holder good →
  (∀ g l, (sorted_shuffle g l).1 ≡ₚ l) →
  good (arch c) →
  (∀ name ni, nets c !! name = Some ni → net_wires (arch c) name ≠ [] →
     net_routed (arch c) name ni) →
  router1_try fuel c = Ok (true, ls) →
  router1 fuel c = Ok true
  ∧ ∀ name ni, nets c !! name = Some ni → cell (driver ni) ≠ None →
      name ≠ IdString_empty → net_routed (arch (l_ctx ls)) name ni.
Proof.
  intros HW Hpc Hnh Hperm Hg H0 Ht. split; [unfold router1; by rewrite Ht|].
  destruct (router1_try_routed good Hpc Hnh W HW Hperm net_routed
              (net_routed_made good Hpc W HW) (net_routed_frame good Hpc Hnh W HW)
              fuel c ls Hg) as [_ Hrouted]; [|done|].
  - intros m ni Hni _ _.
    destruct (decide (net_wires (arch c) m = [])) as [?|Hne]; [by left|].
    right. by apply H0.
  - intros name ni Hni Hcell Hname. by destruct (Hrouted name ni Hni Hcell Hname).
Qed.

Lemma table_names_holder (d : Table.Device) :
  names_holder (dev := Table.arch d) (table_good d).
Proof.
  intros b m x Hg Hb%table_bound. apply (tg_wire d b Hg) in Hb. simpl. by rewrite Hb.
Qed.

Lemma table_sorted_shuffle (d : Table.Device) (g : Z) (l : list IdString) :
  (sorted_shuffle (Arch := Table.arch d) g l).1 ≡ₚ l.
Proof. simpl. apply merge_sort_Permutation. Qed.

Lemma table_no_wires (d : Table.Device) (n : IdString) :
  net_wires (Arch := Table.arch d) Table.no_bindings n = [].
Proof. simpl. unfold Table.net_map. simpl. rewrite lookup_empty. apply map_to_list_empty. Qed.

Lemma yield_finite : finite_device (dev := Table.arch dev_yield) (table_wires dev_yield).
Proof. apply table_finite; simpl; [repeat constructor; simpl; lia | lia..]. Qed.

(** On [dev_yield] net 2 takes wire 3 from net 1 in the first iteration and
    net 1 goes through wire 6 in the second. *)
Lemma X11_witness :
  ∃ ls : LoopState,
    router1_try 10 ctx_yield = Ok (true, ls)
    ∧ iterCnt ls = 2
    ∧ net_routed (arch (l_ctx ls)) 1 (Table.net 2 [5])
    ∧ net_routed (arch (l_ctx ls)) 2 (Table.net 1 [4]).
Proof.
  assert (match router1_try 10 ctx_yield with
          | Ok (true, ls) => iterCnt ls =? 2
          | _ => false
          end = true) as Hcheck by (by vm_compute).
  destruct (router1_try 10 ctx_yield) as [[[|] ls]|e] eqn:Ht; [|discriminate Hcheck..].
  apply Z.eqb_eq in Hcheck.
  destruct (X11_router1_routes (dev := Table.arch dev_yield) (table_wires dev_yield)
              (table_good dev_yield) 10 ctx_yield ls yield_finite (table_contract dev_yield)
              (table_names_holder dev_yield) (table_sorted_shuffle dev_yield)
              (table_good_empty dev_yield)) as [_ Hrouted]; [|exact Ht|].
  - intros name ni _ Hne. destruct Hne. apply table_no_wires.
  - exists ls.
    exact (conj eq_refl (conj Hcheck
             (conj (Hrouted 1 (Table.net 2 [5]) eq_refl ltac:(discriminate) ltac:(discriminate))
                   (Hrouted 2 (Table.net 1 [4]) eq_refl ltac:(discriminate)
                      ltac:(discriminate))))).
Defined.

(** ** A driver without a wire *)

Section FailProofs.
Context {dev : Arch}.
Hypothesis Hperm : ∀ g l, (sorted_shuffle g l).1 ≡ₚ l.

Lemma Router_net_no_wire (fuel : nat) (c : Context) (sc : RipupScoreboard) (name : IdString)
    (rip : bool) (penalty : delay_t) (ni : NetInfo) (e : error) :
  nets c !! name = Some ni → port_wire (driver ni) = Err e →
  Router_net fuel c sc name rip penalty = Err e.
Proof.
  intros Hni Hport. unfold Router_net, Router_net_state, at_. rewrite Hni. simpl.
  by rewrite Hport.
Qed.

Lemma pass_route_nets (fuel : nat) (ps ps' : PassState) (name : IdString) :
  pass_route fuel ps name = Ok ps' → nets (p_ctx ps') = nets (p_ctx ps).
Proof.
  unfold pass_route, Router_net. intros Hp.
  apply bind_Ok in Hp as ([[r c'] sc'] & Hr & [= <-]).
  by apply bind_Ok in Hr as (st & _ & [= <- <- <-]).
Qed.

Lemma pass_route_fails (fuel : nat) (name : IdString) (ni : NetInfo) (e : error)
    (l : list IdString) :
  port_wire (driver ni) = Err e → name ∈ l →
  ∀ ps, nets (p_ctx ps) !! name = Some ni → ∃ e', foldM (pass_route fuel) ps l = Err e'.
Proof.
  intros Hport. induction l as [|x l IH]; intros Hin ps Hni; [by apply elem_of_nil in Hin|].
  rewrite foldM_cons. destruct (pass_route fuel ps x) as [ps1|e1] eqn:Hp; [|by exists e1].
  simpl. apply elem_of_cons in Hin as [->|Hin].
  - unfold pass_route in Hp.
    by rewrite (Router_net_no_wire _ _ _ _ _ _ ni e Hni Hport) in Hp.
  - apply IH; [done|]. by rewrite (pass_route_nets _ _ _ _ Hp).
Qed.

Lemma router1_try_fails (fuel : nat) (c : Context) (name : IdString) (ni : NetInfo)
    (e : error) :
  nets c !! name = Some ni → cell (driver ni) ≠ None → net_wires (arch c) name = [] →
  port_wire (driver ni) = Err e →
  ∃ e', router1_try fuel c = Err e'.
Proof.
  intros Hni Hcell Hempty Hport. unfold router1_try.
  assert (name ∈ netsQueue (router1_start c)) as Hin.
  { simpl. unfold unrouted_nets. apply elem_of_dom. exists ni.
    by apply map_lookup_filter_Some. }
  rewrite bool_decide_eq_false_2.
  2: { intros Hq. rewrite Hq in Hin. by apply elem_of_empty in Hin. }
  destruct (foldM (estimate_net c) tt _) as [u|e0]; [|by exists e0]. simpl.
  destruct fuel as [|fuel]; simpl.
  all: rewrite bool_decide_eq_false_2
         by (intros Hq; simpl in Hin; rewrite Hq in Hin; by apply elem_of_empty in Hin).
  - by exists FuelLoop.
  - unfold router1_iter.
    pose proof (Hperm (rngstate (l_ctx (router1_start c)))
                  (elements (netsQueue (router1_start c)))) as Hp.
    destruct (sorted_shuffle _ _) as [netsArray g1]. simpl in Hp.
    destruct (pass_route_fails (S fuel) name ni e netsArray Hport) with
      (ps := mkPass (set_rng (l_ctx (router1_start c)) g1) (l_scores (router1_start c))
               0 0 0 ∅) as [e' He'].
    + rewrite Hp. by apply elem_of_elements.
    + done.
    + exists e'. by rewrite He'.
Qed.

End FailProofs.

(** X12.  When a net that [router1] has to route (a driver cell, no wires
    yet) has a driver without a wire, its cell being on no bel or the pin
    having no wire, [router1] does not return true: it returns false, or an
    exception other than that of [log_error] comes first. *)
Theorem X12_driver_without_wire {dev : Arch} (fuel : nat) (c : Context) (name : IdString)
    (ni : NetInfo) (e : error) :
  (∀ g l, (sorted_shuffle g l).1 ≡ₚ l) →
  nets c !! name = Some ni → cell (driver ni) ≠ None → net_wires (arch c) name = [] →
  port_wire (driver ni) = Err e →
  router1 fuel c ≠ Ok true
  ∧ ∃ e', router1_try fuel c = Err e'
      ∧ router1 fuel c = match e' with Exn LogExecutionError => Ok false | _ => Err e' end.
Proof.
  intros Hperm Hni Hcell Hempty Hport.
  destruct (router1_try_fails Hperm fuel c name ni e Hni Hcell Hempty Hport) as [e' He'].
  unfold router1. rewrite He'. split; [by destruct e' as [[]| | |]|]. by exists e'.
Qed.

Lemma X12_witness : router1 5 ctx_unplaced ≠ Ok true ∧ router1 5 ctx_unplaced = Ok false.
Proof.
  destruct (X12_driver_without_wire (dev := Table.arch dev_direct) 5 ctx_unplaced 1
              (Table.net BelId_none [2]) (Exn LogExecutionError)
              (table_sorted_shuffle dev_direct) eq_refl ltac:(discriminate)
              (table_no_wires dev_direct 1) eq_refl) as [Hne _].
  split; [exact Hne|].
  assert (match router1 5 ctx_unplaced with Ok b => negb b | Err _ => false end = true)
    as Hcheck by (by vm_compute).
  destruct (router1 5 ctx_unplaced) as [[|]|e']; [discriminate Hcheck | done
                                                  | discriminate Hcheck].
Defined.

(** ** The entries of the maps *)

Section EntryProofs.
Context {dev : Arch}.
Variable good : archstate → Prop.
Hypothesis Hpc : proxy_contract good.
Hypothesis Hec : entries_contract good.

Lemma bound_entry (a : archstate) (m : IdString) (x : WireId) :
  bound a m x ↔ ∃ p, entry a m x p.
Proof.
  unfold bound, entry. rewrite list_elem_of_fmap. split.
  - intros ([y p] & -> & Hin). by exists p.
  - intros [p Hin]. by exists (x, p).
Qed.

Lemma kept_refl (m : IdString) (a : archstate) : kept m a a.
Proof. by split. Qed.

Lemma kept_trans (m : IdString) (a1 a2 a3 : archstate) :
  kept m a1 a2 → kept m a2 a3 → kept m a1 a3.
Proof.
  intros [Hs1 He1] [Hs2 He2]. split; [by auto|].
  intros x p He Hb. apply He2; [|done]. apply He1; [done|]. by apply Hs2.
Qed.

Lemma kept_unbindWire (a a' : archstate) (w : WireId) :
  good a → unbindWire a w = Returns a' → good a' ∧ ∀ m, kept m a a'.
Proof.
  intros Hg Hu. destruct (pc_unbindWire good Hpc _ _ _ Hg Hu) as [Hg' H1].
  pose proof (ec_unbindWire good Hec _ _ _ Hg Hu) as H2. split; [done|].
  intros m. split.
  - intros x Hb. by apply H1 in Hb as [? _].
  - intros x p He Hb. apply H2. split; [done|]. by apply H1 in Hb as [_ ?].
Qed.

Lemma kept_unbindPip (a a' : archstate) (q : PipId) :
  good a → unbindPip a q = Returns a' → good a' ∧ ∀ m, kept m a a'.
Proof.
  intros Hg Hu. destruct (pc_unbindPip good Hpc _ _ _ Hg Hu) as [Hg' H1].
  pose proof (ec_unbindPip good Hec _ _ _ Hg Hu) as H2. split; [done|].
  intros m. split.
  - intros x Hb. by apply H1 in Hb as [? _].
  - intros x p He Hb. apply H2. split; [done|]. by apply H1 in Hb as [_ ?].
Qed.

Lemma kept_bindWire (a a' : archstate) (w : WireId) (n : IdString) :
  good a → bindWire a w n = Returns a' →
  good a' ∧ (∀ m x p, entry a m x p → entry a' m x p) ∧ ∀ m, m ≠ n → kept m a a'.
Proof.
  intros Hg Hu. destruct (pc_bindWire good Hpc _ _ _ _ Hg Hu) as [Hg' H1].
  pose proof (ec_bindWire good Hec _ _ _ _ Hg Hu) as H2. split_and!; [done | |].
  - intros m x p He. apply H2. by left.
  - intros m Hm. split.
    + intros x Hb. by apply H1 in Hb as [?|[? _]].
    + intros x p He _. apply H2. by left.
Qed.

Lemma kept_bindPip (a a' : archstate) (q : PipId) (n : IdString) :
  good a → bindPip a q n = Returns a' →
  good a' ∧ (∀ m x p, entry a m x p → entry a' m x p) ∧ ∀ m, m ≠ n → kept m a a'.
Proof.
  intros Hg Hu. destruct (pc_bindPip good Hpc _ _ _ _ Hg Hu) as [Hg' H1].
  pose proof (ec_bindPip good Hec _ _ _ _ Hg Hu) as H2. split_and!; [done | |].
  - intros m x p He. apply H2. by left.
  - intros m Hm. split.
    + intros x Hb. by apply H1 in Hb as [?|[? _]].
    + intros x p He _. apply H2. by left.
Qed.

Lemma kept_unbind_pips (pips : list PipId) :
  ∀ a a', good a → foldM (λ b p, call (unbindPip b p)) a pips = Ok a' →
    good a' ∧ ∀ m, kept m a a'.
Proof.
  induction pips as [|q pips IH]; intros a a' Hg Hf; simpl in Hf.
  - injection Hf as <-. split; [done|]. intros m. apply kept_refl.
  - apply bind_Ok in Hf as (a1 & Hc%call_Ok & Hf).
    destruct (kept_unbindPip _ _ _ Hg Hc) as [Hg1 H1].
    destruct (IH _ _ Hg1 Hf) as [Hg' H']. split; [done|].
    intros m. by eapply kept_trans.
Qed.

Lemma kept_unbind_wires (ws : list WireId) :
  ∀ a a', good a → foldM (λ b w, call (unbindWire b w)) a ws = Ok a' →
    good a' ∧ ∀ m, kept m a a'.
Proof.
  induction ws as [|w ws IH]; intros a a' Hg Hf; simpl in Hf.
  - injection Hf as <-. split; [done|]. intros m. apply kept_refl.
  - apply bind_Ok in Hf as (a1 & Hc%call_Ok & Hf).
    destruct (kept_unbindWire _ _ _ Hg Hc) as [Hg1 H1].
    destruct (IH _ _ Hg1 Hf) as [Hg' H']. split; [done|].
    intros m. by eapply kept_trans.
Qed.

Lemma kept_ripup_net (ns : gmap Z NetInfo) (a a' : archstate) (name : IdString) :
  good a → ripup_net ns a name = Ok a' → good a' ∧ ∀ m, kept m a a'.
Proof.
  unfold ripup_net. intros Hg Hr. apply bind_Ok in Hr as (ni & _ & Hr).
  apply bind_Ok in Hr as (a1 & Hp & Hr). apply bind_Ok in Hr as (a2 & Hw & Hr).
  apply bind_Ok in Hr as (_ & _ & [= <-]).
  destruct (kept_unbind_pips _ _ _ Hg Hp) as [Hg1 H1].
  destruct (kept_unbind_wires _ _ _ Hg1 Hw) as [Hg2 H2].
  split; [done|]. intros m. by eapply kept_trans.
Qed.

Lemma kept_resolve_wire_conflict (ns : gmap Z NetInfo) (cfg : RouterCfg)
    (a a' : archstate) (sc sc' : RipupScoreboard) (rp rp' : gset Z) (cursor : WireId) :
  good a → resolve_wire_conflict ns cfg a sc rp cursor = Ok (a', sc', rp') →
  good a' ∧ ∀ m, kept m a a'.
Proof.
  unfold resolve_wire_conflict. intros Hg Hr.
  case_bool_decide; [|injection Hr as <- <- <-; split; [done | intros; apply kept_refl]].
  apply bind_Ok in Hr as (_ & _ & Hr). apply bind_Ok in Hr as (_ & _ & Hr).
  apply bind_Ok in Hr as (a1 & Hc%call_Ok & Hr).
  apply bind_Ok in Hr as (a2 & Hrip & [= <- <- <-]).
  destruct (kept_unbindWire _ _ _ Hg Hc) as [Hg1 H1].
  destruct (negb (checkWireAvail a1 cursor)).
  - destruct (kept_ripup_net _ _ _ _ Hg1 Hrip) as [Hg2 H2]. split; [done|].
    intros m. by eapply kept_trans.
  - injection Hrip as <-. by split.
Qed.

Lemma kept_resolve_pip_conflict (ns : gmap Z NetInfo) (cfg : RouterCfg)
    (a a' : archstate) (sc sc' : RipupScoreboard) (rp rp' : gset Z) (q : PipId) :
  good a → resolve_pip_conflict ns cfg a sc rp q = Ok (a', sc', rp') →
  good a' ∧ ∀ m, kept m a a'.
Proof.
  unfold resolve_pip_conflict. intros Hg Hr.
  case_bool_decide; [|injection Hr as <- <- <-; split; [done | intros; apply kept_refl]].
  apply bind_Ok in Hr as (_ & _ & Hr). apply bind_Ok in Hr as (_ & _ & Hr).
  apply bind_Ok in Hr as (a1 & Hc%call_Ok & Hr).
  apply bind_Ok in Hr as (a2 & Hrip & [= <- <- <-]).
  destruct (kept_unbindPip _ _ _ Hg Hc) as [Hg1 H1].
  destruct (negb (checkPipAvail a1 q)).
  - destruct (kept_ripup_net _ _ _ _ Hg1 Hrip) as [Hg2 H2]. split; [done|].
    intros m. by eapply kept_trans.
  - injection Hrip as <-. by split.
Qed.

Lemma kept_backtrace_step (ns : gmap Z NetInfo) (cfg : RouterCfg) (st st1 : NetState)
    (cursor next : WireId) :
  good (n_arch st) → backtrace_step ns cfg st cursor = Ok (st1, next) →
  good (n_arch st1) ∧ ∀ m, m ≠ net_name cfg → kept m (n_arch st) (n_arch st1).
Proof.
  unfold backtrace_step. intros Hg Hs.
  apply bind_Ok in Hs as ([[a1 sc1] rp1] & Hw & Hs).
  destruct (visited_index (visited (n_router st)) cursor) as [q v1].
  apply bind_Ok in Hs as ([[a2 sc2] rp2] & Hp & Hs).
  apply bind_Ok in Hs as (a3 & Hc%call_Ok & [= <- <-]). simpl.
  destruct (kept_resolve_wire_conflict _ _ _ _ _ _ _ _ _ Hg Hw) as [Hg1 H1].
  destruct (kept_resolve_pip_conflict _ _ _ _ _ _ _ _ _ Hg1 Hp) as [Hg2 H2].
  destruct (kept_bindPip _ _ _ _ Hg2 Hc) as (Hg3 & _ & H3).
  split; [done|]. intros m Hm.
  eapply kept_trans; [apply H1|]. eapply kept_trans; [apply H2 | by apply H3].
Qed.

Lemma kept_backtrace (fuel : nat) (ns : gmap Z NetInfo) (dbg : bool) (cfg : RouterCfg) :
  ∀ (st st' : NetState) (cursor : WireId),
    good (n_arch st) → backtrace fuel ns dbg cfg st cursor = Ok st' →
    good (n_arch st') ∧ ∀ m, m ≠ net_name cfg → kept m (n_arch st) (n_arch st').
Proof.
  induction fuel as [|fuel IH]; intros st st' cursor Hg Hb; simpl in Hb;
    destruct (debug_touch_same dbg st cursor) as (Ha & _);
    case_bool_decide; try discriminate.
  1,2: injection Hb as <-; rewrite Ha; split; [done | intros; apply kept_refl].
  apply bind_Ok in Hb as ([st1 next] & Hs & Hb).
  rewrite <- Ha in Hg. destruct (kept_backtrace_step _ _ _ _ _ _ Hg Hs) as [Hg1 H1].
  destruct (IH _ _ _ Hg1 Hb) as [Hg' H']. split; [done|].
  intros m Hm. rewrite <- Ha. eapply kept_trans; [by apply H1 | by apply H'].
Qed.

Lemma kept_route_users (fuel : nat) (ns : gmap Z NetInfo) (dbg : bool) (cfg : RouterCfg)
    (us : list PortRef) :
  ∀ (st st' : NetState),
    good (n_arch st) → route_users fuel ns dbg cfg st us = Ok st' →
    good (n_arch st') ∧ ∀ m, m ≠ net_name cfg → kept m (n_arch st) (n_arch st').
Proof.
  induction us as [|u us IH]; intros st st' Hg Hr; simpl in Hr.
  - injection Hr as <-. split; [done | intros; apply kept_refl].
  - apply bind_Ok in Hr as (dst & _ & Hr).
    apply bind_Ok in Hr as ([r1 g1] & _ & Hr).
    destruct (visited r1 !! dst) as [q|].
    + apply bind_Ok in Hr as (st2 & Hb & Hr).
      apply kept_backtrace in Hb as [Hg2 H2]; [|exact Hg]. simpl in *.
      destruct (IH _ _ Hg2 Hr) as [Hg' H']. split; [done|].
      intros m Hm. eapply kept_trans; [by apply H2 | by apply H'].
    + apply bind_Ok in Hr as (a1 & Hrip & [= <-]). simpl.
      destruct (kept_ripup_net _ _ _ _ Hg Hrip) as [Hg1 H1]. by split.
Qed.

Lemma kept_Router_net (fuel : nat) (c c' : Context) (sc sc' : RipupScoreboard)
    (name : IdString) (rip : bool) (penalty : delay_t) (r : Router) :
  good (arch c) → Router_net fuel c sc name rip penalty = Ok (r, c', sc') →
  good (arch c') ∧ ∀ m, m ≠ name → kept m (arch c) (arch c').
Proof.
  intros Hg. unfold Router_net, Router_net_state. intros Hr.
  apply bind_Ok in Hr as (st & Hs & [= <- <- <-]). simpl.
  apply bind_Ok in Hs as (ni & _ & Hs). apply bind_Ok in Hs as (src_wire & _ & Hs).
  apply bind_Ok in Hs as (a1 & Hrip & Hs). apply bind_Ok in Hs as (a2 & Hbw%call_Ok & Hs).
  destruct (shuffle PortRef (rngstate c) (users ni)) as [users_array g].
  destruct (kept_ripup_net _ _ _ _ Hg Hrip) as [Hg1 H1].
  destruct (kept_bindWire _ _ _ _ Hg1 Hbw) as (Hg2 & _ & H2).
  apply kept_route_users in Hs as [Hg' H']; [|exact Hg2]. simpl in *.
  split; [done|]. intros m Hm.
  eapply kept_trans; [apply H1|]. eapply kept_trans; [by apply H2 | by apply H'].
Qed.

Lemma linked_mono (a a' : archstate) (n : IdString) (R R' : WireId → Prop) (x : WireId) :
  (∀ y p, entry a n y p → entry a' n y p) →
  (∀ y, R y → linked a' n R' y) →
  linked a n R x → linked a' n R' x.
Proof.
  intros Hent Hroot Hl. induction Hl as [x Hx|x p He Hp Hl IH]; [by apply Hroot|].
  apply (linked_pip a' n R' x p); auto.
Qed.

End EntryProofs.

Lemma rooted_unique {dev : Arch} (v : gmap Z QueuedWire) (h h' : nat) (w : WireId) :
  rooted v h w → rooted v h' w → h = h'.
Proof.
  intros Hr. revert h'. induction Hr as [w e He Hp|h w e He Hp Hr IH]; intros h' Hr'.
  - inversion Hr' as [w' e' He' Hp'|h'' w' e' He' Hp' Hr'']; subst; [done|].
    rewrite He in He'. injection He' as <-. done.
  - inversion Hr' as [w' e' He' Hp'|h'' w' e' He' Hp' Hr'']; subst.
    + rewrite He in He'. injection He' as <-. done.
    + rewrite He in He'. injection He' as <-. f_equal. by apply IH.
Qed.

(** ** The pips of a routed net *)

Section TreeProofs.
Context {dev : Arch}.
Variable good : archstate → Prop.
Hypothesis Hpc : proxy_contract good.
Hypothesis Hec : entries_contract good.
Variable W : list WireId.
Hypothesis HW : finite_device W.

Lemma backtrace_step_tree (ns : gmap Z NetInfo) (cfg : RouterCfg) (s : WireId)
    (old : gmap Z Z) (st st1 : NetState) (c next : WireId) (e : QueuedWire) (h : nat) :
  visited (n_router st) !! c = Some e →
  pip e ≠ PipId_none →
  getPipDstWire (pip e) = c →
  rooted (visited (n_router st)) h (getPipSrcWire (pip e)) →
  n_src_wires st !! c = None →
  good (n_arch st) →
  trace_inv (net_name cfg) s old (visited (n_router st)) st c (S h) →
  backtrace_step ns cfg st c = Ok (st1, next) →
  trace_inv (net_name cfg) s old (visited (n_router st)) st1 (getPipSrcWire (pip e)) h.
Proof.
  intros He Hpip Hdst Hroot Hout Hg (Hs & Hkeys & Hold & Hnew) Hstep.
  unfold backtrace_step in Hstep.
  apply bind_Ok in Hstep as ([[a1 sc1] rp1] & Hw & Hstep).
  rewrite (visited_index_present _ _ _ He) in Hstep.
  apply bind_Ok in Hstep as ([[a2 sc2] rp2] & Hp & Hstep).
  apply bind_Ok in Hstep as (a3 & Hc%call_Ok & [= <- <-]). simpl.
  destruct (kept_resolve_wire_conflict good Hpc Hec _ _ _ _ _ _ _ _ _ Hg Hw) as [Hg1 Hk1].
  destruct (kept_resolve_pip_conflict good Hpc Hec _ _ _ _ _ _ _ _ _ Hg1 Hp) as [Hg2 Hk2].
  destruct (resolve_wire_conflict_bound good Hpc _ _ _ _ _ _ _ _ _ Hg Hw) as [_ Hb1].
  destruct (resolve_pip_conflict_bound good Hpc _ _ _ _ _ _ _ _ _ Hg1 Hp) as [_ Hb2].
  destruct (pc_bindPip good Hpc _ _ _ _ Hg2 Hc) as [Hg3 Hb3].
  pose proof (ec_bindPip good Hec _ _ _ _ Hg2 Hc) as He3.
  set (name := net_name cfg) in *. set (a := n_arch st) in *.
  assert (∀ x, is_Some (n_src_wires st !! x) → x ≠ c) as Hne.
  { intros x Hx ->. rewrite Hout in Hx. by destruct Hx. }
  assert (∀ x, bound a name x → bound a2 name x) as Hkeep.
  { intros x Hx. apply Hb2; [rewrite Hdst; by apply Hne, Hkeys|].
    apply Hb1; [by apply Hne, Hkeys | done]. }
  assert (∀ x p, entry a name x p → entry a3 name x p) as Hent.
  { intros x p Hx. apply He3. left.
    assert (bound a name x) as Hbx by (apply (bound_entry a name x); eauto).
    apply (proj2 (Hk2 name)); [|by apply Hkeep].
    apply (proj2 (Hk1 name)); [done|].
    apply Hb1; [by apply Hne, Hkeys | done]. }
  assert (linked a3 name (λ y, is_Some (old !! y) ∨ y = getPipSrcWire (pip e)) c) as Hlc.
  { apply (linked_pip _ _ _ c (pip e)); [|done|apply linked_root; by right].
    apply He3. right. by rewrite Hdst. }
  unfold trace_inv. simpl. split_and!.
  - by apply Hent.
  - intros x. rewrite Hb3. destruct (decide (x = c)) as [->|Hx].
    + rewrite lookup_insert_eq, Hdst. split; [eauto | by right].
    + rewrite lookup_insert_ne by done. rewrite <- Hkeys. split.
      * intros [Hb|[_ ?]]; [|by rewrite Hdst in *].
        by apply (proj1 (Hk1 name)), (proj1 (Hk2 name)).
      * intros Hb. left. by apply Hkeep.
  - intros x Hx. destruct (Hold x Hx) as [Hin Hl]. split.
    + rewrite lookup_insert_ne; [done|]. intros <-. by apply (Hne c).
    + apply (linked_mono a a3 name (λ y, y = s) (λ y, y = s)); [done | | done].
      intros y ->. by apply linked_root.
  - intros x. destruct (decide (x = c)) as [->|Hx].
    + intros _. split; [done|]. right. exists (S h). split; [|lia].
      by apply (rooted_step _ h c e).
    + rewrite lookup_insert_ne by done. intros Hin. destruct (Hnew x Hin) as [Hl Hh]. split.
      * apply (linked_mono a a3 name (λ y, is_Some (old !! y) ∨ y = c)
                 (λ y, is_Some (old !! y) ∨ y = getPipSrcWire (pip e))); [done | | done].
        intros y [Hy| ->]; [apply linked_root; by left | done].
      * destruct Hh as [?|(hx & Hrx & Hlt)]; [by left|]. right. exists hx. split; [done | lia].
Qed.

Lemma trace_inv_ext (name : IdString) (s : WireId) (old : gmap Z Z)
    (v : gmap Z QueuedWire) (st st' : NetState) (c : WireId) (h : nat) :
  n_arch st' = n_arch st → n_src_wires st' = n_src_wires st →
  trace_inv name s old v st c h → trace_inv name s old v st' c h.
Proof. unfold trace_inv. by intros -> ->. Qed.

(** A back-trace that has come to a source wire has come to one of [old],
    and the wires it has entered are joined to the wire of the driver. *)
Lemma trace_exit (name : IdString) (s : WireId) (old : gmap Z Z) (v : gmap Z QueuedWire)
    (st : NetState) (c : WireId) (h : nat) :
  rooted v h c → is_Some (n_src_wires st !! c) →
  trace_inv name s old v st c h → tree_inv name s st.
Proof.
  intros Hroot Hin (Hs & Hkeys & Hold & Hnew).
  assert (is_Some (old !! c)) as Hc.
  { destruct (Hnew c Hin) as [_ [?|(hx & Hrx & Hlt)]]; [done|].
    rewrite (rooted_unique _ _ _ _ Hrx Hroot) in Hlt. lia. }
  split_and!; [done..|]. intros x Hx. destruct (Hnew x Hx) as [Hl _].
  apply (linked_mono (n_arch st) (n_arch st) name (λ y, is_Some (old !! y) ∨ y = c)
           (λ y, y = s)); [done | | done].
  intros y [Hy| ->]; by apply Hold.
Qed.

Lemma backtrace_tree (fuel : nat) (ns : gmap Z NetInfo) (dbg : bool) (cfg : RouterCfg)
    (s : WireId) (old : gmap Z Z) :
  ∀ (st st' : NetState) (c : WireId) (h : nat),
    rooted (visited (n_router st)) h c →
    chains_end (n_src_wires st) (visited (n_router st)) →
    good (n_arch st) →
    trace_inv (net_name cfg) s old (visited (n_router st)) st c h →
    backtrace fuel ns dbg cfg st c = Ok st' →
    tree_inv (net_name cfg) s st'.
Proof.
  induction fuel as [|fuel IH]; intros st st' c h Hroot Hch Hg Hinv Hb; simpl in Hb.
  all: assert (∃ e, visited (n_router st) !! c = Some e) as [e He]
         by (inversion Hroot; eauto).
  all: assert (visited (n_router (debug_touch dbg st c)) = visited (n_router st)
               ∧ n_src_wires (debug_touch dbg st c) = n_src_wires st
               ∧ n_arch (debug_touch dbg st c) = n_arch st) as (Hv0 & Hs0 & Ha0)
         by (unfold debug_touch; destruct dbg; [|done]; simpl;
             by rewrite (visited_index_present _ _ _ He)).
  all: pose proof (trace_inv_ext _ _ _ _ st (debug_touch dbg st c) c h Ha0 Hs0 Hinv) as Hinv0.
  all: case_bool_decide as Hin; try discriminate.
  1,2: injection Hb as <-; by apply (trace_exit _ _ old (visited (n_router st)) _ c h).
  apply bind_Ok in Hb as ([st1 next] & Hstep & Hb).
  destruct Hch as (Hroots & Hsrc & Hent).
  assert (n_src_wires st !! c = None) as Hnone.
  { rewrite Hs0 in Hin. destruct (n_src_wires st !! c); [|done]. destruct Hin. eauto. }
  assert (pip e ≠ PipId_none) as Hpip.
  { intros Hp. destruct (Hsrc c e He Hp) as [d Hd]. congruence. }
  inversion Hroot as [w e' He' Hp'|h' w e' He' Hp' Hnext]; subst;
    rewrite He in He'; injection He' as <-; [done|].
  rewrite <- Hv0 in He.
  destruct (backtrace_step_next _ _ _ _ _ _ _ He Hstep) as (-> & Hv1 & Hs1).
  assert (trace_inv (net_name cfg) s old (visited (n_router (debug_touch dbg st c)))
            st1 (getPipSrcWire (pip e)) h') as Hinv1.
  { apply (backtrace_step_tree ns cfg s old (debug_touch dbg st c) st1 c
             (getPipSrcWire (pip e)) e h'); [done | done | | | | | | done].
    - rewrite Hv0 in He. by apply (Hent c e).
    - by rewrite Hv0.
    - by rewrite Hs0.
    - by rewrite Ha0.
    - by rewrite Hv0. }
  assert (good (n_arch st1)) as Hg1.
  { apply (kept_backtrace_step good Hpc Hec ns cfg (debug_touch dbg st c) st1 c
             (getPipSrcWire (pip e))); [by rewrite Ha0 | done]. }
  rewrite Hv0 in He.
  apply (IH st1 st' (getPipSrcWire (pip e)) h'); [| | done | | done].
  - by rewrite Hv1, Hv0.
  - rewrite Hv1, Hv0, Hs1, Hs0. split_and!; [done | | done].
    intros w0 e0 He0 Hp0. destruct (decide (c = w0)) as [->|Hne].
    + rewrite lookup_insert_eq. eauto.
    + rewrite lookup_insert_ne by done. by apply (Hsrc w0 e0).
  - by rewrite Hv1.
Qed.

Lemma route_users_tree (fuel : nat) (ns : gmap Z NetInfo) (dbg : bool) (cfg : RouterCfg)
    (s : WireId) (us : list PortRef) :
  cfg_nonneg cfg →
  ∀ st st', good (n_arch st) → tree_inv (net_name cfg) s st →
    route_users fuel ns dbg cfg st us = Ok st' →
    tree_inv (net_name cfg) s st'
    ∨ routedOkay (n_router st') = routedOkay (n_router st).
Proof.
  intros Hcfg. induction us as [|u us IH]; intros st st' Hg Htree Hr; simpl in Hr.
  - injection Hr as <-. left. exact Htree.
  - apply bind_Ok in Hr as (dst & Hport & Hr).
    apply bind_Ok in Hr as ([r1 g1] & Hroute & Hr).
    pose proof (route_chains W HW _ _ _ _ _ _ _ _ _ Hcfg Hroute) as Hch.
    apply route_flags in Hroute as (Hok1 & _ & _).
    destruct (visited r1 !! dst) as [q|] eqn:Hv.
    + apply bind_Ok in Hr as (st2 & Hb & Hr).
      pose proof (backtrace_props _ _ _ _ _ _ _ Hb) as (_ & _ & _ & Hok2).
      pose proof Hb as Hb'.
      apply (kept_backtrace good Hpc Hec) in Hb' as [Hg2 _]; [|exact Hg].
      destruct (proj1 Hch dst) as [h Hroot]; [eauto|].
      destruct Htree as (Hs & Hkeys & Hlink).
      apply (backtrace_tree fuel ns dbg cfg s (n_src_wires st) _ st2 dst h) in Hb;
        [| done | done | done |].
      * destruct (IH _ _ Hg2 Hb Hr) as [?|Hok]; [by left|]. right. simpl in *. congruence.
      * unfold trace_inv. simpl. split_and!; [done | done | by auto |].
        intros x Hx. split; [|by left]. apply linked_root. by left.
    + apply bind_Ok in Hr as (a1 & _ & [= <-]). by right.
Qed.

Lemma ripup_net_empty (ns : gmap Z NetInfo) (a a' : archstate) (name : IdString) :
  ripup_net ns a name = Ok a' → net_wires a' name = [].
Proof.
  unfold ripup_net. intros Hr. apply bind_Ok in Hr as (ni & _ & Hr).
  apply bind_Ok in Hr as (a1 & _ & Hr). apply bind_Ok in Hr as (a2 & _ & Hr).
  apply bind_Ok in Hr as (u & Has & [= <-]).
  unfold assert in Has. case_bool_decide; [done|discriminate].
Qed.

(** After the constructor has routed a net, the map of the net is a tree of
    pips from the wire of the driver to the wire of every user. *)
Lemma Router_net_linked (fuel : nat) (c c' : Context) (sc sc' : RipupScoreboard)
    (name : IdString) (rip : bool) (penalty : delay_t) (r : Router) (ni : NetInfo) :
  good (arch c) → 0 ≤ penalty → scores_le scores_empty sc →
  nets c !! name = Some ni →
  Router_net fuel c sc name rip penalty = Ok (r, c', sc') →
  routedOkay r = true →
  net_linked (arch c') name ni.
Proof.
  intros Hg Hpen Hsc Hni. unfold Router_net, Router_net_state. intros Hr Hok.
  apply bind_Ok in Hr as (st & Hs & [= <- <- <-]). simpl in *.
  unfold at_ in Hs. rewrite Hni in Hs. simpl in Hs.
  apply bind_Ok in Hs as (src_wire & Hsrc & Hs).
  apply bind_Ok in Hs as (a1 & Hrip & Hs).
  apply bind_Ok in Hs as (a2 & Hbw%call_Ok & Hs).
  pose proof (shuffle_perm _ (rngstate c) (users ni)) as Hperm.
  destruct (shuffle PortRef (rngstate c) (users ni)) as [users_array g]. simpl in Hperm.
  pose proof (ripup_net_empty _ _ _ _ Hrip) as Hempty.
  destruct (ripup_net_bound good Hpc _ _ _ _ Hg Hrip) as [Hg1 _].
  destruct (pc_bindWire good Hpc _ _ _ _ Hg1 Hbw) as [Hg2 H2].
  pose proof (ec_bindWire good Hec _ _ _ _ Hg1 Hbw) as E2.
  pose proof (route_users_props _ _ _ _ _ _ _ Hs) as (_ & Hcases).
  apply (route_users_tree fuel (nets c) (debug c) (mkCfg sc name rip penalty) src_wire)
    in Hs; [| done | done |].
  2: { unfold tree_inv. simpl. split_and!.
       - apply E2. by right.
       - intros x. rewrite H2, lookup_singleton_is_Some. split.
         + intros [Hb|[_ ->]]; [|done]. unfold bound in Hb. rewrite Hempty in Hb.
           by apply elem_of_nil in Hb.
         + intros <-. by right.
       - intros x Hx. apply lookup_singleton_is_Some in Hx as <-. by apply linked_root. }
  simpl in *.
  destruct Hs as [(Hs & Hkeys & Hlink)|Hsame]; [|by rewrite Hok in Hsame].
  destruct Hcases as [(_ & Hall & _)|(Hsame & _)]; [|by rewrite Hok in Hsame].
  exists src_wire. split_and!; [done | done | |].
  - rewrite <- Hperm. eapply Forall_impl; [exact Hall|].
    intros u (w & Hw & Hin). exists w. auto.
  - intros x Hx. by apply Hlink, Hkeys.
Qed.

(** The tree of a net stays as it is while the constructor routes another
    net, unless that net rips it up. *)
Lemma net_linked_frame (Hnh : names_holder good) (fuel : nat) (c c' : Context)
    (sc sc' : RipupScoreboard) (name : IdString) (rip : bool) (penalty : delay_t)
    (r : Router) (m : IdString) (ni : NetInfo) :
  good (arch c) → 0 ≤ penalty → scores_le scores_empty sc →
  Router_net fuel c sc name rip penalty = Ok (r, c', sc') →
  m ≠ IdString_empty → m ≠ name → (m ∉ rippedNets r) →
  net_linked (arch c) m ni → net_linked (arch c') m ni.
Proof.
  intros Hg Hpen Hsc Hr Hm Hne Hrp (s & Hs & Hent & Hall & Hmap).
  destruct (Router_net_frame good Hpc Hnh W HW _ _ _ _ _ _ _ _ _ Hg Hpen Hsc Hr)
    as (_ & _ & Hkeep).
  destruct (kept_Router_net good Hpc Hec _ _ _ _ _ _ _ _ _ Hg Hr) as [_ Hk].
  destruct (Hk m Hne) as [Hback Hsame].
  assert (∀ y p, entry (arch c) m y p → entry (arch c') m y p) as Hents.
  { intros y p He. apply Hsame; [done|]. apply Hkeep; [done..|].
    apply bound_entry. eauto. }
  assert (∀ x, linked (arch c) m (λ y, y = s) x → linked (arch c') m (λ y, y = s) x)
    as Hlinks.
  { intros x. apply linked_mono; [done|]. intros y ->. by apply linked_root. }
  exists s. split_and!; [done | by apply Hents | |].
  - eapply Forall_impl; [exact Hall|]. intros u (w & Hw & Hl). exists w. auto.
  - intros x Hx. by apply Hlinks, Hmap, Hback.
Qed.

End TreeProofs.

Section TableEntries.
Variable d : Table.Device.

Lemma table_entry (b : Table.Bindings) (m : IdString) (x : WireId) (p : PipId) :
  entry (dev := Table.arch d) b m x p ↔ Table.net_map b m !! x = Some p.
Proof. unfold entry. simpl. apply elem_of_map_to_list. Qed.

Lemma table_enter_map (b : Table.Bindings) (wn pn : gmap Z Z) (w q : Z) (n m : IdString)
    (x : WireId) :
  Table.net_map (Table.mkBindings wn pn
                   (<[n := <[w := q]> (Table.net_map b n)]> (Table.wires_of b))) m !! x
  = if decide (m = n ∧ x = w) then Some q else Table.net_map b m !! x.
Proof.
  rewrite net_map_insert. destruct (decide (m = n)) as [->|Hm].
  - destruct (decide (x = w)) as [->|Hx].
    + rewrite lookup_insert_eq. by rewrite decide_True.
    + rewrite lookup_insert_ne by done. rewrite decide_False by tauto. done.
  - rewrite decide_False by tauto. done.
Qed.

Lemma table_leave_map (b : Table.Bindings) (wn pn : gmap Z Z) (w : Z) (n m : IdString)
    (x : WireId) :
  table_good d b → Table.wire_to_net b !! w = Some n →
  Table.net_map (Table.mkBindings wn pn
                   (<[n := delete w (Table.net_map b n)]> (Table.wires_of b))) m !! x
  = if decide (x = w) then None else Table.net_map b m !! x.
Proof.
  intros Hg Hown. rewrite net_map_insert. destruct (decide (m = n)) as [->|Hm].
  - destruct (decide (x = w)) as [->|Hx].
    + by rewrite lookup_delete_eq.
    + by rewrite lookup_delete_ne.
  - destruct (decide (x = w)) as [->|Hx]; [|done].
    destruct (Table.net_map b m !! w) as [p|] eqn:Hp; [|done].
    destruct Hm. apply (table_owner d b w m n Hg Hown). unfold Table.net_map in *. eauto.
Qed.

(** The tables keep the contract on the entries of the maps. *)
Lemma table_entries : entries_contract (dev := Table.arch d) (table_good d).
Proof.
  split.
  - intros b b' w n Hg Hb m x p. simpl in Hb.
    apply bind_wire_Returns in Hb as (_ & Hfree & ->).
    rewrite !table_entry, table_enter_map.
    destruct (decide (m = n ∧ x = w)) as [[-> ->]|Hne].
    + rewrite (table_free_wire d b w n Hg Hfree). split.
      * intros [= <-]. by right.
      * intros [?|(_ & _ & ->)]; done.
    + split; [by left|]. intros [?|(? & ? & _)]; [done|tauto].
  - intros b b' q n Hg Hb m x p. simpl in Hb.
    apply bind_pip_Returns in Hb as (_ & _ & Hfree & ->).
    rewrite !table_entry, table_enter_map. simpl.
    destruct (decide (m = n ∧ x = Table.dst_of d q)) as [[-> ->]|Hne].
    + rewrite (table_free_wire d b _ n Hg Hfree). split.
      * intros [= <-]. by right.
      * intros [?|(_ & _ & ->)]; done.
    + split; [by left|]. intros [?|(? & ? & _)]; [done|tauto].
  - intros b b' w Hg Hb m x p. simpl in Hb.
    apply unbind_wire_Returns in Hb as (n & q & Hown & Hent & ->).
    rewrite !table_entry, (table_leave_map b _ _ w n m x Hg Hown).
    destruct (decide (x = w)) as [->|Hx]; [|tauto].
    split; [done | by intros [_ ?]].
  - intros b b' q Hg Hb m x p. simpl in Hb.
    apply unbind_pip_Returns in Hb as (n & _ & Hpn & _ & ->).
    assert (Table.wire_to_net b !! Table.dst_of d q = Some n) as Hown.
    { apply (tg_wire d b Hg). rewrite (tg_pip d b Hg q n Hpn). eauto. }
    rewrite !table_entry, (table_leave_map b _ _ _ n m x Hg Hown). simpl.
    destruct (decide (x = Table.dst_of d q)) as [->|Hx]; [|tauto].
    split; [done | by intros [_ ?]].
Qed.

End TableEntries.

(** X13.  With a proxy that keeps its contract, on a finite device: after
    the constructor has routed a net, the map of the net is a tree of pips
    from the wire of the driver.  That wire is in the map without a pip, and
    the wire of every user and every other wire of the map is joined to it
    by a chain of pips of the map, each leading from a wire of the map to
    the next. *)
Theorem X13_routed_net_tree {dev : Arch} (W : list WireId) (good : archstate → Prop)
    (fuel : nat) (c c' : Context) (sc sc' : RipupScoreboard) (name : IdString)
    (rip : bool) (penalty : delay_t) (r : Router) (ni : NetInfo) :
  finite_device W → proxy_contract good → entries_contract good →
  good (arch c) → 0 ≤ penalty → scores_le scores_empty sc →
  nets c !! name = Some ni →
  Router_net fuel c sc name rip penalty = Ok (r, c', sc') →
  routedOkay r = true →
  net_linked (arch c') name ni.
Proof.
  intros HW Hpc Hec. by apply (Router_net_linked good Hpc Hec W HW).
Qed.

(** Net 2 of [dev_yield], routed with rip-up after net 1. *)
Lemma X13_witness :
  ∃ (r : Router) (c' : Context) (sc' : RipupScoreboard),
    Router_net 5 ctx_yield_first scores_empty 2 true 10 = Ok (r, c', sc')
    ∧ net_linked (arch c') 2 (Table.net 1 [4]).
Proof.
  assert (match Router_net 5 ctx_yield_first scores_empty 2 true 10 with
          | Ok (r, _, _) => routedOkay r
          | Err _ => false
          end = true) as Hcheck by (by vm_compute).
  destruct (Router_net 5 ctx_yield_first scores_empty 2 true 10) as [[[r c'] sc']|e] eqn:Hr;
    [|discriminate Hcheck].
  exists r, c', sc'.
  exact (conj eq_refl
           (X13_routed_net_tree (dev := Table.arch dev_yield) (table_wires dev_yield)
              (table_good dev_yield) 5 ctx_yield_first c' scores_empty sc' 2 true 10 r
              (Table.net 1 [4]) yield_finite (table_contract dev_yield)
              (table_entries dev_yield) yield_first_good ltac:(lia)
              (scores_le_refl scores_empty) eq_refl Hr Hcheck)).
Defined.

(** X14.  With such a proxy, on a finite device, from bindings in which the
    map of every net that has wires is a tree from the wire of its driver:
    when [router1] returns true, the map of every net with a driver is such
    a tree, which joins the wire of each of its users to the wire of its
    driver. *)
Theorem X14_router1_trees {dev : Arch} (W : list WireId) (good : archstate → Prop)
    (fuel : nat) (c : Context) (ls : LoopState) :
  finite_device W → proxy_contract good → names_holder good → entries_contract good →
  (∀ g l, (sorted_shuffle g l).1 ≡ₚ l) →
  good (arch c) →
  (∀ name ni, nets c !! name = Some ni → net_wires (arch c) name ≠ [] →
     net_linked (arch c) name ni) →
  router1_try fuel c = Ok (true, ls) →
  ∀ name ni, nets c !! name = Some ni → cell (driver ni) ≠ None →
    name ≠ IdString_empty → net_linked (arch (l_ctx ls)) name ni.
Proof.
  intros HW Hpc Hnh Hec Hperm Hg H0 Ht.
  destruct (router1_try_routed good Hpc Hnh W HW Hperm net_linked
              (Router_net_linked good Hpc Hec W HW)
              (net_linked_frame good Hpc Hec W HW Hnh)
              fuel c ls Hg) as [_ Hrouted]; [|done|].
  - intros m ni Hni _ _.
    destruct (decide (net_wires (arch c) m = [])) as [?|Hne]; [by left|].
    right. by apply H0.
  - intros name ni Hni Hcell Hname. by destruct (Hrouted name ni Hni Hcell Hname).
Qed.

(** The two nets of [dev_yield] after the two iterations of [router1]. *)
Lemma X14_witness :
  ∃ ls : LoopState,
    router1_try 10 ctx_yield = Ok (true, ls)
    ∧ net_linked (arch (l_ctx ls)) 1 (Table.net 2 [5])
    ∧ net_linked (arch (l_ctx ls)) 2 (Table.net 1 [4]).
Proof.
  assert (match router1_try 10 ctx_yield with
          | Ok (true, ls) => true
          | _ => false
          end = true) as Hcheck by (by vm_compute).
  destruct (router1_try 10 ctx_yield) as [[[|] ls]|e] eqn:Ht; [|discriminate Hcheck..].
  pose proof (X14_router1_trees (dev := Table.arch dev_yield) (table_wires dev_yield)
                (table_good dev_yield) 10 ctx_yield ls yield_finite
                (table_contract dev_yield) (table_names_holder dev_yield)
                (table_entries dev_yield) (table_sorted_shuffle dev_yield)
                (table_good_empty dev_yield)) as Hrouted.
  assert (∀ name ni, nets ctx_yield !! name = Some ni →
            net_wires (arch ctx_yield) name ≠ [] → net_linked (arch ctx_yield) name ni) as H0.
  { intros name ni _ Hne. destruct Hne. apply table_no_wires. }
  exists ls.
  exact (conj eq_refl
           (conj (Hrouted H0 Ht 1 (Table.net 2 [5]) eq_refl ltac:(discriminate)
                    ltac:(discriminate))
                 (Hrouted H0 Ht 2 (Table.net 1 [4]) eq_refl ltac:(discriminate)
                    ltac:(discriminate)))).
Defined.

(** ** The nets that the constructor leaves alone *)

Lemma Router_net_others {dev : Arch} (W : list WireId) (good : archstate → Prop)
    (fuel : nat) (c c' : Context) (sc sc' : RipupScoreboard) (name : IdString)
    (rip : bool) (penalty : delay_t) (r : Router) :
  finite_device W → proxy_contract good → names_holder good → entries_contract good →
  good (arch c) → 0 ≤ penalty → scores_le scores_empty sc →
  Router_net fuel c sc name rip penalty = Ok (r, c', sc') →
  good (arch c')
  ∧ (∀ m x, m ≠ name → bound (arch c') m x → bound (arch c) m x)
  ∧ ∀ m, m ≠ IdString_empty → m ≠ name → (m ∉ rippedNets r) →
      (∀ x, bound (arch c) m x → bound (arch c') m x)
      ∧ (∀ x p, entry (arch c) m x p → entry (arch c') m x p).
Proof.
  intros HW Hpc Hnh Hec Hg Hpen Hsc Hr.
  destruct (Router_net_frame good Hpc Hnh W HW _ _ _ _ _ _ _ _ _ Hg Hpen Hsc Hr)
    as (Hg' & _ & Hkeep).
  destruct (kept_Router_net good Hpc Hec _ _ _ _ _ _ _ _ _ Hg Hr) as [_ Hk].
  split_and!; [done | |].
  - intros m x Hne. by apply (Hk m Hne).
  - intros m Hm Hne Hrp. destruct (Hk m Hne) as [_ Hsame]. split.
    + intros x. by apply Hkeep.
    + intros x p He. apply Hsame; [done|]. apply Hkeep; [done..|].
      apply (bound_entry (arch c) m x). eauto.
Qed.

(** X15.  With a proxy that keeps its contract and names the net that holds
    a wire, on a finite device: when the constructor returns, no other net
    has a wire that it did not have, and [rippedNets] names every net that
    the constructor has taken a wire from.  A net other than the net of the
    constructor that is not in [rippedNets] has the wires it had, each with
    the pip it had. *)
Theorem X15_unripped_nets_kept {dev : Arch} (W : list WireId) (good : archstate → Prop)
    (fuel : nat) (c c' : Context) (sc sc' : RipupScoreboard) (name : IdString)
    (rip : bool) (penalty : delay_t) (r : Router) :
  finite_device W → proxy_contract good → names_holder good → entries_contract good →
  good (arch c) → 0 ≤ penalty → scores_le scores_empty sc →
  Router_net fuel c sc name rip penalty = Ok (r, c', sc') →
  (∀ m x, m ≠ name → bound (arch c') m x → bound (arch c) m x)
  ∧ ∀ m, m ≠ IdString_empty → m ≠ name → (m ∉ rippedNets r) →
      (∀ x, bound (arch c) m x → bound (arch c') m x)
      ∧ (∀ x p, entry (arch c) m x p → entry (arch c') m x p).
Proof.
  intros HW Hpc Hnh Hec Hg Hpen Hsc Hr.
  by destruct (Router_net_others W good fuel c c' sc sc' name rip penalty r HW Hpc Hnh Hec
                 Hg Hpen Hsc Hr).
Qed.

Lemma yield_second_good : table_good dev_yield (arch ctx_yield_second).
Proof.
  unfold ctx_yield_second.
  destruct (Router_net 5 ctx_yield_first scores_empty 2 true 10) as [[[r c'] sc']|e] eqn:Hr;
    [|apply yield_first_good].
  by destruct (Router_net_others (dev := Table.arch dev_yield) (table_wires dev_yield)
                 (table_good dev_yield) 5 ctx_yield_first c' scores_empty sc' 2 true 10 r
                 yield_finite (table_contract dev_yield) (table_names_holder dev_yield)
                 (table_entries dev_yield) yield_first_good ltac:(lia)
                 (scores_le_refl scores_empty) Hr).
Qed.

(** Net 1 of [dev_yield], routed with rip-up once net 2 holds wire 3, goes
    through wire 6 and leaves net 2 its wires 1, 3 and 4. *)
Lemma X15_witness :
  ∃ (r : Router) (c' : Context) (sc' : RipupScoreboard),
    Router_net 5 ctx_yield_second scores_empty 1 true 10 = Ok (r, c', sc')
    ∧ rippedNets r = ∅
    ∧ bound (arch ctx_yield_second) 2 3
    ∧ (∀ x, bound (arch c') 2 x ↔ bound (arch ctx_yield_second) 2 x)
    ∧ (∀ x p, entry (arch ctx_yield_second) 2 x p → entry (arch c') 2 x p).
Proof.
  assert (match Router_net 5 ctx_yield_second scores_empty 1 true 10 with
          | Ok (r, _, _) => bool_decide (elements (rippedNets r) = [])
          | Err _ => false
          end = true) as Hcheck by (by vm_compute).
  assert (bool_decide (3 ∈ (net_wires (arch ctx_yield_second) 2).*1) = true) as Hthree
    by (by vm_compute).
  apply bool_decide_eq_true in Hthree.
  destruct (Router_net 5 ctx_yield_second scores_empty 1 true 10) as [[[r c'] sc']|e] eqn:Hr;
    [|discriminate Hcheck].
  apply bool_decide_eq_true, elements_empty_inv, leibniz_equiv in Hcheck.
  assert (2 ∉ rippedNets r) as Hout by (rewrite Hcheck; apply not_elem_of_empty).
  destruct (X15_unripped_nets_kept (dev := Table.arch dev_yield) (table_wires dev_yield)
              (table_good dev_yield) 5 ctx_yield_second c' scores_empty sc' 1 true 10 r
              yield_finite (table_contract dev_yield) (table_names_holder dev_yield)
              (table_entries dev_yield) yield_second_good ltac:(lia)
              (scores_le_refl scores_empty) Hr) as [Hback Hkeep].
  destruct (Hkeep 2 ltac:(discriminate) ltac:(discriminate) Hout) as [Hfwd Hents].
  exists r, c', sc'.
  exact (conj eq_refl (conj Hcheck (conj Hthree
           (conj (λ x, conj (Hback 2 x ltac:(discriminate)) (Hfwd x)) Hents)))).
Defined.

(** ** Running [router1] again *)

Lemma net_routed_wires {dev : Arch} (a : archstate) (name : IdString) (ni : NetInfo) :
  net_routed a name ni → net_wires a name ≠ [].
Proof.
  intros [(w & _ & Hb) _] Hnil. unfold bound in Hb. rewrite Hnil in Hb.
  by apply elem_of_nil in Hb.
Qed.

(** X16.  With a proxy that keeps its contract and names the net that holds
    a wire, on a finite device, from bindings in which every net that has
    wires is routed, and with no net of the empty name: once [router1] has
    returned true, a second call on the context it leaves finds no net to
    route, returns true, and changes nothing. *)
Theorem X16_router1_again {dev : Arch} (W : list WireId) (good : archstate → Prop)
    (fuel fuel' : nat) (c : Context) (ls : LoopState) :
  finite_device W → proxy_contract good → names_holder good →
  (∀ g l, (sorted_shuffle g l).1 ≡ₚ l) →
  good (arch c) →
  nets c !! IdString_empty = None →
  (∀ name ni, nets c !! name = Some ni → net_wires (arch c) name ≠ [] →
     net_routed (arch c) name ni) →
  router1_try fuel c = Ok (true, ls) →
  unrouted_nets (l_ctx ls) = ∅
  ∧ router1_try fuel' (l_ctx ls) = Ok (true, router1_start (l_ctx ls))
  ∧ router1 fuel' (l_ctx ls) = Ok true
  ∧ l_ctx (router1_start (l_ctx ls)) = l_ctx ls.
Proof.
  intros HW Hpc Hnh Hperm Hg Hname H0 Ht.
  destruct (router1_try_routed good Hpc Hnh W HW Hperm net_routed
              (net_routed_made good Hpc W HW) (net_routed_frame good Hpc Hnh W HW)
              fuel c ls Hg) as [Hns Hrouted]; [|done|].
  { intros m ni Hni _ _.
    destruct (decide (net_wires (arch c) m = [])) as [?|Hne]; [by left|].
    right. by apply H0. }
  assert (unrouted_nets (l_ctx ls) = ∅) as Hall.
  { apply unrouted_nets_empty. intros name ni Hni. rewrite Hns in Hni.
    destruct (cell (driver ni)) as [ci|] eqn:Hcell; [|by left]. right.
    assert (name ≠ IdString_empty) as Hne by (intros ->; congruence).
    destruct (Hrouted name ni Hni) as [[]|Hrt]; [by rewrite Hcell | done |].
    by apply (net_routed_wires _ _ ni). }
  unfold router1, router1_try. simpl. rewrite Hall.
  by rewrite bool_decide_eq_true_2.
Qed.

Lemma X16_witness :
  ∃ ls : LoopState,
    router1_try 10 ctx_yield = Ok (true, ls)
    ∧ iterCnt ls = 2
    ∧ router1_try 10 (l_ctx ls) = Ok (true, router1_start (l_ctx ls))
    ∧ router1 10 (l_ctx ls) = Ok true.
Proof.
  assert (match router1_try 10 ctx_yield with
          | Ok (true, ls) => iterCnt ls =? 2
          | _ => false
          end = true) as Hcheck by (by vm_compute).
  destruct (router1_try 10 ctx_yield) as [[[|] ls]|e] eqn:Ht; [|discriminate Hcheck..].
  apply Z.eqb_eq in Hcheck.
  destruct (X16_router1_again (dev := Table.arch dev_yield) (table_wires dev_yield)
              (table_good dev_yield) 10 10 ctx_yield ls yield_finite
              (table_contract dev_yield) (table_names_holder dev_yield)
              (table_sorted_shuffle dev_yield) (table_good_empty dev_yield) eq_refl)
    as (_ & Hagain & Hr & _); [|exact Ht|].
  - intros name ni _ Hne. destruct Hne. apply table_no_wires.
  - exists ls. exact (conj eq_refl (conj Hcheck (conj Hagain Hr))).
Defined.

(** ** The least delays *)

Lemma lower_refl (v : gmap Z QueuedWire) : lower v v.
Proof. intros w e He. exists e. split; [done|lia]. Qed.

Lemma lower_trans (v1 v2 v3 : gmap Z QueuedWire) : lower v1 v2 → lower v2 v3 → lower v1 v3.
Proof.
  intros H1 H2 w e He. destruct (H1 w e He) as (e2 & He2 & Hle2).
  destruct (H2 w e2 He2) as (e3 & He3 & Hle3). exists e3. split; [done|lia].
Qed.

Section LeastProofs.
Context {dev : Arch}.
Variable cfg : RouterCfg.
Variable a : archstate.
Variable dst : WireId.
Hypothesis Heps : 0 ≤ getDelayEpsilon.

Lemma pip_cost_delay (qw qw' : QueuedWire) (p : PipId) :
  delay qw = delay qw' → pip_cost cfg a qw p = pip_cost cfg a qw' p.
Proof. unfold pip_cost. by intros ->. Qed.

(** The cost of a pip moves with the delay it is computed from. *)
Lemma pip_cost_shift (qw qw' : QueuedWire) (p : PipId) (c : delay_t) (c' : option delay_t) :
  pip_cost cfg a qw p = Ok (Some c) → pip_cost cfg a qw' p = Ok c' →
  c' = Some (c - delay qw + delay qw').
Proof.
  rewrite !pip_cost_spec. unfold spec_cost. cbv zeta.
  destruct (_ || _); [discriminate|].
  destruct (0 <=? _); [|discriminate]. intros [= <-].
  destruct (0 <=? _); [|discriminate]. intros [= <-]. f_equal. lia.
Qed.

Lemma relaxed_lower (v v' : gmap Z QueuedWire) (d : delay_t) (p : PipId) :
  lower v v' → relaxed cfg a v d p → relaxed cfg a v' d p.
Proof.
  intros Hlow (c & Hc & Hrel). exists c. split; [done|]. intros nd Hnd.
  destruct (Hrel nd Hnd) as (ev & Hev & Hle). destruct (Hlow _ _ Hev) as (ev' & Hev' & Hle').
  exists ev'. split; [done|lia].
Qed.

Lemma examine_pip_least (u0 : WireId) (d0 : delay_t) (qw qw' : QueuedWire)
    (st st' : SearchState) (p : PipId) :
  wire qw = u0 → delay qw = d0 →
  least_inv cfg a (Some (u0, d0)) st →
  examine_pip cfg a dst (qw, st) p = Ok (qw', st') →
  wire qw' = u0 ∧ delay qw' = d0
  ∧ least_inv cfg a (Some (u0, d0)) st'
  ∧ lower (s_visited st) (s_visited st')
  ∧ relaxed cfg a (s_visited st') d0 p.
Proof.
  intros Hu0 Hd0 Hinv He. unfold examine_pip in He.
  apply bind_Ok in He as (c & Hc & He).
  rewrite (pip_cost_delay qw (at_delay d0) p Hd0) in Hc.
  destruct c as [d|].
  - set (st1 := mkSearch _ _ _ _ _ _ _) in He. injection He as He.
    pose proof (relax_cases dst qw st1 p d) as Hcases. cbv zeta in Hcases.
    pose proof (relax_improves dst qw st1 p d) as Himp.
    rewrite He in Hcases, Himp. simpl in Hcases, Himp.
    destruct Hcases as (_ & _ & Hcases).
    destruct Hcases as [[[= -> ->] (old & Hold & Hle)]|(Hq & Hv & _ & Hqw & _)].
    + simpl. split_and!; [done | done | done | apply lower_refl |].
      exists (Some d). split; [done|]. intros nd [= <-]. eauto.
    + subst qw'. simpl.
      assert (lower (s_visited st) (s_visited st')) as Hlow.
      { intros w e Hw. rewrite Hv. simpl.
        destruct (decide (getPipDstWire p = w)) as [<-|Hne].
        - rewrite lookup_insert_eq. eexists. split; [done|]. simpl.
          assert (d + getDelayEpsilon < delay e); [|lia].
          apply Himp; [done|]. intros [= Hqq Hss]. rewrite Hss in Hq. simpl in Hq.
          symmetry in Hq. by apply cons_neq in Hq.
        - rewrite lookup_insert_ne by done. exists e. split; [done|lia]. }
      split_and!; [done | done | | done |].
      * intros u eu. rewrite Hv, Hq. simpl.
        destruct (decide (getPipDstWire p = u)) as [<-|Hne].
        -- rewrite lookup_insert_eq. intros [= <-]. left.
           exists (entered dst p d). split; [apply elem_of_cons; by left | done].
        -- rewrite lookup_insert_ne by done. intros Heu.
           destruct (Hinv u eu Heu) as [(x & Hx & Hxu & Hxd)|[Hset|Hpop]].
           ++ left. exists x. split; [apply elem_of_cons; by right | done].
           ++ right. left. intros q Hq'. apply (relaxed_lower (s_visited st)); [|by apply Hset].
              by rewrite Hv in Hlow.
           ++ by right; right.
      * exists (Some d). split; [done|]. intros nd [= <-]. rewrite Hv. simpl.
        rewrite lookup_insert_eq. eexists. split; [done|]. simpl. lia.
  - injection He as <- <-. simpl. split_and!; [done | done | done | apply lower_refl |].
    exists None. split; [done|]. by intros nd.
Qed.

Lemma examine_pips_least (u0 : WireId) (d0 : delay_t) (ps : list PipId) :
  ∀ (qw qw' : QueuedWire) (st st' : SearchState),
    wire qw = u0 → delay qw = d0 →
    least_inv cfg a (Some (u0, d0)) st →
    foldM (examine_pip cfg a dst) (qw, st) ps = Ok (qw', st') →
    least_inv cfg a (Some (u0, d0)) st'
    ∧ lower (s_visited st) (s_visited st')
    ∧ ∀ p, p ∈ ps → relaxed cfg a (s_visited st') d0 p.
Proof.
  induction ps as [|p ps IH]; intros qw qw' st st' Hu0 Hd0 Hinv Hf.
  - injection Hf as <- <-. split_and!; [done | apply lower_refl |]. by intros p Hp%elem_of_nil.
  - rewrite foldM_cons in Hf. apply bind_Ok in Hf as ([qw1 st1] & He & Hf).
    destruct (examine_pip_least u0 d0 qw qw1 st st1 p Hu0 Hd0 Hinv He)
      as (Hu1 & Hd1 & Hinv1 & Hlow1 & Hrel1).
    destruct (IH qw1 qw' st1 st' Hu1 Hd1 Hinv1 Hf) as (Hinv' & Hlow' & Hrel').
    split_and!; [done | by eapply lower_trans |].
    intros q [->|Hq]%elem_of_cons; [by apply (relaxed_lower (s_visited st1)) | by apply Hrel'].
Qed.

Lemma route_step_least (st st' : SearchState) :
  least_inv cfg a None st → route_step cfg a dst st = Ok st' →
  least_inv cfg a None st' ∧ lower (s_visited st) (s_visited st').
Proof.
  intros Hinv Hs. unfold route_step in Hs.
  destruct (pq_pop (queue st)) as [[qw q']|] eqn:Hpop;
    [|injection Hs as <-; split; [done | apply lower_refl]].
  apply bind_Ok in Hs as ([qw' st1] & Hf & [= <-]). simpl.
  apply (examine_pips_least (wire qw) (delay qw)) in Hf as (Hinv1 & Hlow & Hrel);
    [|done..|].
  - split; [|done]. intros u eu Heu.
    destruct (Hinv1 u eu Heu) as [Hx|[Hset|[= Hu Hd]]]; [by left | by right; left |].
    right. left. intros p Hp. rewrite <- Hu in Hp. rewrite <- Hd. by apply Hrel.
  - intros u eu Heu. simpl in Heu.
    destruct (Hinv u eu Heu) as [(x & Hx & Hxu & Hxd)|[Hset|?]]; [| by right; left | done].
    destruct (pq_pop_rest _ _ _ Hpop x Hx) as [->|Hin].
    + right. right. by rewrite Hxu, Hxd.
    + left. by exists x.
Qed.

Lemma route_loop_least (fuel : nat) :
  ∀ st st', least_inv cfg a None st → route_loop cfg a dst fuel st = Ok st' →
    least_inv cfg a None st' ∧ lower (s_visited st) (s_visited st').
Proof.
  induction fuel as [|fuel IH]; intros st st' Hinv Hl; simpl in Hl;
    destruct (search_continues st); try discriminate;
    try (injection Hl as <-; split; [done | apply lower_refl]).
  apply bind_Ok in Hl as (st1 & Hs & Hl).
  destruct (route_step_least _ _ Hinv Hs) as [Hinv1 Hlow1].
  destruct (IH _ _ Hinv1 Hl) as [Hinv' Hlow']. split; [done|]. by eapply lower_trans.
Qed.

Lemma push_sources_least (l : list (Z * Z)) :
  ∀ st, NoDup l.*1 →
    (∀ u eu, s_visited st !! u = Some eu →
       ∃ x, x ∈ queue st ∧ wire x = u ∧ delay x = delay eu) →
    let st' := fold_left (push_source dst) l st in
    (∀ u eu, s_visited st' !! u = Some eu →
       ∃ x, x ∈ queue st' ∧ wire x = u ∧ delay x = delay eu)
    ∧ (∀ w d, (w, d) ∈ l → ∃ e, s_visited st' !! w = Some e ∧ delay e = d)
    ∧ (∀ w, (w ∉ l.*1) → s_visited st' !! w = s_visited st !! w).
Proof.
  induction l as [|[w d] l IH]; intros st Hnd Hst; simpl.
  - split_and!; [done | by intros w d Hin%elem_of_nil | done].
  - rewrite fmap_cons in Hnd. apply NoDup_cons in Hnd as [Hw Hnd]. simpl in Hw.
    set (st1 := push_source dst st (w, d)).
    assert (queue st1 = mkQueuedWire w PipId_none d (estimateDelay w dst) (rng (s_rng st)).1
                        :: queue st
            ∧ s_visited st1
              = <[w := mkQueuedWire w PipId_none d (estimateDelay w dst) (rng (s_rng st)).1]>
                  (s_visited st)) as [Hq1 Hv1].
    { unfold st1, push_source. by destruct (rng (s_rng st)). }
    destruct (IH st1 Hnd) as (Hwit & Hin & Hout).
    { intros u eu. rewrite Hv1, Hq1. destruct (decide (w = u)) as [<-|Hne].
      - rewrite lookup_insert_eq. intros [= <-]. eexists. split; [apply elem_of_cons; by left|].
        done.
      - rewrite lookup_insert_ne by done. intros Heu.
        destruct (Hst u eu Heu) as (x & Hx & Hxu). exists x.
        split; [apply elem_of_cons; by right | done]. }
    split_and!; [done | |].
    + intros u du [[= -> ->]|Hu]%elem_of_cons; [|by apply Hin].
      rewrite (Hout w Hw), Hv1, lookup_insert_eq. eexists. by split.
    + intros u Hu. apply not_elem_of_cons in Hu as [Hne Hu].
      rewrite (Hout u Hu), Hv1. by rewrite lookup_insert_ne.
Qed.

Lemma search_init_least (src_wires : gmap Z Z) (g rv ov : Z) :
  least_inv cfg a None (search_init dst src_wires g rv ov)
  ∧ ∀ w d, src_wires !! w = Some d →
      ∃ e, s_visited (search_init dst src_wires g rv ov) !! w = Some e ∧ delay e = d.
Proof.
  unfold search_init.
  destruct (push_sources_least (map_to_list src_wires) (mkSearch [] ∅ g 0 0 rv ov))
    as (Hwit & Hin & _).
  - apply NoDup_fst_map_to_list.
  - intros u eu. simpl. by rewrite lookup_empty.
  - split.
    + intros u eu Heu. left. by apply Hwit.
    + intros w d Hw. by apply Hin, elem_of_map_to_list.
Qed.

(** Once the queue is empty, the visited map holds the end of every walk,
    with the delay of the walk or less, up to epsilon for each pip. *)
Lemma least_walks (src_wires : gmap Z Z) (st : SearchState) :
  least_inv cfg a None st → queue st = [] →
  (∀ w d, src_wires !! w = Some d → ∃ e, s_visited st !! w = Some e ∧ delay e ≤ d) →
  ∀ w d k, walk cfg a src_wires w d k →
    ∃ e, s_visited st !! w = Some e ∧ delay e ≤ d + Z.of_nat k * getDelayEpsilon.
Proof.
  intros Hinv Hq Hsrc w d k Hwalk.
  induction Hwalk as [w d Hw|w d k p c Hwalk (e & He & Hle) Hp Hc].
  - destruct (Hsrc w d Hw) as (e & He & Hle). exists e. split; [done|lia].
  - destruct (Hinv w e He) as [(x & Hx & _)|[Hset|?]]; [|clear Hinv|done].
    { rewrite Hq in Hx. by apply elem_of_nil in Hx. }
    destruct (Hset p Hp) as (c' & Hc' & Hrel).
    apply (pip_cost_shift _ _ _ _ _ Hc) in Hc'. simpl in Hc'.
    destruct (Hrel _ Hc') as (ev & Hev & Hlev). exists ev. split; [done|]. nia.
Qed.

Lemma route_loop_walks (fuel : nat) (src_wires : gmap Z Z) (g rv ov : Z)
    (st : SearchState) :
  route_loop cfg a dst fuel (search_init dst src_wires g rv ov) = Ok st →
  queue st = [] →
  (∀ u eu p c, s_visited st !! u = Some eu → p ∈ getPipsDownhill u →
     pip_cost cfg a eu p = Ok (Some c) →
     ∃ ev, s_visited st !! getPipDstWire p = Some ev ∧ delay ev ≤ c + getDelayEpsilon)
  ∧ ∀ w d k, walk cfg a src_wires w d k →
      ∃ e, s_visited st !! w = Some e ∧ delay e ≤ d + Z.of_nat k * getDelayEpsilon.
Proof.
  intros Hl Hq. destruct (search_init_least src_wires g rv ov) as [Hinv0 Hsrc0].
  destruct (route_loop_least fuel _ _ Hinv0 Hl) as [Hinv Hlow]. split.
  - intros u eu p c Heu Hp Hc.
    destruct (Hinv u eu Heu) as [(x & Hx & _)|[Hset|?]]; [| |done].
    { rewrite Hq in Hx. by apply elem_of_nil in Hx. }
    destruct (Hset p Hp) as (c' & Hc' & Hrel).
    rewrite (pip_cost_delay eu (at_delay (delay eu)) p eq_refl) in Hc.
    rewrite Hc in Hc'. injection Hc' as <-. by apply Hrel.
  - apply least_walks; [done..|]. intros w d Hw.
    destruct (Hsrc0 w d Hw) as (e & He & <-). by apply Hlow.
Qed.

End LeastProofs.

(** X17.  A search that ends with its queue empty, and not at the limit on
    the visits, leaves the least delays up to epsilon: a pip that the search
    does not pass over leads from a wire of the visited map to a wire of the
    map whose delay is at most the cost of arriving over the pip plus
    epsilon, and the end of every walk from a source wire is in the map with
    at most the delay of the walk plus epsilon for each of its pips.  The
    map is the one that [route] leaves in [visited]. *)
Theorem X17_drained_search_least {dev : Arch} (fuel : nat) (cfg : RouterCfg) (a : archstate)
    (g : Z) (r : Router) (src_wires : gmap Z Z) (dst : WireId) (st : SearchState) :
  0 ≤ getDelayEpsilon →
  route_loop cfg a dst fuel
    (search_init dst src_wires g (revisitCnt r) (overtimeRevisitCnt r)) = Ok st →
  queue st = [] →
  (∃ r' g', route fuel cfg a g r src_wires dst = Ok (r', g') ∧ visited r' = s_visited st)
  ∧ (∀ u eu p c, s_visited st !! u = Some eu → p ∈ getPipsDownhill u →
       pip_cost cfg a eu p = Ok (Some c) →
       ∃ ev, s_visited st !! getPipDstWire p = Some ev ∧ delay ev ≤ c + getDelayEpsilon)
  ∧ ∀ w d k, walk cfg a src_wires w d k →
      ∃ e, s_visited st !! w = Some e ∧ delay e ≤ d + Z.of_nat k * getDelayEpsilon.
Proof.
  intros Heps Hl Hq. split.
  - unfold route. rewrite Hl. simpl. eauto.
  - by apply (route_loop_walks cfg a dst Heps fuel src_wires g (revisitCnt r)
                (overtimeRevisitCnt r) st).
Qed.

(** On [dev_yield], from wire 2: the walk over wire 3 to wire 5 has the
    delay 2, the one over wire 6 the delay 10. *)
Lemma X17_witness :
  ∃ (st : SearchState) (e : QueuedWire),
    route_loop (dev := Table.arch dev_yield) cfg_plain Table.no_bindings 5 10
      (search_init (dev := Table.arch dev_yield) 5 {[2 := 0]} 42 0 0) = Ok st
    ∧ queue st = []
    ∧ walk (dev := Table.arch dev_yield) cfg_plain Table.no_bindings {[2 := 0]} 5 2 2
    ∧ s_visited st !! 5 = Some e ∧ delay e ≤ 2.
Proof.
  assert (match route_loop (dev := Table.arch dev_yield) cfg_plain Table.no_bindings 5 10
                  (search_init (dev := Table.arch dev_yield) 5 {[2 := 0]} 42 0 0) with
          | Ok st => bool_decide (queue st = [])
          | Err _ => false
          end = true) as Hcheck by (by vm_compute).
  destruct (route_loop (dev := Table.arch dev_yield) cfg_plain Table.no_bindings 5 10
              (search_init (dev := Table.arch dev_yield) 5 {[2 := 0]} 42 0 0)) as [st|err] eqn:Hl; [|discriminate Hcheck].
  apply bool_decide_eq_true in Hcheck.
  assert (walk (dev := Table.arch dev_yield) cfg_plain Table.no_bindings {[2 := 0]} 5 2 2)
    as Hwalk.
  { assert (bool_decide (2 ∈ getPipsDownhill (Arch := Table.arch dev_yield) 2) = true)
      as Hfirst by (by vm_compute).
    assert (bool_decide (3 ∈ getPipsDownhill (Arch := Table.arch dev_yield) 3) = true)
      as Hnext by (by vm_compute).
    apply bool_decide_eq_true in Hfirst, Hnext.
    apply (walk_pip (dev := Table.arch dev_yield) _ _ _ 3 1 1 3 2); [|exact Hnext|done].
    apply (walk_pip (dev := Table.arch dev_yield) _ _ _ 2 0 0 2 1); [|exact Hfirst|done].
    by apply walk_source. }
  destruct (X17_drained_search_least (dev := Table.arch dev_yield) 10 cfg_plain
              Table.no_bindings 42 Router_init {[2 := 0]} 5 st ltac:(simpl; lia) Hl Hcheck)
    as (_ & _ & Hwalks).
  destruct (Hwalks 5 2 2%nat Hwalk) as (e & He & Hle).
  exists st, e. exact (conj eq_refl (conj Hcheck (conj Hwalk (conj He Hle)))).
Defined.
